(* ===== verification/_CoqProject ===== *)
-Q . S2P
Prelude.v
Defs.v
Util.v
IntervalTree.v
IntervalTreeErase.v
Disasm.v
InterceptDesc.v
Patcher.v
PatchLayout.v
MiniX86.v
PatchPlace.v
PatchedText.v
Patching.v
Trampoline.v
SyscallFormats.v
InterceptLog.v
InterceptLogSpec.v
Intercept.v
InterceptSelect.v
InterceptSpec.v
AsmWrapper.v
AsmWrapperSpec.v
Posix.v
Indexing.v
IoDirect.v
IoDirectSpec.v
IoDirectTotal.v
LinkedList.v
LinkedListSpec.v
LinkedListRefine.v
ThPool.v
ThPoolSpec.v
CacheMm.v
Cache.v
IoBuffered.v
CacheSpec.v
IoBufferedSpec.v
IoBufferedRefine.v
CacheFlush.v
PolyOS.v
Context.v
CacheExit.v
Placement.v
OpeData.v
OpeDataSpec.v
OpeMeta.v
OpeCache.v
CacheSystem.v
Start.v
LifeCycle.v
OpeMetaSpec.v
Shim.v
Hooked.v
