(* ===== verification/Prelude.v ===== *)
(** * Verification of PolyStore

    PolyStore is a user-level file system library ([polylib/src]) with a kernel
    module ([polylib/src/polyos]).  It presents the directory [/mnt/polystore] to
    applications and stores each file as two physical files, one on a fast and one
    on a slow device; an interval tree per file (the Poly-index) records, for each
    piece of 2 MiB, which device holds it and where.  System calls reach the
    library through libsyscall_intercept ([polylib/libs/syscall-intercept]), which
    replaces the system calls in the text of libc by jumps to generated code that calls
    the library's hook; the kernel module hands out
    inodes, their index memory and the task contexts of threads, all shared with
    the library; a timer moves tasks between the devices.

    ** Files

    - [Prelude] machine integers [u32], [s32], [u64], [s64] in [Z] with their
      wrap-around, lists indexed by [Z] ([slice], [overwrite], [ztake]), record
      update [r <| f := v |>], and the tactics [zbool], [zif] and [words].
    - [Defs] [polystore_def.h]: constants, descriptor packing, path prefix test,
      shared address ranges.
    - [Util] [util.c]: paths, path hash, capacity strings, bitmaps.
    - [IntervalTree] [libs/interval-tree]: red-black insertion with its rotations
      and recolouring on a tree and the path to its root (a zipper in place of
      parent pointers), the subtree maxima, and the overlap iterators.
    - [IntervalTreeErase] removal from the tree with its recolouring and the repair
      of the subtree maxima, and the in-order and post-order walks.
    - [Disasm] [disasm_wrapper.c]: what is kept of a decoded instruction; the
      disassembler is the class [Capstone].
    - [InterceptDesc] [intercept_desc.c]: jump targets, padding and system calls of a
      text, and the place of the table of jumps; the memory map is the class [Process].
    - [Patcher] [patcher.c]: which bytes a patch overwrites, wrappers and activation.
    - [PatchLayout] the instructions of a text and what the crawl finds in it;
      [MiniX86] a disassembler for examples; [PatchPlace] the bytes the patches take;
      [PatchedText] the code written, and where its jumps lead; [Patching] one text
      patched; [Trampoline] the table of jumps.
    - [SyscallFormats] [syscall_formats.c] and the error names of [intercept_util.c];
      [InterceptLog] [intercept_log.c]: the text of the log; [InterceptLogSpec] its
      bounds and what it determines.
    - [Intercept] [intercept.c], [cmdline_filter.c], [magic_syscalls.c]: selection of
      objects, the constructor, and the routine for each system call; the kernel is the
      class [Kernel].  [InterceptSelect] which processes and objects are selected;
      [InterceptSpec] a process patched.
    - [AsmWrapper] [intercept_wrapper.S], [intercept_template.S] on a machine with
      registers and memory; [AsmWrapperSpec] what they preserve.
    - [Posix] the system calls on the physical files: classes of operations
      ([PosixFS], [PosixNS]), their documented behaviour ([PosixFSLaws],
      [ReliableFS]), and an in-memory implementation [MemFS] for examples.
    - [Indexing] [polystore.h], [indexing.c]: inodes, Poly-files, index entries;
      the index region of an inode is a map from 256-byte slots to entries, with
      the number of slots the build gives it ([i_index_slots]).
    - [IoDirect] [io_direct.c]: the read, write and append loops.
    - [IoDirectSpec] the refinement of these loops to a byte array.
    - [IoDirectTotal] their termination and memory safety on any answers of the
      file systems.
    - [LinkedList] [list.h] on a heap of nodes; [LinkedListSpec] the shape of the
      circular lists; [LinkedListRefine] their refinement to finite lists.
    - [ThPool] [thpool.c]: the linked job queue, and threads, waiter and semaphore
      as a transition system whose steps are the critical sections; [ThPoolSpec]
      its invariants and progress.
    - [CacheMm] [cache_mm.c]: the class [CacheAlloc] of buffer allocators with its
      laws, and the shared-memory allocator [Shm] as an instance.
    - [Cache] [cache.c]: admission, eviction, the LRU list, flushing by dispatch and
      workers, drop, free and fsync.
    - [IoBuffered] [io_buffered.c]: the iterators that read and write through the
      buffers.
    - [CacheSpec] the relation [cached] between index, buffers, physical files and
      the bytes of a file; [IoBufferedSpec] and [IoBufferedRefine] the refinement of
      buffered I/O; [CacheFlush] flushing, over all files of the process.
    - [PolyOS] [polyos/inode.c], [taskctx.c], [operation.c], [polyos.c]: the
      kernel module's tables and ioctl handlers.
    - [Context] [context.c], [placement.c]: the library's tables, task contexts
      and the two placement timers.
    - [CacheExit] freeing the buffers of a file, and [poly_cache_exit].
    - [Placement] the scheduler as a transition relation and its invariant.
    - [OpeData] [opedata.c]: the data operations on descriptors; [world] is the
      state of the whole system.
    - [OpeDataSpec] the refinement of sequences of data operations.
    - [OpeMeta] [opemetadata.c]: open, close, rename, unlink, stat and the rest.
    - [OpeCache] the operations of [opedata.c] and [opemetadata.c] that differ in
      the builds with the Poly cache.
    - [CacheSystem] many descriptors and files, with data operations and rounds of
      flushing in any order.
    - [Start] [polystore.c], [poly_cache_initialize] and the load and unload
      functions of [polyos/polyos.c].
    - [LifeCycle] the life of an inode over all calls.
    - [OpeMetaSpec] what open returns, and opens that go wrong.
    - [Shim] [shim.c]: the system call hook on decoded calls.
    - [Hooked] the hook as the interception routine calls it, with registers and
      memory, and the properties an application sees.

    ** How the code is represented

    A C function is a function on an explicit state that returns the C return
    value and the new state; [None] is an invalid memory access (a NULL or
    unmapped pointer, an entry outside the index region, a read past a string) or
    exhausted fuel.  Calls of the
    kernel, of libc and of the file systems are parameters: the file systems are
    the classes of [Posix], the outcome of the other services of one call is a
    record with a field for each service the code checks on its own ([kenv] for the
    kernel, [cenv] for the VMAs of a client, [uenv] for the allocations and locks of
    the process), so that a theorem for all environments covers every combination of
    failures.  A task context is reached through the page mapped for it
    ([task_at]).  A pointer
    to an inode or task context is its number, a pointer to an index entry its
    slot.  Locks are not represented: a call is atomic, and the theorems about
    histories are about all orders of calls.

    The structure [world] holds the file systems, the kernel module's state with
    the memory it shares with the library, the library's tables, and the task
    context of the calling thread.  [OpeData], [OpeMeta], [LifeCycle] and [Shim] are
    the build without the optional Poly cache; [OpeCache] and [CacheSystem] the build
    with it, whose state adds [poly_cache]: the memory of the buffers, the LRU list
    and the flushing queues.  The build flags for large indexes and for the file copy
    experiment are parameters, and so are the two flags of [Start].  Intrusive lists
    are linked heaps in [LinkedList] and [ThPool] and finite lists elsewhere, which
    [lists_refine] justifies.

    ** What is shown

    - The index: insertion keeps the tree sorted, balanced and correctly
      augmented, and the iterators return what a scan of the sorted list returns
      ([IntervalTree]); so does removal ([IntervalTreeErase]).
    - The data path: reads, writes and appends act on the bytes of a file like
      on an array, whichever devices hold the pieces ([IoDirectSpec]); this lifts
      to sequences of calls on a descriptor ([OpeDataSpec]), of system calls ([Shim]),
      and of calls as the interception routine receives them ([Hooked]).  The
      envelope [op_ok] of these theorems is what the code supports: writes that leave
      no hole, do not end one byte into a fresh piece and fit the index region; the
      physical file systems serve their requests.  The theorems
      [single_byte_tail_lost], [hole_write_misplaced],
      [ftruncate_shrink_keeps_size] show what happens outside.
    - Termination and memory safety of the I/O loops for arbitrary answers of the
      file systems, while the index region has room ([IoDirectTotal]); enlarging a
      file terminates ([OpeDataSpec]).
    - The Poly cache: buffered reads and writes act on the bytes of a file like on
      an array, wherever these are ([IoBufferedRefine]); flushing keeps every file,
      and exit stores it ([CacheFlush], [CacheExit]); together, operations on many
      descriptors interleaved with flushing refine files with offsets
      ([CacheSystem]), within the envelope [steps_ok], which also excludes reads
      over the end of a partly filled piece and a full cache memory.  Pieces of a
      dropped file whose inode was freed are outside of this
      ([drop_leaves_dangling_entries]).  The allocator hands out disjoint buffers as
      long as the CPU has free ones ([CacheMm]).
    - The thread pool: jobs run once and in order, the pool drains, and
      [thpool_wait] returns only when all work is done ([ThPoolSpec]).
    - The kernel module: its inode table and its task table stay consistent under
      every request it can serve ([PolyOS]); a rename onto a name in use is not one
      ([rename_over_existing_breaks_table]).
    - Start-up: when the services succeed the library is connected to the module and
      its exit takes everything back; when they fail it is either connected or holds
      neither device nor task ([Start]).
    - The life of inodes: no open descriptor refers to a freed inode, reference
      counts are exact, the last close of an unlinked file frees it, in histories
      without renames onto registered names and closes that fail to remove their
      descriptor ([LifeCycle]); the first open of a path gives an empty file, and
      [fstat] reports what was written since ([OpeMetaSpec]).
    - Placement: the number of tasks on the fast device is counted exactly and
      never exceeds the split point, and the timers find and sample every task
      ([Placement]).
    - The shim handles the calls on PolyStore's paths and descriptors, and
      nothing else ([Shim]); all others reach the kernel unchanged ([Hooked]).
    - The interception: all system calls of a text that is swept without gaps are
      found, with all jump targets known from the file ([find_syscalls_complete]);
      patches take no byte twice and no target of a jump ([patches_safe], with the
      case it excludes in [lea_between_syscalls_overlap]); the table of jumps is free memory within reach
      ([trampoline_table_placed]); after the constructor every system call leads to
      its wrapper and nothing else changed ([intercept_correct]); the assembly code
      hands the registers over and gives them back ([asm_template_transparent]); a
      line of the log fits its buffer ([log_line_fits]).

    ** Fuel

    [read_nodes] and [write_nodes] take one unit of fuel per node of the tree,
    [write_new_nodes] one per piece of the range, [enlarge_loop] one per page,
    [map_pages] and [unmap_pages] one per page of a region.  [io_direct_total],
    [ftruncate_enlarges] and [client_exit_undoes_init] show that this is enough.
    The loops of buffered I/O and [traverse], which visits the pieces of a range for
    drop, free and fsync, have the same bounds; the refinement theorems of the cache
    state that they return.  [for_each] and [for_each_safe] take one unit per node
    of a list, [clear_loop] one per job of the queue.  The tree functions recurse on
    the tree or on the path and need none.  [crawl_loop] takes one unit per byte of
    text, [template_loop] one for the way back from [clone], [print_digits] one per
    digit of its buffer and [escape_loop] one per character of the text;
    [find_syscalls_complete], [asm_template_transparent], [print_number_value] and
    [xprint_escape_correct] show that this is enough.

    ** Not modelled

    - The page-granular cache ([_HETERO_CACHE_PG]), which names an undeclared
      variable, the disabled hot list, and the dispatch call that
      [POLYSTORE_POLYCACHE_SENSITIVITY] adds to a write.
    - Concurrency inside a call and between a flushing worker and a data operation:
      a call or a round of flushing is atomic, as the locks of the code intend.
      Only the thread pool is modelled at the level of its critical sections, with one
      waiter at a time, where a thread tests that the pool is kept alive and counts
      itself as working in one step, and without pausing by signals, failed
      allocations and the waiting loops of start and destruction.
    - The [hlist] part of [list.h], the tree variants without augmentation and
      [rb_replace_node], which nothing uses.
    - The directory streams and thread wrappers of the shim, which pass calls on; the
      statistics file and diagnostics, which only print; the page table walk of
      [polyos/mm.c], whose outcome is part of [kenv].
    - In the interception library: the disassembler, the bytes of ELF files (their
      parsed tables are parameters), what the assembler makes of the template, the
      protection of pages, the header of the log, aborts and debug output.
    - The macros of uthash: its tables are association lists here.
    - The tools, benchmarks, vendored applications and experiments. *)

From Stdlib Require Export ZArith Lia Sorted Init.Byte.
From stdpp Require Export base numbers gmap fin_maps option list.
Export stdpp.list_basics.list stdpp.list_relations.list stdpp.list_monad.list
  stdpp.list_misc.list stdpp.list_tactics.list stdpp.list_numbers.list.

#[global] Open Scope Z_scope.
#[global] Coercion Z.of_nat : nat >-> Z.

(** ** Machine integers

    C integers are modelled in [Z].  The two functions below are the
    conversions to the unsigned and signed 64-bit and 32-bit types of the
    LP64 platform the library is built for. *)

Definition u64 (x : Z) : Z := x mod 2 ^ 64.
Definition u32 (x : Z) : Z := x mod 2 ^ 32.
Definition s64 (x : Z) : Z := (x + 2 ^ 63) mod 2 ^ 64 - 2 ^ 63.
Definition s32 (x : Z) : Z := (x + 2 ^ 31) mod 2 ^ 32 - 2 ^ 31.

Create HintDb polystore.

Lemma u64_id x : 0 <= x < 2 ^ 64 -> u64 x = x.
Proof. apply Z.mod_small. Qed.

Lemma u32_id x : 0 <= x < 2 ^ 32 -> u32 x = x.
Proof. apply Z.mod_small. Qed.

Lemma s64_id x : - 2 ^ 63 <= x < 2 ^ 63 -> s64 x = x.
Proof. intros H. unfold s64. rewrite Z.mod_small; lia. Qed.

Lemma s32_id x : - 2 ^ 31 <= x < 2 ^ 31 -> s32 x = x.
Proof. intros H. unfold s32. rewrite Z.mod_small; lia. Qed.

(** Converting to a signed type and back. *)
Lemma u32_s32 x : u32 (s32 x) = u32 x.
Proof.
  unfold u32, s32. rewrite Zminus_mod_idemp_l. f_equal. lia.
Qed.

Lemma u64_s64 x : u64 (s64 x) = u64 x.
Proof.
  unfold u64, s64. rewrite Zminus_mod_idemp_l. f_equal. lia.
Qed.

Lemma u64_range x : 0 <= u64 x < 2 ^ 64.
Proof. apply Z.mod_pos_bound. lia. Qed.

Lemma u32_range x : 0 <= u32 x < 2 ^ 32.
Proof. apply Z.mod_pos_bound. lia. Qed.

Lemma s64_range x : - 2 ^ 63 <= s64 x < 2 ^ 63.
Proof.
  unfold s64. pose proof (Z.mod_pos_bound (x + 2 ^ 63) (2 ^ 64)). lia.
Qed.

Lemma s32_range x : - 2 ^ 31 <= s32 x < 2 ^ 31.
Proof.
  unfold s32. pose proof (Z.mod_pos_bound (x + 2 ^ 31) (2 ^ 32)). lia.
Qed.

(** [words] removes every conversion whose argument is in range. *)
Ltac words :=
  repeat first
    [ rewrite u64_id by lia | rewrite s64_id by lia
    | rewrite u32_id by lia | rewrite s32_id by lia ].

(** Turn boolean comparisons of [Z] into linear facts. *)
Ltac zbool :=
  repeat match goal with
  | H : (_ && _)%bool = true |- _ => apply andb_true_iff in H as [? ?]
  | H : (_ || _)%bool = false |- _ => apply orb_false_iff in H as [? ?]
  | H : negb _ = true |- _ => apply negb_true_iff in H
  | H : negb _ = false |- _ => apply negb_false_iff in H
  | H : (_ <? _) = true |- _ => apply Z.ltb_lt in H
  | H : (_ <? _) = false |- _ => apply Z.ltb_ge in H
  | H : (_ <=? _) = true |- _ => apply Z.leb_le in H
  | H : (_ <=? _) = false |- _ => apply Z.leb_gt in H
  | H : (_ =? _) = true |- _ => apply Z.eqb_eq in H
  | H : (_ =? _) = false |- _ => apply Z.eqb_neq in H
  | H : (_ >? _) = true |- _ => rewrite Z.gtb_ltb in H
  | H : (_ >? _) = false |- _ => rewrite Z.gtb_ltb in H
  | H : (_ >=? _) = true |- _ => rewrite Z.geb_leb in H
  | H : (_ >=? _) = false |- _ => rewrite Z.geb_leb in H
  end.

(** Case split on the boolean comparison that guards the goal's [if]. *)
Ltac zif :=
  match goal with
  | |- context [if ?b then _ else _] =>
      lazymatch type of b with
      | bool => let E := fresh "E" in destruct b eqn:E; zbool
      end
  end.

(** ** Record update

    [r <| f := v |>] is [r] with its field [f] set to [v].  A record type
    declares its field-by-field copy as an instance of [Copy]; the update of a
    field is that copy with the one projection replaced. *)

Class Copy (R : Type) := copy : R -> R.

Class Update {R T : Type} (f : R -> T) := update : (T -> T) -> R -> R.
Arguments update {R T} f {_} g r.

Ltac derive_update :=
  lazymatch goal with
  | |- @Update ?R ?T ?f =>
      let i := constr:(_ : Copy R) in
      let c := eval hnf in i in
      lazymatch eval pattern f in c with
      | ?body _ =>
          let u := eval cbv beta in
            (fun (g : T -> T) => body (fun r : R => g (f r))) in
          exact u
      end
  end.

#[global] Hint Extern 1 (Update _) => derive_update : typeclass_instances.

Notation "r <| f := v |>" := (update f (fun _ => v) r)
  (at level 12, left associativity).

(** ** Bit masks *)

Lemma land_ones_mod x n : 0 <= n -> Z.land x (2 ^ n - 1) = x mod 2 ^ n.
Proof.
  intros H. replace (2 ^ n - 1) with (Z.ones n) by (rewrite Z.ones_equiv; lia).
  by apply Z.land_ones.
Qed.

(** Clearing the [n] low bits, as [x & ~(2^n - 1)] does. *)
Lemma land_lnot_ones x n :
  0 <= n -> Z.land x (Z.lnot (2 ^ n - 1)) = x - x mod 2 ^ n.
Proof.
  intros H. rewrite <-Z.ldiff_land.
  replace (2 ^ n - 1) with (Z.ones n) by (rewrite Z.ones_equiv; lia).
  rewrite Z.ldiff_ones_r, Z.shiftl_mul_pow2, Z.shiftr_div_pow2 by done.
  pose proof (Z.div_mod x (2 ^ n)). lia.
Qed.

Lemma land_le_r a b : 0 <= b -> Z.land a b <= b.
Proof.
  intros Hb. assert (b = Z.land a b + Z.ldiff b a) as E.
  { rewrite Z.add_nocarry_lor.
    - apply Z.bits_inj'. intros i Hi. rewrite Z.lor_spec, Z.land_spec, Z.ldiff_spec.
      by destruct (Z.testbit a i), (Z.testbit b i).
    - apply Z.bits_inj'. intros i Hi. rewrite !Z.land_spec, Z.ldiff_spec, Z.bits_0.
      by destruct (Z.testbit a i), (Z.testbit b i). }
  assert (0 <= Z.ldiff b a) by (apply Z.ldiff_nonneg; lia). lia.
Qed.

(** Fields at disjoint bit positions add up. *)
Lemma lor_shifted x y n :
  0 <= n -> 0 <= x < 2 ^ n -> Z.lor x (y * 2 ^ n) = x + y * 2 ^ n.
Proof.
  intros Hn Hx. symmetry. apply Z.add_nocarry_lor, Z.bits_inj'. intros i Hi.
  rewrite Z.land_spec, Z.bits_0, <-Z.shiftl_mul_pow2 by lia.
  destruct (decide (i < n)).
  - rewrite Z.shiftl_spec_low by lia. apply andb_false_r.
  - rewrite <-(Z.mod_small x (2 ^ n)), Z.mod_pow2_bits_high by lia. done.
Qed.

(** ** Byte ranges: slices of lists addressed by [Z] *)

Abbreviation zlength l := (Z.of_nat (length l)).

Definition ztake {A} (n : Z) (l : list A) : list A := take (Z.to_nat n) l.
Definition zdrop {A} (n : Z) (l : list A) : list A := drop (Z.to_nat n) l.

(** The [n] elements from position [off], fewer at the end of the list. *)
Definition slice {A} (off n : Z) (l : list A) : list A := ztake n (zdrop off l).

(** The list with [d] written over it at position [off <= zlength l]. *)
Definition overwrite {A} (off : Z) (d l : list A) : list A :=
  ztake off l ++ d ++ zdrop (off + zlength d) l.

Section slices.
Context {A : Type}.
Implicit Types l d : list A.

Lemma zlength_slice off n l :
  0 <= off -> 0 <= n ->
  zlength (slice off n l) = n `min` ((zlength l - off) `max` 0).
Proof.
  intros. unfold slice, ztake, zdrop. rewrite length_take, length_drop. lia.
Qed.

Lemma lookup_slice off n l (i : nat) :
  0 <= off -> Z.of_nat i < n -> slice off n l !! i = l !! Z.to_nat (off + i).
Proof.
  intros. unfold slice, ztake, zdrop.
  rewrite lookup_take, decide_True, lookup_drop by lia. f_equal. lia.
Qed.

Lemma slice_0_all n l : zlength l <= n -> slice 0 n l = l.
Proof.
  intros. unfold slice, ztake, zdrop. rewrite drop_0. apply take_ge. lia.
Qed.

Lemma zlength_ztake n l : 0 <= n <= zlength l -> zlength (ztake n l) = n.
Proof. intros. unfold ztake. rewrite length_take. lia. Qed.

Lemma ztake_all n l : zlength l <= n -> ztake n l = l.
Proof. intros. unfold ztake. apply take_ge. lia. Qed.

Lemma slice_0_ztake n l : slice 0 n l = ztake n l.
Proof. done. Qed.

Lemma slice_ztake off n m l :
  0 <= off -> off + n <= m -> slice off n (ztake m l) = slice off n l.
Proof.
  intros. unfold slice, ztake, zdrop.
  rewrite skipn_firstn_comm, take_take. f_equal. lia.
Qed.

Lemma slice_nil_r off n l : zlength l <= off -> slice off n l = [].
Proof.
  intros. unfold slice, ztake, zdrop. rewrite drop_ge by lia.
  by rewrite take_nil.
Qed.

Lemma slice_0_len off l : slice off 0 l = [].
Proof. done. Qed.

Lemma slice_app off a b l :
  0 <= off -> 0 <= a -> 0 <= b ->
  slice off (a + b) l = slice off a l ++ slice (off + a) b l.
Proof.
  intros. unfold slice, ztake, zdrop.
  rewrite (Z2Nat.inj_add a b), (Z2Nat.inj_add off a), <-drop_drop by lia.
  by rewrite take_take_drop.
Qed.

Lemma zlength_overwrite off d l :
  0 <= off <= zlength l ->
  zlength (overwrite off d l) = zlength l `max` (off + zlength d).
Proof.
  intros. unfold overwrite, ztake, zdrop.
  rewrite !length_app, length_take, length_drop. lia.
Qed.

Lemma lookup_overwrite off d l (i : nat) :
  0 <= off <= zlength l ->
  overwrite off d l !! i =
    if decide (off <= i < off + zlength d) then d !! Z.to_nat (i - off)
    else l !! i.
Proof.
  intros. unfold overwrite, ztake, zdrop. case_decide.
  - rewrite lookup_app_r, length_take by (rewrite length_take; lia).
    rewrite lookup_app_l by lia. f_equal. lia.
  - destruct (decide (Z.of_nat i < off)).
    + rewrite lookup_app_l by (rewrite length_take; lia).
      by rewrite lookup_take, decide_True by lia.
    + rewrite lookup_app_r, length_take by (rewrite length_take; lia).
      rewrite lookup_app_r by lia.
      rewrite lookup_drop. f_equal. lia.
Qed.

Lemma overwrite_nil off l : 0 <= off -> overwrite off [] l = l.
Proof.
  intros. unfold overwrite, ztake, zdrop. cbn. rewrite Z.add_0_r.
  apply take_drop.
Qed.

Lemma overwrite_end d l : overwrite (zlength l) d l = l ++ d.
Proof.
  unfold overwrite, ztake, zdrop.
  rewrite take_ge, drop_ge, app_nil_r by lia. done.
Qed.

Lemma overwrite_app off d1 d2 l :
  0 <= off <= zlength l ->
  overwrite off (d1 ++ d2) l =
    overwrite (off + zlength d1) d2 (overwrite off d1 l).
Proof.
  intros H. apply list_eq. intros i.
  rewrite !lookup_overwrite by (rewrite ?zlength_overwrite; lia).
  rewrite length_app. repeat case_decide; try lia; try done.
  - rewrite lookup_app_r by lia. f_equal. lia.
  - by rewrite lookup_app_l by lia.
Qed.

Lemma overwrite_read off d l :
  0 <= off <= zlength l -> slice off (zlength d) (overwrite off d l) = d.
Proof.
  intros H. apply list_eq. intros i.
  destruct (decide (i < length d)%nat).
  - rewrite lookup_slice, lookup_overwrite, decide_True by lia.
    f_equal. lia.
  - rewrite !lookup_ge_None_2; [done|lia|].
    cut (zlength (slice off (zlength d) (overwrite off d l)) <= zlength d);
      [lia|]. rewrite zlength_slice by lia. lia.
Qed.

(** The list of the values of [f] on [0 .. n-1]. *)
Definition tabulate (f : Z -> A) (n : Z) : list A := f <$> seqZ 0 n.

Lemma zlength_tabulate f n : 0 <= n -> zlength (tabulate f n) = n.
Proof. intros. unfold tabulate. rewrite length_fmap, length_seqZ. lia. Qed.

Lemma lookup_tabulate f n (i : nat) :
  tabulate f n !! i = if decide (i < n) then Some (f i) else None.
Proof.
  unfold tabulate. rewrite list_lookup_fmap. case_decide.
  - by rewrite lookup_seqZ_lt by lia.
  - by rewrite lookup_seqZ_ge by lia.
Qed.

(** A pointwise update of a content function is an overwrite of its list. *)
Lemma tabulate_overwrite f g off d n m :
  0 <= off <= n -> m = n `max` (off + zlength d) ->
  (forall p, 0 <= p < m ->
     Some (g p) = if decide (off <= p < off + zlength d)
                  then d !! Z.to_nat (p - off) else Some (f p)) ->
  tabulate g m = overwrite off d (tabulate f n).
Proof.
  intros Ho -> Hg. apply list_eq. intros i.
  rewrite lookup_overwrite by (rewrite zlength_tabulate; lia).
  rewrite !lookup_tabulate.
  destruct (decide (i < n `max` (off + zlength d))).
  - rewrite Hg by lia. repeat case_decide; try lia; done.
  - rewrite !decide_False by lia. done.
Qed.

Lemma slice_tabulate f off n m :
  0 <= off -> 0 <= n -> off + n <= m ->
  slice off n (tabulate f m) = tabulate (fun i => f (off + i)) n.
Proof.
  intros. apply list_eq. intros i. rewrite lookup_tabulate. case_decide.
  - rewrite lookup_slice, lookup_tabulate, decide_True by lia.
    do 2 f_equal. lia.
  - apply lookup_ge_None_2.
    cut (zlength (slice off n (tabulate f m)) <= n); [lia|].
    rewrite zlength_slice by lia. lia.
Qed.

Lemma tabulate_ext f g n :
  (forall p, 0 <= p < n -> f p = g p) -> tabulate f n = tabulate g n.
Proof.
  intros H. apply list_eq. intros i. rewrite !lookup_tabulate.
  case_decide; [|done]. f_equal. apply H. lia.
Qed.
End slices.

(** ** Flat memory: a byte at every address *)

Abbreviation mem := (Z -> byte).

(** The [n] bytes at [addr]; the copies of [memcpy] and [memset]. *)
Definition mem_read (m : mem) (addr n : Z) : list byte :=
  tabulate (fun i => m (addr + i)) n.

Definition mem_write (m : mem) (addr : Z) (d : list byte) : mem := fun x =>
  if (addr <=? x) && (x <? addr + zlength d)
  then default x00 (d !! Z.to_nat (x - addr)) else m x.

Definition mem_set (m : mem) (addr : Z) (b : byte) (n : Z) : mem := fun x =>
  if (addr <=? x) && (x <? addr + n) then b else m x.

Lemma mem_write_spec m addr d x :
  mem_write m addr d x =
    if decide (addr <= x < addr + zlength d)
    then default x00 (d !! Z.to_nat (x - addr)) else m x.
Proof.
  unfold mem_write. destruct (decide _) as [H|H].
  - rewrite (proj2 (Z.leb_le _ _)), (proj2 (Z.ltb_lt _ _)) by lia. done.
  - destruct (_ && _) eqn:E; [|done]. zbool. lia.
Qed.

Lemma mem_write_outside (m : mem) addr d x :
  ~ (addr <= x < addr + zlength d) -> mem_write m addr d x = m x.
Proof. intros H. rewrite mem_write_spec. by rewrite decide_False. Qed.

Lemma mem_write_inside (m : mem) addr d x b :
  addr <= x -> d !! Z.to_nat (x - addr) = Some b -> mem_write m addr d x = b.
Proof.
  intros Hx Hd. rewrite mem_write_spec. rewrite decide_True, Hd; [done|].
  apply lookup_lt_Some in Hd. lia.
Qed.

(** ** Bytes and little-endian words *)

Definition byte_of_Z (x : Z) : byte := default x00 (Byte.of_N (Z.to_N (x mod 256))).
Definition Z_of_byte (b : byte) : Z := Z.of_N (Byte.to_N b).

#[export] Instance byte_eq_decision : EqDecision byte := Byte.byte_eq_dec.

Lemma Z_of_byte_of_Z x : Z_of_byte (byte_of_Z x) = x mod 256.
Proof.
  unfold Z_of_byte, byte_of_Z. pose proof (Z.mod_pos_bound x 256).
  destruct (Byte.of_N (Z.to_N (x mod 256))) as [b|] eqn:E.
  - apply Byte.to_of_N in E. cbn. rewrite E. lia.
  - apply Byte.of_N_None_iff in E. lia.
Qed.

Lemma byte_of_Z_of_byte b : byte_of_Z (Z_of_byte b) = b.
Proof.
  unfold Z_of_byte, byte_of_Z. pose proof (Byte.to_N_bounded b).
  rewrite Z.mod_small by lia. by rewrite N2Z.id, Byte.of_to_N.
Qed.

Lemma Z_of_byte_range b : 0 <= Z_of_byte b < 256.
Proof. unfold Z_of_byte. pose proof (Byte.to_N_bounded b). lia. Qed.

(** The [n] bytes of an integer, least significant first, and back. *)
Fixpoint le_split (n : nat) (x : Z) : list byte :=
  match n with O => [] | S n => byte_of_Z x :: le_split n (x / 256) end.

Fixpoint le_combine (l : list byte) : Z :=
  match l with [] => 0 | b :: l => Z_of_byte b + 256 * le_combine l end.

(** The 64-bit word at an address. *)
Definition load64 (m : mem) (a : Z) : Z := le_combine (mem_read m a 8).

Lemma length_le_split n : forall x, length (le_split n x) = n.
Proof. induction n as [|n IH]; intros x; cbn; [done|]. by rewrite IH. Qed.

Lemma le_combine_split n : forall x, le_combine (le_split n x) = x mod 256 ^ n.
Proof.
  induction n as [|n IH]; intros x; cbn [le_split le_combine].
  - by rewrite Z.mod_1_r.
  - rewrite Z_of_byte_of_Z, IH, Nat2Z.inj_succ, Z.pow_succ_r by lia.
    by rewrite Z.rem_mul_r by lia.
Qed.
