(* ===== verification/Util.v ===== *)
(** * Path, hash, capacity and bitmap helpers ([polylib/src/util.c])

    Reading past the end of a C string has no defined result: the functions
    that index into a string return [None] there. *)

From Stdlib Require Import Ascii.
From S2P Require Import Prelude Defs.

#[local] Open Scope Z_scope.

Module Util.

(** ** Strings *)

Lemma append_assoc a b c : ((a +:+ b) +:+ c = a +:+ (b +:+ c))%string.
Proof. induction a as [|x a IH]; [done|]. exact (f_equal (String x) IH). Qed.

Lemma append_length a b : (String.length (a +:+ b) = String.length a + String.length b)%nat.
Proof. induction a as [|x a IH]; [done|]. exact (f_equal S IH). Qed.

(** ** Path utility functions *)

(** The value of a [char], signed on the platform. *)
Definition char_val (c : ascii) : Z :=
  let v := Z.of_N (N_of_ascii c) in if v <? 128 then v else v - 256.

Fixpoint util_flatten_path (path : string) : string :=
  match path with
  | EmptyString => EmptyString
  | String c rest =>
      String (if Ascii.eqb c "/" then "#"%char else c) (util_flatten_path rest)
  end.

(** [cwd] is the result of [getcwd]. *)
Definition util_get_fullpath (cwd path : string) : string :=
  if ABSOLUTE_PATH_CHECK path then path
  else (cwd +:+ "/" +:+ path)%string.

(** [s + n] as a pointer into the string [s]: the terminator is in bounds. *)
Fixpoint str_offset (n : nat) (s : string) : option string :=
  match n, s with
  | O, _ => Some s
  | S n, String _ s => str_offset n s
  | S _, EmptyString => None
  end.

Section physpaths.
Variables FAST_DIR SLOW_DIR : string.

Definition util_get_fastpath (path : string) : option string :=
  relapath ← str_offset (POLYSTORE_PATH_PREFIX_LEN + 1) path;
  Some (FAST_DIR +:+ "/" +:+ relapath)%string.

Definition util_get_slowpath (path : string) : option string :=
  relapath ← str_offset (POLYSTORE_PATH_PREFIX_LEN + 1) path;
  Some (SLOW_DIR +:+ "/" +:+ relapath)%string.

Definition util_get_physpaths (path : string) : option (string * string) :=
  fastpath ← util_get_fastpath path;
  slowpath ← util_get_slowpath path;
  Some (fastpath, slowpath).
End physpaths.

(** ** Path hash *)

Definition HASH_SEED : Z := 0x12345678.

(** One round of the loop: [h ^= *path; h *= 0x5bd1e995; h ^= h >> 15]. *)
Definition hash_round (h : Z) (c : ascii) : Z :=
  let h := Z.lxor h (u32 (char_val c)) in
  let h := u32 (h * 0x5bd1e995) in
  Z.lxor h (Z.shiftr h 15).

Fixpoint hash_loop (h : Z) (path : string) : Z :=
  match path with
  | EmptyString => h
  | String c rest => hash_loop (hash_round h c) rest
  end.

Definition util_get_path_hash (path : string) : Z := hash_loop HASH_SEED path.

(** ** Capacity strings *)

(** [strtoul(str, NULL, 0)] on digits: the value of the longest prefix of
    digits of the base, saturating at [ULONG_MAX]. *)
Definition digit_val (c : ascii) : Z :=
  let v := Z.of_N (N_of_ascii c) in
  if (48 <=? v) && (v <=? 57) then v - 48
  else if (97 <=? v) && (v <=? 122) then v - 87
  else if (65 <=? v) && (v <=? 90) then v - 55
  else 255.

Fixpoint strtoul_digits (base acc : Z) (s : string) : Z :=
  match s with
  | EmptyString => acc
  | String c rest =>
      if digit_val c <? base then
        strtoul_digits base (Z.min (acc * base + digit_val c) (2 ^ 64 - 1)) rest
      else acc
  end.

Definition is_hex_digit (s : string) : bool :=
  match s with String c _ => digit_val c <? 16 | EmptyString => false end.

Definition strtoul_unsigned (s : string) : Z :=
  match s with
  | String "0" (String x rest) =>
      if (Ascii.eqb x "x" || Ascii.eqb x "X") && is_hex_digit rest
      then strtoul_digits 16 0 rest
      else strtoul_digits 8 0 (String x rest)
  | _ => strtoul_digits 10 0 s
  end.

Definition is_space (c : ascii) : bool :=
  let v := Z.of_N (N_of_ascii c) in (v =? 32) || ((9 <=? v) && (v <=? 13)).

Fixpoint strtoul (s : string) : Z :=
  match s with
  | EmptyString => 0
  | String c rest =>
      if is_space c then strtoul rest
      else if Ascii.eqb c "-" then u64 (- strtoul_unsigned rest)
      else if Ascii.eqb c "+" then strtoul_unsigned rest
      else strtoul_unsigned s
  end.

(** [atol], [strtol] to base 10; [atoi] converts its result to [int]. *)
Fixpoint atol (s : string) : Z :=
  match s with
  | EmptyString => 0
  | String c rest =>
      let digits s := strtoul_digits 10 0 s in
      if is_space c then atol rest
      else if Ascii.eqb c "-" then Z.max (- digits rest) (- 2 ^ 63)
      else if Ascii.eqb c "+" then Z.min (digits rest) (2 ^ 63 - 1)
      else Z.min (digits s) (2 ^ 63 - 1)
  end.

Definition atoi (s : string) : Z := s32 (atol s).

(** The string without its last character, and that character. *)
Fixpoint split_last (s : string) : option (string * ascii) :=
  match s with
  | EmptyString => None
  | String c EmptyString => Some (EmptyString, c)
  | String c rest => '(r, l) ← split_last rest; Some (String c r, l)
  end.

(** The [switch] of [capacity_stoul], with its fall-through cases. *)
Definition scale_capacity (magnitude : ascii) (n : Z) : Z :=
  if Ascii.eqb magnitude "g" || Ascii.eqb magnitude "G" then
    u64 (u64 (u64 (n * 1024) * 1024) * 1024)
  else if Ascii.eqb magnitude "m" || Ascii.eqb magnitude "M" then
    u64 (u64 (n * 1024) * 1024)
  else if Ascii.eqb magnitude "k" || Ascii.eqb magnitude "K" then
    u64 (n * 1024)
  else if Ascii.eqb magnitude "p" || Ascii.eqb magnitude "P" then
    u64 (n * 4)
  else n.

Definition capacity_stoul (origin : string) : option Z :=
  '(str, size_magnitude) ← split_last origin;
  Some (scale_capacity size_magnitude (strtoul str)).

(** ** Bitmaps: arrays of [unsigned char] *)

Definition u8 (x : Z) : Z := x mod 2 ^ 8.

Definition bitmap_byte (i : Z) : nat := Z.to_nat (Z.shiftr i 3).
Definition bitmap_mask (i : Z) : Z := Z.shiftl 1 (Z.land i 7).

Definition set_bitmap (b : list Z) (i : Z) : list Z :=
  alter (fun x => u8 (Z.lor x (bitmap_mask i))) (bitmap_byte i) b.

Definition unset_bitmap (b : list Z) (i : Z) : list Z :=
  alter (fun x => u8 (Z.land x (Z.lnot (bitmap_mask i)))) (bitmap_byte i) b.

Definition get_bitmap (b : list Z) (i : Z) : Z :=
  if Z.land (default 0 (b !! bitmap_byte i)) (bitmap_mask i) =? 0 then 0 else 1.

(** A bitmap of [n] bits whose bytes are bytes. *)
Definition bitmap_wf (n : Z) (b : list Z) : Prop :=
  n = 8 * zlength b /\ Forall (fun x => 0 <= x < 2 ^ 8) b.

(** The [i]-th bit of the bitmap, as a boolean. *)
Definition bitmap_bit (b : list Z) (i : Z) : bool :=
  Z.testbit (default 0 (b !! bitmap_byte i)) (i mod 8).

Lemma bitmap_byte_div i : bitmap_byte i = Z.to_nat (i / 8).
Proof. unfold bitmap_byte. by rewrite Z.shiftr_div_pow2 by lia. Qed.

Lemma bitmap_mask_pow i : bitmap_mask i = 2 ^ (i mod 8).
Proof.
  unfold bitmap_mask. change 7 with (2 ^ 3 - 1).
  rewrite land_ones_mod, Z.shiftl_mul_pow2 by (try apply Z.mod_pos_bound; lia).
  change (2 ^ 3) with 8. lia.
Qed.

Lemma get_bitmap_bit b i : get_bitmap b i = Z.b2z (bitmap_bit b i).
Proof.
  unfold get_bitmap, bitmap_bit. rewrite bitmap_mask_pow.
  pose proof (Z.mod_pos_bound i 8). set (x := default 0 _). set (k := i mod 8).
  destruct (Z.testbit x k) eqn:E; zif; try done.
  - assert (Z.testbit (Z.land x (2 ^ k)) k = false) as F.
    { rewrite E0. apply Z.bits_0. }
    rewrite Z.land_spec, E, Z.pow2_bits_true in F by lia. done.
  - destruct E0. apply Z.bits_inj'. intros j Hj.
    rewrite Z.land_spec, Z.bits_0, Z.pow2_bits_eqb by lia.
    destruct (Z.eqb_spec k j) as [->|]; [by rewrite E|apply andb_false_r].
Qed.

(** An update of one byte touches the bits of that byte only. *)
Lemma bitmap_bit_alter n b i j (f : Z -> Z) :
  bitmap_wf n b -> 0 <= i < n -> 0 <= j < n ->
  bitmap_bit (alter f (bitmap_byte i) b) j =
    if i / 8 =? j / 8
    then Z.testbit (f (default 0 (b !! bitmap_byte j))) (j mod 8)
    else bitmap_bit b j.
Proof.
  intros [-> _] Hi Hj. unfold bitmap_bit. rewrite !bitmap_byte_div.
  assert (0 <= j / 8 < zlength b).
  { split; [apply Z.div_pos; lia|apply Z.div_lt_upper_bound; lia]. }
  assert (0 <= i / 8) by (apply Z.div_pos; lia).
  zif.
  - rewrite E, list_lookup_alter_eq.
    destruct (lookup_lt_is_Some_2 b (Z.to_nat (j / 8))) as [x ->]; [lia|done].
  - rewrite list_lookup_alter_ne by lia. done.
Qed.

Lemma u8_testbit x k : 0 <= k < 8 -> Z.testbit (u8 x) k = Z.testbit x k.
Proof. intros. unfold u8. apply Z.mod_pow2_bits_low. lia. Qed.

Lemma div_mod_8 i j : i / 8 = j / 8 -> i mod 8 = j mod 8 -> i = j.
Proof. intros. rewrite (Z.div_mod i 8), (Z.div_mod j 8) by lia. lia. Qed.

Lemma set_bitmap_bit n b i j :
  bitmap_wf n b -> 0 <= i < n -> 0 <= j < n ->
  bitmap_bit (set_bitmap b i) j = (i =? j) || bitmap_bit b j.
Proof.
  intros Hwf Hi Hj. unfold set_bitmap. erewrite bitmap_bit_alter by done.
  pose proof (Z.mod_pos_bound j 8). pose proof (Z.mod_pos_bound i 8). zif.
  - rewrite u8_testbit, Z.lor_spec, bitmap_mask_pow by lia.
    rewrite Z.pow2_bits_eqb by lia.
    unfold bitmap_bit. rewrite orb_comm. f_equal.
    destruct (Z.eqb_spec i j) as [->|]; [apply Z.eqb_refl|].
    apply Z.eqb_neq. intros ?. eauto using div_mod_8.
  - destruct (Z.eqb_spec i j) as [->|]; done.
Qed.

Lemma unset_bitmap_bit n b i j :
  bitmap_wf n b -> 0 <= i < n -> 0 <= j < n ->
  bitmap_bit (unset_bitmap b i) j = negb (i =? j) && bitmap_bit b j.
Proof.
  intros Hwf Hi Hj. unfold unset_bitmap. erewrite bitmap_bit_alter by done.
  pose proof (Z.mod_pos_bound j 8). pose proof (Z.mod_pos_bound i 8). zif.
  - rewrite u8_testbit, Z.land_spec, Z.lnot_spec, bitmap_mask_pow by lia.
    rewrite Z.pow2_bits_eqb by lia.
    unfold bitmap_bit. rewrite andb_comm. do 2 f_equal.
    destruct (Z.eqb_spec i j) as [->|]; [apply Z.eqb_refl|].
    apply Z.eqb_neq. intros ?. eauto using div_mod_8.
  - destruct (Z.eqb_spec i j) as [->|]; done.
Qed.

Lemma bitmap_wf_alter n b i (f : Z -> Z) :
  bitmap_wf n b -> bitmap_wf n (alter (fun x => u8 (f x)) i b).
Proof.
  intros [-> Hb]. split; [by rewrite length_alter|].
  apply Forall_alter; [done|]. intros x _ _. apply Z.mod_pos_bound. lia.
Qed.

(** A bitmap is determined by its bits. *)
Lemma bitmap_ext n b b' :
  bitmap_wf n b -> bitmap_wf n b' ->
  (forall i, 0 <= i < n -> bitmap_bit b i = bitmap_bit b' i) -> b = b'.
Proof.
  intros [Hn Hb] [Hn' Hb'] H. apply (list_eq_same_length _ _ (length b)); [lia|done|].
  intros i x y Hi Hx Hy. rewrite Forall_lookup in Hb, Hb'.
  specialize (Hb i x Hx). specialize (Hb' i y Hy).
  apply Z.bits_inj'. intros k Hk. destruct (decide (k < 8)) as [Hk8|].
  - specialize (H (8 * i + k)). unfold bitmap_bit in H.
    rewrite bitmap_byte_div in H.
    assert ((8 * i + k) / 8 = i) as E by (symmetry; apply Z.div_unique with k; lia).
    assert ((8 * i + k) mod 8 = k) as E' by (symmetry; apply Z.mod_unique with i; lia).
    rewrite E, E', Nat2Z.id, Hx, Hy in H. apply H. lia.
  - rewrite <-(Z.mod_small x (2 ^ 8)), <-(Z.mod_small y (2 ^ 8)) by done.
    by rewrite !Z.mod_pow2_bits_high by lia.
Qed.

End Util.
