(* ===== verification/IntervalTree.v ===== *)
(** * The augmented red-black interval tree
      ([polylib/libs/interval-tree], used by [polylib/src/indexing.c])

    The C code links nodes with left, right and parent pointers.  Here a
    subtree is a value of [tree], and the chain of parent pointers from a node
    to the root is a [path], the list of the frames passed on the way down:
    a pair of a subtree and its path is a node pointer.  Walking up the parent
    pointers is recursion on the path, and the test "is the node its parent's
    right child" is the constructor of the first frame. *)

From S2P Require Import Prelude.

#[local] Open Scope Z_scope.

Module IntervalTree.

(** ** Data *)

Inductive color := RB_RED | RB_BLACK.

(** [struct interval_tree_node] without its tree links; [it_idx] stands for
    the address of the node. *)
Record interval_tree_node := ITNode {
  it_idx : Z;
  it_start : Z;
  it_last : Z
}.

(** A subtree: the colour of its root, left child, node, [__subtree_last] and
    right child. *)
Inductive tree :=
| Leaf
| Node (c : color) (l : tree) (n : interval_tree_node) (subtree_last : Z)
    (r : tree).

Inductive frame :=
| InLeft (c : color) (n : interval_tree_node) (subtree_last : Z) (r : tree)
| InRight (c : color) (l : tree) (n : interval_tree_node) (subtree_last : Z).

Abbreviation path := (list frame).

#[export] Instance color_eq_dec : EqDecision color.
Proof. solve_decision. Defined.
#[export] Instance interval_tree_node_eq_dec : EqDecision interval_tree_node.
Proof. solve_decision. Defined.
#[export] Instance tree_eq_dec : EqDecision tree.
Proof. solve_decision. Defined.

Definition plug (f : frame) (t : tree) : tree :=
  match f with
  | InLeft c n s r => Node c t n s r
  | InRight c l n s => Node c l n s t
  end.

Fixpoint zip (p : path) (t : tree) : tree :=
  match p with
  | [] => t
  | f :: p => zip p (plug f t)
  end.

Definition frame_color (f : frame) : color :=
  match f with InLeft c _ _ _ => c | InRight c _ _ _ => c end.

(** [tmp && rb_is_red(tmp)] *)
Definition is_red (t : tree) : bool :=
  match t with Node RB_RED _ _ _ _ => true | _ => false end.

(** [if (tmp) rb_set_parent_color(tmp, _, RB_BLACK)] *)
Definition set_black (t : tree) : tree :=
  match t with Node _ l n s r => Node RB_BLACK l n s r | Leaf => Leaf end.

Definition subtree_last_of (t : tree) : option Z :=
  match t with Node _ _ _ s _ => Some s | Leaf => None end.

(** [max] updated by the child's [__subtree_last], when there is a child. *)
Definition max_subtree (m : Z) (child : option Z) : Z :=
  match child with
  | Some s => if m <? s then s else m
  | None => m
  end.

Definition compute_last (n : interval_tree_node) (l r : option Z) : Z :=
  max_subtree (max_subtree (it_last n) l) r.

Definition interval_tree_compute_subtree_last
    (n : interval_tree_node) (l r : tree) : Z :=
  compute_last n (subtree_last_of l) (subtree_last_of r).

(** ** Insertion *)

(** Case 3 of [__rb_insert], parent a left child: right rotate at gparent.
    The parent has children [pl] and [tmp]; gparent has colour [gc] and right
    child [u]. *)
Definition rb_rotate_right_gparent (pl : tree) (pn : interval_tree_node)
    (tmp : tree) (gc : color) (gn : interval_tree_node) (gsub : Z) (u : tree)
    : tree :=
  let tmp := set_black tmp in
  Node gc pl pn gsub
    (Node RB_RED tmp gn (interval_tree_compute_subtree_last gn tmp u) u).

(** Case 3, parent a right child: left rotate at gparent. *)
Definition rb_rotate_left_gparent (tmp : tree) (pn : interval_tree_node)
    (pr : tree) (gc : color) (gn : interval_tree_node) (gsub : Z) (u : tree)
    : tree :=
  let tmp := set_black tmp in
  Node gc (Node RB_RED u gn (interval_tree_compute_subtree_last gn u tmp) tmp)
    pn gsub pr.

(** The loop of [__rb_insert] on the node [node] with parents [p].  [None] is
    the dereference of a null grandparent. *)
Fixpoint __rb_insert (node : tree) (p : path) : option tree :=
  match p with
  | [] => Some (set_black node)
  | f :: p1 =>
      if decide (frame_color f = RB_BLACK) then Some (zip p node)
      else
        match p1 with
        | [] => None
        | InLeft gc gn gsub u :: p2 =>
            if is_red u then
              __rb_insert
                (Node RB_RED (set_black (plug f node)) gn gsub (set_black u)) p2
            else
              match f, node with
              | InRight _ pl pn _, Node _ nl nn _ nr =>
                  let nl := set_black nl in
                  let parent := Node RB_RED pl pn
                    (interval_tree_compute_subtree_last pn pl nl) nl in
                  Some (zip p2
                    (rb_rotate_right_gparent parent nn nr gc gn gsub u))
              | InLeft _ pn _ pr, _ =>
                  Some (zip p2
                    (rb_rotate_right_gparent node pn pr gc gn gsub u))
              | InRight _ _ _ _, Leaf => None
              end
        | InRight gc u gn gsub :: p2 =>
            if is_red u then
              __rb_insert
                (Node RB_RED (set_black u) gn gsub (set_black (plug f node))) p2
            else
              match f, node with
              | InLeft _ pn _ pr, Node _ nl nn _ nr =>
                  let nr := set_black nr in
                  let parent := Node RB_RED nr pn
                    (interval_tree_compute_subtree_last pn nr pr) pr in
                  Some (zip p2
                    (rb_rotate_left_gparent nl nn parent gc gn gsub u))
              | InRight _ pl pn _, _ =>
                  Some (zip p2
                    (rb_rotate_left_gparent pl pn node gc gn gsub u))
              | InLeft _ _ _ _, Leaf => None
              end
        end
  end.

(** The descent of [interval_tree_insert]: every node passed has its
    [__subtree_last] raised to [last]. *)
Fixpoint insert_descend (start last : Z) (t : tree) (p : path) : path :=
  match t with
  | Leaf => p
  | Node c l n sub r =>
      let sub := if sub <? last then last else sub in
      if start <? it_start n
      then insert_descend start last l (InLeft c n sub r :: p)
      else insert_descend start last r (InRight c l n sub :: p)
  end.

Definition interval_tree_insert (node : interval_tree_node) (root : tree)
    : option tree :=
  let p := insert_descend (it_start node) (it_last node) root [] in
  __rb_insert (Node RB_RED Leaf node (it_last node) Leaf) p.

(** ** Search *)

Fixpoint interval_tree_subtree_search (t : tree) (start last : Z)
    : option interval_tree_node :=
  match t with
  | Leaf => None
  | Node _ l n _ r =>
      let here :=
        if it_start n <=? last then
          if start <=? it_last n then Some n
          else match r with
               | Node _ _ _ rsub _ =>
                   if start <=? rsub
                   then interval_tree_subtree_search r start last else None
               | Leaf => None
               end
        else None in
      match l with
      | Node _ _ _ lsub _ =>
          if start <=? lsub then interval_tree_subtree_search l start last
          else here
      | Leaf => here
      end
  end.

Definition interval_tree_iter_first (root : tree) (start last : Z)
    : option interval_tree_node :=
  match root with
  | Leaf => None
  | Node _ _ _ sub _ =>
      if sub <? start then None
      else interval_tree_subtree_search root start last
  end.

(** The part of [interval_tree_iter_next] that moves up until it comes from a
    left child, tests that ancestor and then its right subtree. *)
Fixpoint iter_next_up (p : path) (start last : Z)
    : option interval_tree_node :=
  match p with
  | [] => None
  | InRight _ _ _ _ :: p => iter_next_up p start last
  | InLeft _ n _ r :: p =>
      if last <? it_start n then None
      else if start <=? it_last n then Some n
      else match r with
           | Node _ _ _ rsub _ =>
               if start <=? rsub
               then interval_tree_subtree_search r start last
               else iter_next_up p start last
           | Leaf => iter_next_up p start last
           end
  end.

(** The node pointer [idx] seen as a subtree and its parents. *)
Fixpoint locate (idx : Z) (t : tree) (p : path) : option (tree * path) :=
  match t with
  | Leaf => None
  | Node c l n s r =>
      if it_idx n =? idx then Some (t, p)
      else match locate idx l (InLeft c n s r :: p) with
           | Some z => Some z
           | None => locate idx r (InRight c l n s :: p)
           end
  end.

Definition interval_tree_iter_next (root : tree) (idx start last : Z)
    : option interval_tree_node :=
  match locate idx root [] with
  | Some (Node _ _ _ _ r, p) =>
      match r with
      | Node _ _ _ rsub _ =>
          if start <=? rsub then interval_tree_subtree_search r start last
          else iter_next_up p start last
      | Leaf => iter_next_up p start last
      end
  | _ => None
  end.

(** ** In-order contents *)

Fixpoint inorder (t : tree) : list interval_tree_node :=
  match t with
  | Leaf => []
  | Node _ l n _ r => inorder l ++ n :: inorder r
  end.

(** The nodes before and after the subtree at a path. *)
Fixpoint before (p : path) : list interval_tree_node :=
  match p with
  | [] => []
  | InLeft _ _ _ _ :: p => before p
  | InRight _ l n _ :: p => before p ++ inorder l ++ [n]
  end.

Fixpoint after (p : path) : list interval_tree_node :=
  match p with
  | [] => []
  | InLeft _ n _ r :: p => n :: inorder r ++ after p
  | InRight _ _ _ _ :: p => after p
  end.

Lemma inorder_zip p t : inorder (zip p t) = before p ++ inorder t ++ after p.
Proof.
  revert t. induction p as [|[c n s r|c l n s] p IH]; intros t; cbn.
  - by rewrite app_nil_r.
  - rewrite IH. cbn. by rewrite <-!app_assoc.
  - rewrite IH. cbn. by rewrite <-!app_assoc.
Qed.

Lemma inorder_set_black t : inorder (set_black t) = inorder t.
Proof. by destruct t. Qed.

Lemma zip_app p q t : zip (p ++ q) t = zip q (zip p t).
Proof. revert t. by induction p as [|f p IH]; intros; cbn; [|rewrite IH]. Qed.

(** Reference definition of insertion: after every node whose start is not
    greater. *)
Fixpoint insert_sorted (n : interval_tree_node) (l : list interval_tree_node)
    : list interval_tree_node :=
  match l with
  | [] => [n]
  | m :: l =>
      if it_start n <? it_start m then n :: m :: l
      else m :: insert_sorted n l
  end.

(** Reference definition of the search: the first overlapping interval. *)
Definition overlaps (start last : Z) (n : interval_tree_node) : bool :=
  (it_start n <=? last) && (start <=? it_last n).

Definition first_overlap (start last : Z) (l : list interval_tree_node)
    : option interval_tree_node := List.find (overlaps start last) l.

Definition sorted (l : list interval_tree_node) : Prop :=
  StronglySorted (fun a b => it_start a <= it_start b) l.

Lemma sorted_app l1 l2 :
  sorted (l1 ++ l2) <->
  sorted l1 /\ sorted l2 /\
  (forall a b, a ∈ l1 -> b ∈ l2 -> it_start a <= it_start b).
Proof.
  unfold sorted. induction l1 as [|x l1 IH]; cbn.
  - split; [|naive_solver]. intros H. split_and!; [constructor|done|set_solver].
  - split.
    + intros [H1 H2]%StronglySorted_inv. apply IH in H1 as (Hl1 & Hl2 & H12).
      apply Forall_app in H2 as [Hx1 Hx2]. rewrite Forall_forall in Hx2.
      split_and!; [by constructor|done|].
      intros a b [->|Ha]%elem_of_cons Hb; auto.
    + intros ([H1 Hx]%StronglySorted_inv & H2 & H3).
      constructor; [apply IH; set_solver|].
      apply Forall_app. split; [done|]. apply Forall_forall.
      intros b Hb. apply H3; [left|done].
Qed.

Lemma sorted_cons x l :
  sorted (x :: l) <->
  sorted l /\ (forall b, b ∈ l -> it_start x <= it_start b).
Proof.
  unfold sorted. split.
  - intros [H1 H2]%StronglySorted_inv. by rewrite Forall_forall in H2.
  - intros [H1 H2]. constructor; [done|by apply Forall_forall].
Qed.

Lemma insert_sorted_split n l1 l2 :
  (forall a, a ∈ l1 -> it_start a <= it_start n) ->
  (forall b, b ∈ l2 -> it_start n < it_start b) ->
  insert_sorted n (l1 ++ l2) = l1 ++ n :: l2.
Proof.
  intros H1 H2. induction l1 as [|x l1 IH]; cbn.
  - destruct l2 as [|y l2]; cbn; [done|]. zif; [done|].
    assert (it_start n < it_start y) by (apply H2; left). lia.
  - assert (it_start x <= it_start n) by (apply H1; left).
    zif; [lia|]. f_equal. apply IH. set_solver.
Qed.

Lemma elem_of_insert_sorted n l x : x ∈ insert_sorted n l <-> x = n \/ x ∈ l.
Proof. induction l as [|m l IH]; cbn; [set_solver|]. zif; set_solver. Qed.

Lemma sorted_insert_sorted n l : sorted l -> sorted (insert_sorted n l).
Proof.
  intros Hl. induction l as [|m l IH]; cbn.
  - repeat constructor.
  - apply sorted_cons in Hl as [Hl Hm]. zif.
    + rewrite !sorted_cons. split_and!; [done|done|].
      intros b [->|Hb]%elem_of_cons; [lia|]. apply Hm in Hb. lia.
    + rewrite sorted_cons. split; [auto|].
      intros b [->|Hb]%elem_of_insert_sorted; [lia|auto].
Qed.

(** ** The augmentation invariant: every [__subtree_last] is up to date *)

Fixpoint augmented (t : tree) : Prop :=
  match t with
  | Leaf => True
  | Node _ l n s r =>
      s = interval_tree_compute_subtree_last n l r /\ augmented l /\ augmented r
  end.

(** The same for the nodes of a path over a subtree with maximum [sub]. *)
Fixpoint augmented_path (p : path) (sub : option Z) : Prop :=
  match p with
  | [] => True
  | InLeft _ n s r :: p =>
      s = compute_last n sub (subtree_last_of r) /\ augmented r /\
      augmented_path p (Some s)
  | InRight _ l n s :: p =>
      s = compute_last n (subtree_last_of l) sub /\ augmented l /\
      augmented_path p (Some s)
  end.

Lemma augmented_zip p t :
  augmented (zip p t) <-> augmented t /\ augmented_path p (subtree_last_of t).
Proof.
  revert t. induction p as [|[c n s r|c l n s] p IH]; intros t; cbn.
  - tauto.
  - rewrite IH. cbn. unfold interval_tree_compute_subtree_last. tauto.
  - rewrite IH. cbn. unfold interval_tree_compute_subtree_last. tauto.
Qed.

Lemma subtree_last_set_black t : subtree_last_of (set_black t) = subtree_last_of t.
Proof. by destruct t. Qed.

Lemma augmented_set_black t : augmented (set_black t) <-> augmented t.
Proof. by destruct t. Qed.

Lemma max_subtree_max m child : max_subtree m child = Z.max m (default m child).
Proof. destruct child; cbn; [zif|]; lia. Qed.

Lemma compute_last_max n l r :
  compute_last n l r =
    Z.max (it_last n) (Z.max (default (it_last n) l) (default (it_last n) r)).
Proof.
  unfold compute_last. rewrite !max_subtree_max. destruct l, r; cbn; lia.
Qed.

Lemma elem_of_inorder_node c l n s r x :
  x ∈ inorder (Node c l n s r) <-> x = n \/ x ∈ inorder l \/ x ∈ inorder r.
Proof. cbn. set_solver. Qed.

Lemma augmented_bound t x :
  augmented t -> x ∈ inorder t -> exists s, subtree_last_of t = Some s /\ it_last x <= s.
Proof.
  induction t as [|c l IHl n s r IHr]; [set_solver|].
  intros (-> & Hl & Hr) Hx. eexists. split; [done|].
  unfold interval_tree_compute_subtree_last. rewrite compute_last_max.
  apply elem_of_inorder_node in Hx as [->|[Hx|Hx]]; [lia| |].
  - destruct (IHl Hl Hx) as (m & -> & ?). cbn. lia.
  - destruct (IHr Hr Hx) as (m & -> & ?). cbn. lia.
Qed.

Lemma compute_last_cases n l r :
  compute_last n l r = it_last n \/ l = Some (compute_last n l r) \/
  r = Some (compute_last n l r).
Proof.
  rewrite compute_last_max. destruct l as [x|], r as [y|]; cbn;
    repeat match goal with |- context [Z.max ?a ?b] =>
      destruct (Z.max_spec a b) as [[? ->]|[? ->]] end; auto.
Qed.

Lemma augmented_attained t s :
  augmented t -> subtree_last_of t = Some s ->
  exists x, x ∈ inorder t /\ it_last x = s.
Proof.
  revert s. induction t as [|c l IHl n s' r IHr]; intros s; [done|].
  intros (-> & Hl & Hr) [= <-]. setoid_rewrite elem_of_inorder_node.
  unfold interval_tree_compute_subtree_last.
  destruct (compute_last_cases n (subtree_last_of l) (subtree_last_of r))
    as [E|[E|E]].
  - exists n. auto.
  - destruct (IHl _ Hl E) as (x & ? & ?). eauto.
  - destruct (IHr _ Hr E) as (x & ? & ?). eauto.
Qed.

(** ** Search *)

Lemma first_overlap_app start last l1 l2 :
  first_overlap start last (l1 ++ l2) =
    match first_overlap start last l1 with
    | Some n => Some n
    | None => first_overlap start last l2
    end.
Proof.
  unfold first_overlap. induction l1 as [|x l1 IH]; cbn; [done|].
  by destruct (overlaps start last x).
Qed.

Lemma first_overlap_none start last l :
  (forall x, x ∈ l -> overlaps start last x = false) ->
  first_overlap start last l = None.
Proof.
  intros H. unfold first_overlap. induction l as [|x l IH]; cbn; [done|].
  rewrite H by left. apply IH. set_solver.
Qed.

Lemma overlaps_false start last x :
  last < it_start x \/ it_last x < start -> overlaps start last x = false.
Proof. unfold overlaps. intros H. apply andb_false_iff. lia. Qed.

(** Once a sorted prefix has an interval that ends late enough, no overlap in
    the prefix means no overlap behind it. *)
Lemma first_overlap_cut start last l1 l2 x :
  sorted (l1 ++ l2) -> x ∈ l1 -> start <= it_last x ->
  first_overlap start last (l1 ++ l2) = first_overlap start last l1.
Proof.
  intros (H1 & H2 & H12)%sorted_app Hx Hs. rewrite first_overlap_app.
  destruct (first_overlap start last l1) eqn:E; [done|].
  apply first_overlap_none. intros y Hy. apply overlaps_false. left.
  assert (overlaps start last x = false) as Hov.
  { apply list_elem_of_In in Hx. by apply (find_none _ _ E). }
  unfold overlaps in Hov. apply andb_false_iff in Hov.
  specialize (H12 x y Hx Hy). lia.
Qed.

Lemma augmented_below t start :
  augmented t ->
  (forall s, subtree_last_of t = Some s -> s < start) ->
  forall last, first_overlap start last (inorder t) = None.
Proof.
  intros Ha Hs last. apply first_overlap_none. intros x Hx.
  destruct (augmented_bound t x Ha Hx) as (s & E & ?).
  apply overlaps_false. right. specialize (Hs s E). lia.
Qed.

Lemma subtree_search_spec t start last :
  sorted (inorder t) -> augmented t ->
  (forall s, subtree_last_of t = Some s -> start <= s) ->
  interval_tree_subtree_search t start last =
    first_overlap start last (inorder t).
Proof.
  induction t as [|c l IHl n s r IHr]; [done|]. intros Hsort Haug Hs.
  destruct Haug as (Hs' & Hl & Hr).
  assert (sorted (inorder l) /\ sorted (inorder r) /\
          (forall x, x ∈ inorder r -> it_start n <= it_start x))
    as (Sl & Sr & Snr).
  { cbn in Hsort. apply sorted_app in Hsort as (? & [? ?]%sorted_cons & ?).
    done. }
  assert ((if it_start n <=? last then
             if start <=? it_last n then Some n
             else match r with
                  | Node _ _ _ rsub _ =>
                      if start <=? rsub
                      then interval_tree_subtree_search r start last else None
                  | Leaf => None
                  end
           else None) = first_overlap start last (n :: inorder r)) as Hhere.
  { unfold first_overlap. cbn [List.find].
    unfold overlaps at 1. destruct (it_start n <=? last) eqn:E1; cbn [andb]; zbool.
    - destruct (start <=? it_last n) eqn:E2; [done|].
      fold (first_overlap start last (inorder r)).
      destruct r as [|rc rl rn rs rr]; [done|].
      destruct (start <=? rs) eqn:E3; zbool.
      + apply IHr; [done|done|]. intros ? [= <-]. done.
      + symmetry. apply (augmented_below (Node rc rl rn rs rr)); [done|].
        intros ? [= <-]. done.
    - symmetry. apply first_overlap_none. intros x Hx.
      apply overlaps_false. left. specialize (Snr x Hx). lia. }
  cbn [inorder interval_tree_subtree_search]. rewrite Hhere. clear Hhere.
  destruct l as [|lc ll ln ls lr]; [done|].
  destruct (start <=? ls) eqn:E; zbool.
  - destruct (augmented_attained _ _ Hl eq_refl) as (x & Hx & Hxs).
    rewrite (first_overlap_cut _ _ _ _ x) by (done || lia).
    apply IHl; [done|done|]. intros ? [= <-]. done.
  - rewrite first_overlap_app.
    rewrite (augmented_below (Node lc ll ln ls lr)); [done|done|].
    intros ? [= <-]. done.
Qed.

Lemma iter_first_spec t start last :
  sorted (inorder t) -> augmented t ->
  interval_tree_iter_first t start last = first_overlap start last (inorder t).
Proof.
  intros Hs Ha. destruct t as [|c l n s r]; [done|].
  unfold interval_tree_iter_first. zif.
  - symmetry. apply augmented_below; [done|]. intros ? [= <-]. done.
  - apply subtree_search_spec; [done..|]. intros ? [= <-]. done.
Qed.

(** Searching a right subtree and then the ancestors. *)
Lemma search_then_up r p start last (rest : option interval_tree_node) :
  sorted (inorder r ++ after p) -> augmented r ->
  rest = first_overlap start last (after p) ->
  match r with
  | Node _ _ _ rsub _ =>
      if start <=? rsub then interval_tree_subtree_search r start last else rest
  | Leaf => rest
  end = first_overlap start last (inorder r ++ after p).
Proof.
  intros Hsort Haug ->. destruct r as [|c l n s r]; [done|]. zif.
  - destruct (augmented_attained _ _ Haug eq_refl) as (x & Hx & Hxs).
    rewrite (first_overlap_cut _ _ _ _ x) by (done || lia).
    apply subtree_search_spec; [|done|intros ? [= <-]; done].
    by apply sorted_app in Hsort as (? & _).
  - rewrite first_overlap_app, augmented_below; [done|done|].
    intros ? [= <-]. done.
Qed.

Lemma iter_next_up_spec p sub start last :
  sorted (after p) -> augmented_path p sub ->
  iter_next_up p start last = first_overlap start last (after p).
Proof.
  revert sub. induction p as [|[c n s r|c l n s] p IH]; intros sub Hs Ha;
    [done| |destruct Ha as (?&?&?); eauto].
  cbn in Hs. apply sorted_cons in Hs as [Hs Hn].
  destruct Ha as (_ & Hr & Hp). cbn [after iter_next_up].
  unfold first_overlap. cbn [List.find]. unfold overlaps at 1.
  destruct (last <? it_start n) eqn:E1; zbool.
  - rewrite (proj2 (Z.leb_gt (it_start n) last)) by lia. cbn. symmetry.
    apply first_overlap_none. intros x Hx. apply overlaps_false. left.
    specialize (Hn x Hx). lia.
  - rewrite (proj2 (Z.leb_le (it_start n) last)) by lia. cbn.
    destruct (start <=? it_last n) eqn:E2; [done|].
    apply search_then_up; [done|done|].
    apply (IH (Some s)); [|done]. by apply sorted_app in Hs as (?&?&?).
Qed.

Lemma locate_zip idx t p t' p' :
  locate idx t p = Some (t', p') ->
  zip p' t' = zip p t /\
  exists c l n s r, t' = Node c l n s r /\ it_idx n = idx.
Proof.
  revert p. induction t as [|c l IHl n s r IHr]; intros p; cbn; [done|].
  zif; [intros [= <- <-]; naive_solver|].
  destruct (locate idx l _) eqn:El.
  - intros [= ->]. destruct (IHl _ El) as [-> ?]. done.
  - intros Er. destruct (IHr _ Er) as [-> ?]. done.
Qed.

Lemma locate_complete idx t p n :
  n ∈ inorder t -> it_idx n = idx -> is_Some (locate idx t p).
Proof.
  revert p. induction t as [|c l IHl m s r IHr]; intros p; [set_solver|].
  rewrite elem_of_inorder_node. intros Hn Hi. cbn. zif; [eauto|].
  destruct Hn as [->|[Hn|Hn]]; [done| |].
  - destruct (IHl (InLeft c m s r :: p) Hn Hi) as [z ->]. eauto.
  - destruct (locate idx l _); eauto.
Qed.

Definition unique_idx (l : list interval_tree_node) : Prop :=
  NoDup (map it_idx l).

Lemma unique_idx_split pre n post pre' n' post' :
  unique_idx (pre ++ n :: post) -> pre ++ n :: post = pre' ++ n' :: post' ->
  it_idx n = it_idx n' -> pre = pre' /\ n = n' /\ post = post'.
Proof.
  unfold unique_idx. revert pre'.
  induction pre as [|x pre IH]; intros [|x' pre'] Hnd Heq Hi; cbn in *.
  - by injection Heq.
  - injection Heq as -> ->. apply NoDup_cons in Hnd as [Hn _]. destruct Hn.
    rewrite map_app. cbn. rewrite Hi. apply elem_of_app. right. left.
  - injection Heq as <- <-. apply NoDup_cons in Hnd as [Hn _]. destruct Hn.
    rewrite map_app. cbn. rewrite Hi. apply elem_of_app. right. left.
  - injection Heq as -> Heq. apply NoDup_cons in Hnd as [_ Hnd].
    destruct (IH pre' Hnd Heq Hi) as (->&->&->). done.
Qed.

Lemma iter_next_spec t pre n post start last :
  inorder t = pre ++ n :: post -> unique_idx (inorder t) ->
  sorted (inorder t) -> augmented t ->
  interval_tree_iter_next t (it_idx n) start last =
    first_overlap start last post.
Proof.
  intros Ht Hu Hs Ha. unfold interval_tree_iter_next.
  destruct (locate_complete (it_idx n) t [] n) as [[t' p] E];
    [rewrite Ht; set_solver|done|].
  destruct (locate_zip _ _ _ _ _ E) as (Hz & c & l & m & s & r & -> & Hm).
  rewrite E. cbn in Hz. rewrite <-Hz in Ha, Hs, Ht, Hu.
  apply augmented_zip in Ha as [(_ & Hal & Har) Hap].
  rewrite inorder_zip in Hs, Ht, Hu. cbn in Hs, Ht, Hu.
  assert (forall A (a b c d : list A) x,
    a ++ (b ++ x :: c) ++ d = (a ++ b) ++ x :: (c ++ d)) as Hassoc.
  { intros. by rewrite <-!app_assoc. }
  rewrite Hassoc in Hs, Ht, Hu. symmetry in Ht.
  destruct (unique_idx_split _ _ _ _ _ _ Hu (eq_sym Ht)) as (_ & _ & <-);
    [done|].
  apply sorted_app in Hs as (_ & [Hs _]%sorted_cons & _).
  apply search_then_up; [done|done|].
  apply (iter_next_up_spec p (Some s)); [|done].
  by apply sorted_app in Hs as (?&?&?).
Qed.

(** ** Insertion *)

(** Induction along [__rb_insert], which climbs two parents at a time. *)
Lemma path_ind2 (P : path -> Prop) :
  P [] -> (forall f, P [f]) -> (forall f g p, P p -> P (f :: g :: p)) ->
  forall p, P p.
Proof.
  intros H0 H1 H2. fix IH 1. intros [|f [|g p]]; [done|done|].
  apply H2, IH.
Qed.

Ltac rb_simpl :=
  unfold rb_rotate_right_gparent, rb_rotate_left_gparent,
    interval_tree_compute_subtree_last in *;
  cbn [plug zip inorder before after augmented augmented_path subtree_last_of
       set_black frame_color] in *.

Ltac list_assoc := repeat progress (rewrite <-?app_assoc; cbn [app]).

(** A rotation keeps the maximum of the rotated subtree. *)
Lemma compute_last_rotate gn pn l r u :
  compute_last gn (Some (compute_last pn l r)) u =
  compute_last pn l (Some (compute_last gn r u)).
Proof. rewrite !compute_last_max. destruct l, r, u; cbn; lia. Qed.

(** Split [__rb_insert] along its tests. *)
Ltac rb_cases H :=
  repeat match type of H with
  | context [decide ?P] => destruct (decide P)
  | context [match ?x with _ => _ end] =>
      lazymatch x with
      | context [match _ with _ => _ end] => fail
      | context [__rb_insert] => fail
      | _ => destruct x eqn:?
      end
  end; try done.

Lemma rb_insert_inorder p : forall node t,
  __rb_insert node p = Some t -> inorder t = inorder (zip p node).
Proof.
  induction p as [|f|f g p IH] using path_ind2; intros node t H.
  - injection H as <-. apply inorder_set_black.
  - cbn in H. rb_cases H. by injection H as <-.
  - cbn [__rb_insert] in H. destruct (decide _); [by injection H as <-|].
    destruct g as [gc gn gs u|gc u gn gs].
    all: destruct (is_red u); [apply IH in H; rewrite H; cbn [zip plug];
      rewrite !inorder_zip; cbn [inorder]; rewrite ?inorder_set_black; done|].
    all: destruct f, node; rb_cases H; injection H as <-; rb_simpl;
      rewrite !inorder_zip; cbn [inorder];
      rewrite ?inorder_set_black; list_assoc; done.
Qed.

Lemma rb_insert_augmented p : forall node t,
  augmented (zip p node) -> __rb_insert node p = Some t -> augmented t.
Proof.
  induction p as [|f|f g p IH] using path_ind2; intros node t Ha H.
  - injection H as <-. by apply augmented_set_black.
  - cbn in H. rb_cases H. by injection H as <-.
  - cbn [__rb_insert] in H. destruct (decide _); [by injection H as <-|].
    destruct g as [gc gn gs u|gc u gn gs].
    all: destruct (is_red u).
    1, 3: refine (IH _ _ _ H); revert Ha; cbn [zip plug];
      rewrite !augmented_zip; cbn [augmented subtree_last_of plug];
      unfold interval_tree_compute_subtree_last;
      rewrite !subtree_last_set_black, !augmented_set_black;
      destruct f; cbn; tauto.
    all: destruct f, node; rb_cases H; injection H as <-; revert Ha; rb_simpl;
      rewrite !augmented_zip; rb_simpl; unfold interval_tree_compute_subtree_last;
      rewrite ?subtree_last_set_black, ?augmented_set_black;
      rb_simpl; rewrite ?subtree_last_set_black, ?augmented_set_black;
      intros; destruct_and!; split_and!; first [done|subst; by rewrite !compute_last_rotate].
Qed.

(** ** Red-black balance *)

(** [balanced c k t]: [t] has root colour [c] (a leaf counts as black) and
    black height [k], and no red node of it has a red child. *)
Inductive balanced : color -> nat -> tree -> Prop :=
| balanced_leaf : balanced RB_BLACK 0 Leaf
| balanced_red k l n s r :
    balanced RB_BLACK k l -> balanced RB_BLACK k r ->
    balanced RB_RED k (Node RB_RED l n s r)
| balanced_black k cl cr l n s r :
    balanced cl k l -> balanced cr k r ->
    balanced RB_BLACK (S k) (Node RB_BLACK l n s r).

(** [balanced_path c k p]: a subtree of colour [c] and black height [k] at [p]
    completes a balanced tree with a black root. *)
Inductive balanced_path : color -> nat -> path -> Prop :=
| balanced_top k : balanced_path RB_BLACK k []
| balanced_red_left k n s r p :
    balanced_path RB_RED k p -> balanced RB_BLACK k r ->
    balanced_path RB_BLACK k (InLeft RB_RED n s r :: p)
| balanced_red_right k l n s p :
    balanced_path RB_RED k p -> balanced RB_BLACK k l ->
    balanced_path RB_BLACK k (InRight RB_RED l n s :: p)
| balanced_black_left c k cr n s r p :
    balanced_path RB_BLACK (S k) p -> balanced cr k r ->
    balanced_path c k (InLeft RB_BLACK n s r :: p)
| balanced_black_right c k cl l n s p :
    balanced_path RB_BLACK (S k) p -> balanced cl k l ->
    balanced_path c k (InRight RB_BLACK l n s :: p).

Create HintDb rb.
#[local] Hint Constructors balanced balanced_path : rb.

Lemma balanced_zip p : forall c k t,
  balanced c k t -> balanced_path c k p ->
  exists k', balanced RB_BLACK k' (zip p t).
Proof.
  induction p as [|f p IH]; intros c k t Ht Hp; inv Hp; cbn; eauto with rb.
Qed.

Lemma balanced_set_black c k t :
  balanced c k t -> c = RB_RED -> balanced RB_BLACK (S k) (set_black t).
Proof. intros H ->. inv H. cbn. eauto with rb. Qed.

Lemma balanced_is_red c k t : balanced c k t -> is_red t = true -> c = RB_RED.
Proof. destruct 1; done. Qed.

Lemma balanced_not_red c k t : balanced c k t -> is_red t = false -> c = RB_BLACK.
Proof. destruct 1; done. Qed.

Lemma set_black_id k t : balanced RB_BLACK k t -> set_black t = t.
Proof. by inversion 1. Qed.

Lemma balanced_recolor c k f node q :
  balanced c k node -> balanced_path RB_BLACK k (f :: q) ->
  frame_color f <> RB_BLACK -> balanced RB_BLACK (S k) (set_black (plug f node)).
Proof. intros Hn Hp Hf. inv Hp; cbn in *; try done; eauto with rb. Qed.

Lemma rb_insert_balanced p : forall k node,
  balanced RB_RED k node -> balanced_path RB_BLACK k p ->
  exists t k', __rb_insert node p = Some t /\ balanced RB_BLACK k' t.
Proof.
  induction p as [|f|f g p IH] using path_ind2; intros k node Hn Hp.
  - exists (set_black node), (S k). eauto using balanced_set_black.
  - destruct (balanced_zip [f] RB_RED k node) as [k' ?];
      [done|inv Hp; eauto with rb; by match goal with
         H : balanced_path RB_RED _ [] |- _ => inv H end|].
    exists (zip [f] node), k'. split; [|done]. cbn. destruct (decide _); [done|].
    inv Hp; try done; by match goal with
         H : balanced_path RB_RED _ [] |- _ => inv H end.
  - cbn [__rb_insert]. destruct (decide _) as [Hb|Hb].
    { edestruct (balanced_zip (f :: g :: p) RB_RED k node) as [k' ?];
        [done| |eauto]. inv Hp; cbn in Hb; try done; eauto with rb. }
    assert (balanced_path RB_RED k (g :: p)) as Hg by (by inv Hp).
    destruct g as [gc gn gs u|gc u gn gs]; inv Hg.
    all: destruct (is_red u) eqn:Hu.
    1, 3: apply (IH (S k)); [|done]; constructor;
      eauto using balanced_set_black, balanced_is_red, balanced_recolor.
    all: match goal with H : balanced ?c _ ?u, Hu : is_red ?u = false |- _ =>
        pose proof (balanced_not_red _ _ _ H Hu); subst c end.
    all: inv Hp; cbn in Hb; try done; inv Hn.
    all: eexists; match goal with
      | H : balanced_path RB_BLACK ?k ?p |- exists k', Some (zip ?p ?t) = _ /\ _ =>
        destruct (balanced_zip p RB_BLACK k t) as [k' ?];
        [rb_simpl; erewrite ?set_black_id by done; eauto with rb|done|eauto] end.
Qed.

(** ** The interface of the interval tree *)

(** The invariant kept by every tree built by insertion. *)
Definition wf_tree (t : tree) : Prop :=
  sorted (inorder t) /\ augmented t /\ exists k, balanced RB_BLACK k t.

Lemma wf_tree_empty : wf_tree Leaf.
Proof. split_and!; [constructor|done|eauto with rb]. Qed.

Lemma insert_descend_inorder start last t : forall p,
  sorted (before p ++ inorder t ++ after p) ->
  (forall a, a ∈ before p -> it_start a <= start) ->
  (forall b, b ∈ after p -> start < it_start b) ->
  let q := insert_descend start last t p in
  before q ++ after q = before p ++ inorder t ++ after p /\
  (forall a, a ∈ before q -> it_start a <= start) /\
  (forall b, b ∈ after q -> start < it_start b).
Proof.
  induction t as [|c l IHl n s r IHr]; intros p Hs Hb Ha; cbn; [done|].
  cbn in Hs. rewrite <-app_assoc in Hs. cbn in Hs. pose proof Hs as Hs'.
  apply sorted_app in Hs as (_ & Hs & _).
  apply sorted_app in Hs as (_ & [_ Hnr]%sorted_cons & Hln).
  zif.
  - edestruct (IHl (InLeft c n (if s <? last then last else s) r :: p))
      as (IH1 & IH2 & IH3); cbn [before after].
    + by cbn.
    + done.
    + intros b [->|Hb']%elem_of_cons; [lia|]. specialize (Hnr b Hb'). lia.
    + split_and!; [rewrite IH1; cbn; list_assoc; done|done|done].
  - edestruct (IHr (InRight c l n (if s <? last then last else s) :: p))
      as (IH1 & IH2 & IH3); cbn [before after].
    + list_assoc. done.
    + intros a. rewrite !elem_of_app, list_elem_of_singleton.
      intros [?|[Hl| ->]]; [auto| |lia].
      assert (it_start a <= it_start n) by (apply Hln; [done|left]). lia.
    + done.
    + split_and!; [rewrite IH1; cbn; list_assoc; done|done|done].
Qed.

Lemma insert_descend_augmented start last t : forall p,
  augmented t ->
  augmented_path p (Some (max_subtree last (subtree_last_of t))) ->
  augmented_path (insert_descend start last t p) (Some last).
Proof.
  induction t as [|c l IHl n s r IHr]; intros p Ha Hp; cbn; [done|].
  destruct Ha as (Hs & Hl & Hr).
  assert ((if s <? last then last else s) = max_subtree last (Some s)) as ->
    by (cbn; repeat zif; lia).
  unfold interval_tree_compute_subtree_last in Hs.
  assert (forall x y, compute_last n x y = s ->
    max_subtree last (Some s) =
      compute_last n (Some (max_subtree last x)) y /\
    max_subtree last (Some s) =
      compute_last n x (Some (max_subtree last y))) as Hmax.
  { intros x y <-. rewrite !compute_last_max, !max_subtree_max.
    destruct x, y; cbn; lia. }
  destruct (Hmax _ _ (eq_sym Hs)) as [H1 H2].
  zif; [apply IHl|apply IHr]; done.
Qed.

Lemma insert_descend_balanced start last t : forall c k p,
  balanced c k t -> balanced_path c k p ->
  balanced_path RB_BLACK 0 (insert_descend start last t p).
Proof.
  induction t as [|c' l IHl n s r IHr]; intros c k p Ht Hp; inv Ht; cbn; [done| |].
  all: zif; [eapply IHl|eapply IHr]; eauto with rb.
Qed.

Lemma insert_spec n t :
  wf_tree t ->
  exists t', interval_tree_insert n t = Some t' /\ wf_tree t' /\
    inorder t' = insert_sorted n (inorder t).
Proof.
  intros (Hs & Ha & k & Hb). unfold interval_tree_insert.
  set (p := insert_descend (it_start n) (it_last n) t []).
  destruct (rb_insert_balanced p 0 (Node RB_RED Leaf n (it_last n) Leaf))
    as (t' & k' & Ht' & Hb').
  { eauto with rb. }
  { eapply insert_descend_balanced; eauto with rb. }
  destruct (insert_descend_inorder (it_start n) (it_last n) t [])
    as (H1 & H2 & H3); [cbn; by rewrite app_nil_r|set_solver..|].
  fold p in H1, H2, H3. cbn in H1. rewrite app_nil_r in H1.
  assert (inorder t' = insert_sorted n (inorder t)) as Hin.
  { rewrite (rb_insert_inorder _ _ _ Ht'), inorder_zip, <-H1. cbn.
    symmetry. by apply insert_sorted_split. }
  exists t'. split_and!; [done| |done]. split_and!; [|
    |by eauto].
  - rewrite Hin. by apply sorted_insert_sorted.
  - eapply rb_insert_augmented; [|done]. apply augmented_zip. split; [done|].
    by apply insert_descend_augmented.
Qed.

(** C24: inserting into the interval tree never fails (no null grandparent is
    dereferenced), keeps the tree ordered by start, its [__subtree_last] fields
    exact and its red-black balance, and adds exactly the new node, after the
    nodes with the same start. *)
Theorem interval_tree_insert_correct (n : interval_tree_node) (t : tree) :
  wf_tree t ->
  exists t', interval_tree_insert n t = Some t' /\ wf_tree t' /\
    inorder t' = insert_sorted n (inorder t).
Proof. apply insert_spec. Qed.

Lemma interval_tree_insert_correct_witness :
  exists t', interval_tree_insert (ITNode 1 0 9) Leaf = Some t' /\ wf_tree t' /\
    inorder t' = [ITNode 1 0 9].
Proof. exact (interval_tree_insert_correct (ITNode 1 0 9) Leaf wf_tree_empty). Defined.

(** C26: iterating over the intervals that intersect [start, last]: the first
    call returns the first such interval in order, and each further call the
    next one after the interval it is given. *)
Theorem interval_tree_iter_correct (t : tree) (start last : Z) :
  wf_tree t -> unique_idx (inorder t) ->
  interval_tree_iter_first t start last = first_overlap start last (inorder t) /\
  (forall pre n post, inorder t = pre ++ n :: post ->
     interval_tree_iter_next t (it_idx n) start last =
       first_overlap start last post).
Proof.
  intros (Hs & Ha & _) Hu. split; [by apply iter_first_spec|].
  intros pre n post Ht. by apply iter_next_spec with pre.
Qed.

(** Inserting nodes one by one into the empty tree. *)
Definition insert_all (l : list interval_tree_node) : option tree :=
  foldl (fun ot n => t ← ot; interval_tree_insert n t) (Some Leaf) l.

Definition example_nodes : list interval_tree_node :=
  [ITNode 1 10 19; ITNode 2 30 39; ITNode 3 20 29; ITNode 4 0 9; ITNode 5 40 49].

Lemma interval_tree_iter_correct_witness :
  exists t, insert_all example_nodes = Some t /\
    interval_tree_iter_first t 15 45 = Some (ITNode 1 10 19) /\
    interval_tree_iter_next t 3 15 45 = Some (ITNode 2 30 39).
Proof.
  eexists. split; [vm_compute; reflexivity|].
  match goal with |- interval_tree_iter_first ?t _ _ = _ /\ _ =>
    destruct (interval_tree_iter_correct t 15 45) as [H1 H2] end.
  - split_and!.
    + repeat constructor; cbn; lia.
    + cbn. vm_compute. repeat split; reflexivity.
    + eexists. repeat econstructor.
  - apply (bool_decide_unpack _). vm_compute. done.
  - split; [exact H1|].
    exact (H2 [ITNode 4 0 9; ITNode 1 10 19] (ITNode 3 20 29)
             [ITNode 2 30 39; ITNode 5 40 49] eq_refl).
Defined.

End IntervalTree.
