(* ===== verification/IntervalTreeErase.v ===== *)
(** * Removal from the interval tree, and walking it
      ([polylib/libs/interval-tree]: [rbtree_augmented.h], [rbtree.c])

    [rb_erase_augmented] unlinks a node, repairs the [__subtree_last] fields on
    the way up and restores the red-black balance; on the zipper of
    [IntervalTree].  Also the in-order and post-order walks of [rbtree.c].
    [None] is the dereference of a null pointer. *)

From S2P Require Import Prelude IntervalTree.
Import IntervalTree.

#[local] Open Scope Z_scope.

Module IntervalTreeErase.

(** ** Unlinking *)

(** The callback [propagate]: recompute [__subtree_last] of the parents of a
    subtree with maximum [child], up to the first one that does not change. *)
Fixpoint propagate (child : option Z) (p : path) : path :=
  match p with
  | [] => []
  | InLeft c n s r :: p' =>
      let augmented := compute_last n child (subtree_last_of r) in
      if s =? augmented then p
      else InLeft c n augmented r :: propagate (Some augmented) p'
  | InRight c l n s :: p' =>
      let augmented := compute_last n (subtree_last_of l) child in
      if s =? augmented then p
      else InRight c l n augmented :: propagate (Some augmented) p'
  end.

Definition set_color (c : color) (t : tree) : tree :=
  match t with Node _ l n s r => Node c l n s r | Leaf => Leaf end.

Definition is_leaf (t : tree) : bool :=
  match t with Leaf => true | Node _ _ _ _ _ => false end.

(** The successor of a node is leftmost in its right subtree: its colour, its
    node, its right child, and the path up to that subtree's root. *)
Fixpoint leftmost (t : tree) (q : path)
    : option (color * interval_tree_node * tree * path) :=
  match t with
  | Leaf => None
  | Node c Leaf n _ r => Some (c, n, r, q)
  | Node c l n s r => leftmost l (InLeft c n s r :: q)
  end.

(** [__rb_erase_augmented] on the node with colour [c], children [l] and [r],
    [__subtree_last] [s] and parents [p]: the subtree that may be short of a black
    node, its parents, and whether it is. *)
Definition __rb_erase_augmented (c : color) (l : tree) (s : Z) (r : tree) (p : path)
    : option (tree * path * bool) :=
  match l, r with
  | Leaf, _ =>
      let child := set_color c r in
      Some (child, propagate (subtree_last_of child) p,
            is_leaf child && bool_decide (c = RB_BLACK))
  | _, Leaf =>
      let tmp := set_color c l in
      Some (tmp, propagate (subtree_last_of tmp) p, false)
  | _, _ =>
      '(sc, successor, child2, q) ← leftmost r [];
      let rebalance := is_leaf child2 && bool_decide (sc = RB_BLACK) in
      let child2 := set_black child2 in
      let q := propagate (subtree_last_of child2) q in
      Some (child2,
            q ++ propagate (subtree_last_of (zip q child2))
                   (InRight c l successor s :: p),
            rebalance)
  end.

(** ** Rebalancing *)

(** Cases 2 to 4 of [____rb_erase_color] when the node is a left child and its
    sibling, with children [sl] and [sr], is black: the subtree at the parent's
    place, and whether the loop goes on with it. *)
Definition erase_left (node : tree) (pc : color) (pn : interval_tree_node) (ps : Z)
    (sc : color) (sl : tree) (sn : interval_tree_node) (ss : Z) (sr : tree)
    : option (tree * bool) :=
  let rotate sl sn sr :=
    Some (Node pc
            (Node RB_BLACK node pn (interval_tree_compute_subtree_last pn node sl) sl)
            sn ps (set_black sr), false) in
  if is_red sr then rotate sl sn sr
  else if is_red sl then
    match sl with
    | Leaf => None
    | Node tc tl tn ts tr =>
        let tmp1 := set_black tr in
        rotate tl tn
          (Node sc tmp1 sn (interval_tree_compute_subtree_last sn tmp1 sr) sr)
    end
  else
    let sibling := Node RB_RED sl sn ss sr in
    if decide (pc = RB_RED) then Some (Node RB_BLACK node pn ps sibling, false)
    else Some (Node pc node pn ps sibling, true).

(** The same when the node is a right child. *)
Definition erase_right (node : tree) (pc : color) (pn : interval_tree_node) (ps : Z)
    (sc : color) (sl : tree) (sn : interval_tree_node) (ss : Z) (sr : tree)
    : option (tree * bool) :=
  let rotate sl sn sr :=
    Some (Node pc (set_black sl) sn ps
            (Node RB_BLACK sr pn (interval_tree_compute_subtree_last pn sr node) node),
          false) in
  if is_red sl then rotate sl sn sr
  else if is_red sr then
    match sr with
    | Leaf => None
    | Node tc tl tn ts tr =>
        let tmp1 := set_black tl in
        rotate (Node sc sl sn (interval_tree_compute_subtree_last sn sl tmp1) tmp1) tn tr
    end
  else
    let sibling := Node RB_RED sl sn ss sr in
    if decide (pc = RB_RED) then Some (Node RB_BLACK sibling pn ps node, false)
    else Some (Node pc sibling pn ps node, true).

(** One iteration at the parent [f]: a red sibling is rotated above the parent
    first (case 1), which makes the parent red. *)
Definition erase_step (f : frame) (node : tree) : option (tree * bool) :=
  match f with
  | InLeft pc pn ps sibling =>
      match sibling with
      | Leaf => None
      | Node RB_BLACK sl sn ss sr => erase_left node pc pn ps RB_BLACK sl sn ss sr
      | Node RB_RED sl sn ss sr =>
          match set_black sl with
          | Leaf => None
          | Node tc tl tn ts tr =>
              let psub := interval_tree_compute_subtree_last pn node sl in
              '(t, _) ← erase_left node RB_RED pn psub tc tl tn ts tr;
              Some (Node pc t sn ps sr, false)
          end
      end
  | InRight pc sibling pn ps =>
      match sibling with
      | Leaf => None
      | Node RB_BLACK sl sn ss sr => erase_right node pc pn ps RB_BLACK sl sn ss sr
      | Node RB_RED sl sn ss sr =>
          match set_black sr with
          | Leaf => None
          | Node tc tl tn ts tr =>
              let psub := interval_tree_compute_subtree_last pn sr node in
              '(t, _) ← erase_right node RB_RED pn psub tc tl tn ts tr;
              Some (Node pc sl sn ps t, false)
          end
      end
  end.

(** The loop of [____rb_erase_color]: [node], at [p], is short of a black node. *)
Fixpoint __rb_erase_color (node : tree) (p : path) : option tree :=
  match p with
  | [] => Some node
  | f :: p =>
      '(t, up) ← erase_step f node;
      if up : bool then __rb_erase_color t p else Some (zip p t)
  end.

Definition rb_erase_augmented (node : tree) (p : path) : option tree :=
  match node with
  | Leaf => None
  | Node c l _ s r =>
      '(t, q, rebalance) ← __rb_erase_augmented c l s r p;
      if rebalance : bool then __rb_erase_color t q else Some (zip q t)
  end.

(** [interval_tree_remove]; [None] also when the node is not in the tree. *)
Definition interval_tree_remove (idx : Z) (root : tree) : option tree :=
  '(node, p) ← locate idx root [];
  rb_erase_augmented node p.

(** ** Walking the tree

    The walks start from a node of the tree, so that the test for an unlinked node
    ([RB_EMPTY_NODE]) never applies. *)

Fixpoint rb_first (root : tree) : option interval_tree_node :=
  match root with
  | Leaf => None
  | Node _ Leaf n _ _ => Some n
  | Node _ l _ _ _ => rb_first l
  end.

Fixpoint rb_last (root : tree) : option interval_tree_node :=
  match root with
  | Leaf => None
  | Node _ _ n _ Leaf => Some n
  | Node _ _ _ _ r => rb_last r
  end.

(** The first ancestor reached from a left, or from a right child. *)
Fixpoint next_up (p : path) : option interval_tree_node :=
  match p with
  | [] => None
  | InRight _ _ _ _ :: p => next_up p
  | InLeft _ n _ _ :: _ => Some n
  end.

Fixpoint prev_up (p : path) : option interval_tree_node :=
  match p with
  | [] => None
  | InLeft _ _ _ _ :: p => prev_up p
  | InRight _ _ n _ :: _ => Some n
  end.

Definition rb_next (idx : Z) (root : tree) : option interval_tree_node :=
  '(node, p) ← locate idx root [];
  match node with
  | Node _ _ _ _ (Node _ _ _ _ _ as r) => rb_first r
  | _ => next_up p
  end.

Definition rb_prev (idx : Z) (root : tree) : option interval_tree_node :=
  '(node, p) ← locate idx root [];
  match node with
  | Node _ (Node _ _ _ _ _ as l) _ _ _ => rb_last l
  | _ => prev_up p
  end.

Fixpoint rb_left_deepest_node (t : tree) : option interval_tree_node :=
  match t with
  | Leaf => None
  | Node _ Leaf n _ Leaf => Some n
  | Node _ Leaf _ _ r => rb_left_deepest_node r
  | Node _ l _ _ _ => rb_left_deepest_node l
  end.

Definition rb_first_postorder (root : tree) : option interval_tree_node :=
  rb_left_deepest_node root.

Definition rb_next_postorder (idx : Z) (root : tree) : option interval_tree_node :=
  '(_, p) ← locate idx root [];
  match p with
  | [] => None
  | InLeft _ _ _ (Node _ _ _ _ _ as r) :: _ => rb_left_deepest_node r
  | InLeft _ n _ Leaf :: _ | InRight _ _ n _ :: _ => Some n
  end.

(** ** In-order contents *)

Lemma inorder_set_color c t : inorder (set_color c t) = inorder t.
Proof. by destruct t. Qed.

Lemma propagate_around child p :
  before (propagate child p) = before p /\ after (propagate child p) = after p.
Proof.
  revert child. induction p as [|[c n s r|c l n s] p IH]; intros child; cbn; [done|..];
    (destruct (s =? _); [done|]); cbn; destruct (IH (Some (compute_last n child (subtree_last_of r)))) || destruct (IH (Some (compute_last n (subtree_last_of l) child))); by split; congruence.
Qed.

(** Split an iteration along its tests. *)
Ltac erase_cases f H :=
  destruct f as [pc pn ps [|[] sl sn ss sr]|pc [|[] sl sn ss sr] pn ps]; cbn in H; try done;
  unfold erase_left, erase_right in H; rb_cases H; cbn in H; simplify_eq.

Lemma erase_step_inorder f node t up :
  erase_step f node = Some (t, up) -> inorder t = inorder (plug f node).
Proof.
  intros H. erase_cases f H; cbn; rewrite ?inorder_set_black; list_assoc; try done.
  all: match goal with E : set_black ?x = Node _ _ _ _ _ |- _ =>
    apply (f_equal inorder) in E; rewrite inorder_set_black in E; rewrite E end;
    cbn; list_assoc; done.
Qed.

Lemma rb_erase_color_inorder p : forall node t,
  __rb_erase_color node p = Some t -> inorder t = inorder (zip p node).
Proof.
  induction p as [|f p IH]; intros node t; cbn [__rb_erase_color]; [by intros [= <-]|].
  destruct (erase_step f node) as [[t1 up]|] eqn:E; [|done]. cbn [mbind option_bind].
  apply erase_step_inorder in E. cbn [zip]. intros H. rewrite inorder_zip, <-E, <-inorder_zip.
  destruct up; [by apply IH|by injection H as <-].
Qed.

(** ** The augmentation *)

Lemma set_black_node t c l n s r :
  set_black t = Node c l n s r ->
  subtree_last_of t = Some s /\ (augmented t <-> augmented (Node c l n s r)).
Proof. destruct t; cbn; intros [=]; by subst. Qed.

Ltac aug_simpl :=
  unfold interval_tree_compute_subtree_last in *; cbn [augmented subtree_last_of plug] in *;
  rewrite ?subtree_last_set_black, ?augmented_set_black in *.

(** Maxima are determined by their upper bounds. *)
Definition below (child : option Z) (x : Z) : Prop :=
  match child with Some s => s <= x | None => True end.

Lemma compute_last_le n l r x :
  compute_last n l r <= x <-> it_last n <= x /\ below l x /\ below r x.
Proof. rewrite compute_last_max. destruct l, r; cbn; lia. Qed.

Lemma le_ext a b : (forall x, a <= x <-> b <= x) -> a = b.
Proof. intros H. apply Z.le_antisymm; apply H; lia. Qed.

Ltac last_solve :=
  apply le_ext; intros x; repeat (rewrite !compute_last_le; cbn [below]); tauto.

Lemma erase_step_augmented f node t up :
  erase_step f node = Some (t, up) -> augmented (plug f node) ->
  augmented t /\ subtree_last_of t = subtree_last_of (plug f node).
Proof.
  intros H Ha. erase_cases f H; cbn [plug] in *.
  all: try match goal with E : set_black ?x = Node _ _ _ _ _ |- _ =>
    apply set_black_node in E as [E1 E2] end.
  all: aug_simpl; destruct_and?; try rewrite E2 in *; aug_simpl; destruct_and?.
  all: split; [|done]; split_and!; try done.
  all: try rewrite E1 in *; subst; last_solve.
Qed.

Lemma rb_erase_color_augmented p : forall node t,
  augmented (zip p node) -> __rb_erase_color node p = Some t -> augmented t.
Proof.
  induction p as [|f p IH]; intros node t Ha; cbn [__rb_erase_color]; [by intros [= <-]|].
  destruct (erase_step f node) as [[t1 up]|] eqn:E; [|done]. cbn [mbind option_bind].
  cbn [zip] in Ha. apply augmented_zip in Ha as [Hf Hp].
  destruct (erase_step_augmented _ _ _ _ E Hf) as [Ht Hl]. rewrite <-Hl in Hp.
  assert (augmented (zip p t1)) by (by apply augmented_zip).
  destruct up; [by apply IH|by intros [= <-]].
Qed.

(** Whatever the maximum below was, [propagate] makes the path right for [child]. *)
Lemma propagate_augmented p : forall old child,
  augmented_path p old -> augmented_path (propagate child p) child.
Proof.
  induction p as [|[c n s r|c l n s] p IH]; intros old child Hp; cbn; [done|..];
    destruct Hp as (Hs & Hr & Hp); zif; cbn; split_and!; by eauto.
Qed.

(** Also when the node of the first frame was exchanged. *)
Lemma propagate_right_augmented c l n s p child :
  augmented l -> augmented_path p (Some s) ->
  augmented_path (propagate child (InRight c l n s :: p)) child.
Proof. intros Hl Hp. cbn. zif; cbn; split_and!; eauto using propagate_augmented. Qed.

(** ** Balance *)

#[local] Hint Constructors balanced balanced_path : rb.

Lemma propagate_balanced p rest : forall child c k,
  balanced_path c k (p ++ rest) -> balanced_path c k (propagate child p ++ rest).
Proof.
  induction p as [|[c n s r|c l n s] p IH]; intros child c' k Hp; cbn in *; [done|..];
    zif; try done; inv Hp; cbn; eauto with rb.
Qed.

Lemma propagate_balanced_top p child c k :
  balanced_path c k p -> balanced_path c k (propagate child p).
Proof.
  intros H. rewrite <-(app_nil_r (propagate child p)). apply propagate_balanced.
  by rewrite app_nil_r.
Qed.

Lemma balanced_path_black k p : balanced_path RB_RED k p -> balanced_path RB_BLACK k p.
Proof. inversion 1; eauto with rb. Qed.

(** The black height of a node of colour [c] over children of height [k]. *)
Definition height (c : color) (k : nat) : nat :=
  match c with RB_BLACK => S k | RB_RED => k end.

(** What an iteration leaves at the place of a parent of colour [pc] whose children
    should have black height [S k]. *)
Definition step_balanced (pc : color) (k : nat) (t : tree) (up : bool) : Prop :=
  if up then pc = RB_BLACK /\ balanced RB_BLACK (S k) t
  else exists c, balanced c (height pc (S k)) t /\ (c = pc \/ c = RB_BLACK).

Lemma erase_left_balanced k node pc pn ps sl sn ss sr :
  balanced RB_BLACK k node -> balanced RB_BLACK (S k) (Node RB_BLACK sl sn ss sr) ->
  exists t up, erase_left node pc pn ps RB_BLACK sl sn ss sr = Some (t, up) /\
    step_balanced pc k t up.
Proof.
  intros Hn Hs. inversion Hs as [| |? cl cr ? ? ? ? Hl Hr]; subst. unfold erase_left.
  destruct (is_red sr) eqn:Er; [|destruct (is_red sl) eqn:El].
  - pose proof (balanced_is_red _ _ _ Hr Er); subst. eexists _, _. split; [reflexivity|].
    exists pc. split; [|by left]. pose proof (balanced_set_black _ _ _ Hr eq_refl).
    destruct pc; cbn; eauto with rb.
  - pose proof (balanced_is_red _ _ _ Hl El); subst. inv Hl.
    pose proof (balanced_not_red _ _ _ Hr Er); subst. eexists _, _. split; [reflexivity|].
    exists pc. split; [|by left]. cbn [set_black].
    erewrite set_black_id by done. destruct pc; cbn; eauto with rb.
  - pose proof (balanced_not_red _ _ _ Hr Er). pose proof (balanced_not_red _ _ _ Hl El).
    subst. destruct (decide (pc = RB_RED)) as [->|Hpc]; eexists _, _; (split; [reflexivity|]).
    + exists RB_BLACK. cbn. eauto with rb.
    + destruct pc; [done|]. cbn. eauto with rb.
Qed.

Lemma erase_right_balanced k node pc pn ps sl sn ss sr :
  balanced RB_BLACK k node -> balanced RB_BLACK (S k) (Node RB_BLACK sl sn ss sr) ->
  exists t up, erase_right node pc pn ps RB_BLACK sl sn ss sr = Some (t, up) /\
    step_balanced pc k t up.
Proof.
  intros Hn Hs. inversion Hs as [| |? cl cr ? ? ? ? Hl Hr]; subst. unfold erase_right.
  destruct (is_red sl) eqn:El; [|destruct (is_red sr) eqn:Er].
  - pose proof (balanced_is_red _ _ _ Hl El); subst. eexists _, _. split; [reflexivity|].
    exists pc. split; [|by left]. pose proof (balanced_set_black _ _ _ Hl eq_refl).
    destruct pc; cbn; eauto with rb.
  - pose proof (balanced_is_red _ _ _ Hr Er); subst. inv Hr.
    pose proof (balanced_not_red _ _ _ Hl El); subst. eexists _, _. split; [reflexivity|].
    exists pc. split; [|by left]. cbn [set_black].
    erewrite set_black_id by done. destruct pc; cbn; eauto with rb.
  - pose proof (balanced_not_red _ _ _ Hr Er). pose proof (balanced_not_red _ _ _ Hl El).
    subst. destruct (decide (pc = RB_RED)) as [->|Hpc]; eexists _, _; (split; [reflexivity|]).
    + exists RB_BLACK. cbn. eauto with rb.
    + destruct pc; [done|]. cbn. eauto with rb.
Qed.

Lemma black_node k t :
  balanced RB_BLACK (S k) t -> exists l n s r, t = Node RB_BLACK l n s r.
Proof. inversion 1; eauto. Qed.

(** The sibling, which must exist, is a level higher than the node. *)
Lemma erase_step_left pc pn ps sib c k node :
  balanced RB_BLACK k node -> balanced c (S k) sib -> (pc = RB_RED -> c = RB_BLACK) ->
  exists t up, erase_step (InLeft pc pn ps sib) node = Some (t, up) /\ step_balanced pc k t up.
Proof.
  intros Hn Hs Hc. destruct c.
  - destruct pc; [by specialize (Hc eq_refl)|].
    inversion Hs as [|? sl sn ss sr Hl Hr|]; subst.
    destruct (black_node _ _ Hl) as (tl & tn & ts & tr & ->). cbn.
    edestruct (erase_left_balanced k node RB_RED) as (t & up & E & Ht); [done..|].
    rewrite E. cbn [mbind option_bind]. eexists _, _. split; [reflexivity|].
    destruct up; [by destruct Ht|]. destruct Ht as (c & Ht & _). exists RB_BLACK. cbn.
    eauto with rb.
  - destruct (black_node _ _ Hs) as (sl & sn & ss & sr & ->).
    by apply erase_left_balanced.
Qed.

Lemma erase_step_right pc pn ps sib c k node :
  balanced RB_BLACK k node -> balanced c (S k) sib -> (pc = RB_RED -> c = RB_BLACK) ->
  exists t up, erase_step (InRight pc sib pn ps) node = Some (t, up) /\ step_balanced pc k t up.
Proof.
  intros Hn Hs Hc. destruct c.
  - destruct pc; [by specialize (Hc eq_refl)|].
    inversion Hs as [|? sl sn ss sr Hl Hr|]; subst.
    destruct (black_node _ _ Hr) as (tl & tn & ts & tr & ->). cbn.
    edestruct (erase_right_balanced k node RB_RED) as (t & up & E & Ht); [done..|].
    rewrite E. cbn [mbind option_bind]. eexists _, _. split; [reflexivity|].
    destruct up; [by destruct Ht|]. destruct Ht as (c & Ht & _). exists RB_BLACK. cbn.
    eauto with rb.
  - destruct (black_node _ _ Hs) as (sl & sn & ss & sr & ->).
    by apply erase_right_balanced.
Qed.

Lemma rb_erase_color_balanced p : forall k node,
  balanced RB_BLACK k node -> balanced_path RB_BLACK (S k) p ->
  exists t k', __rb_erase_color node p = Some t /\ balanced RB_BLACK k' t.
Proof.
  induction p as [|f p IH]; intros k node Hn Hp; cbn [__rb_erase_color]; [eauto|].
  assert (exists t up, erase_step f node = Some (t, up) /\
    step_balanced (frame_color f) k t up /\
    balanced_path (frame_color f) (height (frame_color f) (S k)) p)
    as (t & up & E & Ht & Hp').
  { inv Hp; cbn [frame_color];
      match goal with
      | H : balanced ?c (S k) ?sib |- context [InLeft ?pc ?n ?s ?sib] =>
          destruct (erase_step_left pc n s sib c k node) as (t & up & E & Ht)
      | H : balanced ?c (S k) ?sib |- context [InRight ?pc ?sib ?n ?s] =>
          destruct (erase_step_right pc n s sib c k node) as (t & up & E & Ht)
      end; try done; eauto 10. }
  rewrite E. cbn [mbind option_bind]. destruct up; cbn in Ht.
  - destruct Ht as [Hc Ht]. rewrite Hc in Hp'. by eapply IH.
  - destruct Ht as (c & Ht & Hc).
    destruct (balanced_zip p c (height (frame_color f) (S k)) t) as [k' ?]; [done| |eauto].
    destruct Hc as [->| ->]; [done|]. destruct (frame_color f); [|done].
    by apply balanced_path_black.
Qed.

(** ** Removal *)

Lemma zip_balanced p : forall k t,
  balanced RB_BLACK k (zip p t) -> exists c k', balanced c k' t /\ balanced_path c k' p.
Proof.
  induction p as [|f p IH]; intros k t H; cbn in H; [eauto with rb|].
  destruct (IH _ _ H) as (c & k' & Ht & Hp).
  destruct f as [[] n s r|[] l n s]; inv Ht; eauto with rb.
Qed.

Lemma leftmost_spec t : forall q, t <> Leaf ->
  exists sc sn ss sr q', leftmost t q = Some (sc, sn, sr, q') /\
    zip q' (Node sc Leaf sn ss sr) = zip q t /\ before q' = before q /\
    forall rest c k, balanced c k t -> balanced_path c k (q ++ rest) ->
      exists k', balanced sc k' (Node sc Leaf sn ss sr) /\ balanced_path sc k' (q' ++ rest).
Proof.
  induction t as [|c l IH n s r _]; intros q Ht; [done|].
  destruct l as [|lc ll ln ls lr].
  - exists c, n, s, r, q. split_and!; try done. intros rest c' k Hb Hp.
    exists k. inv Hb; eauto with rb.
  - destruct (IH (InLeft c n s r :: q)) as (sc & sn & ss & sr & q' & E & Z & Hb & B);
      [done|].
    exists sc, sn, ss, sr, q'. split_and!; [exact E|exact Z|exact Hb|].
    intros rest c' k Ht' Hp. inversion Ht'; subst; eapply B; try done; cbn; eauto with rb.
Qed.

(** A node that is replaced by its only child. *)
Definition only_child (c : color) (k : nat) (x : tree) : Prop :=
  if is_leaf x then k = match c with RB_RED => 0%nat | RB_BLACK => 1%nat end
  else c = RB_BLACK /\ k = 1%nat /\ balanced RB_BLACK 1 (set_black x).

Lemma only_child_right c c' k n s x :
  balanced c' k (Node c Leaf n s x) -> only_child c k x /\ set_color c x = set_black x.
Proof.
  intros H. inversion H as [|? ? ? ? ? Hl Hr|? cl cr ? ? ? ? Hl Hr]; subst.
  - inv Hl. inv Hr. done.
  - inv Hl. destruct x; [done|]. split; [|done]. split_and!; try done. inv Hr.
    cbn. eauto with rb.
Qed.

Lemma only_child_left c c' k n s x :
  balanced c' k (Node c x n s Leaf) -> only_child c k x /\ set_color c x = set_black x.
Proof.
  intros H. inversion H as [|? ? ? ? ? Hl Hr|? cl cr ? ? ? ? Hl Hr]; subst.
  - inv Hr. inv Hl. done.
  - inv Hr. destruct x; [done|]. split; [|done]. split_and!; try done. inv Hl.
    cbn. eauto with rb.
Qed.

(** The end of a removal: the child [x] took the place of a node of colour [c]. *)
Lemma replace_ok c k x q :
  only_child c k x -> balanced_path c k q -> augmented (zip q (set_black x)) ->
  exists t, (if is_leaf x && bool_decide (c = RB_BLACK)
             then __rb_erase_color (set_black x) q else Some (zip q (set_black x))) = Some t /\
    inorder t = inorder (zip q (set_black x)) /\ augmented t /\
    exists k', balanced RB_BLACK k' t.
Proof.
  intros Hx Hq Ha. unfold only_child in Hx. destruct x as [|xc xl xn xs xr]; cbn [is_leaf andb] in *.
  - subst k. case_bool_decide as Hc.
    + subst c. destruct (rb_erase_color_balanced q 0 Leaf) as (t & k' & E & Hb);
        [eauto with rb|done|].
      exists t. split_and!; [done|by apply rb_erase_color_inorder|
        by eapply rb_erase_color_augmented|eauto].
    + destruct c; [|done]. eexists. split; [done|]. split_and!; try done.
      eapply (balanced_zip q RB_BLACK 0); [eauto with rb|by apply balanced_path_black].
  - destruct Hx as (-> & -> & Hx). eexists. split; [done|]. split_and!; try done.
    by eapply balanced_zip.
Qed.

(** The node has at most one child [x]. *)
Lemma erase_single c k x s p :
  only_child c k x -> set_color c x = set_black x -> balanced_path c k p ->
  augmented x -> augmented_path p (Some s) ->
  exists t, (if is_leaf x && bool_decide (c = RB_BLACK)
             then __rb_erase_color (set_black x) (propagate (subtree_last_of x) p)
             else Some (zip (propagate (subtree_last_of x) p) (set_black x))) = Some t /\
    inorder t = before p ++ inorder x ++ after p /\ augmented t /\
    exists k', balanced RB_BLACK k' t.
Proof.
  intros Hx Hc Hp Ha Hap. set (q := propagate (subtree_last_of x) p).
  destruct (replace_ok c k x q Hx) as (t & E & Hin & Hat & Hb).
  - by apply propagate_balanced_top.
  - apply augmented_zip. rewrite subtree_last_set_black, augmented_set_black.
    eauto using propagate_augmented.
  - exists t. split_and!; try done. rewrite Hin, inorder_zip, inorder_set_black.
    unfold q. by destruct (propagate_around (subtree_last_of x) p) as [-> ->].
Qed.

(** The node has two children: its successor takes its place. *)
Lemma erase_two c l n s r p k :
  r <> Leaf -> balanced c k (Node c l n s r) -> balanced_path c k p ->
  augmented l -> augmented r -> augmented_path p (Some s) ->
  exists sc successor child2 q t, leftmost r [] = Some (sc, successor, child2, q) /\
    (let x := set_black child2 in
     let q := propagate (subtree_last_of x) q in
     let q := q ++ propagate (subtree_last_of (zip q x)) (InRight c l successor s :: p) in
     if is_leaf child2 && bool_decide (sc = RB_BLACK) then __rb_erase_color x q
     else Some (zip q x)) = Some t /\
    inorder t = before p ++ inorder l ++ inorder r ++ after p /\ augmented t /\
    exists k', balanced RB_BLACK k' t.
Proof.
  intros Hr Hb Hp Hal Har Hap.
  destruct (leftmost_spec r [] Hr) as (sc & sn & ss & sr & q & E & Z & Hbq & B).
  exists sc, sn, sr, q. cbn in Z. rewrite <-Z in Har.
  apply augmented_zip in Har as [(Hss & _ & Hasr) Haq].
  set (x := set_black sr). set (q1 := propagate (subtree_last_of x) q).
  set (q2 := propagate (subtree_last_of (zip q1 x)) (InRight c l sn s :: p)).
  assert (exists k', balanced sc k' (Node sc Leaf sn ss sr) /\ balanced_path sc k' (q1 ++ q2))
    as (k' & Hsb & Hq).
  { assert (exists cr kr, balanced cr kr r /\
      balanced_path cr kr (InRight c l sn s :: p)) as (cr & kr & Hbr & Hpr)
      by (inv Hb; eauto 10 with rb).
    destruct (B q2 cr kr Hbr) as (k' & H1 & H2).
    - by apply propagate_balanced_top.
    - exists k'. split; [done|]. by apply propagate_balanced. }
  destruct (only_child_right _ _ _ _ _ _ Hsb) as [Hx _].
  destruct (replace_ok sc k' sr (q1 ++ q2) Hx Hq) as (t & Et & Hin & Hat & Hbt).
  - rewrite zip_app. assert (augmented (zip q1 x)) as Hz.
    { apply augmented_zip. unfold x, q1. rewrite augmented_set_black.
      eauto using propagate_augmented. }
    apply augmented_zip. split; [done|]. by apply propagate_right_augmented.
  - exists t. split_and!; [done|exact Et| |done|done]. rewrite Hin, zip_app, !inorder_zip.
    unfold q2, q1. destruct (propagate_around (subtree_last_of (zip q1 x))
      (InRight c l sn s :: p)) as [E1 E2]. unfold q1 in E1, E2. rewrite E1, E2.
    destruct (propagate_around (subtree_last_of x) q) as [-> ->].
    rewrite <-Z, inorder_zip, inorder_set_black, Hbq. cbn. list_assoc. done.
Qed.

Lemma erase_ok c l n s r p k :
  balanced RB_BLACK k (zip p (Node c l n s r)) -> augmented (zip p (Node c l n s r)) ->
  exists t, rb_erase_augmented (Node c l n s r) p = Some t /\
    inorder t = before p ++ inorder l ++ inorder r ++ after p /\ augmented t /\
    exists k', balanced RB_BLACK k' t.
Proof.
  intros Hb ((_ & Hal & Har) & Hap)%augmented_zip.
  destruct (zip_balanced _ _ _ Hb) as (c' & k' & Hn & Hp).
  assert (c' = c) as -> by (by inv Hn). unfold rb_erase_augmented, __rb_erase_augmented.
  destruct l as [|lc ll ln ls lr]; [|destruct r as [|rc rl rn rs rr]].
  - destruct (only_child_right _ _ _ _ _ _ Hn) as [Hx Hc]. cbn [mbind option_bind].
    destruct (erase_single c k' r s p) as (t & E & H); [done..|].
    exists t. split; [|done]. rewrite Hc, subtree_last_set_black. destruct r; exact E.
  - destruct (only_child_left _ _ _ _ _ _ Hn) as [Hx Hc]. cbn [mbind option_bind].
    destruct (erase_single c k' (Node lc ll ln ls lr) s p) as (t & E & H); [done..|].
    exists t. rewrite Hc, subtree_last_set_black. split; [exact E|]. by rewrite app_nil_l.
  - destruct (erase_two c (Node lc ll ln ls lr) n s (Node rc rl rn rs rr) p k')
      as (sc & sn & child2 & q & t & E1 & E2 & H); [done..|].
    exists t. rewrite E1. cbn [mbind option_bind]. split; [exact E2|done].
Qed.

Lemma sorted_delete l1 x l2 : sorted (l1 ++ x :: l2) -> sorted (l1 ++ l2).
Proof.
  rewrite !sorted_app, sorted_cons. intros (H1 & [H2 _] & H3). split_and!; try done.
  intros a b Ha Hb. apply H3; [done|by right].
Qed.

(** Where a node is found, the tree is split around it. *)
Lemma locate_split root pre n post :
  unique_idx (inorder root) -> inorder root = pre ++ n :: post ->
  exists c l s r p, locate (it_idx n) root [] = Some (Node c l n s r, p) /\
    zip p (Node c l n s r) = root /\
    pre = before p ++ inorder l /\ post = inorder r ++ after p.
Proof.
  intros Hu Ht.
  destruct (locate_complete (it_idx n) root [] n) as [[t1 p] E];
    [rewrite Ht; set_solver|done|].
  destruct (locate_zip _ _ _ _ _ E) as (Hz & c & l & m & s & r & -> & Hm). cbn in Hz.
  rewrite <-Hz, inorder_zip in Ht, Hu. cbn in Ht, Hu.
  assert (before p ++ (inorder l ++ m :: inorder r) ++ after p =
    (before p ++ inorder l) ++ m :: inorder r ++ after p) as Hassoc by (list_assoc; done).
  rewrite Hassoc in Ht, Hu.
  destruct (unique_idx_split _ _ _ _ _ _ Hu Ht Hm) as (<- & <- & <-).
  exists c, l, s, r, p. done.
Qed.

(** C25: removing a node from the interval tree never dereferences a null pointer and
    returns a tree of the same type as insertion builds: ordered by start, every
    [__subtree_last] the maximum of its subtree, the root black, no red node with a
    red child and the same number of black nodes on every path down; exactly the
    node is gone. *)
Theorem interval_tree_remove_correct (t : tree) (pre post : list interval_tree_node)
    (n : interval_tree_node) :
  wf_tree t -> unique_idx (inorder t) -> inorder t = pre ++ n :: post ->
  exists t', interval_tree_remove (it_idx n) t = Some t' /\ wf_tree t' /\
    inorder t' = pre ++ post.
Proof.
  intros (Hs & Ha & k & Hb) Hu Ht.
  destruct (locate_split t pre n post Hu Ht) as (c & l & s & r & p & E & Hz & Hpre & Hpost).
  rewrite <-Hz in Ha, Hb.
  destruct (erase_ok c l n s r p k Hb Ha) as (t' & E' & Hin & Ha' & Hb').
  assert (inorder t' = pre ++ post) as Hin' by (rewrite Hin, Hpre, Hpost; list_assoc; done).
  exists t'. unfold interval_tree_remove. rewrite E. cbn [mbind option_bind].
  split_and!; [done| |done]. split_and!; [|done|done].
  rewrite Hin'. rewrite Ht in Hs. by eapply sorted_delete.
Qed.

(** The node to remove, in a tree built by insertion. *)
Lemma interval_tree_remove_correct_witness :
  exists t t', insert_all example_nodes = Some t /\
    interval_tree_remove 3 t = Some t' /\ wf_tree t' /\
    map it_idx (inorder t') = [4; 1; 2; 5].
Proof.
  eexists. match goal with |- exists t', ?A = Some _ /\ _ =>
    let r := eval vm_compute in A in match r with Some ?t =>
      destruct (interval_tree_remove_correct t [ITNode 4 0 9; ITNode 1 10 19]
        [ITNode 2 30 39; ITNode 5 40 49] (ITNode 3 20 29)) as (t' & E & Hwf & Hin) end end.
  - split_and!.
    + repeat constructor; cbn; lia.
    + vm_compute. repeat split; reflexivity.
    + eexists. repeat econstructor.
  - apply (bool_decide_unpack _). vm_compute. done.
  - reflexivity.
  - exists t'. split; [vm_compute; reflexivity|]. split; [exact E|].
    split; [exact Hwf|]. by rewrite Hin.
Defined.

(** ** The walks *)

Lemma rb_first_head t : rb_first t = head (inorder t).
Proof.
  induction t as [|c l IH n s r _]; [done|]. destruct l as [|lc ll ln ls lr]; [done|].
  transitivity (rb_first (Node lc ll ln ls lr)); [done|]. rewrite IH. cbn [inorder].
  by destruct (inorder ll).
Qed.

Lemma rb_last_last t : rb_last t = last (inorder t).
Proof.
  induction t as [|c l _ n s r IH]; [done|]. cbn [inorder].
  destruct r as [|rc rl rn rs rr]; [cbn; by rewrite last_snoc|].
  transitivity (rb_last (Node rc rl rn rs rr)); [done|].
  rewrite IH. cbn [inorder]. rewrite (last_app_cons (inorder l)), last_cons.
  destruct (last (inorder rl ++ rn :: inorder rr)) eqn:E; [done|].
  apply last_None in E. by destruct (inorder rl).
Qed.

Lemma next_up_head p : next_up p = head (after p).
Proof. by induction p as [|[] p IH]. Qed.

Lemma prev_up_last p : prev_up p = last (before p).
Proof.
  induction p as [|[] p IH]; cbn; [done..|]. by rewrite app_assoc, last_snoc.
Qed.

(** The walks visit the neighbours in order. *)
Lemma rb_walk_correct root pre n post :
  unique_idx (inorder root) -> inorder root = pre ++ n :: post ->
  rb_next (it_idx n) root = head post /\ rb_prev (it_idx n) root = last pre.
Proof.
  intros Hu Ht. destruct (locate_split root pre n post Hu Ht)
    as (c & l & s & r & p & E & _ & -> & ->).
  unfold rb_next, rb_prev. rewrite E. cbn [mbind option_bind]. split.
  - destruct r as [|rc rl rn rs rr]; [apply next_up_head|]. rewrite rb_first_head.
    cbn [inorder]. by destruct (inorder rl).
  - destruct l as [|lc ll ln ls lr]; [rewrite app_nil_r; apply prev_up_last|].
    rewrite rb_last_last, last_app. cbn [inorder]. rewrite last_app_cons, last_cons.
    by destruct (last (inorder lr)).
Qed.

(** Post-order: children before their parent. *)
Fixpoint postorder (t : tree) : list interval_tree_node :=
  match t with
  | Leaf => []
  | Node _ l n _ r => postorder l ++ postorder r ++ [n]
  end.

Fixpoint post_after (p : path) : list interval_tree_node :=
  match p with
  | [] => []
  | InLeft _ n _ r :: p => postorder r ++ n :: post_after p
  | InRight _ _ n _ :: p => n :: post_after p
  end.

Fixpoint post_before (p : path) : list interval_tree_node :=
  match p with
  | [] => []
  | InLeft _ _ _ _ :: p => post_before p
  | InRight _ l _ _ :: p => post_before p ++ postorder l
  end.

Lemma postorder_zip p t : postorder (zip p t) = post_before p ++ postorder t ++ post_after p.
Proof.
  revert t. induction p as [|[c n s r|c l n s] p IH]; intros t; cbn;
    [by rewrite app_nil_r|..]; rewrite IH; cbn; list_assoc; done.
Qed.

Lemma left_deepest_head t : rb_left_deepest_node t = head (postorder t).
Proof.
  induction t as [|c l IHl n s r IHr]; [done|].
  destruct l as [|lc ll ln ls lr]; [destruct r as [|rc rl rn rs rr]; [done|]|].
  - transitivity (rb_left_deepest_node (Node rc rl rn rs rr)); [done|]. rewrite IHr.
    cbn [postorder app]. destruct (postorder rl), (postorder rr); done.
  - transitivity (rb_left_deepest_node (Node lc ll ln ls lr)); [done|]. rewrite IHl.
    cbn [postorder]. destruct (postorder ll), (postorder lr); done.
Qed.

Lemma postorder_perm t : postorder t ≡ₚ inorder t.
Proof.
  induction t as [|c l IHl n s r IHr]; cbn; [done|]. rewrite IHl, IHr.
  by rewrite (comm app (inorder r)).
Qed.

Lemma rb_next_postorder_correct root pre n post :
  unique_idx (inorder root) -> postorder root = pre ++ n :: post ->
  rb_next_postorder (it_idx n) root = head post.
Proof.
  intros Hu Ht.
  assert (n ∈ inorder root) as Hn by (rewrite <-postorder_perm, Ht; set_solver).
  apply list_elem_of_split in Hn as (pre' & post' & Hin).
  destruct (locate_split root pre' n post' Hu Hin) as (c & l & s & r & p & E & Hz & _).
  assert (unique_idx (postorder root)) as Hu'.
  { unfold unique_idx in *. by rewrite postorder_perm. }
  rewrite <-Hz, postorder_zip in Ht, Hu'. cbn [postorder] in Ht, Hu'.
  assert (post_before p ++ (postorder l ++ postorder r ++ [n]) ++ post_after p =
    (post_before p ++ postorder l ++ postorder r) ++ n :: post_after p) as Hassoc
    by (list_assoc; done).
  rewrite Hassoc in Ht, Hu'.
  destruct (unique_idx_split _ _ _ _ _ _ Hu' Ht eq_refl) as (_ & _ & <-).
  unfold rb_next_postorder. rewrite E. cbn [mbind option_bind].
  destruct p as [|[c' m s' [|rc rl rn rs rr]|c' l' m s'] p]; try done.
  rewrite left_deepest_head. cbn [post_after postorder].
  by destruct (postorder rl), (postorder rr).
Qed.

End IntervalTreeErase.
