(* ===== verification/Disasm.v ===== *)
(** * Examining instructions ([polylib/libs/syscall-intercept/src/disasm_wrapper.c])

    The interception library looks at machine code through a small description of
    each instruction, made from what the disassembler capstone reports.  Capstone
    is a parameter.  [None] is a failed assertion, which ends the process. *)

From S2P Require Import Prelude.

#[local] Open Scope Z_scope.

(** ** What is used of capstone *)

Inductive x86_insn :=
| X86_INS_SYSCALL | X86_INS_CALL | X86_INS_RET
| X86_INS_JAE | X86_INS_JA | X86_INS_JBE | X86_INS_JB | X86_INS_JCXZ | X86_INS_JECXZ
| X86_INS_JE | X86_INS_JGE | X86_INS_JG | X86_INS_JLE | X86_INS_JL | X86_INS_JMP
| X86_INS_JNE | X86_INS_JNO | X86_INS_JNP | X86_INS_JNS | X86_INS_JO | X86_INS_JP
| X86_INS_JRCXZ | X86_INS_JS | X86_INS_LOOP
| X86_INS_NOP | X86_INS_LEA
| X86_INS_OTHER (id : Z).

#[export] Instance x86_insn_eq_dec : EqDecision x86_insn.
Proof. solve_decision. Defined.

Inductive x86_reg := X86_REG_IP | X86_REG_RIP | X86_REG_OTHER (r : Z).

Inductive x86_op :=
| X86_OP_REG (reg : x86_reg)
| X86_OP_MEM (base index : x86_reg) (disp : Z)
| X86_OP_IMM (imm : Z)
| X86_OP_OTHER.

Record cs_insn := CsInsn {
  cs_id : x86_insn;
  cs_size : Z;
  cs_operands : list x86_op
}.

(** [cs_disasm_iter] on [size] bytes of code at an address. *)
Class Capstone := cs_disasm_iter : mem -> Z -> Z -> option cs_insn.

(** An instruction has one to fifteen bytes and lies in the code given. *)
Class CapstoneLaws `{Capstone} := {
  cs_disasm_size m code size insn :
    cs_disasm_iter m code size = Some insn ->
    1 <= cs_size insn <= size /\ cs_size insn <= 15;
  cs_disasm_syscall m code size insn :
    cs_disasm_iter m code size = Some insn -> cs_id insn = X86_INS_SYSCALL ->
    cs_size insn = 2
}.

Module Disasm.

(** [struct intercept_disasm_result], without the name kept for debugging. *)
Record intercept_disasm_result := DisasmResult {
  d_address : Z;
  d_is_set : bool;
  d_is_syscall : bool;
  d_length : Z;
  d_has_ip_relative_opr : bool;
  d_is_endbr : bool;
  d_is_lea_rip : bool;
  d_arg_register_bits : Z;
  d_is_call : bool;
  d_is_jump : bool;
  d_is_rel_jump : bool;
  d_is_indirect_jump : bool;
  d_is_ret : bool;
  d_is_nop : bool;
  d_rip_disp : Z;
  d_rip_ref_addr : Z
}.

#[export] Instance disasm_result_copy : Copy intercept_disasm_result := fun r =>
  DisasmResult (d_address r) (d_is_set r) (d_is_syscall r) (d_length r)
    (d_has_ip_relative_opr r) (d_is_endbr r) (d_is_lea_rip r) (d_arg_register_bits r)
    (d_is_call r) (d_is_jump r) (d_is_rel_jump r) (d_is_indirect_jump r) (d_is_ret r)
    (d_is_nop r) (d_rip_disp r) (d_rip_ref_addr r).

(** [{.address = code, 0, }] *)
Definition zero_result (code : Z) : intercept_disasm_result :=
  DisasmResult code false false 0 false false false 0 false false false false false
    false 0 0.

Definition is_ip (r : x86_reg) : bool :=
  match r with X86_REG_IP | X86_REG_RIP => true | X86_REG_OTHER _ => false end.

Definition assert_ {A} (b : bool) (k : option A) : option A := if b then k else None.

(** [check_op] *)
Definition check_op (result : intercept_disasm_result) (op : x86_op) (code : Z)
    : option intercept_disasm_result :=
  let rip := code + d_length result in
  match op with
  | X86_OP_REG reg =>
      let result :=
        if is_ip reg
        then result <| d_has_ip_relative_opr := true |> <| d_rip_disp := 0 |>
                    <| d_rip_ref_addr := rip |>
        else result in
      if d_is_jump result
      then assert_ (negb (d_is_rel_jump result))
             (Some (result <| d_is_indirect_jump := true |>))
      else Some result
  | X86_OP_MEM base index disp =>
      if is_ip base || is_ip index || d_is_jump result
      then
        let result := result <| d_has_ip_relative_opr := true |> in
        assert_ (negb (d_is_indirect_jump result)) (
        let result := if d_is_jump result then result <| d_is_rel_jump := true |>
                      else result in
        assert_ ((disp <=? 2 ^ 31 - 1) && (- 2 ^ 31 <=? disp)) (
        let result := result <| d_rip_disp := s32 disp |> in
        Some (result <| d_rip_ref_addr := rip + d_rip_disp result |>)))
      else Some result
  | X86_OP_IMM imm =>
      if d_is_jump result
      then
        assert_ (negb (d_is_indirect_jump result)) (
        Some (result <| d_has_ip_relative_opr := true |> <| d_is_rel_jump := true |>
                     <| d_rip_ref_addr := imm |> <| d_rip_disp := s32 (imm - rip) |>))
      else Some result
  | X86_OP_OTHER => Some result
  end.

Definition check_ops (result : intercept_disasm_result) (ops : list x86_op) (code : Z)
    : option intercept_disasm_result :=
  foldl (fun r op => r ← r; check_op r op code) (Some result) ops.

(** The instructions of the [switch] that are jumps. *)
Definition is_jump_id (id : x86_insn) : bool :=
  match id with
  | X86_INS_SYSCALL | X86_INS_RET | X86_INS_NOP | X86_INS_LEA | X86_INS_OTHER _ => false
  | _ => true
  end.

Definition endbr64 : list byte := [xf3; x0f; x1e; xfa].

(** [intercept_disasm_next_instruction]; [end_] is the last byte of the text. *)
Definition intercept_disasm_next_instruction `{Capstone} (m : mem) (end_ code : Z)
    : option intercept_disasm_result :=
  let result := zero_result code in
  let size := end_ - code + 1 in
  if (4 <=? size) && bool_decide (mem_read m code 4 = endbr64) then
    Some (result <| d_is_set := true |> <| d_is_endbr := true |> <| d_length := 4 |>)
  else
    match cs_disasm_iter m code size with
    | None => Some result
    | Some insn =>
        let result := result <| d_length := cs_size insn |> in
        assert_ (negb (d_length result =? 0)) (
        let result :=
          result <| d_is_syscall := bool_decide (cs_id insn = X86_INS_SYSCALL) |>
                 <| d_is_call := bool_decide (cs_id insn = X86_INS_CALL) |>
                 <| d_is_ret := bool_decide (cs_id insn = X86_INS_RET) |>
                 <| d_is_rel_jump := false |> <| d_is_indirect_jump := false |> in
        assert_ (implb (is_jump_id (cs_id insn)) (length (cs_operands insn) =? 1)%nat) (
        let result :=
          if is_jump_id (cs_id insn) then result <| d_is_jump := true |>
          else if bool_decide (cs_id insn = X86_INS_NOP)
          then result <| d_is_nop := true |>
          else result <| d_is_jump := false |> in
        let result := result <| d_has_ip_relative_opr := false |> in
        result ← check_ops result (cs_operands insn) code;
        let result := result <| d_is_lea_rip :=
          bool_decide (cs_id insn = X86_INS_LEA) && d_has_ip_relative_opr result |> in
        let result :=
          if d_is_lea_rip result then
            result <| d_arg_register_bits :=
              Z.lor (Z.shiftl (Z.land (Z_of_byte (m code)) 4) 1)
                (Z.land (Z.shiftr (Z_of_byte (m (code + 2))) 3) 7) |>
          else result in
        Some (result <| d_is_set := true |>)))
    end.

(** ** What a result says *)

(** The operands decide about addresses only. *)
Record op_kept (r r' : intercept_disasm_result) : Prop := {
  ok_address : d_address r' = d_address r;
  ok_set : d_is_set r' = d_is_set r;
  ok_syscall : d_is_syscall r' = d_is_syscall r;
  ok_length : d_length r' = d_length r;
  ok_endbr : d_is_endbr r' = d_is_endbr r;
  ok_call : d_is_call r' = d_is_call r;
  ok_jump : d_is_jump r' = d_is_jump r;
  ok_ret : d_is_ret r' = d_is_ret r;
  ok_nop : d_is_nop r' = d_is_nop r;
  ok_bits : d_arg_register_bits r' = d_arg_register_bits r
}.

#[export] Instance op_kept_preorder : PreOrder op_kept.
Proof.
  split; [by intros r; split|]. intros r1 r2 r3 [] []. split; congruence.
Qed.

Lemma check_op_kept r op code r' : check_op r op code = Some r' -> op_kept r r'.
Proof.
  unfold check_op, assert_. intros H.
  destruct op; repeat case_match; simplify_eq/=; by split.
Qed.

Lemma check_ops_kept ops code : forall r r',
  check_ops r ops code = Some r' -> op_kept r r'.
Proof.
  induction ops as [|op ops IH] using rev_ind; intros r r'; unfold check_ops.
  - by intros [= <-].
  - rewrite foldl_app. cbn. fold (check_ops r ops code).
    destruct (check_ops r ops code) as [r1|] eqn:E; [|done]. cbn.
    intros H. transitivity r1; [by apply IH|by apply check_op_kept in H].
Qed.

(** A result is a decoded instruction inside the text, or has length zero. *)
Record decoded (end_ code : Z) (r : intercept_disasm_result) : Prop := {
  dc_address : d_address r = code;
  dc_set : d_is_set r = true;
  dc_length : 1 <= d_length r <= end_ - code + 1;
  dc_syscall : d_is_syscall r = true -> d_length r = 2 /\ d_is_nop r = false;
  dc_max : d_length r <= 15;
  dc_bits : 0 <= d_arg_register_bits r < 16;
  dc_lea : d_is_lea_rip r = true -> d_is_syscall r = false /\ d_is_nop r = false
}.

(** The number of a register: a bit of the prefix and three of the next byte. *)
Lemma register_bits b c :
  0 <= Z.lor (Z.shiftl (Z.land (Z_of_byte b) 4) 1)
         (Z.land (Z.shiftr (Z_of_byte c) 3) 7) < 16.
Proof.
  assert (Z.land (Z_of_byte b) 4 = 0 \/ Z.land (Z_of_byte b) 4 = 4) as Hb
    by (destruct b; vm_compute; auto).
  assert (0 <= Z.land (Z.shiftr (Z_of_byte c) 3) 7 < 8) as Hc
    by (destruct c; vm_compute; split; congruence).
  set (x := Z.land (Z.shiftr _ _) _) in *. clearbody x.
  assert (x = 0 \/ x = 1 \/ x = 2 \/ x = 3 \/ x = 4 \/ x = 5 \/ x = 6 \/ x = 7) as Hx by lia.
  by destruct Hb as [-> | ->], Hx as [-> | [-> | [-> | [-> | [-> | [-> | [-> | ->]]]]]]].
Qed.

Lemma next_instruction_spec `{CapstoneLaws} m end_ code r :
  intercept_disasm_next_instruction m end_ code = Some r ->
  r = zero_result code \/ decoded end_ code r.
Proof.
  unfold intercept_disasm_next_instruction.
  destruct (_ && _) eqn:Eb.
  { zbool. intros [= <-]. right. by split. }
  destruct (cs_disasm_iter m code (end_ - code + 1)) as [insn|] eqn:Ed;
    [|intros [= <-]; by left].
  pose proof (cs_disasm_size _ _ _ _ Ed) as Hsz.
  unfold assert_. destruct (negb _); [|done]. destruct (implb _ _); [|done].
  destruct (check_ops _ _ _) as [r1|] eqn:Ec; [|done]. apply check_ops_kept in Ec.
  intros [= <-]. right.
  assert (d_address r1 = code /\ d_length r1 = cs_size insn /\
    d_is_syscall r1 = bool_decide (cs_id insn = X86_INS_SYSCALL) /\
    d_is_nop r1 = bool_decide (cs_id insn = X86_INS_NOP) /\
    d_arg_register_bits r1 = 0) as (Ha & Hl & Hs & Hn & Hab).
  { rewrite (ok_address _ _ Ec), (ok_length _ _ Ec), (ok_syscall _ _ Ec), (ok_nop _ _ Ec),
      (ok_bits _ _ Ec).
    by destruct insn as [[] sz ops]. }
  assert (forall b : bool, let r2 := r1 <| d_is_lea_rip := b |> in
    let r3 := (if b then r2 <| d_arg_register_bits :=
              Z.lor (Z.shiftl (Z.land (Z_of_byte (m code)) 4) 1)
                (Z.land (Z.shiftr (Z_of_byte (m (code + 2))) 3) 7) |> else r2)
      <| d_is_set := true |> in
    (b = true -> d_is_syscall r1 = false /\ d_is_nop r1 = false) -> decoded end_ code r3)
    as Hgo.
  { intros b r2 r3 Hb. subst r2 r3. destruct b; split; cbn; rewrite ?Ha, ?Hl, ?Hab; try done;
      try apply register_bits; try apply Hsz; rewrite ?Hs, ?Hn; intros Hx; try done; try (apply bool_decide_eq_true in Hx;
      split; [by eapply cs_disasm_syscall|by rewrite Hx]).
    all: rewrite <-Hs, <-Hn; by apply Hb. }
  apply Hgo. intros Hb. apply andb_true_iff in Hb as [Hb%bool_decide_eq_true _].
  rewrite Hs, Hn, Hb. done.
Qed.

End Disasm.
