(* ===== verification/InterceptDesc.v ===== *)
(** * Collecting information about a library to patch
      ([polylib/libs/syscall-intercept/src/intercept_desc.c], [intercept.h])

    For each object to patch the interception library reads the symbol and
    relocation tables of its file, disassembles its text, and records the system
    call instructions, the padding it may use and every address that is the target
    of a jump; it also looks for a place for a table of jumps near the text.
    [None] is the end of the process by [xabort] or a failed assertion. *)

From Stdlib Require Import Ascii.
From S2P Require Import Prelude Defs Util Disasm.
Import Util.Util Disasm.

#[local] Open Scope Z_scope.

Module InterceptDesc.

Definition SYSCALL_INS_SIZE : Z := 2.
Definition JUMP_INS_SIZE : Z := 5.
Definition JMP_OPCODE : byte := xe9.
Definition SHORT_JMP_OPCODE : byte := xeb.
Definition INT3_OPCODE : byte := xcc.
Definition INT32_MAX : Z := 2 ^ 31 - 1.
Definition INT32_MIN : Z := - 2 ^ 31.

(** [struct range] *)
Record range := Range { r_address : Z; r_size : Z }.

(** [struct patch_desc]; the path of the library is only printed. *)
Record patch_desc := PatchDesc {
  p_syscall_addr : Z;
  p_syscall_offset : Z;
  p_asm_wrapper : Z;
  p_dst_jmp_patch : Z;
  p_return_address : Z;
  p_preceding_ins_2 : intercept_disasm_result;
  p_preceding_ins : intercept_disasm_result;
  p_following_ins : intercept_disasm_result;
  p_uses_prev_ins_2 : bool;
  p_uses_prev_ins : bool;
  p_uses_next_ins : bool;
  p_uses_nop_trampoline : bool;
  p_nop_trampoline : range
}.

#[export] Instance patch_desc_copy : Copy patch_desc := fun p =>
  PatchDesc (p_syscall_addr p) (p_syscall_offset p) (p_asm_wrapper p) (p_dst_jmp_patch p)
    (p_return_address p) (p_preceding_ins_2 p) (p_preceding_ins p) (p_following_ins p)
    (p_uses_prev_ins_2 p) (p_uses_prev_ins p) (p_uses_next_ins p)
    (p_uses_nop_trampoline p) (p_nop_trampoline p).

(** ELF structures, as far as they are used. *)
Record Elf64_Shdr := Shdr { sh_type : Z; sh_offset : Z; sh_addr : Z; sh_size : Z }.
Record Elf64_Sym := Sym { st_info : Z; st_shndx : Z; st_value : Z; st_size : Z }.
Record Elf64_Rela := Rela { r_info : Z; r_addend : Z }.

Definition SHT_SYMTAB : Z := 2.
Definition SHT_RELA : Z := 4.
Definition SHT_DYNSYM : Z := 11.
Definition STT_FUNC : Z := 2.
Definition R_X86_64_RELATIVE : Z := 8.
Definition R_X86_64_RELATIVE64 : Z := 38.
Definition ELF64_ST_TYPE (info : Z) : Z := Z.land info 0xf.
Definition ELF64_R_TYPE (info : Z) : Z := Z.land info 0xffffffff.

(** What the reads of the object file give: its sections with their names, and the
    entries of a symbol or relocation table; [None] for a failed read. *)
Record elf_file := ElfFile {
  elf_sections : option (list (string * Elf64_Shdr));
  elf_syms : Elf64_Shdr -> option (list Elf64_Sym);
  elf_relas : Elf64_Shdr -> option (list Elf64_Rela)
}.

(** [struct intercept_desc]; [i_items] with its [count] and the allocated space. *)
Record intercept_desc := InterceptDesc {
  i_uses_trampoline_table : bool;
  i_base_addr : Z;
  i_text_section_index : Z;
  i_symbol_tables : list Elf64_Shdr;
  i_rela_tables : list Elf64_Shdr;
  i_text_offset : Z;
  i_text_start : Z;
  i_text_end : Z;
  i_items : list patch_desc;
  i_items_space : Z;
  i_jump_table : list Z;
  i_max_nop_count : Z;
  i_nop_table : list range;
  i_trampoline_table : Z;
  i_trampoline_table_size : Z;
  i_next_trampoline : Z
}.

#[export] Instance intercept_desc_copy : Copy intercept_desc := fun d =>
  InterceptDesc (i_uses_trampoline_table d) (i_base_addr d) (i_text_section_index d)
    (i_symbol_tables d) (i_rela_tables d) (i_text_offset d) (i_text_start d)
    (i_text_end d) (i_items d) (i_items_space d) (i_jump_table d) (i_max_nop_count d)
    (i_nop_table d) (i_trampoline_table d) (i_trampoline_table_size d)
    (i_next_trampoline d).

(** ** Sections *)

(** [add_table_info]: room for 16 headers. *)
Definition add_table_info (list_ : list Elf64_Shdr) (header : Elf64_Shdr)
    : option (list Elf64_Shdr) :=
  if zlength list_ <? 0x10 then Some (list_ ++ [header]) else None.

Definition add_text_info (desc : intercept_desc) (header : Elf64_Shdr) (index : Z)
    : intercept_desc :=
  let text_start := i_base_addr desc + sh_addr header in
  desc <| i_text_offset := sh_offset header |> <| i_text_start := text_start |>
       <| i_text_end := text_start + sh_size header - 1 |>
       <| i_text_section_index := index |>.

(** The loop of [find_sections], from section [i] on; also whether the text was
    found. *)
Fixpoint sections_loop (sections : list (string * Elf64_Shdr)) (i : Z) (found : bool)
    (desc : intercept_desc) : option (bool * intercept_desc) :=
  match sections with
  | [] => Some (found, desc)
  | (name, section) :: sections =>
      if String.eqb name ".text" then
        sections_loop sections (i + 1) true (add_text_info desc section i)
      else if (sh_type section =? SHT_SYMTAB) || (sh_type section =? SHT_DYNSYM) then
        tables ← add_table_info (i_symbol_tables desc) section;
        sections_loop sections (i + 1) found (desc <| i_symbol_tables := tables |>)
      else if sh_type section =? SHT_RELA then
        tables ← add_table_info (i_rela_tables desc) section;
        sections_loop sections (i + 1) found (desc <| i_rela_tables := tables |>)
      else sections_loop sections (i + 1) found desc
  end.

Definition find_sections (file : elf_file) (desc : intercept_desc)
    : option intercept_desc :=
  sections ← elf_sections file;
  '(found, desc) ← sections_loop sections 0 false
                     (desc <| i_symbol_tables := [] |> <| i_rela_tables := [] |>);
  assert_ found (Some desc).

(** ** Tables *)

Definition text_bytes (desc : intercept_desc) : Z := i_text_end desc - i_text_start desc + 1.

Definition allocate_jump_table (desc : intercept_desc) : option intercept_desc :=
  assert_ (i_text_start desc <? i_text_end desc)
    (Some (desc <| i_jump_table := replicate (Z.to_nat (text_bytes desc / 8 + 1)) 0 |>)).

Definition calculate_table_count (desc : intercept_desc) : option Z :=
  assert_ (i_text_start desc <? i_text_end desc)
    (Some (if 0x10000 <? text_bytes desc then text_bytes desc / 64 else 1024)).

Definition allocate_nop_table (desc : intercept_desc) : option intercept_desc :=
  count ← calculate_table_count desc;
  Some (desc <| i_max_nop_count := count |> <| i_nop_table := [] |>).

Definition mark_nop (desc : intercept_desc) (address size : Z) : intercept_desc :=
  if zlength (i_nop_table desc) =? i_max_nop_count desc then desc
  else desc <| i_nop_table := i_nop_table desc ++ [Range address size] |>.

Definition is_bit_set (table : list Z) (offset : Z) : bool :=
  negb (Z.land (default 0 (table !! Z.to_nat (offset / 8)))
          (Z.shiftl 1 (offset mod 8)) =? 0).

Definition set_bit (table : list Z) (offset : Z) : list Z :=
  let tmp := u8 (Z.shiftl 1 (offset mod 8)) in
  alter (fun b => u8 (Z.lor b tmp)) (Z.to_nat (offset / 8)) table.

Definition in_text (desc : intercept_desc) (addr : Z) : bool :=
  (i_text_start desc <=? addr) && (addr <=? i_text_end desc).

Definition has_jump (desc : intercept_desc) (addr : Z) : bool :=
  if in_text desc addr then is_bit_set (i_jump_table desc) (addr - i_text_start desc)
  else false.

Definition mark_jump (desc : intercept_desc) (addr : Z) : intercept_desc :=
  if in_text desc addr
  then desc <| i_jump_table := set_bit (i_jump_table desc) (addr - i_text_start desc) |>
  else desc.

(** ** Jump targets in the tables of the file *)

Definition mark_sym (desc : intercept_desc) (sym : Elf64_Sym) : intercept_desc :=
  if negb (ELF64_ST_TYPE (st_info sym) =? STT_FUNC) then desc
  else if negb (st_shndx sym =? i_text_section_index desc) then desc
  else
    let address := i_base_addr desc + st_value sym in
    let desc := mark_jump desc address in
    if negb (st_size sym =? 0) then mark_jump desc (address + st_size sym) else desc.

Definition find_jumps_in_section_syms (file : elf_file) (desc : intercept_desc)
    (section : Elf64_Shdr) : option intercept_desc :=
  syms ← elf_syms file section;
  Some (foldl mark_sym desc syms).

Definition mark_rela (desc : intercept_desc) (rela : Elf64_Rela) : intercept_desc :=
  if (ELF64_R_TYPE (r_info rela) =? R_X86_64_RELATIVE) ||
     (ELF64_R_TYPE (r_info rela) =? R_X86_64_RELATIVE64)
  then mark_jump desc (i_base_addr desc + r_addend rela) else desc.

Definition find_jumps_in_section_rela (file : elf_file) (desc : intercept_desc)
    (section : Elf64_Shdr) : option intercept_desc :=
  relas ← elf_relas file section;
  Some (foldl mark_rela desc relas).

(** ** The text *)

Definition has_pow2_count (count : Z) : bool := Z.land count (count - 1) =? 0.

(** [add_new_patch], with the initialisation that follows it. *)
Definition add_new_patch (desc : intercept_desc) (patch : patch_desc) : intercept_desc :=
  let count := zlength (i_items desc) in
  let desc :=
    if count =? 0 then desc <| i_items_space := 1 |>
    else if has_pow2_count count then desc <| i_items_space := 2 * count |>
    else desc in
  desc <| i_items := i_items desc ++ [patch] |>.

Definition is_overwritable_nop (ins : intercept_disasm_result) : bool :=
  d_is_nop ins && (2 + 5 <=? d_length ins).

(** The patch of the system call between [preceding_ins] and [following_ins];
    the other fields are zero. *)
Definition new_patch (desc : intercept_desc)
    (preceding_ins_2 preceding_ins following_ins : intercept_disasm_result) (code : Z)
    : patch_desc :=
  let syscall_addr := code - SYSCALL_INS_SIZE in
  PatchDesc syscall_addr (syscall_addr - (i_text_start desc - i_text_offset desc)) 0 0 0
    preceding_ins_2 preceding_ins following_ins false false false false (Range 0 0).

(** The three instructions before the current one, and how many were seen. *)
Record crawl := Crawl {
  c_prev_0 : intercept_disasm_result;
  c_prev_1 : intercept_disasm_result;
  c_prev_2 : intercept_disasm_result;
  c_has_prevs : Z
}.

Definition crawl_start : crawl := Crawl (zero_result 0) (zero_result 0) (zero_result 0) 0.

(** The body of the loop of [crawl_text] on a decoded instruction. *)
Definition crawl_ins (desc : intercept_desc) (c : crawl)
    (result : intercept_disasm_result) (code : Z) : option (intercept_desc * crawl) :=
  let desc := if d_has_ip_relative_opr result
              then mark_jump desc (d_rip_ref_addr result) else desc in
  let desc := if is_overwritable_nop result
              then mark_nop desc code (d_length result) else desc in
  desc ← (if (1 <=? c_has_prevs c) && d_is_syscall (c_prev_2 c) then
            let patch := new_patch desc (c_prev_0 c) (c_prev_1 c) result code in
            assert_ (0 <=? p_syscall_offset patch) (Some (add_new_patch desc patch))
          else Some desc);
  Some (desc, Crawl (c_prev_1 c) (c_prev_2 c) result
                (if c_has_prevs c <? 2 then c_has_prevs c + 1 else c_has_prevs c)).

Section crawl.
Context `{Capstone}.

Fixpoint crawl_loop (fuel : nat) (m : mem) (desc : intercept_desc) (c : crawl)
    (code : Z) : option intercept_desc :=
  if code <=? i_text_end desc then
    match fuel with
    | O => None
    | S fuel =>
        result ← intercept_disasm_next_instruction m (i_text_end desc) code;
        if d_length result =? 0 then crawl_loop fuel m desc c (code + 1)
        else
          '(desc, c) ← crawl_ins desc c result code;
          crawl_loop fuel m desc c (code + d_length result)
    end
  else Some desc.

Definition crawl_text (m : mem) (desc : intercept_desc) : option intercept_desc :=
  crawl_loop (Z.to_nat (text_bytes desc)) m desc crawl_start (i_text_start desc).

(** [find_syscalls]; [file] is [None] when it cannot be opened. *)
Definition find_syscalls (m : mem) (file : option elf_file) (desc : intercept_desc)
    : option intercept_desc :=
  let desc := desc <| i_items := [] |> in
  file ← file;
  desc ← find_sections file desc;
  desc ← allocate_jump_table desc;
  desc ← allocate_nop_table desc;
  desc ← foldl (fun d s => d ← d; find_jumps_in_section_syms file d s) (Some desc)
           (i_symbol_tables desc);
  desc ← foldl (fun d s => d ← d; find_jumps_in_section_rela file d s) (Some desc)
           (i_rela_tables desc);
  crawl_text m desc.

End crawl.

(** ** A table of jumps near the text *)

(** The mappings of the process: the lines of [/proc/self/maps], [None] when the
    file cannot be opened and in the list for a line that cannot be scanned, and
    [mmap] with [MAP_FIXED]. *)
Class Process (VM : Type) := {
  proc_maps : VM -> option (list (option (Z * Z)));
  proc_mmap : VM -> Z -> Z -> option (Z * VM)
}.

(** [get_min_address]; [line] is what is read from [mmap_min_addr], if anything. *)
Definition get_min_address (line : option string) : Z :=
  match line with Some line => u64 (atol line) | None => 0x10000 end.

(** The loop over the lines of [/proc/self/maps]. *)
Fixpoint find_gap (maps : list (option (Z * Z))) (guess size text_start : Z) : option Z :=
  match maps with
  | [] => Some guess
  | line :: maps =>
      '(start, end_) ← line;
      if end_ <? guess then find_gap maps guess size text_start
      else if guess + size <=? start then Some guess
      else
        let guess := end_ in
        if text_start + INT32_MAX <=? guess + size then None
        else find_gap maps guess size text_start
  end.

Definition TRAMPOLINE_TABLE_SIZE : Z := 64 * 0x1000.

(** Where the search starts. *)
Definition first_guess (text_end : Z) (min_line : option string) : Z :=
  let guess :=
    if text_end <? INT32_MAX then 0
    else Z.land (text_end - INT32_MAX) (Z.lnot 0xfff) + 0x1000 in
  if guess <? get_min_address min_line then get_min_address min_line else guess.

(** Whether a table is wanted, from the variable [INTERCEPT_NO_TRAMPOLINE]. *)
Definition wants_table (no_trampoline : option string) : bool :=
  match no_trampoline with
  | None => true
  | Some (String c _) => Ascii.eqb c "0"
  | Some EmptyString => false
  end.

(** [allocate_trampoline_table] *)
Definition allocate_trampoline_table `{Process VM} (no_trampoline min_line : option string)
    (vm : VM) (desc : intercept_desc) : option (intercept_desc * VM) :=
  let uses := wants_table no_trampoline in
  let desc := desc <| i_uses_trampoline_table := uses |> in
  if negb uses then
    Some (desc <| i_trampoline_table := 0 |> <| i_trampoline_table_size := 0 |>, vm)
  else
    maps ← proc_maps vm;
    guess ← find_gap maps (first_guess (i_text_end desc) min_line) TRAMPOLINE_TABLE_SIZE
              (i_text_start desc);
    '(table, vm) ← proc_mmap vm guess TRAMPOLINE_TABLE_SIZE;
    Some (desc <| i_trampoline_table := table |>
               <| i_trampoline_table_size := TRAMPOLINE_TABLE_SIZE |>
               <| i_next_trampoline := table |>, vm).

End InterceptDesc.
