(* ===== verification/Patcher.v ===== *)
(** * Patching a library ([polylib/libs/syscall-intercept/src/patcher.c])

    Every system call instruction found in the text is replaced by a jump to a
    wrapper generated for it: in two bytes of the instruction to nearby padding that
    holds the jump, or by overwriting the instruction together with neighbours that
    can be executed elsewhere.  The code generated here is written to flat memory.
    [None] is the end of the process by [xabort] or a failed assertion. *)

From S2P Require Import Prelude Defs Util Disasm InterceptDesc.
Import Disasm InterceptDesc.

#[local] Open Scope Z_scope.

Module Patcher.

Definition TRAMPOLINE_SIZE : Z := 6 + 8.

(** ** Generating instructions *)

(** [jmp *0(%rip)] followed by the destination; the address after it. *)
Definition create_absolute_jump (m : mem) (from to : Z) : Z * mem :=
  (from + 14, mem_write m from ([xff; x25; x00; x00; x00; x00] ++ le_split 8 to)).

Definition create_jump (opcode : byte) (m : mem) (from to : Z) : option mem :=
  let delta := to - (from + JUMP_INS_SIZE) in
  if (INT32_MAX <? delta) || (delta <? INT32_MIN) then None
  else Some (mem_write m from (opcode :: le_split 4 delta)).

Definition create_movabs (m : mem) (code value reg_bits : Z) : option (Z * mem) :=
  assert_ (reg_bits <? 16)
    (Some (code + 10,
           mem_write m code
             ([byte_of_Z (Z.lor 0x48 (Z.shiftr reg_bits 3));
               byte_of_Z (Z.lor 0xb8 (Z.land reg_bits 7))] ++ le_split 8 value))).

Definition create_movabs_r11 (m : mem) (code value : Z) : option (Z * mem) :=
  create_movabs m code value 11.

Definition create_short_jump (m : mem) (from to : Z) : option mem :=
  let d := to - (from + 2) in
  if (d <? - 128) || (127 <? d) then None
  else Some (mem_write m from [SHORT_JMP_OPCODE; byte_of_Z d]).

(** [relocate_instruction] *)
Definition relocate_instruction (m : mem) (dst : Z) (ins : intercept_disasm_result)
    : option (Z * mem) :=
  if d_is_lea_rip ins then create_movabs m dst (d_rip_ref_addr ins) (d_arg_register_bits ins)
  else Some (dst + d_length ins,
             mem_write m dst (mem_read m (d_address ins) (d_length ins))).

(** ** Choosing what to overwrite *)

Definition is_nop_in_range (address : Z) (nop : range) : bool :=
  let dst := r_address nop + 2 in
  let src := address + 2 in
  let reach_min := src - 128 in
  let reach_max := src + 127 in
  (reach_min <=? dst) && (dst <=? reach_max).

(** [assign_nop_trampoline]; [nops] are the entries of the table from
    [next_nop_i] on. *)
Fixpoint assign_nop_trampoline (nops : list range) (patch : patch_desc) (next_nop_i : Z)
    : patch_desc * Z :=
  match nops with
  | [] => (patch <| p_uses_nop_trampoline := false |>, next_nop_i)
  | nop :: nops =>
      if is_nop_in_range (p_syscall_addr patch) nop then
        (patch <| p_uses_nop_trampoline := true |> <| p_nop_trampoline := nop |>,
         next_nop_i + 1)
      else if p_syscall_addr patch <? r_address nop then
        (patch <| p_uses_nop_trampoline := false |>, next_nop_i)
      else assign_nop_trampoline nops patch (next_nop_i + 1)
  end.

Definition is_copiable_before_syscall (ins : intercept_disasm_result) : bool :=
  if negb (d_is_set ins) then false
  else negb (d_has_ip_relative_opr ins || d_is_call ins || d_is_rel_jump ins ||
             d_is_jump ins || d_is_ret ins || d_is_endbr ins || d_is_syscall ins).

Definition is_copiable_after_syscall (ins : intercept_disasm_result) : bool :=
  if negb (d_is_set ins) then false
  else negb (d_has_ip_relative_opr ins || d_is_call ins || d_is_rel_jump ins ||
             d_is_jump ins || d_is_endbr ins || d_is_syscall ins).

Definition check_surrounding_instructions (desc : intercept_desc) (patch : patch_desc)
    : patch_desc :=
  let prev := p_preceding_ins patch in
  let prev_2 := p_preceding_ins_2 patch in
  let next := p_following_ins patch in
  let uses_prev_ins :=
    d_is_lea_rip prev ||
    (is_copiable_before_syscall prev && negb (is_overwritable_nop prev) &&
     negb (has_jump desc (p_syscall_addr patch))) in
  let uses_prev_ins_2 :=
    if uses_prev_ins then
      d_is_lea_rip prev_2 ||
      (uses_prev_ins && is_copiable_before_syscall prev_2 &&
       negb (is_overwritable_nop prev_2) &&
       negb (has_jump desc (p_syscall_addr patch - d_length prev)))
    else false in
  let uses_next_ins :=
    d_is_lea_rip next ||
    (is_copiable_after_syscall next && negb (is_overwritable_nop next) &&
     negb (has_jump desc (p_syscall_addr patch + SYSCALL_INS_SIZE))) in
  patch <| p_uses_prev_ins := uses_prev_ins |> <| p_uses_prev_ins_2 := uses_prev_ins_2 |>
        <| p_uses_next_ins := uses_next_ins |>.

(** The fields of a patch that uses padding. *)
Definition place_nop (patch : patch_desc) : patch_desc :=
  patch <| p_uses_prev_ins := false |> <| p_uses_prev_ins_2 := false |>
        <| p_uses_next_ins := false |>
        <| p_dst_jmp_patch := r_address (p_nop_trampoline patch) + 2 |>
        <| p_return_address := p_syscall_addr patch + SYSCALL_INS_SIZE |>.

(** The fields of a patch that overwrites its neighbours, and the number of bytes
    it may overwrite. *)
Definition place_neighbours (patch : patch_desc) : Z * patch_desc :=
  let length := SYSCALL_INS_SIZE in
  let patch := patch <| p_dst_jmp_patch := p_syscall_addr patch |> in
  let '(length, patch) :=
    if p_uses_prev_ins patch then
      let length := length + d_length (p_preceding_ins patch) in
      let patch := patch <| p_dst_jmp_patch :=
                     p_dst_jmp_patch patch - d_length (p_preceding_ins patch) |> in
      if p_uses_prev_ins_2 patch then
        (length + d_length (p_preceding_ins_2 patch),
         patch <| p_dst_jmp_patch :=
           p_dst_jmp_patch patch - d_length (p_preceding_ins_2 patch) |>)
      else (length, patch)
    else (length, patch) in
  if p_uses_next_ins patch then
    (length + d_length (p_following_ins patch),
     patch <| p_return_address :=
       p_syscall_addr patch + SYSCALL_INS_SIZE + d_length (p_following_ins patch) |>)
  else
    (length, patch <| p_return_address := p_syscall_addr patch + SYSCALL_INS_SIZE |>).

(** The part of the loop of [create_patch_wrappers] that decides about one patch:
    the patch, the jump targets and the next unused padding. *)
Definition place_patch (desc : intercept_desc) (patch : patch_desc) (next_nop_i : Z)
    : option (patch_desc * intercept_desc * Z) :=
  let '(patch, next_nop_i) :=
    assign_nop_trampoline (zdrop next_nop_i (i_nop_table desc)) patch next_nop_i in
  patch ← (if p_uses_nop_trampoline patch then Some (place_nop patch)
           else
             let '(length, patch) :=
               place_neighbours (check_surrounding_instructions desc patch) in
             if length <? JUMP_INS_SIZE then None else Some patch);
  Some (patch, mark_jump desc (p_return_address patch), next_nop_i).

(** ** The wrappers *)

(** What the assembler makes of [intercept_template.S], and the address of
    [intercept_wrapper]. *)
Record template := Template {
  tmpl : list byte;
  o_patch_desc_addr : Z;
  o_wrapper_level1_addr : Z;
  intercept_wrapper : Z
}.

(** [init_patcher]: the offsets of the labels in the template. *)
Definition init_patcher (code : list byte) (begin patch_desc_addr level1_addr wrapper : Z)
    : option template :=
  let end_ := begin + zlength code in
  assert_ ((begin <? end_) && (begin <? patch_desc_addr) && (begin <? level1_addr) &&
           (patch_desc_addr <? end_) && (level1_addr <? end_))
    (Some (Template code (patch_desc_addr - begin) (level1_addr - begin) wrapper)).

Section wrappers.
Variable T : template.
(** The address of the [i]-th patch description. *)
Variable patch_ptr : nat -> Z.

(** [create_wrapper] *)
Definition create_wrapper (i : nat) (patch : patch_desc) (m : mem) (dst : Z)
    : option (patch_desc * mem * Z) :=
  let patch := patch <| p_asm_wrapper := dst |> in
  '(dst, m) ← (if p_uses_prev_ins patch then
                 '(dst, m) ← (if p_uses_prev_ins_2 patch
                              then relocate_instruction m dst (p_preceding_ins_2 patch)
                              else Some (dst, m));
                 relocate_instruction m dst (p_preceding_ins patch)
               else Some (dst, m));
  let m := mem_write m dst (tmpl T) in
  '(_, m) ← create_movabs_r11 m (dst + o_patch_desc_addr T) (patch_ptr i);
  '(_, m) ← create_movabs_r11 m (dst + o_wrapper_level1_addr T) (intercept_wrapper T);
  let dst := dst + zlength (tmpl T) in
  '(dst, m) ← (if p_uses_next_ins patch
               then relocate_instruction m dst (p_following_ins patch)
               else Some (dst, m));
  let '(dst, m) := create_absolute_jump m dst (p_return_address patch) in
  Some (patch, m, dst).

(** The loop of [create_patch_wrappers], from patch [i] on. *)
Fixpoint wrappers_loop (todo : list patch_desc) (i : nat) (next_nop_i : Z)
    (desc : intercept_desc) (m : mem) (dst : Z)
    : option (list patch_desc * intercept_desc * mem * Z) :=
  match todo with
  | [] => Some ([], desc, m, dst)
  | patch :: todo =>
      '(patch, desc, next_nop_i) ← place_patch desc patch next_nop_i;
      '(patch, m, dst) ← create_wrapper i patch m dst;
      '(items, desc, m, dst) ← wrappers_loop todo (S i) next_nop_i desc m dst;
      Some (patch :: items, desc, m, dst)
  end.

Definition create_patch_wrappers (desc : intercept_desc) (m : mem) (dst : Z)
    : option (intercept_desc * mem * Z) :=
  '(items, desc, m, dst) ← wrappers_loop (i_items desc) 0 0 desc m dst;
  Some (desc <| i_items := items |>, m, dst).

End wrappers.

(** ** Overwriting the text *)

Definition check_trampoline_usage (desc : intercept_desc) : bool :=
  if negb (i_uses_trampoline_table desc) then true
  else
    let used := i_next_trampoline desc - i_trampoline_table desc in
    negb (i_trampoline_table_size desc <=? used + TRAMPOLINE_SIZE).

Definition after_nop (nop : range) : Z := r_address nop + r_size nop.

(** The body of the loop of [activate_patches]. *)
Definition activate_patch (desc : intercept_desc) (m : mem) (patch : patch_desc)
    : option (intercept_desc * mem) :=
  if (p_dst_jmp_patch patch <? i_text_start desc) ||
     (i_text_end desc <? p_dst_jmp_patch patch) then None
  else
    '(desc, m) ← (if i_uses_trampoline_table desc then
                    assert_ (check_trampoline_usage desc) (
                    m ← create_jump JMP_OPCODE m (p_dst_jmp_patch patch)
                          (i_next_trampoline desc);
                    let '(next, m) := create_absolute_jump m (i_next_trampoline desc)
                                        (p_asm_wrapper patch) in
                    Some (desc <| i_next_trampoline := next |>, m))
                  else
                    m ← create_jump JMP_OPCODE m (p_dst_jmp_patch patch)
                          (p_asm_wrapper patch);
                    Some (desc, m));
    if p_uses_nop_trampoline patch then
      m ← create_short_jump m (p_syscall_addr patch) (p_dst_jmp_patch patch);
      m ← create_short_jump m (r_address (p_nop_trampoline patch))
            (after_nop (p_nop_trampoline patch));
      Some (desc, m)
    else
      let byte := p_dst_jmp_patch patch + JUMP_INS_SIZE in
      Some (desc, mem_set m byte INT3_OPCODE (p_return_address patch - byte)).

Fixpoint activate_loop (items : list patch_desc) (desc : intercept_desc) (m : mem)
    : option (intercept_desc * mem) :=
  match items with
  | [] => Some (desc, m)
  | patch :: items =>
      '(desc, m) ← activate_patch desc m patch;
      activate_loop items desc m
  end.

(** [activate_patches]; the calls of [mprotect] around the loop succeed. *)
Definition activate_patches (desc : intercept_desc) (m : mem)
    : option (intercept_desc * mem) :=
  activate_loop (i_items desc) desc m.

End Patcher.
