(* ===== verification/PatchLayout.v ===== *)
(** * What the crawl over a text finds

    The instructions of a text that disassembles without gaps, as a list that tiles
    it.  [find_syscalls] finds the system calls in their order, each with its
    neighbours, and marks the jump targets of instructions, symbols and
    relocations. *)

From S2P Require Import Prelude Defs Util Disasm InterceptDesc Patcher.
Import Util.Util Disasm InterceptDesc Patcher.

#[local] Open Scope Z_scope.

Module PatchLayout.

(** ** Jump targets *)

(** The table has a bit for every byte of the text. *)
Definition table_wf (desc : intercept_desc) : Prop :=
  exists n, bitmap_wf n (i_jump_table desc) /\ text_bytes desc <= n.

Lemma is_bit_set_bit t i : is_bit_set t i = bitmap_bit t i.
Proof.
  pose proof (get_bitmap_bit t i) as H. unfold get_bitmap in H. unfold is_bit_set.
  rewrite bitmap_mask_pow, bitmap_byte_div in H. rewrite Z.shiftl_1_l.
  by destruct (_ =? 0), (bitmap_bit t i).
Qed.

Lemma set_bit_set_bitmap t i : set_bit t i = set_bitmap t i.
Proof.
  unfold set_bit, set_bitmap. rewrite bitmap_mask_pow, bitmap_byte_div, Z.shiftl_1_l.
  pose proof (Z.mod_pos_bound i 8). replace (u8 (2 ^ (i mod 8))) with (2 ^ (i mod 8)); [done|].
  symmetry. apply Z.mod_small. split; [lia|]. apply Z.pow_lt_mono_r; lia.
Qed.

Lemma has_jump_mark desc a b :
  table_wf desc -> in_text desc a = true ->
  has_jump (mark_jump desc a) b = bool_decide (a = b) || has_jump desc b.
Proof.
  intros (n & Hwf & Hn) Ha. unfold has_jump, mark_jump. rewrite Ha.
  unfold in_text in *. cbn. unfold text_bytes in Hn. zbool.
  destruct (_ && _) eqn:Eb; zbool.
  - rewrite set_bit_set_bitmap, !is_bit_set_bit.
    rewrite (set_bitmap_bit n) by (done || lia).
    destruct (decide (a = b)) as [->|Hne].
    + by rewrite bool_decide_true, Z.eqb_refl by done.
    + rewrite bool_decide_false by done.
      by rewrite (proj2 (Z.eqb_neq (a - i_text_start desc) (b - i_text_start desc))) by lia.
  - rewrite bool_decide_false; [done|]. intros ->.
    by rewrite (proj2 (Z.leb_le _ _)), (proj2 (Z.leb_le _ _)) in Eb by lia.
Qed.

Lemma has_jump_mono desc a b :
  table_wf desc -> has_jump desc b = true -> has_jump (mark_jump desc a) b = true.
Proof.
  intros Hwf H. destruct (in_text desc a) eqn:Ea.
  - rewrite has_jump_mark by done. by rewrite H, orb_true_r.
  - unfold mark_jump. by rewrite Ea.
Qed.

(** Marking changes the jump table only. *)
Record same_text (d d' : intercept_desc) : Prop := {
  st_start : i_text_start d' = i_text_start d;
  st_end : i_text_end d' = i_text_end d;
  st_offset : i_text_offset d' = i_text_offset d;
  st_wf : table_wf d -> table_wf d';
  st_mono : table_wf d -> forall a, has_jump d a = true -> has_jump d' a = true
}.

#[export] Instance same_text_preorder : PreOrder same_text.
Proof.
  split; [by intros d; split|]. intros d1 d2 d3 [] []. split; [congruence..|by auto|by auto].
Qed.

Lemma mark_jump_same desc a : same_text desc (mark_jump desc a).
Proof.
  split; [by unfold mark_jump; destruct (in_text desc a)..| |].
  - unfold mark_jump. destruct (in_text desc a) eqn:E; [|done].
    intros (n & Hwf & Hn). exists n. split; [|done]. cbn. rewrite set_bit_set_bitmap.
    by apply bitmap_wf_alter.
  - intros Hwf b. by apply has_jump_mono.
Qed.

Lemma mark_jump_items desc a :
  i_items (mark_jump desc a) = i_items desc /\
  i_nop_table (mark_jump desc a) = i_nop_table desc.
Proof. unfold mark_jump. by destruct (in_text desc a). Qed.

(** ** Instructions that follow each other *)

Fixpoint tiling (a : Z) (l : list intercept_disasm_result) (e : Z) : Prop :=
  match l with
  | [] => a = e
  | r :: l => d_address r = a /\ 1 <= d_length r /\ tiling (a + d_length r) l e
  end.

Definition ins_end (r : intercept_disasm_result) : Z := d_address r + d_length r.

Lemma tiling_app l1 l2 : forall a e,
  tiling a (l1 ++ l2) e <-> exists b, tiling a l1 b /\ tiling b l2 e.
Proof.
  induction l1 as [|r l1 IH]; intros a e; cbn.
  - split; [intros H; by exists a|by intros (b & -> & H)].
  - rewrite IH. naive_solver.
Qed.

Lemma tiling_le l : forall a e, tiling a l e -> a <= e.
Proof.
  induction l as [|r l IH]; intros a e; cbn; [lia|]. intros (_ & ? & H%IH). lia.
Qed.

Lemma tiling_bounds l : forall a e k r,
  tiling a l e -> l !! k = Some r -> a <= d_address r /\ 1 <= d_length r /\ ins_end r <= e.
Proof.
  induction l as [|r0 l IH]; intros a e k r; [done|]. cbn. intros (E & Hl & H).
  unfold ins_end. destruct k as [|k]; cbn.
  - intros [= <-]. apply tiling_le in H. lia.
  - intros Hk. destruct (IH _ _ _ _ H Hk). unfold ins_end in *. lia.
Qed.

Lemma tiling_order l : forall a e j k r r',
  tiling a l e -> (j < k)%nat -> l !! j = Some r -> l !! k = Some r' ->
  ins_end r <= d_address r'.
Proof.
  induction l as [|r0 l IH]; intros a e j k r r'; [done|]. cbn. intros (E & Hl & H) Hjk.
  destruct k as [|k]; [lia|]. destruct j as [|j]; cbn.
  - intros [= <-] Hk. destruct (tiling_bounds _ _ _ _ _ H Hk). unfold ins_end. lia.
  - intros Hj Hk. apply (IH _ _ j k r r' H); [lia|done..].
Qed.

Lemma tiling_next l : forall a e k r r',
  tiling a l e -> l !! k = Some r -> l !! S k = Some r' -> d_address r' = ins_end r.
Proof.
  induction l as [|r0 l IH]; intros a e k r r'; [done|]. cbn. intros (E & Hl & H).
  destruct k as [|k]; cbn.
  - intros [= <-] Hk. destruct l as [|r1 l]; [done|]. cbn in Hk, H. simplify_eq.
    unfold ins_end. destruct H. lia.
  - intros Hk Hk'. by apply (IH _ _ k r r' H).
Qed.

(** A byte belongs to one instruction. *)
Lemma tiling_unique a e l j k r r' x :
  tiling a l e -> l !! j = Some r -> l !! k = Some r' ->
  d_address r <= x < ins_end r -> d_address r' <= x < ins_end r' -> j = k.
Proof.
  intros H Hj Hk Hx Hx'. destruct (lt_eq_lt_dec j k) as [[?|?]|?]; [|done|].
  - assert (ins_end r <= d_address r') by (by eapply (tiling_order l a e j k)). lia.
  - assert (ins_end r' <= d_address r) by (by eapply (tiling_order l a e k j)). lia.
Qed.

(** ** System calls and padding *)

(** The [n]-th instruction before position [k], zero at the start of the text. *)
Definition before (l : list intercept_disasm_result) (k n : nat) : intercept_disasm_result :=
  if decide (n <= k)%nat then default (zero_result 0) (l !! (k - n)%nat) else zero_result 0.

(** [p] describes the system call at position [k]. *)
Record site (l : list intercept_disasm_result) (k : nat) (p : patch_desc) : Prop := {
  si_syscall : exists s, l !! k = Some s /\ d_is_syscall s = true /\ p_syscall_addr p = d_address s;
  si_following : l !! S k = Some (p_following_ins p);
  si_preceding : p_preceding_ins p = before l k 1;
  si_preceding_2 : p_preceding_ins_2 p = before l k 2
}.

Definition nop_at (l : list intercept_disasm_result) (j : nat) (n : range) : Prop :=
  exists r, l !! j = Some r /\ is_overwritable_nop r = true /\
    n = Range (d_address r) (d_length r).

Lemma before_app l r k n : (k <= length l)%nat -> (1 <= n)%nat ->
  before (l ++ [r]) k n = before l k n.
Proof.
  intros Hk Hn. unfold before. case_decide; [|done]. by rewrite lookup_app_l by lia.
Qed.

Lemma site_app l r k p : site l k p -> site (l ++ [r]) k p.
Proof.
  intros [(s & Hs & Hsc & Ha) Hf H1 H2]. pose proof (lookup_lt_Some _ _ _ Hs).
  split; [exists s; by rewrite lookup_app_l by lia| |by rewrite before_app by lia..].
  by apply lookup_app_l_Some.
Qed.

Lemma nop_at_app l r j n : nop_at l j n -> nop_at (l ++ [r]) j n.
Proof. intros (q & Hq & Hn & E). exists q. split; [by apply lookup_app_l_Some|done]. Qed.

Record layout (l : list intercept_disasm_result) (desc : intercept_desc)
    (ks js : list nat) : Prop := {
  ly_tiling : tiling (i_text_start desc) l (i_text_end desc + 1);
  ly_decoded : forall k r, l !! k = Some r -> decoded (i_text_end desc) (d_address r) r;
  ly_table : table_wf desc;
  ly_jumps : forall k r, l !! k = Some r -> d_has_ip_relative_opr r = true ->
    in_text desc (d_rip_ref_addr r) = true -> has_jump desc (d_rip_ref_addr r) = true;
  ly_sites : Forall2 (site l) ks (i_items desc);
  ly_sorted : StronglySorted lt ks;
  ly_complete : forall k s f, l !! k = Some s -> d_is_syscall s = true ->
    l !! S k = Some f -> k ∈ ks;
  ly_nops : Forall2 (nop_at l) js (i_nop_table desc);
  ly_nops_sorted : StronglySorted lt js
}.

(** ** Crawling *)

Section crawl.
Context {cs : Capstone} {cl : CapstoneLaws}.

(** The addresses a sweep from [start] reaches, instruction by instruction. *)
Inductive swept (m : mem) (start end_ : Z) : Z -> Prop :=
| swept_start : swept m start end_ start
| swept_next code r :
    swept m start end_ code -> code <= end_ ->
    intercept_disasm_next_instruction m end_ code = Some r ->
    swept m start end_ (code + d_length r).

(** The sweep over the text has no gaps: every address it reaches disassembles. *)
Definition decodes (m : mem) (desc : intercept_desc) : Prop :=
  forall code, swept m (i_text_start desc) (i_text_end desc) code ->
    code <= i_text_end desc ->
    exists r, intercept_disasm_next_instruction m (i_text_end desc) code = Some r /\
      d_length r <> 0.

(** The instructions of the text from [code] on, one after the other. *)
Fixpoint listing (fuel : nat) (m : mem) (end_ code : Z) : list intercept_disasm_result :=
  match fuel with
  | O => []
  | S fuel =>
      if code <=? end_ then
        match intercept_disasm_next_instruction m end_ code with
        | Some r => r :: listing fuel m end_ (code + d_length r)
        | None => []
        end
      else []
  end.

Definition text_listing (m : mem) (desc : intercept_desc) : list intercept_disasm_result :=
  listing (Z.to_nat (text_bytes desc)) m (i_text_end desc) (i_text_start desc).

(** The state of the loop after the instructions [l]. *)
Record crawled (l : list intercept_disasm_result) (desc : intercept_desc) (c : crawl)
    (ks js : list nat) (code : Z) : Prop := {
  cr_tiling : tiling (i_text_start desc) l code;
  cr_decoded : forall k r, l !! k = Some r -> decoded (i_text_end desc) (d_address r) r;
  cr_offset : 0 <= i_text_offset desc;
  cr_table : table_wf desc;
  cr_jumps : forall k r, l !! k = Some r -> d_has_ip_relative_opr r = true ->
    in_text desc (d_rip_ref_addr r) = true -> has_jump desc (d_rip_ref_addr r) = true;
  cr_prev_0 : c_prev_0 c = before l (length l) 3;
  cr_prev_1 : c_prev_1 c = before l (length l) 2;
  cr_prev_2 : c_prev_2 c = before l (length l) 1;
  cr_has_prevs : c_has_prevs c = Z.min 2 (zlength l);
  cr_sites : Forall2 (site l) ks (i_items desc);
  cr_sorted : StronglySorted lt ks;
  cr_complete : forall k s f, l !! k = Some s -> d_is_syscall s = true ->
    l !! S k = Some f -> k ∈ ks;
  cr_nops : Forall2 (nop_at l) js (i_nop_table desc);
  cr_nops_sorted : StronglySorted lt js
}.

Lemma sorted_snoc (ks : list nat) k :
  StronglySorted lt ks -> (forall j, j ∈ ks -> (j < k)%nat) -> StronglySorted lt (ks ++ [k]).
Proof.
  induction 1 as [|j ks Hs IH Hj]; intros Hk; cbn; [by repeat constructor|].
  constructor; [apply IH; set_solver|].
  apply Forall_app. split; [done|]. constructor; [|done]. apply Hk. left.
Qed.

Lemma sites_bound l ks ps k :
  Forall2 (site l) ks ps -> k ∈ ks -> (S k < length l)%nat.
Proof.
  intros HF (i & Hi)%list_elem_of_lookup.
  destruct (Forall2_lookup_l _ _ _ _ _ HF Hi) as (p & _ & Hs).
  by pose proof (lookup_lt_Some _ _ _ (si_following _ _ _ Hs)).
Qed.

Lemma before_last l r : before (l ++ [r]) (length (l ++ [r])) 1 = r.
Proof.
  unfold before. rewrite length_app. cbn. rewrite decide_True by lia.
  replace (length l + 1 - 1)%nat with (length l) by lia.
  by rewrite list_lookup_middle.
Qed.

Lemma before_shift l r n :
  (1 <= n)%nat -> before (l ++ [r]) (length (l ++ [r])) (S n) = before l (length l) n.
Proof.
  intros Hn. unfold before. rewrite length_app. cbn.
  destruct (decide (n <= length l)%nat).
  - rewrite !decide_True by lia.
    replace (length l + 1 - S n)%nat with (length l - n)%nat by lia.
    by rewrite lookup_app_l by lia.
  - by rewrite !decide_False by lia.
Qed.

(** Marking targets and padding. *)
Lemma crawl_marks l desc r code js :
  table_wf desc -> Forall2 (nop_at l) js (i_nop_table desc) -> StronglySorted lt js -> d_address r = code ->
  let d1 := if d_has_ip_relative_opr r then mark_jump desc (d_rip_ref_addr r) else desc in
  let d2 := if is_overwritable_nop r then mark_nop d1 code (d_length r) else d1 in
  same_text desc d2 /\ i_items d2 = i_items desc /\
  (d_has_ip_relative_opr r = true -> in_text desc (d_rip_ref_addr r) = true ->
     has_jump d2 (d_rip_ref_addr r) = true) /\
  exists js', Forall2 (nop_at (l ++ [r])) js' (i_nop_table d2) /\ StronglySorted lt js'.
Proof.
  intros Hwf HF Hs Ha d1 d2.
  assert (d_has_ip_relative_opr r = true -> in_text desc (d_rip_ref_addr r) = true ->
     has_jump d1 (d_rip_ref_addr r) = true) as J1.
  { unfold d1. intros -> Ht. rewrite has_jump_mark by done. by rewrite bool_decide_true. }
  assert (same_text desc d1 /\ i_items d1 = i_items desc /\ i_nop_table d1 = i_nop_table desc)
    as (S1 & I1 & N1).
  { unfold d1. destruct (d_has_ip_relative_opr r); [|done].
    split; [apply mark_jump_same|apply mark_jump_items]. }
  assert (Forall2 (nop_at (l ++ [r])) js (i_nop_table d1)) as HF'.
  { rewrite N1. eapply Forall2_impl; [done|]. intros j n. apply nop_at_app. }
  unfold d2, mark_nop. destruct (is_overwritable_nop r) eqn:En; [|by split_and!; eauto].
  destruct (_ =? _); [by split_and!; eauto|].
  split; [etrans; [done|]; by split|]. split; [done|]. split; [done|].
  exists (js ++ [length l]). cbn. split.
  - apply Forall2_app; [done|]. constructor; [|done]. exists r.
    split; [by apply list_lookup_middle|]. by rewrite Ha.
  - apply sorted_snoc; [done|]. intros j (i & Hi)%list_elem_of_lookup.
    destruct (Forall2_lookup_l _ _ _ _ _ HF Hi) as (n & _ & q & Hq & _).
    by apply lookup_lt_Some in Hq.
Qed.

Lemma before_prev l n : (1 <= length l)%nat -> before l (length l) (S n) = before l (length l - 1) n.
Proof.
  intros Hl. unfold before. destruct (decide (S n <= length l)%nat).
  - rewrite decide_True by lia. do 2 f_equal. lia.
  - by rewrite decide_False by lia.
Qed.

(** The last instruction. *)
Lemma before_1 l : before l (length l) 1 = default (zero_result 0) (l !! (length l - 1)%nat).
Proof. unfold before. case_decide; [done|]. destruct l; cbn in *; [done|lia]. Qed.

(** The patch made when the last instruction was a system call. *)
Lemma new_site l desc desc2 c ks js code r s :
  crawled l desc c ks js code -> d_address r = code ->
  i_text_start desc2 = i_text_start desc -> i_text_offset desc2 = i_text_offset desc ->
  l !! (length l - 1)%nat = Some s -> d_is_syscall s = true ->
  let p := new_patch desc2 (c_prev_0 c) (c_prev_1 c) r code in
  0 <= p_syscall_offset p /\ site (l ++ [r]) (length l - 1) p.
Proof.
  intros C Ha E1 E2 Hs Hsc p. pose proof (lookup_lt_Some _ _ _ Hs) as Hlen.
  pose proof (cr_tiling _ _ _ _ _ _ C) as Ht.
  destruct (tiling_bounds _ _ _ _ _ Ht Hs) as (Hb1 & Hb2 & Hb3).
  destruct (dc_syscall _ _ _ (cr_decoded _ _ _ _ _ _ C _ _ Hs) Hsc) as [Hl2 _].
  assert (d_address s = code - 2) as Es.
  { rewrite <-(take_drop_middle l (length l - 1) s Hs) in Ht.
    rewrite drop_ge in Ht by lia. apply tiling_app in Ht as (b & _ & <- & _ & E).
    cbn in E. lia. }
  split.
  - unfold p. cbn. rewrite E1, E2. pose proof (cr_offset _ _ _ _ _ _ C).
    unfold SYSCALL_INS_SIZE. lia.
  - split.
    + exists s. split; [by apply lookup_app_l_Some|]. split; [done|]. unfold p. cbn.
      rewrite Es. done.
    + replace (S (length l - 1)) with (length l) by lia. by apply list_lookup_middle.
    + unfold p. cbn. rewrite (cr_prev_1 _ _ _ _ _ _ C), before_app, before_prev by lia. done.
    + unfold p. cbn. rewrite (cr_prev_0 _ _ _ _ _ _ C), before_app, before_prev by lia. done.
Qed.

Lemma complete_app l r (ks ks' : list nat) :
  (forall k s f, l !! k = Some s -> d_is_syscall s = true -> l !! S k = Some f -> k ∈ ks) ->
  (forall k, k ∈ ks -> k ∈ ks') ->
  (forall s, l !! (length l - 1)%nat = Some s -> d_is_syscall s = true ->
     (length l - 1)%nat ∈ ks') ->
  forall k s f, (l ++ [r]) !! k = Some s -> d_is_syscall s = true ->
    (l ++ [r]) !! S k = Some f -> k ∈ ks'.
Proof.
  intros H Hsub Hlast k s f Hk Hs Hf. pose proof (lookup_lt_Some _ _ _ Hf) as Hlen.
  rewrite length_app in Hlen. cbn in Hlen. rewrite lookup_app_l in Hk by lia.
  destruct (decide (S k < length l)%nat).
  - rewrite lookup_app_l in Hf by lia. eauto.
  - assert (k = length l - 1)%nat as -> by lia. eauto.
Qed.

Lemma crawl_ins_ok l desc c ks js code r :
  crawled l desc c ks js code -> decoded (i_text_end desc) code r ->
  exists desc' c' ks' js', crawl_ins desc c r code = Some (desc', c') /\
    crawled (l ++ [r]) desc' c' ks' js' (code + d_length r) /\
    same_text desc desc'.
Proof.
  intros C D. unfold crawl_ins.
  destruct (crawl_marks l desc r code js (cr_table _ _ _ _ _ _ C) (cr_nops _ _ _ _ _ _ C)
    (cr_nops_sorted _ _ _ _ _ _ C) (dc_address _ _ _ D)) as (S2 & I2 & J2 & js' & HF & Hjs).
  set (d2 := if is_overwritable_nop r then _ else _) in *. clearbody d2.
  set (c' := Crawl _ _ _ _).
  assert (forall ks' d3, same_text d2 d3 -> i_nop_table d3 = i_nop_table d2 ->
    Forall2 (site (l ++ [r])) ks' (i_items d3) -> StronglySorted lt ks' ->
    (forall k s f, (l ++ [r]) !! k = Some s -> d_is_syscall s = true ->
      (l ++ [r]) !! S k = Some f -> k ∈ ks') ->
    crawled (l ++ [r]) d3 c' ks' js' (code + d_length r) /\ same_text desc d3) as Hgo.
  { intros ks' d3 S3 N3 Hsi Hso Hco. assert (same_text desc d3) as S4 by (by etrans).
    split; [|done]. destruct C as [C1 C2 C3 C4 CJ C5 C6 C7 C8 C9 C10 C11 C12 C13].
    split; rewrite ?(st_start _ _ S4), ?(st_end _ _ S4), ?(st_offset _ _ S4),
      ?before_last, ?before_shift, ?N3 by lia; try done.
    - apply tiling_app. exists code. split; [done|]. cbn.
      split; [by apply (dc_address _ _ _ D)|]. split; [apply (dc_length _ _ _ D)|done].
    - intros k q [Hk|[_ Hk]]%lookup_app_Some; [by eapply C2|].
      apply list_lookup_singleton_Some in Hk as [_ <-].
      by rewrite (dc_address _ _ _ D).
    - by apply (st_wf _ _ S4).
    - unfold in_text. rewrite (st_start _ _ S4), (st_end _ _ S4).
      intros k q [Hk|[_ Hk]]%lookup_app_Some Hrel Hin.
      + apply (st_mono _ _ S4); [done|]. by eapply CJ.
      + apply list_lookup_singleton_Some in Hk as [_ <-].
        apply (st_mono _ _ S3); [by apply (st_wf _ _ S2)|]. by apply J2.
    - cbn. rewrite C8, length_app. cbn. zif; lia. }
  pose proof (cr_has_prevs _ _ _ _ _ _ C) as Hp.
  assert (Forall2 (site (l ++ [r])) ks (i_items d2)) as Hold.
  { rewrite I2. eapply Forall2_impl; [apply (cr_sites _ _ _ _ _ _ C)|].
    intros k p. apply site_app. }
  destruct (_ && _) eqn:Ec.
  - apply andb_true_iff in Ec as [_ Esys].
    rewrite (cr_prev_2 _ _ _ _ _ _ C), before_1 in Esys.
    destruct (l !! (length l - 1)%nat) as [s|] eqn:Hs; [|done]. cbn in Esys.
    destruct (new_site l desc d2 c ks js code r s C (dc_address _ _ _ D) (st_start _ _ S2)
      (st_offset _ _ S2) Hs Esys) as [Hoff Hsite].
    unfold assert_. rewrite (proj2 (Z.leb_le _ _) Hoff). cbn [mbind option_bind].
    exists (add_new_patch d2 (new_patch d2 (c_prev_0 c) (c_prev_1 c) r code)), c',
      (ks ++ [(length l - 1)%nat]), js'. split; [done|].
    assert (forall p, same_text d2 (add_new_patch d2 p) /\
      i_nop_table (add_new_patch d2 p) = i_nop_table d2 /\
      i_items (add_new_patch d2 p) = i_items d2 ++ [p]) as Hadd.
    { intros p. unfold add_new_patch. destruct (_ =? _); [by repeat split|].
      destruct (has_pow2_count _); by repeat split. }
    destruct (Hadd (new_patch d2 (c_prev_0 c) (c_prev_1 c) r code)) as (S3 & N3 & I3).
    apply Hgo; [done|done| | |].
    + rewrite I3. apply Forall2_app; [done|]. by constructor.
    + apply sorted_snoc; [apply (cr_sorted _ _ _ _ _ _ C)|]. intros j Hj.
      pose proof (sites_bound _ _ _ _ (cr_sites _ _ _ _ _ _ C) Hj). lia.
    + eapply complete_app; [apply (cr_complete _ _ _ _ _ _ C)|set_solver|].
      intros. apply elem_of_app. right. left.
  - cbn [mbind option_bind]. exists d2, c', ks, js'. split; [done|].
    apply Hgo; [done|done|done|apply (cr_sorted _ _ _ _ _ _ C)|].
    eapply complete_app; [apply (cr_complete _ _ _ _ _ _ C)|done|].
    intros s Hs Hsc. exfalso. apply andb_false_iff in Ec as [Ec|Ec].
    + apply lookup_lt_Some in Hs. zbool. lia.
    + rewrite (cr_prev_2 _ _ _ _ _ _ C), before_1, Hs in Ec. cbn in Ec. congruence.
Qed.

Lemma decodes_same m d d' : same_text d d' -> decodes m d -> decodes m d'.
Proof.
  intros [E1 E2 _ _] H code. rewrite E1, E2. apply H.
Qed.

Lemma crawl_loop_ok m (fuel : nat) : forall l desc c ks js code,
  crawled l desc c ks js code -> decodes m desc ->
  swept m (i_text_start desc) (i_text_end desc) code ->
  i_text_start desc <= code <= i_text_end desc + 1 -> i_text_end desc + 1 - code <= fuel ->
  exists desc' ks' js', crawl_loop fuel m desc c code = Some desc' /\
    layout (l ++ listing fuel m (i_text_end desc) code) desc' ks' js' /\ same_text desc desc'.
Proof.
  induction fuel as [|fuel IH]; intros l desc c ks js code C Hd Hsw Hc Hf;
    cbn [crawl_loop listing];
    (destruct (code <=? i_text_end desc) eqn:E; zbool; [|
      exists desc, ks, js; rewrite app_nil_r; split; [done|]; split; [|done]; destruct C;
      split; try done; by replace (i_text_end desc + 1) with code by lia]); [lia|].
  destruct (Hd code Hsw E) as (r & Er & Hr). rewrite Er. cbn [mbind option_bind]. rewrite (proj2 (Z.eqb_neq _ _) Hr).
  destruct (next_instruction_spec _ _ _ _ Er) as [->|D]; [done|].
  destruct (crawl_ins_ok _ _ _ _ _ _ _ C D) as (d' & c' & ks' & js' & -> & C' & S').
  cbn [mbind option_bind]. pose proof (dc_length _ _ _ D) as Hl.
  destruct (IH _ _ _ _ _ _ C') as (d2 & ks2 & js2 & E2 & L2 & S2).
  - by eapply decodes_same.
  - rewrite (st_start _ _ S'), (st_end _ _ S'). by eapply swept_next.
  - rewrite (st_start _ _ S'), (st_end _ _ S'). lia.
  - rewrite (st_end _ _ S'). lia.
  - exists d2, ks2, js2. split; [done|]. split; [|by etrans].
    rewrite (st_end _ _ S'), <-app_assoc in L2. done.
Qed.

(** Crawling a text that disassembles ends and finds its system calls. *)
Lemma crawl_text_layout m desc :
  table_wf desc -> i_items desc = [] -> i_nop_table desc = [] -> 0 <= i_text_offset desc ->
  i_text_start desc < i_text_end desc -> decodes m desc ->
  exists desc' ks js, crawl_text m desc = Some desc' /\
    layout (text_listing m desc) desc' ks js /\ same_text desc desc'.
Proof.
  intros Hwf Hi Hn Ho Ht Hd. unfold crawl_text, text_listing.
  apply (crawl_loop_ok m _ [] desc crawl_start [] []); [|done|constructor|lia|unfold text_bytes; lia].
  split; try done; rewrite ?Hi, ?Hn; try constructor.
Qed.

End crawl.

(** ** From the file to the patches *)

(** Only the jump table changes, and only grows. *)
Definition marked (d d' : intercept_desc) : Prop :=
  same_text d d' /\ i_items d' = i_items d /\ i_nop_table d' = i_nop_table d /\
  i_base_addr d' = i_base_addr d /\ i_text_section_index d' = i_text_section_index d /\
  i_symbol_tables d' = i_symbol_tables d /\ i_rela_tables d' = i_rela_tables d.

#[export] Instance marked_preorder : PreOrder marked.
Proof.
  split; [by intros d|]. intros d1 d2 d3 (S1 & ?) (S2 & ?).
  split; [by etrans|]. naive_solver congruence.
Qed.

Lemma mark_jump_marked desc a : marked desc (mark_jump desc a).
Proof.
  split; [apply mark_jump_same|]. unfold mark_jump. by destruct (in_text desc a).
Qed.

Lemma foldl_marked {A} (f : intercept_desc -> A -> intercept_desc) (l : list A) :
  (forall d x, marked d (f d x)) -> forall d, marked d (foldl f d l).
Proof.
  intros Hf. induction l as [|x l IH]; intros d; cbn; [done|]. by etrans; [|apply IH].
Qed.

Lemma mark_sym_marked d x : marked d (mark_sym d x).
Proof.
  unfold mark_sym. destruct (negb _); [done|]. destruct (negb _); [done|].
  destruct (negb _); [|apply mark_jump_marked].
  etrans; apply mark_jump_marked.
Qed.

Lemma mark_rela_marked d x : marked d (mark_rela d x).
Proof. unfold mark_rela. destruct (_ || _); [apply mark_jump_marked|done]. Qed.

(** A property of entries that holds once the entry is marked. *)
Definition stays {A} (d0 : intercept_desc) (f : intercept_desc -> A -> intercept_desc)
    (Q : intercept_desc -> A -> Prop) : Prop :=
  (forall d x, marked d (f d x)) /\
  (forall d d' x, table_wf d -> same_text d d' -> Q d x -> Q d' x) /\
  (forall d x, table_wf d -> marked d0 d -> Q (f d x) x).

Lemma foldl_marks {A} d0 f (Q : intercept_desc -> A -> Prop) (xs : list A) :
  stays d0 f Q -> forall d, table_wf d -> marked d0 d ->
  forall x, x ∈ xs -> Q (foldl f d xs) x.
Proof.
  intros (Hf & Hq & Hm). induction xs as [|y xs IH]; intros d Hwf M x; cbn;
    [intros []%not_elem_of_nil|].
  assert (table_wf (f d y)) by (by apply (st_wf _ _ (proj1 (Hf d y)))).
  intros [->|Hx]%elem_of_cons.
  - apply (Hq (f d y)); [done|by apply foldl_marked|by apply Hm].
  - apply IH; [done|by etrans|done].
Qed.

(** Reading tables that can be read marks their entries one after the other. *)
Lemma tables_marked {A} d0 (read : Elf64_Shdr -> option (list A)) f
    (Q : intercept_desc -> A -> Prop) (tables : list Elf64_Shdr) :
  stays d0 f Q -> (forall s, s ∈ tables -> is_Some (read s)) -> forall d,
  table_wf d -> marked d0 d ->
  exists d', foldl (fun d s => d ← d; (xs ← read s; Some (foldl f d xs))) (Some d) tables =
    Some d' /\ marked d d' /\
    forall s xs x, s ∈ tables -> read s = Some xs -> x ∈ xs -> Q d' x.
Proof.
  intros HQ. pose proof HQ as (Hf & Hq & _).
  induction tables as [|s tables IH]; intros Hr d Hwf M; cbn.
  { exists d. split; [done|]. split; [done|]. intros ? ? ? []%not_elem_of_nil. }
  destruct (Hr s) as [xs Exs]; [by left|]. rewrite Exs. cbn.
  assert (marked d (foldl f d xs)) as M1 by (by apply foldl_marked).
  assert (table_wf (foldl f d xs)) by (by apply (st_wf _ _ (proj1 M1))).
  destruct (IH ltac:(set_solver) (foldl f d xs)) as (d' & -> & M' & HQ'); [done|by etrans|].
  exists d'. split; [done|]. split; [by etrans|].
  intros s' xs' x [->|Hs]%elem_of_cons E Hx; [|by eapply HQ'].
  simplify_eq. apply (Hq (foldl f d xs)); [done|apply M'|]. by eapply foldl_marks.
Qed.

(** An address of the text is known as a jump target. *)
Definition target_marked (d0 d : intercept_desc) (a : Z) : Prop :=
  in_text d0 a = true -> has_jump d a = true.

(** The entry and the end of a function of the text, and a place the loader
    relocates by the base address. *)
Definition sym_marked (d0 d : intercept_desc) (sym : Elf64_Sym) : Prop :=
  ELF64_ST_TYPE (st_info sym) = STT_FUNC -> st_shndx sym = i_text_section_index d0 ->
  let address := i_base_addr d0 + st_value sym in
  target_marked d0 d address /\
  (st_size sym <> 0 -> target_marked d0 d (address + st_size sym)).

Definition rela_marked (d0 d : intercept_desc) (rela : Elf64_Rela) : Prop :=
  ELF64_R_TYPE (r_info rela) = R_X86_64_RELATIVE \/
  ELF64_R_TYPE (r_info rela) = R_X86_64_RELATIVE64 ->
  target_marked d0 d (i_base_addr d0 + r_addend rela).

Lemma in_text_marked d d' a : marked d d' -> in_text d' a = in_text d a.
Proof. intros [[E1 E2 _ _ _] _]. unfold in_text. by rewrite E1, E2. Qed.

Lemma mark_jump_target d0 d a :
  table_wf d -> marked d0 d -> target_marked d0 (mark_jump d a) a.
Proof.
  intros Hwf M Ht. rewrite has_jump_mark; [by rewrite bool_decide_true|done|].
  by rewrite (in_text_marked d0).
Qed.

Lemma target_mono d0 d d' a :
  table_wf d -> same_text d d' -> target_marked d0 d a -> target_marked d0 d' a.
Proof. intros Hwf S H Ht. by apply (st_mono _ _ S), H. Qed.

Lemma sym_stays d0 : stays d0 mark_sym (sym_marked d0).
Proof.
  split; [apply mark_sym_marked|]. split.
  - intros d d' x Hwf S H H1 H2. destruct (H H1 H2) as [H3 H4].
    split; [by eapply target_mono|]. intros Hz. eapply target_mono; eauto.
  - intros d x Hwf M H1 H2 a. unfold mark_sym. pose proof M as (_ & _ & _ & Eb & Ei & _).
    rewrite H1, Z.eqb_refl, H2, Ei, Z.eqb_refl, Eb. cbn [negb]. fold a.
    pose proof (mark_jump_same d a) as S1.
    assert (table_wf (mark_jump d a)) as Hwf1 by (by apply (st_wf _ _ S1)).
    destruct (st_size x =? 0) eqn:Ez; cbn [negb]; zbool.
    + split; [by apply mark_jump_target|done].
    + split; [|intros _; apply mark_jump_target; [done|etrans; [done|apply mark_jump_marked]]].
      eapply target_mono; [done|apply mark_jump_same|by apply mark_jump_target].
Qed.

Lemma rela_stays d0 : stays d0 mark_rela (rela_marked d0).
Proof.
  split; [apply mark_rela_marked|]. split.
  - intros d d' x Hwf S H H1. eapply target_mono; eauto.
  - intros d x Hwf M H1. unfold mark_rela. pose proof M as (_ & _ & _ & Eb & _).
    assert ((ELF64_R_TYPE (r_info x) =? R_X86_64_RELATIVE) ||
      (ELF64_R_TYPE (r_info x) =? R_X86_64_RELATIVE64) = true) as ->
      by (apply orb_true_iff; rewrite !Z.eqb_eq; done).
    rewrite Eb. by apply mark_jump_target.
Qed.

Lemma allocate_tables desc :
  i_text_start desc < i_text_end desc ->
  exists d1 d2, allocate_jump_table desc = Some d1 /\ allocate_nop_table d1 = Some d2 /\
    table_wf d2 /\ i_nop_table d2 = [] /\ i_items d2 = i_items desc /\
    i_text_start d2 = i_text_start desc /\ i_text_end d2 = i_text_end desc /\
    i_text_offset d2 = i_text_offset desc /\ i_base_addr d2 = i_base_addr desc /\
    i_text_section_index d2 = i_text_section_index desc /\
    i_symbol_tables d2 = i_symbol_tables desc /\ i_rela_tables d2 = i_rela_tables desc.
Proof.
  intros Ht. unfold allocate_jump_table, allocate_nop_table, calculate_table_count, assert_.
  rewrite (proj2 (Z.ltb_lt _ _) Ht). do 2 eexists. split; [reflexivity|]. cbn.
  rewrite (proj2 (Z.ltb_lt _ _) Ht). split; [reflexivity|]. split_and!; try done.
  exists (8 * (text_bytes desc / 8 + 1)). unfold bitmap_wf. cbn.
  assert (0 <= text_bytes desc / 8) by (apply Z.div_pos; unfold text_bytes; lia).
  split; [split|].
  - rewrite length_replicate. lia.
  - apply Forall_replicate. lia.
  - pose proof (Z.div_mod (text_bytes desc) 8). pose proof (Z.mod_pos_bound (text_bytes desc) 8).
    unfold text_bytes in *. cbn. lia.
Qed.

(** The file of an object: its sections can be read and have a text. *)
Record readable (file : elf_file) (desc desc1 : intercept_desc) : Prop := {
  rd_sections : find_sections file (desc <| i_items := [] |>) = Some desc1;
  rd_text : i_text_start desc1 < i_text_end desc1;
  rd_offset : 0 <= i_text_offset desc1;
  rd_syms : forall s, s ∈ i_symbol_tables desc1 -> is_Some (elf_syms file s);
  rd_relas : forall s, s ∈ i_rela_tables desc1 -> is_Some (elf_relas file s)
}.

Lemma sections_items sections : forall i found d found' d',
  sections_loop sections i found d = Some (found', d') -> i_items d' = i_items d.
Proof.
  induction sections as [|[name s] sections IH]; intros i found d found' d'; cbn.
  - by intros [= _ <-].
  - unfold add_table_info. repeat case_match; cbn; try done; intros E; by apply IH in E.
Qed.

Lemma find_syscalls_ok {cs : Capstone} {cl : CapstoneLaws} m file desc desc1 :
  readable file desc desc1 -> decodes m desc1 ->
  exists desc' ks js, find_syscalls m (Some file) desc = Some desc' /\
    layout (text_listing m desc1) desc' ks js /\ i_text_start desc' = i_text_start desc1 /\
    i_text_end desc' = i_text_end desc1 /\
    (forall s syms sym, s ∈ i_symbol_tables desc1 -> elf_syms file s = Some syms ->
       sym ∈ syms -> sym_marked desc1 desc' sym) /\
    (forall s relas rela, s ∈ i_rela_tables desc1 -> elf_relas file s = Some relas ->
       rela ∈ relas -> rela_marked desc1 desc' rela).
Proof.
  intros R Hd. unfold find_syscalls. cbn [mbind option_bind].
  rewrite (rd_sections _ _ _ R). cbn [mbind option_bind].
  destruct (allocate_tables desc1 (rd_text _ _ _ R)) as (d1 & d2 & -> & E2 & Hwf & Hn & Hi &
    Hs & He & Ho & Hb & Hx & Hsy & Hre). cbn [mbind option_bind]. rewrite E2.
  cbn [mbind option_bind].
  destruct (tables_marked d2 (elf_syms file) mark_sym (sym_marked d2) (i_symbol_tables d2)
    (sym_stays d2)) with (d := d2) as (d3 & E3 & M3 & Q3); [rewrite Hsy; apply R|done|done|].
  unfold find_jumps_in_section_syms. rewrite E3. cbn [mbind option_bind].
  assert (table_wf d3) by (by apply (st_wf _ _ (proj1 M3))).
  assert (i_rela_tables d3 = i_rela_tables desc1) as Er3.
  { destruct M3 as (_ & _ & _ & _ & _ & _ & ->). done. }
  destruct (tables_marked d2 (elf_relas file) mark_rela (rela_marked d2) (i_rela_tables d3)
    (rela_stays d2)) with (d := d3) as (d4 & E4 & M4 & Q4); [rewrite Er3; apply R|done|done|].
  unfold find_jumps_in_section_rela. rewrite E4. cbn [mbind option_bind].
  assert (marked d2 d4) as (S4 & I4 & N4 & _) by (by etrans).
  assert (table_wf d4) as Hwf4 by (by apply (st_wf _ _ S4)).
  assert (i_items desc1 = []) as El.
  { pose proof (rd_sections _ _ _ R) as Hsec. unfold find_sections in Hsec.
    destruct (elf_sections file) as [secs|]; [|done]. cbn in Hsec.
    destruct (sections_loop _ _ _ _) as [[found d0]|] eqn:El; [|done]. cbn in Hsec.
    apply sections_items in El. unfold assert_ in Hsec. destruct found; [|done].
    by simplify_eq. }
  destruct (crawl_text_layout m d4) as (d5 & ks & js & E5 & L & S5).
  - done.
  - by rewrite I4, Hi, El.
  - by rewrite N4, Hn.
  - rewrite (st_offset _ _ S4), Ho. apply R.
  - rewrite (st_start _ _ S4), (st_end _ _ S4), Hs, He. apply R.
  - intros code. rewrite (st_start _ _ S4), (st_end _ _ S4), Hs, He. apply Hd.
  - exists d5, ks, js. rewrite (st_start _ _ S5), (st_end _ _ S5), (st_start _ _ S4),
      (st_end _ _ S4). split; [done|]. split; [|split; [done|split; [done|]]].
    { unfold text_listing, text_bytes in *.
      by rewrite (st_start _ _ S4), (st_end _ _ S4), Hs, He in L. }
    assert (forall a, target_marked d2 d4 a -> target_marked desc1 d5 a) as Hto.
    { intros a Ha Ht. apply (st_mono _ _ S5); [done|]. apply Ha.
      unfold in_text in *. by rewrite Hs, He. }
    split.
    + intros s syms sym Hin1 Hsyms Hsym H1 H2. rewrite <-Hsy in Hin1.
      destruct (Q3 s syms sym Hin1 Hsyms Hsym H1) as [H3 H4]; [by rewrite Hx|].
      rewrite Hb in H3, H4. split; [|intros Hz; specialize (H4 Hz)];
        apply Hto, (target_mono d2 d3 d4); done || apply M4.
    + intros s relas rela Hin1 Hrelas Hrela H1. rewrite <-Er3 in Hin1.
      apply Hto. rewrite <-Hb. by apply (Q4 s relas rela Hin1 Hrelas Hrela H1).
Qed.

(** ** What a successful run has read *)

Definition text_of (desc : intercept_desc) : Z * Z * Z :=
  (i_text_start desc, i_text_end desc, i_text_offset desc).

Lemma marked_text d d' : marked d d' -> text_of d' = text_of d.
Proof. intros [[E1 E2 E3 _ _] _]. unfold text_of. by rewrite E1, E2, E3. Qed.

Lemma crawl_ins_text desc c r code desc' c' :
  crawl_ins desc c r code = Some (desc', c') -> text_of desc' = text_of desc.
Proof.
  unfold crawl_ins. set (d1 := if d_has_ip_relative_opr r then _ else _).
  set (d2 := if is_overwritable_nop r then _ else _).
  assert (text_of d1 = text_of desc) as E1.
  { unfold d1. destruct (d_has_ip_relative_opr r); [|done].
    apply marked_text, mark_jump_marked. }
  assert (text_of d2 = text_of d1) as E2.
  { unfold d2, mark_nop. destruct (is_overwritable_nop r); [|done]. by destruct (_ =? _). }
  destruct (_ && _); cbn [mbind option_bind]; [|intros [= <- _]; congruence].
  unfold assert_. destruct (_ <=? _); [|done]. cbn [mbind option_bind]. intros [= <- _].
  rewrite <-E1, <-E2. unfold add_new_patch. destruct (_ =? _); [done|].
  by destruct (has_pow2_count _).
Qed.

Lemma crawl_loop_text {cs : Capstone} m (fuel : nat) : forall desc c code desc',
  crawl_loop fuel m desc c code = Some desc' -> text_of desc' = text_of desc.
Proof.
  induction fuel as [|fuel IH]; intros desc c code desc'; cbn [crawl_loop];
    (destruct (code <=? _); [|by intros [= <-]]); [done|].
  destruct (intercept_disasm_next_instruction _ _ _) as [r|]; [|done]. cbn [mbind option_bind].
  destruct (_ =? 0); [apply IH|].
  destruct (crawl_ins _ _ _ _) as [[d1 c1]|] eqn:E; [|done]. cbn [mbind option_bind].
  intros ->%IH. by eapply crawl_ins_text.
Qed.

Lemma tables_read {A} (read : Elf64_Shdr -> option (list A)) f tables :
  (forall d x, marked d (f d x)) -> forall d d',
  foldl (fun d s => d ← d; (xs ← read s; Some (foldl f d xs))) (Some d) tables = Some d' ->
  (forall s, s ∈ tables -> is_Some (read s)) /\ marked d d'.
Proof.
  intros Hf. set (g := fun (d : option intercept_desc) s => d ← d; _).
  assert (forall ts, foldl g None ts = None) as Hnone by (by induction 0).
  induction tables as [|t tables IH]; intros d d'; cbn [foldl].
  { intros [= <-]. split; [by intros ? []%not_elem_of_nil|done]. }
  unfold g at 2. cbn [mbind option_bind].
  destruct (read t) as [xs|] eqn:Et; cbn [mbind option_bind]; [|by rewrite Hnone].
  intros [Hr M]%IH. split; [|by etrans; [apply (foldl_marked f xs)|exact M]].
  intros s [->|Hs]%elem_of_cons; [by eexists|by apply Hr].
Qed.

(** When the system calls were found, the sections and tables of the file could be
    read. *)
Lemma find_syscalls_readable {cs : Capstone} m file desc desc' :
  find_syscalls m file desc = Some desc' -> 0 <= i_text_offset desc' ->
  exists f desc1, file = Some f /\ readable f desc desc1 /\ text_of desc1 = text_of desc'.
Proof.
  unfold find_syscalls. destruct file as [f|]; [|done]. cbn [mbind option_bind].
  destruct (find_sections f _) as [desc1|] eqn:Esec; [|done]. cbn [mbind option_bind].
  intros H Ho. exists f, desc1. split; [done|].
  assert (i_text_start desc1 < i_text_end desc1) as Ht.
  { unfold allocate_jump_table, assert_ in H. destruct (_ <? _) eqn:E; [by zbool|done]. }
  destruct (allocate_tables desc1 Ht) as (d1 & d2 & E1 & E2 & Hwf & Hn & Hi &
    Hs & He & Hof & Hb & Hx & Hsy & Hre). rewrite E1 in H. cbn [mbind option_bind] in H.
  rewrite E2 in H. cbn [mbind option_bind] in H.
  unfold find_jumps_in_section_syms, find_jumps_in_section_rela in H.
  destruct (foldl _ (Some d2) _) as [d3|] eqn:E3; [|done]. cbn [mbind option_bind] in H.
  destruct (foldl _ (Some d3) _) as [d4|] eqn:E4; [|done]. cbn [mbind option_bind] in H.
  apply tables_read in E3 as [Hr3 M3]; [|apply mark_sym_marked].
  apply tables_read in E4 as [Hr4 M4]; [|apply mark_rela_marked].
  assert (text_of desc1 = text_of desc') as E.
  { apply crawl_loop_text in H. rewrite H, (marked_text _ _ M4), (marked_text _ _ M3).
    unfold text_of. by rewrite Hs, He, Hof. }
  split; [|done]. split; [done|done| |by rewrite <-Hsy|].
  - unfold text_of in E. simplify_eq. lia.
  - rewrite <-Hre. by destruct M3 as (_ & _ & _ & _ & _ & _ & <-).
Qed.

(** The description a successful run gives for a text without gaps. *)
Lemma find_syscalls_layout {cs : Capstone} {cl : CapstoneLaws} m file desc desc' :
  find_syscalls m file desc = Some desc' -> 0 <= i_text_offset desc' -> decodes m desc' ->
  exists ks js, layout (text_listing m desc') desc' ks js.
Proof.
  intros Hf Ho Hd. destruct (find_syscalls_readable m file desc desc' Hf Ho)
    as (f & desc1 & -> & R & E).
  assert (decodes m desc1 /\ text_listing m desc1 = text_listing m desc') as [Hd1 El].
  { unfold decodes, text_listing, text_bytes in *. unfold text_of in E.
    injection E as -> -> _. done. }
  destruct (find_syscalls_ok m f desc desc1 R Hd1) as (d' & ks & js & E' & L & _).
  rewrite Hf in E'. injection E' as <-. rewrite El in L. by exists ks, js.
Qed.

End PatchLayout.
