(* ===== verification/MiniX86.v ===== *)
(** * A disassembler for a few instructions

    An instance of what is used of capstone, which knows [syscall], a padding of
    seven bytes, [lea] relative to [rip] and instructions of one and three bytes.  It
    serves to evaluate the interception library on small texts. *)

From S2P Require Import Prelude Defs Disasm InterceptDesc PatchLayout.
Import Disasm InterceptDesc PatchLayout.

#[local] Open Scope Z_scope.

Module MiniX86.

(** The instruction that starts with the bytes at [code]. *)
Definition decode (m : mem) (code : Z) : cs_insn :=
  let first := m code in
  let second := m (code + 1) in
  if Byte.eqb first x0f && Byte.eqb second x05 then CsInsn X86_INS_SYSCALL 2 []
  else if Byte.eqb first x0f && Byte.eqb second x1f then CsInsn X86_INS_NOP 7 []
  else if Byte.eqb first x48 && Byte.eqb second x8d then
    CsInsn X86_INS_LEA 7
      [X86_OP_REG (X86_REG_OTHER 0);
       X86_OP_MEM X86_REG_RIP (X86_REG_OTHER 0)
         (s32 (le_combine (mem_read m (code + 3) 4)))]
  else if Byte.eqb first x48 then CsInsn (X86_INS_OTHER 1) 3 []
  else CsInsn (X86_INS_OTHER 0) 1 [].

#[export] Instance mini_capstone : Capstone := fun m code size =>
  let insn := decode m code in
  if cs_size insn <=? size then Some insn
  else if 1 <=? size then Some (CsInsn (X86_INS_OTHER 0) 1 [])
  else None.

(** The forms of an instruction. *)
Lemma decode_cases m code :
  decode m code = CsInsn X86_INS_SYSCALL 2 [] \/ decode m code = CsInsn X86_INS_NOP 7 [] \/
  (exists d, - 2 ^ 31 <= d < 2 ^ 31 /\ decode m code = CsInsn X86_INS_LEA 7
     [X86_OP_REG (X86_REG_OTHER 0); X86_OP_MEM X86_REG_RIP (X86_REG_OTHER 0) d]) \/
  decode m code = CsInsn (X86_INS_OTHER 1) 3 [] \/ decode m code = CsInsn (X86_INS_OTHER 0) 1 [].
Proof.
  unfold decode. destruct (_ && _); [auto|]. destruct (_ && _); [auto|].
  destruct (_ && _); [|destruct (Byte.eqb _ _); auto].
  right. right. left. eexists. split; [apply s32_range|done].
Qed.

#[export] Instance mini_capstone_laws : CapstoneLaws.
Proof.
  split; unfold cs_disasm_iter, mini_capstone; intros m code size insn.
  - destruct (_ <=? _) eqn:E; [|destruct (1 <=? size) eqn:E'; [|done]]; intros [= <-]; zbool;
      [|cbn; lia].
    destruct (decode_cases m code) as [-> | [-> | [(d & _ & ->) | [-> | ->]]]] in E |- *; cbn in *; lia.
  - destruct (_ <=? _) eqn:E; [|destruct (1 <=? size) eqn:E'; [|done]]; intros [= <-]; [|done].
    by destruct (decode_cases m code) as [-> | [-> | [(d & _ & ->) | [-> | ->]]]].
Qed.

(** The operands of a [lea]. *)
Lemma check_lea r d code :
  d_is_jump r = false -> d_is_indirect_jump r = false -> - 2 ^ 31 <= d < 2 ^ 31 ->
  exists r', check_ops r [X86_OP_REG (X86_REG_OTHER 0);
    X86_OP_MEM X86_REG_RIP (X86_REG_OTHER 0) d] code = Some r' /\ d_length r' = d_length r.
Proof.
  intros Hj Hi Hd. unfold check_ops. cbn [foldl mbind option_bind check_op is_ip orb].
  rewrite Hj. cbn [mbind option_bind check_op is_ip orb].
  change (d_is_indirect_jump (r <| d_has_ip_relative_opr := true |>)) with (d_is_indirect_jump r).
  change (d_is_jump (r <| d_has_ip_relative_opr := true |>)) with (d_is_jump r).
  rewrite Hi, Hj. unfold assert_ at 1. cbn [negb]. unfold assert_.
  rewrite (proj2 (Z.leb_le d _)), (proj2 (Z.leb_le _ d)) by lia. cbn [andb]. by eexists.
Qed.

(** Every text disassembles. *)
Lemma mini_decodes m desc : decodes m desc.
Proof.
  intros code _ Hc. unfold intercept_disasm_next_instruction.
  destruct (_ && _); [by eexists|]. unfold cs_disasm_iter, mini_capstone.
  set (size := i_text_end desc - code + 1). assert (1 <=? size = true) as -> by (zbool; lia).
  destruct (_ <=? size); [|by eexists].
  destruct (decode_cases m code) as [-> | [-> | [(d & Hd & ->) | [-> | ->]]]]; try by eexists.
  cbn [cs_size cs_id cs_operands is_jump_id implb].
  match goal with |- context [check_ops ?r _ _] =>
    destruct (check_lea r d code eq_refl eq_refl Hd) as (r' & E & El) end.
  rewrite E. cbn [mbind option_bind]. change (assert_ true ?k) with k.
  eexists. split; [reflexivity|]. assert (d_length r' = 7) by exact El.
  destruct (d_is_lea_rip _); change (d_length r' <> 0); lia.
Qed.

(** ** Examples of texts *)

(** A memory with [code] at [a]. *)
Definition mem_with (a : Z) (code : list byte) : mem := mem_write (fun _ => x00) a code.

(** A file with one section, the text of [size] bytes at the offset [off]. *)
Definition text_file (off size : Z) : elf_file :=
  ElfFile (Some [(".text"%string, Shdr 1 off off size)]) (fun _ => Some []) (fun _ => Some []).

(** Two system calls, the first with padding near it:
    [mov; xor; syscall; add; syscall; nop; ret; (padding); ret]. *)
Definition two_calls : list byte :=
  [x48; x89; xc7; x48; x31; xf6; x0f; x05; x48; x01; xc0; x0f; x05; x90; xc3;
   x0f; x1f; x80; x00; x00; x00; x00; xc3].

(** [syscall; lea 0(%rip), %rax; syscall; nop], and more of the same. *)
Definition lea_between : list byte :=
  [x0f; x05; x48; x8d; x05; x00; x00; x00; x00; x0f; x05; x90].

(** A template of the right shape. *)
Definition nops : list byte := replicate 40 x90.

Definition found (m : mem) (file : elf_file) (base : Z) : intercept_desc :=
  let desc := InterceptDesc false base 0 [] [] 0 0 0 [] 0 [] 0 [] 0 0 0 in
  default desc (find_syscalls m (Some file) desc).

End MiniX86.
