(* ===== verification/PatchPlace.v ===== *)
(** * No instruction is taken by two patches

    What [create_patch_wrappers] decides for the system calls of a text, in their
    order: a patch marks the address it returns to as a jump target, which keeps the
    next patch from taking the instruction before it. *)

From S2P Require Import Prelude Defs Util Disasm InterceptDesc Patcher PatchLayout.
Import Util.Util Disasm InterceptDesc Patcher PatchLayout.

#[local] Open Scope Z_scope.

Module PatchPlace.

(** ** One patch *)

Definition movable (copiable : intercept_disasm_result -> bool) (desc : intercept_desc)
    (ins : intercept_disasm_result) (target : Z) : Prop :=
  d_is_lea_rip ins = true \/
  (copiable ins = true /\ is_overwritable_nop ins = false /\ has_jump desc target = false).

(** Length of the instructions taken before and after the system call. *)
Definition prev_len (p : patch_desc) : Z :=
  if p_uses_prev_ins p
  then d_length (p_preceding_ins p) +
       (if p_uses_prev_ins_2 p then d_length (p_preceding_ins_2 p) else 0)
  else 0.

Definition next_len (p : patch_desc) : Z :=
  if p_uses_next_ins p then d_length (p_following_ins p) else 0.

(** [p] was decided on with the jump targets of [desc], taking entries of the
    padding table between [n] and [n']. *)
Record placed (l : list intercept_disasm_result) (k : nat) (desc : intercept_desc)
    (n : Z) (p : patch_desc) (n' : Z) : Prop := {
  pc_site : site l k p;
  pc_le : n <= n';
  pc_nop : p_uses_nop_trampoline p = true ->
    (exists j, n <= j < n' /\ i_nop_table desc !! Z.to_nat j = Some (p_nop_trampoline p)) /\
    is_nop_in_range (p_syscall_addr p) (p_nop_trampoline p) = true /\
    p_uses_prev_ins p = false /\ p_uses_prev_ins_2 p = false /\ p_uses_next_ins p = false /\
    p_dst_jmp_patch p = r_address (p_nop_trampoline p) + 2;
  pc_dst : p_uses_nop_trampoline p = false ->
    p_dst_jmp_patch p = p_syscall_addr p - prev_len p;
  pc_return : p_return_address p = p_syscall_addr p + SYSCALL_INS_SIZE + next_len p;
  pc_room : p_uses_nop_trampoline p = false ->
    JUMP_INS_SIZE <= p_return_address p - p_dst_jmp_patch p;
  pc_prev : p_uses_prev_ins p = true ->
    movable is_copiable_before_syscall desc (p_preceding_ins p) (p_syscall_addr p);
  pc_prev_2 : p_uses_prev_ins_2 p = true -> p_uses_prev_ins p = true /\
    movable is_copiable_before_syscall desc (p_preceding_ins_2 p)
      (p_syscall_addr p - d_length (p_preceding_ins p));
  pc_next : p_uses_next_ins p = true ->
    movable is_copiable_after_syscall desc (p_following_ins p)
      (p_syscall_addr p + SYSCALL_INS_SIZE)
}.

Lemma assign_nop_spec nops : forall p i p' i',
  assign_nop_trampoline nops p i = (p', i') ->
  i <= i' /\
  ((p' = p <| p_uses_nop_trampoline := false |>) \/
   exists (j : nat) nop, nops !! j = Some nop /\ i' = i + j + 1 /\
     is_nop_in_range (p_syscall_addr p) nop = true /\
     p' = p <| p_uses_nop_trampoline := true |> <| p_nop_trampoline := nop |>).
Proof.
  induction nops as [|nop nops IH]; intros p i p' i'; cbn [assign_nop_trampoline].
  - intros [= <- <-]. split; [lia|by left].
  - destruct (is_nop_in_range _ _) eqn:Er.
    { intros [= <- <-]. split; [lia|]. right. exists 0%nat, nop. split_and!; [done|lia|done..]. }
    destruct (_ <? _); [intros [= <- <-]; split; [lia|by left]|].
    intros (Hi & [->|(j & nop' & Hj & -> & Hr & ->)])%IH; (split; [lia|]); [by left|].
    right. exists (S j), nop'. split_and!; [done|lia|done..].
Qed.

Lemma movable_spec copiable desc ins target :
  d_is_lea_rip ins || (copiable ins && negb (is_overwritable_nop ins) &&
    negb (has_jump desc target)) = true -> movable copiable desc ins target.
Proof.
  intros [H|H]%orb_true_iff; [by left|right]. zbool. done.
Qed.

Lemma site_fields l k p p' :
  p_syscall_addr p' = p_syscall_addr p -> p_following_ins p' = p_following_ins p ->
  p_preceding_ins p' = p_preceding_ins p -> p_preceding_ins_2 p' = p_preceding_ins_2 p ->
  site l k p -> site l k p'.
Proof. intros E1 E2 E3 E4 []. split; by rewrite ?E1, ?E2, ?E3, ?E4. Qed.

Lemma place_neighbours_spec p length p' :
  (p_uses_prev_ins p = false -> p_uses_prev_ins_2 p = false) ->
  place_neighbours p = (length, p') ->
  p' = p <| p_dst_jmp_patch := p_syscall_addr p - prev_len p |>
         <| p_return_address := p_syscall_addr p + SYSCALL_INS_SIZE + next_len p |> /\
  length = SYSCALL_INS_SIZE + prev_len p + next_len p.
Proof.
  intros H2. unfold place_neighbours, prev_len, next_len. cbn.
  destruct (p_uses_prev_ins p) eqn:E1; [destruct (p_uses_prev_ins_2 p) eqn:E3|]; cbn;
    rewrite ?E1, ?E3; cbn; destruct (p_uses_next_ins p) eqn:E4; cbn; intros [= <- <-];
    (split; [|lia]); unfold update; cbn; f_equal; lia.
Qed.

Lemma place_patch_spec l k desc p n p' desc' n' :
  site l k p -> 0 <= n -> place_patch desc p n = Some (p', desc', n') ->
  placed l k desc n p' n' /\ desc' = mark_jump desc (p_return_address p').
Proof.
  intros S Hn. unfold place_patch.
  destruct (assign_nop_trampoline _ p n) as [p1 n1] eqn:Ea.
  apply assign_nop_spec in Ea as (Hle & [->|(j & nop & Hj & -> & Hr & ->)]); cbn.
  - set (p2 := check_surrounding_instructions _ _).
    destruct (place_neighbours p2) as [len p3] eqn:Ep.
    apply place_neighbours_spec in Ep as [-> ->].
    2: { unfold p2, check_surrounding_instructions. cbn. by intros ->. }
    destruct (_ <? JUMP_INS_SIZE) eqn:El; [done|]. cbn. intros [= <- <- <-]. zbool.
    split; [|done]. unfold SYSCALL_INS_SIZE in *.
    split; try done; cbn; unfold prev_len, next_len in *; cbn in *.
    + by eapply site_fields; [..|exact S].
    + intros _. unfold p2 in *. cbn in *. lia.
    + apply movable_spec.
    + destruct (_ || _) eqn:E1; [|done]. cbn. intros H. split; [done|].
      by apply movable_spec.
    + apply movable_spec.
  - intros [= <- <- <-]. split; [|done]. split; try done; cbn.
    + by eapply site_fields; [..|exact S].
    + intros _. split; [|by split_and!]. exists (n + j). split; [lia|].
      unfold zdrop in Hj. rewrite lookup_drop in Hj.
      by replace (Z.to_nat (n + j)) with (Z.to_nat n + j)%nat by lia.
    + unfold next_len. cbn. lia.
Qed.

(** An instruction next to the system call that computes an address from [rip] is
    always taken. *)
Lemma place_patch_lea desc p n p' desc' n' :
  place_patch desc p n = Some (p', desc', n') -> p_uses_nop_trampoline p' = false ->
  (d_is_lea_rip (p_following_ins p) = true -> p_uses_next_ins p' = true) /\
  (d_is_lea_rip (p_preceding_ins p) = true -> p_uses_prev_ins p' = true).
Proof.
  unfold place_patch. destruct (assign_nop_trampoline _ p n) as [p1 n1] eqn:Ea.
  apply assign_nop_spec in Ea as (_ & [->|(j & nop & _ & _ & _ & ->)]); cbn;
    [|by intros [= <- _ _]].
  set (p2 := check_surrounding_instructions _ _).
  destruct (place_neighbours p2) as [len p3] eqn:Ep.
  apply place_neighbours_spec in Ep as [-> _].
  2: { unfold p2, check_surrounding_instructions. cbn. by intros ->. }
  destruct (_ <? JUMP_INS_SIZE); [done|]. intros [= <- _ _] _. cbn.
  by split; intros ->.
Qed.

(** Deciding about a patch marks where it returns to. *)
Lemma place_patch_desc desc p n p' desc' n' :
  place_patch desc p n = Some (p', desc', n') ->
  desc' = mark_jump desc (p_return_address p').
Proof.
  unfold place_patch. destruct (assign_nop_trampoline _ _ _) as [q nq].
  destruct (if p_uses_nop_trampoline q then _ else _) as [q'|]; [|done]. cbn. congruence.
Qed.

Lemma place_patch_text desc p n p' desc' n' x :
  place_patch desc p n = Some (p', desc', n') -> in_text desc' x = in_text desc x.
Proof.
  intros ->%place_patch_desc. apply in_text_marked, mark_jump_marked.
Qed.

(** ** The instructions a patch takes *)

Definition takes (l : list intercept_disasm_result) (k : nat) (p : patch_desc)
    (i : nat) : Prop :=
  i = k \/
  (p_uses_prev_ins p = true /\ S i = k) \/
  (p_uses_prev_ins_2 p = true /\ S (S i) = k) \/
  (p_uses_next_ins p = true /\ i = S k) \/
  (p_uses_nop_trampoline p = true /\ nop_at l i (p_nop_trampoline p)).

(** The bytes a patch overwrites. *)
Definition owned (p : patch_desc) (x : Z) : Prop :=
  if p_uses_nop_trampoline p
  then p_syscall_addr p <= x < p_syscall_addr p + SYSCALL_INS_SIZE \/
       r_address (p_nop_trampoline p) <= x < after_nop (p_nop_trampoline p)
  else p_dst_jmp_patch p <= x < p_return_address p.

Section patches.
Variables (l : list intercept_disasm_result) (desc0 : intercept_desc) (ks js : list nat).
Hypothesis L : layout l desc0 ks js.

Lemma movable_before copiable desc k n target :
  copiable (zero_result 0) = false -> movable copiable desc (before l k n) target ->
  (n <= k)%nat /\ l !! (k - n)%nat = Some (before l k n).
Proof.
  intros Hz. unfold before. case_decide as Hn.
  - destruct (l !! (k - n)%nat); [done|]. intros [?|[? _]]; [done|]. cbn in *. congruence.
  - intros [?|[? _]]; [done|]. congruence.
Qed.

(** What may be moved is neither a system call nor padding. *)
Lemma movable_kind copiable desc i r target :
  (forall r, copiable r = true -> d_is_syscall r = false) ->
  l !! i = Some r -> movable copiable desc r target ->
  d_is_syscall r = false /\ is_overwritable_nop r = false.
Proof.
  intros Hc Hi [Hlea|(Hco & Hn & _)]; [|by auto].
  destruct (dc_lea _ _ _ (ly_decoded _ _ _ _ L _ _ Hi) Hlea) as [? E].
  split; [done|]. unfold is_overwritable_nop. by rewrite E.
Qed.

Lemma before_not_syscall r : is_copiable_before_syscall r = true -> d_is_syscall r = false.
Proof.
  unfold is_copiable_before_syscall. destruct (d_is_set r), (d_is_syscall r); cbn; try done.
  by rewrite orb_true_r.
Qed.

Lemma after_not_syscall r : is_copiable_after_syscall r = true -> d_is_syscall r = false.
Proof.
  unfold is_copiable_after_syscall. destruct (d_is_set r), (d_is_syscall r); cbn; try done.
  by rewrite orb_true_r.
Qed.

(** The neighbours of a patch. *)
Record neighbours (k : nat) (desc : intercept_desc) (p : patch_desc) : Prop := {
  nb_syscall : exists s, l !! k = Some s /\ d_is_syscall s = true /\
    is_overwritable_nop s = false /\ p_syscall_addr p = d_address s /\ d_length s = 2;
  nb_next : exists f, l !! S k = Some f /\ p_following_ins p = f /\
    d_address f = p_syscall_addr p + SYSCALL_INS_SIZE;
  nb_next_kind : p_uses_next_ins p = true -> d_is_syscall (p_following_ins p) = false /\
    is_overwritable_nop (p_following_ins p) = false;
  nb_prev : p_uses_prev_ins p = true -> (1 <= k)%nat /\
    l !! (k - 1)%nat = Some (p_preceding_ins p) /\
    d_address (p_preceding_ins p) = p_syscall_addr p - d_length (p_preceding_ins p) /\
    d_is_syscall (p_preceding_ins p) = false /\
    is_overwritable_nop (p_preceding_ins p) = false;
  nb_prev_2 : p_uses_prev_ins_2 p = true -> (2 <= k)%nat /\
    l !! (k - 2)%nat = Some (p_preceding_ins_2 p) /\
    d_address (p_preceding_ins_2 p) =
      p_syscall_addr p - d_length (p_preceding_ins p) - d_length (p_preceding_ins_2 p) /\
    d_is_syscall (p_preceding_ins_2 p) = false /\
    is_overwritable_nop (p_preceding_ins_2 p) = false
}.

Lemma placed_neighbours k desc n p n' : placed l k desc n p n' -> neighbours k desc p.
Proof.
  intros P. destruct (pc_site _ _ _ _ _ _ P) as [(s & Hs & Hsc & Ha) Hf H1 H2].
  pose proof (ly_tiling _ _ _ _ L) as T.
  destruct (dc_syscall _ _ _ (ly_decoded _ _ _ _ L _ _ Hs) Hsc) as [Hlen Hnn].
  assert (p_uses_prev_ins p = true -> (1 <= k)%nat /\
    l !! (k - 1)%nat = Some (p_preceding_ins p) /\
    d_address (p_preceding_ins p) = p_syscall_addr p - d_length (p_preceding_ins p) /\
    d_is_syscall (p_preceding_ins p) = false /\
    is_overwritable_nop (p_preceding_ins p) = false) as Hprev.
  { intros U. pose proof (pc_prev _ _ _ _ _ _ P U) as Hm. rewrite H1 in Hm.
    pose proof Hm as [Hk Hl]%movable_before; [|done]. rewrite <-H1 in *.
    pose proof (tiling_next _ _ _ (k - 1) _ s T Hl) as Hn.
    replace (S (k - 1)) with k in Hn by lia. specialize (Hn Hs). unfold ins_end in Hn.
    split_and!; [done|done|lia|..]; eapply movable_kind; eauto using before_not_syscall. }
  split.
  - exists s. split_and!; try done. unfold is_overwritable_nop. by rewrite Hnn.
  - exists (p_following_ins p). split_and!; [done..|].
    rewrite (tiling_next _ _ _ _ _ _ T Hs Hf). unfold ins_end, SYSCALL_INS_SIZE. lia.
  - intros U. pose proof (pc_next _ _ _ _ _ _ P U).
    eapply movable_kind; eauto using after_not_syscall.
  - done.
  - intros U. destruct (pc_prev_2 _ _ _ _ _ _ P U) as [U1 Hm].
    destruct (Hprev U1) as (Hk & Hl & Ha1 & _). rewrite H2 in Hm.
    pose proof Hm as [Hk2 Hl2]%movable_before; [|done]. rewrite <-H2 in *.
    pose proof (tiling_next _ _ _ (k - 2) _ (p_preceding_ins p) T Hl2) as Hn.
    replace (S (k - 2)) with (k - 1)%nat in Hn by lia. specialize (Hn Hl).
    unfold ins_end in Hn.
    split_and!; [done|done|lia|..]; eapply movable_kind; eauto using before_not_syscall.
Qed.

Lemma before_return k desc n p n' :
  placed l k desc n p n' -> p_uses_nop_trampoline p = false ->
  p_dst_jmp_patch p <= p_syscall_addr p /\
  p_syscall_addr p + SYSCALL_INS_SIZE <= p_return_address p.
Proof.
  intros P U. pose proof (placed_neighbours _ _ _ _ _ P) as N.
  pose proof (ly_tiling _ _ _ _ L) as T.
  rewrite (pc_dst _ _ _ _ _ _ P U), (pc_return _ _ _ _ _ _ P). unfold prev_len, next_len.
  destruct (nb_next _ _ _ N) as (f & Hf & -> & _).
  destruct (tiling_bounds _ _ _ _ _ T Hf) as (_ & ? & _).
  destruct (p_uses_prev_ins p) eqn:E1, (p_uses_prev_ins_2 p) eqn:E2, (p_uses_next_ins p);
    try (destruct (nb_prev _ _ _ N E1) as (_ & H1 & _);
         destruct (tiling_bounds _ _ _ _ _ T H1) as (_ & ? & _));
    try (destruct (nb_prev_2 _ _ _ N E2) as (_ & H2 & _);
         destruct (tiling_bounds _ _ _ _ _ T H2) as (_ & ? & _)); lia.
Qed.

(** The bytes a patch overwrites are those of the instructions it takes. *)
Lemma owned_takes k desc n p n' x :
  placed l k desc n p n' -> i_nop_table desc = i_nop_table desc0 -> owned p x ->
  exists i r, takes l k p i /\ l !! i = Some r /\ d_address r <= x < ins_end r.
Proof.
  intros P En. pose proof (placed_neighbours _ _ _ _ _ P) as N. unfold owned, takes, ins_end.
  destruct (nb_syscall _ _ _ N) as (s & Hs & _ & _ & Ea & El).
  destruct (p_uses_nop_trampoline p) eqn:U.
  - destruct (pc_nop _ _ _ _ _ _ P U) as ((j & _ & Hj) & _).
    rewrite En in Hj. destruct (Forall2_lookup_r _ _ _ _ _ (ly_nops _ _ _ _ L) Hj)
      as (i & _ & r & Hr & Hn & E).
    intros [Hx|Hx].
    + exists k, s. split; [by left|]. split; [done|]. unfold SYSCALL_INS_SIZE in Hx. lia.
    + exists i, r. rewrite E. split; [do 4 right; split; [done|by exists r]|].
      split; [done|]. unfold after_nop in Hx. by rewrite E in Hx.
  - rewrite (pc_dst _ _ _ _ _ _ P U), (pc_return _ _ _ _ _ _ P).
    unfold prev_len, next_len, SYSCALL_INS_SIZE. intros Hx.
    destruct (nb_next _ _ _ N) as (f & Hf & Ef & Eaf). unfold SYSCALL_INS_SIZE in Eaf.
    destruct (Z_lt_le_dec x (p_syscall_addr p)).
    + destruct (p_uses_prev_ins p) eqn:E1; [|lia].
      destruct (nb_prev _ _ _ N E1) as (Hk & H1 & Ea1 & _).
      destruct (Z_lt_le_dec x (d_address (p_preceding_ins p))).
      * destruct (p_uses_prev_ins_2 p) eqn:E2; [|lia].
        destruct (nb_prev_2 _ _ _ N E2) as (Hk2 & H2 & Ea2 & _).
        exists (k - 2)%nat, (p_preceding_ins_2 p). split; [|split; [done|lia]].
        right. right. left. split; [done|lia].
      * exists (k - 1)%nat, (p_preceding_ins p). split; [|split; [done|lia]].
        right. left. split; [done|lia].
    + destruct (Z_lt_le_dec x (p_syscall_addr p + 2)).
      * exists k, s. split; [by left|]. split; [done|lia].
      * destruct (p_uses_next_ins p); [|lia].
        exists (S k), f. split; [by do 3 right; left|]. split; [done|]. subst f. lia.
Qed.

(** ** All patches *)

(** The patches decided on one after the other. *)
Inductive placing : list nat -> Z -> intercept_desc -> list patch_desc -> intercept_desc -> Prop :=
| placing_nil n desc : placing [] n desc [] desc
| placing_cons k ks n desc p n' ps desc' :
    placed l k desc n p n' ->
    placing ks n' (mark_jump desc (p_return_address p)) ps desc' ->
    placing (k :: ks) n desc (p :: ps) desc'.

Lemma placing_lookup ks1 n desc ps desc' :
  placing ks1 n desc ps desc' -> forall i k p, ks1 !! i = Some k -> ps !! i = Some p ->
  exists d n1 n2, placed l k d n1 p n2 /\ same_text desc d /\
    i_nop_table d = i_nop_table desc /\ n <= n1.
Proof.
  induction 1 as [|k0 ks1 n desc p0 n' ps desc' P _ IH]; intros i k p; [done|].
  destruct i as [|i]; cbn.
  - intros [= ->] [= ->]. by exists desc, n, n'.
  - intros Hk Hp. destruct (IH i k p Hk Hp) as (d & n1 & n2 & P' & S & E & Hn).
    exists d, n1, n2. pose proof (pc_le _ _ _ _ _ _ P).
    split_and!; [done| |by rewrite E; apply mark_jump_items|lia].
    by etrans; [apply mark_jump_same|].
Qed.

Lemma placing_length ks1 n desc ps desc' :
  placing ks1 n desc ps desc' -> length ps = length ks1.
Proof. induction 1; cbn; congruence. Qed.

(** The position of a patch. *)
Lemma placing_position ks1 n desc ps desc' i p :
  placing ks1 n desc ps desc' -> ps !! i = Some p -> is_Some (ks1 !! i).
Proof.
  intros PS Hp. apply lookup_lt_is_Some. rewrite <-(placing_length _ _ _ _ _ PS).
  by eapply lookup_lt_Some.
Qed.

(** A later patch knows where an earlier one returns to. *)
Lemma placing_pair ks1 n desc ps desc' :
  placing ks1 n desc ps desc' -> forall i i' k p k' p', (i < i')%nat ->
  ks1 !! i = Some k -> ps !! i = Some p -> ks1 !! i' = Some k' -> ps !! i' = Some p' ->
  exists d n1 n2 d' n1' n2', placed l k d n1 p n2 /\ placed l k' d' n1' p' n2' /\
    n2 <= n1' /\ n <= n1 /\ same_text desc d /\ same_text (mark_jump d (p_return_address p)) d' /\
    i_nop_table d = i_nop_table desc /\ i_nop_table d' = i_nop_table desc.
Proof.
  induction 1 as [|k0 ks1 n desc p0 n' ps desc' P PS IH]; intros i i' k p k' p' Hlt; [done|].
  destruct i' as [|i']; [lia|]. destruct i as [|i]; cbn.
  - intros [= ->] [= ->] Hk Hp.
    destruct (placing_lookup _ _ _ _ _ PS i' k' p' Hk Hp) as (d & n1 & n2 & P' & S & E & Hn).
    exists desc, n, n', d, n1, n2. rewrite E. split_and!; try done. apply mark_jump_items.
  - intros Hk Hp Hk' Hp'.
    destruct (IH i i' k p k' p') as (d & n1 & n2 & d' & n1' & n2' & H1 & H2 & H3 & H4 & H5 &
      H6 & H7 & H8); [lia|done..|].
    exists d, n1, n2, d', n1', n2'. rewrite H7, H8. pose proof (pc_le _ _ _ _ _ _ P).
    split_and!; try done; [lia| |apply mark_jump_items..].
    by etrans; [apply mark_jump_same|].
Qed.

(** No address of an instruction computed from [rip] has a system call right before
    it and another one among the two instructions after it. *)
Definition lea_apart : Prop :=
  forall k s r, l !! k = Some s -> d_is_syscall s = true -> l !! S k = Some r ->
    d_is_lea_rip r = true -> forall k' s', (k < k' <= k + 3)%nat -> l !! k' = Some s' ->
    d_is_syscall s' = false.

(** Where a patch that takes the next instruction returns to. *)
Lemma return_address_next k desc n p n' r :
  placed l k desc n p n' -> p_uses_next_ins p = true -> l !! S (S k) = Some r ->
  p_return_address p = d_address r.
Proof.
  intros P U Hr. pose proof (placed_neighbours _ _ _ _ _ P) as N.
  destruct (nb_next _ _ _ N) as (f & Hf & Ef & Ea).
  rewrite (tiling_next _ _ _ _ _ _ (ly_tiling _ _ _ _ L) Hf Hr).
  rewrite (pc_return _ _ _ _ _ _ P). unfold next_len, ins_end. rewrite U, Ef. lia.
Qed.

Lemma return_marked k d n p n' d' r :
  placed l k d n p n' -> p_uses_next_ins p = true -> l !! S (S k) = Some r ->
  same_text desc0 d -> same_text (mark_jump d (p_return_address p)) d' ->
  has_jump d' (d_address r) = true.
Proof.
  intros P U Hr S1 S2. rewrite (return_address_next _ _ _ _ _ _ P U Hr) in S2.
  assert (table_wf d) by (apply (st_wf _ _ S1), (ly_table _ _ _ _ L)).
  apply (st_mono _ _ S2); [by apply (st_wf _ _ (mark_jump_same d _))|].
  rewrite has_jump_mark; [by rewrite bool_decide_true|done|].
  pose proof (ly_tiling _ _ _ _ L) as T.
  destruct (tiling_bounds _ _ _ _ _ T Hr) as (? & ? & ?). unfold ins_end in *.
  unfold in_text. rewrite (st_start _ _ S1), (st_end _ _ S1).
  by rewrite !(proj2 (Z.leb_le _ _)) by lia.
Qed.

(** Two patches, the second decided on after the first. *)
Record ordered (k : nat) (d : intercept_desc) (p : patch_desc)
    (k' : nat) (d' : intercept_desc) (p' : patch_desc) : Prop := {
  or_lt : (k < k')%nat;
  or_same : same_text desc0 d;
  or_marked : same_text (mark_jump d (p_return_address p)) d';
  or_nops : exists n1 n2 n1' n2', placed l k d n1 p n2 /\ placed l k' d' n1' p' n2' /\
    0 <= n1 /\ n2 <= n1' /\
    i_nop_table d = i_nop_table desc0 /\ i_nop_table d' = i_nop_table desc0
}.

(** The instruction after the first is not one before the second. *)
Lemma next_not_shared k d p k' d' p' :
  lea_apart -> ordered k d p k' d' p' -> p_uses_next_ins p = true ->
  (p_uses_prev_ins p' = true -> k' <> S (S k)) /\
  (p_uses_prev_ins_2 p' = true -> k' <> S (S (S k))).
Proof.
  intros A [Hlt S1 S2 (n1 & n2 & n1' & n2' & P & P' & _)] U.
  pose proof (placed_neighbours _ _ _ _ _ P) as N.
  pose proof (placed_neighbours _ _ _ _ _ P') as N'.
  destruct (nb_syscall _ _ _ N) as (s & Hs & Hsc & _).
  destruct (nb_syscall _ _ _ N') as (s' & Hs' & Hsc' & _ & Ea & _).
  assert (forall r, l !! S k = Some r -> (k' <= k + 3)%nat -> d_is_lea_rip r = false) as Hlea.
  { intros r Hr Hle. destruct (d_is_lea_rip r) eqn:E; [|done].
    by rewrite (A k s r Hs Hsc Hr E k' s' ltac:(lia) Hs') in Hsc'. }
  split; intros U' ->.
  - destruct (nb_prev _ _ _ N' U') as (_ & Hp & _). cbn in Hp.
    destruct (pc_prev _ _ _ _ _ _ P' U') as [E|(_ & _ & E)];
      [by rewrite Hlea in E by (done || lia)|].
    rewrite Ea in E. by rewrite (return_marked k d n1 p n2 d' s' P U Hs' S1 S2) in E.
  - destruct (pc_prev_2 _ _ _ _ _ _ P' U') as [U1 [E|(_ & _ & E)]];
      destruct (nb_prev_2 _ _ _ N' U') as (_ & Hp & _); cbn in Hp;
      [by rewrite Hlea in E by (done || lia)|].
    destruct (nb_prev _ _ _ N' U1) as (_ & Hp1 & Ea1 & _). cbn in Hp1. rewrite <-Ea1 in E.
    by rewrite (return_marked k d n1 p n2 d' _ P U Hp1 S1 S2) in E.
Qed.

(** Padding is given to one patch. *)
Lemma nop_at_unique i i' n : nop_at l i n -> nop_at l i' n -> i = i'.
Proof.
  intros (r & Hr & _ & E) (r' & Hr' & _ & E'). rewrite E in E'. injection E' as Ea El.
  pose proof (ly_tiling _ _ _ _ L) as T.
  destruct (tiling_bounds _ _ _ _ _ T Hr) as (_ & ? & _).
  apply (tiling_unique _ _ l i i' r r' (d_address r) T Hr Hr'); unfold ins_end; lia.
Qed.

Lemma sorted_lookup_lt (xs : list nat) : StronglySorted lt xs -> forall i j x y,
  (i < j)%nat -> xs !! i = Some x -> xs !! j = Some y -> (x < y)%nat.
Proof.
  induction 1 as [|z xs Hs IH Hz]; intros i j x y Hij; [done|].
  destruct j as [|j]; [lia|]. destruct i as [|i]; cbn.
  - intros [= <-] Hy. rewrite Forall_lookup in Hz. by apply (Hz j).
  - apply IH. lia.
Qed.

Lemma nops_not_shared k d p k' d' p' i :
  ordered k d p k' d' p' ->
  p_uses_nop_trampoline p = true -> nop_at l i (p_nop_trampoline p) ->
  p_uses_nop_trampoline p' = true -> nop_at l i (p_nop_trampoline p') -> False.
Proof.
  intros [_ _ _ (n1 & n2 & n1' & n2' & P & P' & H0 & Hn & E & E')] U Hi U' Hi'.
  destruct (pc_nop _ _ _ _ _ _ P U) as ((j & Hj & Hl) & _).
  destruct (pc_nop _ _ _ _ _ _ P' U') as ((j' & Hj' & Hl') & _).
  rewrite E in Hl. rewrite E' in Hl'.
  destruct (Forall2_lookup_r _ _ _ _ _ (ly_nops _ _ _ _ L) Hl) as (i1 & Hi1 & Hx1).
  destruct (Forall2_lookup_r _ _ _ _ _ (ly_nops _ _ _ _ L) Hl') as (i2 & Hi2 & Hx2).
  rewrite <-(nop_at_unique _ _ _ Hi Hx1) in Hi1.
  rewrite <-(nop_at_unique _ _ _ Hi' Hx2) in Hi2.
  assert (Z.to_nat j < Z.to_nat j')%nat as Hlt by lia.
  pose proof (sorted_lookup_lt js (ly_nops_sorted _ _ _ _ L) _ _ _ _ Hlt Hi1 Hi2). lia.
Qed.

(** What kind of instruction a patch takes where. *)
Lemma takes_kind k d n p n' i :
  placed l k d n p n' -> takes l k p i -> exists r, l !! i = Some r /\
    ((i = k /\ d_is_syscall r = true /\ is_overwritable_nop r = false) \/
     ((p_uses_prev_ins p = true /\ S i = k \/ p_uses_prev_ins_2 p = true /\ S (S i) = k \/
       p_uses_next_ins p = true /\ i = S k) /\
      d_is_syscall r = false /\ is_overwritable_nop r = false) \/
     (p_uses_nop_trampoline p = true /\ nop_at l i (p_nop_trampoline p) /\
      d_is_syscall r = false /\ is_overwritable_nop r = true)).
Proof.
  intros P. pose proof (placed_neighbours _ _ _ _ _ P) as N.
  intros [->|[[U <-]|[[U <-]|[[U ->]|[U Hn]]]]].
  - destruct (nb_syscall _ _ _ N) as (s & Hs & Hsc & Hn & _). exists s.
    split; [done|]. by left.
  - destruct (nb_prev _ _ _ N U) as (_ & H1 & _ & Hs & Hn). cbn in H1.
    rewrite Nat.sub_0_r in H1. exists (p_preceding_ins p). split; [done|].
    right. left. split; [by left|done].
  - destruct (nb_prev_2 _ _ _ N U) as (_ & H1 & _ & Hs & Hn). cbn in H1.
    rewrite Nat.sub_0_r in H1. exists (p_preceding_ins_2 p). split; [done|].
    right. left. split; [by right; left|done].
  - destruct (nb_next _ _ _ N) as (f & Hf & <- & _), (nb_next_kind _ _ _ N U) as [Hs Hn].
    exists (p_following_ins p). split; [done|]. right. left. split; [by right; right|done].
  - pose proof Hn as (r & Hr & Hov & E). exists r. split; [done|]. right. right.
    split_and!; try done. destruct (d_is_syscall r) eqn:Esc; [|done].
    destruct (dc_syscall _ _ _ (ly_decoded _ _ _ _ L _ _ Hr) Esc) as [_ Hnn].
    unfold is_overwritable_nop in Hov. by rewrite Hnn in Hov.
Qed.

Lemma takes_disjoint k d p k' d' p' i :
  lea_apart -> ordered k d p k' d' p' -> takes l k p i -> takes l k' p' i -> False.
Proof.
  intros A O T T'. pose proof O as [Hlt _ _ (n1 & n2 & n1' & n2' & P & P' & _)].
  pose proof (placed_neighbours _ _ _ _ _ P) as N.
  pose proof (placed_neighbours _ _ _ _ _ P') as N'.
  destruct (takes_kind _ _ _ _ _ _ P T) as (r & Hr & K).
  destruct (takes_kind _ _ _ _ _ _ P' T') as (r' & Hr' & K').
  assert (r' = r) as -> by congruence.
  destruct K as [(-> & E & En)|[(K & E & En)|(U & K & E & En)]],
    K' as [(-> & E' & En')|[(K' & E' & En')|(U' & K' & E' & En')]]; try congruence; try lia.
  - destruct K as [[U K]|[[U K]|[U K]]], K' as [[U' K']|[[U' K']|[U' K']]]; try lia;
      try (assert (k' = S k) as -> by lia;
           destruct (pc_prev_2 _ _ _ _ _ _ P' U') as [U1 _];
           destruct (nb_prev _ _ _ N' U1) as (_ & Hk & _ & Hsc & _);
           destruct (nb_syscall _ _ _ N) as (s & Hs & Hsc' & _);
           cbn in Hk; rewrite Nat.sub_0_r in Hk; congruence).
    + destruct (next_not_shared _ _ _ _ _ _ A O U) as [H _]. apply H; [done|lia].
    + destruct (next_not_shared _ _ _ _ _ _ A O U) as [_ H]. apply H; [done|lia].
  - by eapply nops_not_shared.
Qed.

Lemma owned_disjoint k d p k' d' p' x :
  lea_apart -> ordered k d p k' d' p' -> owned p x -> owned p' x -> False.
Proof.
  intros A O. pose proof O as [_ _ _ (n1 & n2 & n1' & n2' & P & P' & _ & _ & E & E')].
  intros (i & r & T & Hr & Hx)%(owned_takes _ _ _ _ _ _ P E)
    (i' & r' & T' & Hr' & Hx')%(owned_takes _ _ _ _ _ _ P' E').
  rewrite (tiling_unique _ _ l i' i r' r x (ly_tiling _ _ _ _ L) Hr' Hr Hx' Hx) in T'.
  by eapply (takes_disjoint k d p k' d' p').
Qed.

(** The patches of a layout do not overlap. *)
Lemma placing_disjoint ps desc' i i' p p' x :
  lea_apart -> placing ks 0 desc0 ps desc' -> (i < i')%nat ->
  ps !! i = Some p -> ps !! i' = Some p' -> owned p x -> owned p' x -> False.
Proof.
  intros A PS Hlt Hp Hp'.
  destruct (placing_position _ _ _ _ _ _ _ PS Hp) as [k Hk].
  destruct (placing_position _ _ _ _ _ _ _ PS Hp') as [k' Hk'].
  destruct (placing_pair _ _ _ _ _ PS i i' k p k' p' Hlt Hk Hp Hk' Hp')
    as (d & n1 & n2 & d' & n1' & n2' & H1 & H2 & H3 & H4 & H5 & H6 & H7 & H8).
  apply (owned_disjoint k d p k' d' p' x A). split; [|done|done|].
  - by apply (sorted_lookup_lt ks (ly_sorted _ _ _ _ L) i i').
  - by exists n1, n2, n1', n2'.
Qed.

(** ** Jump targets *)

(** Nothing is known to jump between a system call and an instruction next to it
    that computes an address from [rip], nor between two instructions before a
    system call of which the first is such an instruction. *)
Definition lea_no_target : Prop :=
  forall i r, l !! i = Some r -> d_is_lea_rip r = true -> forall k s,
    l !! k = Some s -> d_is_syscall s = true ->
    (k = S i \/ k = S (S i) -> has_jump desc0 (ins_end r) = false) /\
    (i = S k -> has_jump desc0 (d_address r) = false).

(** Where the code that replaces the instructions of a patch is entered. *)
Definition entry (p : patch_desc) (a : Z) : Prop :=
  if p_uses_nop_trampoline p
  then a = p_syscall_addr p \/ a = r_address (p_nop_trampoline p)
  else a = p_dst_jmp_patch p.

Lemma movable_target copiable d r target :
  movable copiable d r target -> same_text desc0 d -> has_jump desc0 target = true ->
  d_is_lea_rip r = true.
Proof.
  intros [?|(_ & _ & H)] S Hj; [done|].
  rewrite (st_mono _ _ S (ly_table _ _ _ _ L) _ Hj) in H. done.
Qed.

Lemma takes_entry k d n p n' i r :
  lea_no_target -> placed l k d n p n' -> same_text desc0 d -> takes l k p i ->
  l !! i = Some r -> has_jump desc0 (d_address r) = true -> entry p (d_address r).
Proof.
  intros A P S T Hr Hj. pose proof (placed_neighbours _ _ _ _ _ P) as N. unfold entry.
  destruct (nb_syscall _ _ _ N) as (s & Hs & Hsc & _ & Ea & _).
  destruct (p_uses_nop_trampoline p) eqn:U.
  - destruct (pc_nop _ _ _ _ _ _ P U) as (_ & _ & U1 & U2 & U3 & _).
    destruct T as [->|[[? _]|[[? _]|[[? _]|[_ (r' & Hr' & _ & ->)]]]]]; try congruence.
    + left. congruence.
    + right. cbn. congruence.
  - rewrite (pc_dst _ _ _ _ _ _ P U). unfold prev_len.
    destruct T as [->|[[U1 <-]|[[U2 <-]|[[U3 ->]|[? _]]]]]; [..|congruence].
    + assert (r = s) as -> by congruence. rewrite <-Ea in *.
      destruct (p_uses_prev_ins p) eqn:U1; [|lia]. exfalso.
      destruct (nb_prev _ _ _ N U1) as (Hk & H1 & Ha1 & _).
      pose proof (movable_target _ _ _ _ (pc_prev _ _ _ _ _ _ P U1) S Hj) as Hlea.
      destruct (A _ _ H1 Hlea k s Hs Hsc) as [H _]. unfold ins_end in H.
      rewrite Ha1, Z.sub_add in H. rewrite H in Hj; [done|left; lia].
    + destruct (nb_prev _ _ _ N U1) as (Hk & H1 & Ha1 & _). cbn in H1.
      rewrite Nat.sub_0_r, Hr in H1. injection H1 as ->. rewrite U1.
      destruct (p_uses_prev_ins_2 p) eqn:U2; [|lia]. exfalso.
      destruct (nb_prev_2 _ _ _ N U2) as (Hk2 & H2 & Ha2 & _). rewrite Ha1 in Hj.
      pose proof (movable_target _ _ _ _ (proj2 (pc_prev_2 _ _ _ _ _ _ P U2)) S Hj) as Hlea.
      destruct (A _ _ H2 Hlea (Datatypes.S i) s Hs Hsc) as [H _]. unfold ins_end in H.
      rewrite Ha2, Z.sub_add in H. rewrite H in Hj; [done|right; lia].
    + destruct (nb_prev_2 _ _ _ N U2) as (Hk2 & H2 & Ha2 & _). cbn in H2.
      rewrite Nat.sub_0_r, Hr in H2. injection H2 as ->.
      destruct (pc_prev_2 _ _ _ _ _ _ P U2) as [-> _]. rewrite U2, Ha2. lia.
    + exfalso. destruct (nb_next _ _ _ N) as (f & Hf & Ef & Ha).
      assert (f = r) as -> by congruence. pose proof (pc_next _ _ _ _ _ _ P U3) as Hm.
      rewrite <-Ha, Ef in Hm. pose proof (movable_target _ _ _ _ Hm S Hj) as Hlea.
      destruct (A _ _ Hr Hlea k s Hs Hsc) as [_ H]. by rewrite H in Hj.
Qed.

(** A known jump target that is an instruction of the text and is overwritten is
    where the code of the patch is entered. *)
Lemma placing_entry ps desc' i p j r :
  lea_no_target -> placing ks 0 desc0 ps desc' -> ps !! i = Some p ->
  l !! j = Some r -> has_jump desc0 (d_address r) = true -> owned p (d_address r) ->
  entry p (d_address r).
Proof.
  intros A PS Hp Hr Hj Ho.
  destruct (placing_position _ _ _ _ _ _ _ PS Hp) as [k Hk].
  destruct (placing_lookup _ _ _ _ _ PS i k p Hk Hp) as (d & n1 & n2 & P & S & E & _).
  destruct (owned_takes _ _ _ _ _ _ P E Ho) as (i' & r' & T & Hr' & Hx).
  pose proof (ly_tiling _ _ _ _ L) as TL.
  destruct (tiling_bounds _ _ _ _ _ TL Hr) as (_ & ? & _).
  assert (i' = j) as ->.
  { apply (tiling_unique _ _ l i' j r' r (d_address r) TL Hr' Hr Hx). unfold ins_end. lia. }
  by eapply takes_entry.
Qed.

End patches.

End PatchPlace.
