(* ===== verification/PatchedText.v ===== *)
(** * The text and the wrappers after patching

    [wrapper_code] is the code that has to stand in the wrapper of a patch; the
    generation of wrappers writes it and nothing else.  After [activate_patches]
    every patched system call leads to its wrapper, and no byte of the text outside
    of what the patches took has changed. *)

From S2P Require Import Prelude Defs Util Disasm InterceptDesc Patcher PatchLayout PatchPlace.
Import Util.Util Disasm InterceptDesc Patcher PatchLayout PatchPlace.

#[local] Open Scope Z_scope.

Module PatchedText.

(** ** Memory up to pointwise equality *)

Definition meq (m m' : mem) : Prop := forall x, m x = m' x.

#[export] Instance meq_equivalence : Equivalence meq.
Proof.
  split; [by intros m x|by intros m m' H x|intros m1 m2 m3 H1 H2 x; by rewrite H1].
Qed.

#[export] Instance mem_write_proper : Proper (meq ==> eq ==> eq ==> meq) mem_write.
Proof. intros m m' H a ? <- d ? <- x. unfold mem_write. by destruct (_ && _). Qed.

#[export] Instance mem_read_proper : Proper (meq ==> eq ==> eq ==> eq) mem_read.
Proof. intros m m' H a ? <- n ? <-. unfold mem_read. apply tabulate_ext. intros. apply H. Qed.

Lemma mem_read_ext (m m' : mem) a n :
  (forall x, a <= x < a + n -> m x = m' x) -> mem_read m a n = mem_read m' a n.
Proof. intros H. apply tabulate_ext. intros i Hi. apply H. lia. Qed.

Lemma zlength_mem_read m a n : 0 <= n -> zlength (mem_read m a n) = n.
Proof. apply zlength_tabulate. Qed.

Lemma mem_read_write m a d : mem_read (mem_write m a d) a (zlength d) = d.
Proof.
  apply list_eq. intros i. unfold mem_read. rewrite lookup_tabulate. case_decide as Hi.
  - rewrite mem_write_spec, decide_True by lia.
    replace (Z.to_nat (a + i - a)) with i by lia.
    destruct (d !! i) eqn:E; [done|]. apply lookup_ge_None in E. lia.
  - symmetry. apply lookup_ge_None. lia.
Qed.

(** [code] was written at [dst]. *)
Definition emits (m : mem) (dst : Z) (code : list byte) (m' : mem) (dst' : Z) : Prop :=
  dst' = dst + zlength code /\ meq m' (mem_write m dst code).

Lemma mem_write_nil m dst : meq (mem_write m dst []) m.
Proof. intros x. apply mem_write_outside. cbn. lia. Qed.

Lemma mem_write_app m dst c1 c2 :
  meq (mem_write m dst (c1 ++ c2)) (mem_write (mem_write m dst c1) (dst + zlength c1) c2).
Proof.
  intros x. rewrite !mem_write_spec, length_app.
  destruct (decide (dst + zlength c1 <= x < _)) as [H|H].
  - rewrite decide_True by lia. f_equal. rewrite lookup_app_r by lia. f_equal. lia.
  - destruct (decide (dst <= x < dst + zlength c1)).
    + rewrite decide_True by lia. f_equal. rewrite lookup_app_l by lia. done.
    + by rewrite decide_False by lia.
Qed.

Lemma emits_nil m dst : emits m dst [] m dst.
Proof. split; [cbn; lia|]. symmetry. apply mem_write_nil. Qed.

Lemma emits_write m dst code : emits m dst code (mem_write m dst code) (dst + zlength code).
Proof. done. Qed.

Lemma emits_app m d c1 m1 d1 c2 m2 d2 :
  emits m d c1 m1 d1 -> emits m1 d1 c2 m2 d2 -> emits m d (c1 ++ c2) m2 d2.
Proof.
  intros [-> H1] [-> H2]. split; [rewrite length_app; lia|].
  by rewrite H2, H1, mem_write_app.
Qed.

Lemma emits_outside m d c m' d' x : emits m d c m' d' -> ~ (d <= x < d') -> m' x = m x.
Proof. intros [-> H] Hx. rewrite (H x). by apply mem_write_outside. Qed.

Lemma emits_read m d c m' d' : emits m d c m' d' -> mem_read m' d (zlength c) = c.
Proof. intros [_ H]. rewrite H. apply mem_read_write. Qed.

Lemma emits_le m d c m' d' : emits m d c m' d' -> d <= d'.
Proof. intros [-> _]. lia. Qed.

(** Writing again inside of what was written. *)
Lemma emits_overwrite m d c m' d' off b :
  emits m d c m' d' -> 0 <= off -> off + zlength b <= zlength c ->
  emits m d (overwrite off b c) (mem_write m' (d + off) b) d'.
Proof.
  intros [-> H] Ho Hl. split; [rewrite zlength_overwrite; lia|]. rewrite H. intros x.
  rewrite !mem_write_spec, zlength_overwrite by lia.
  replace (zlength c `max` (off + zlength b)) with (zlength c) by lia.
  destruct (decide (d <= x < d + zlength c)).
  - rewrite lookup_overwrite by lia. case_decide.
    + rewrite decide_True by lia. do 2 f_equal. lia.
    + by rewrite decide_False by lia.
  - by rewrite decide_False by lia.
Qed.

(** ** The code of a wrapper *)

Definition movabs_code (value reg_bits : Z) : list byte :=
  [byte_of_Z (Z.lor 0x48 (Z.shiftr reg_bits 3));
   byte_of_Z (Z.lor 0xb8 (Z.land reg_bits 7))] ++ le_split 8 value.

Definition absolute_jump_code (to : Z) : list byte :=
  [xff; x25; x00; x00; x00; x00] ++ le_split 8 to.

(** An instruction moved elsewhere. *)
Definition reloc_code (m : mem) (ins : intercept_disasm_result) : list byte :=
  if d_is_lea_rip ins then movabs_code (d_rip_ref_addr ins) (d_arg_register_bits ins)
  else mem_read m (d_address ins) (d_length ins).

Section wrappers.
Variable T : template.
Variable patch_ptr : nat -> Z.

(** The template with the address of the description and of [intercept_wrapper]. *)
Definition template_code (i : nat) : list byte :=
  overwrite (o_wrapper_level1_addr T) (movabs_code (intercept_wrapper T) 11)
    (overwrite (o_patch_desc_addr T) (movabs_code (patch_ptr i) 11) (tmpl T)).

Definition wrapper_code (m : mem) (i : nat) (p : patch_desc) : list byte :=
  (if p_uses_prev_ins p
   then (if p_uses_prev_ins_2 p then reloc_code m (p_preceding_ins_2 p) else []) ++
        reloc_code m (p_preceding_ins p)
   else []) ++
  template_code i ++
  (if p_uses_next_ins p then reloc_code m (p_following_ins p) else []) ++
  absolute_jump_code (p_return_address p).

(** The labels mark instructions of ten bytes in the template. *)
Record template_wf : Prop := {
  tw_desc : 0 <= o_patch_desc_addr T /\ o_patch_desc_addr T + 10 <= zlength (tmpl T);
  tw_level1 : 0 <= o_wrapper_level1_addr T /\ o_wrapper_level1_addr T + 10 <= zlength (tmpl T)
}.

Lemma movabs_emits m dst value bits :
  0 <= bits < 16 -> exists m', create_movabs m dst value bits = Some (dst + 10, m') /\
    m' = mem_write m dst (movabs_code value bits).
Proof.
  intros Hb. unfold create_movabs, assert_. rewrite (proj2 (Z.ltb_lt _ _)) by lia.
  by eexists.
Qed.

(** The instruction can be read and its register has a number. *)
Definition ins_ok (desc : intercept_desc) (ins : intercept_disasm_result) : Prop :=
  0 <= d_length ins /\ 0 <= d_arg_register_bits ins < 16 /\
  forall x, d_address ins <= x < ins_end ins -> in_text desc x = true.

(** [m] and [m'] have the same text. *)
Definition text_eq (desc : intercept_desc) (m m' : mem) : Prop :=
  forall x, in_text desc x = true -> m' x = m x.

Lemma reloc_code_ext desc m m' ins :
  text_eq desc m m' -> ins_ok desc ins -> reloc_code m' ins = reloc_code m ins.
Proof.
  intros H (_ & _ & Hi). unfold reloc_code. destruct (d_is_lea_rip ins); [done|].
  apply mem_read_ext. intros x Hx. apply H, Hi. done.
Qed.

Lemma relocate_emits desc m dst ins :
  ins_ok desc ins -> exists dst' m', relocate_instruction m dst ins = Some (dst', m') /\
    emits m dst (reloc_code m ins) m' dst'.
Proof.
  intros (Hl & Hb & _). unfold relocate_instruction, reloc_code.
  destruct (d_is_lea_rip ins).
  - destruct (movabs_emits m dst (d_rip_ref_addr ins) (d_arg_register_bits ins) Hb)
      as (m' & -> & ->). do 2 eexists. split; [done|]. apply emits_write.
  - do 2 eexists. split; [done|]. split; [|done]. by rewrite zlength_mem_read.
Qed.

(** The instructions a patch moves. *)
Definition moves_ok (desc : intercept_desc) (p : patch_desc) : Prop :=
  (p_uses_prev_ins p = true -> ins_ok desc (p_preceding_ins p)) /\
  (p_uses_prev_ins_2 p = true -> ins_ok desc (p_preceding_ins_2 p)) /\
  (p_uses_next_ins p = true -> ins_ok desc (p_following_ins p)).

Lemma emits_text desc m d c m' d' m0 :
  text_eq desc m0 m -> emits m d c m' d' ->
  (forall x, in_text desc x = true -> ~ (d <= x < d')) -> text_eq desc m0 m'.
Proof.
  intros H E Hd x Hx. rewrite (emits_outside _ _ _ _ _ _ E) by (by apply Hd). by apply H.
Qed.

(** No byte of the text is among the [n] bytes at [a]. *)
Definition away (desc : intercept_desc) (a n : Z) : Prop :=
  forall x, in_text desc x = true -> ~ (a <= x < a + n).

(** [f] writes [c], which depends on the text only, when it is not written over
    the text. *)
Definition generates (desc : intercept_desc) (m0 : mem) (f : mem -> Z -> option (Z * mem))
    (c : list byte) : Prop :=
  forall m dst, text_eq desc m0 m -> away desc dst (zlength c) ->
    exists dst' m', f m dst = Some (dst', m') /\ emits m dst c m' dst'.

Definition relocated (ins : intercept_disasm_result) (m : mem) (dst : Z)
    : option (Z * mem) := relocate_instruction m dst ins.

Lemma generates_reloc desc m0 ins :
  ins_ok desc ins -> generates desc m0 (relocated ins) (reloc_code m0 ins).
Proof.
  intros Hi m dst Ht _. destruct (relocate_emits desc m dst ins Hi) as (d' & m' & E & H).
  exists d', m'. split; [done|]. by rewrite <-(reloc_code_ext desc m0 m ins Ht Hi).
Qed.

Lemma generates_skip desc m0 : generates desc m0 (fun m dst => Some (dst, m)) [].
Proof. intros m dst _ _. exists dst, m. split; [done|]. apply emits_nil. Qed.

Lemma generates_seq desc m0 f g c1 c2 :
  generates desc m0 f c1 -> generates desc m0 g c2 ->
  generates desc m0 (fun m dst => '(dst, m) ← f m dst; g m dst) (c1 ++ c2).
Proof.
  intros Gf Gg m dst Ht Ha. rewrite length_app in Ha.
  destruct (Gf m dst Ht) as (d1 & m1 & -> & E1).
  { intros x Hx Hr. apply (Ha x Hx). lia. }
  cbn [mbind option_bind]. pose proof E1 as [Ed _].
  destruct (Gg m1 d1) as (d2 & m2 & -> & E2).
  - eapply emits_text; [done..|]. intros x Hx Hr. apply (Ha x Hx). lia.
  - intros x Hx Hr. apply (Ha x Hx). lia.
  - exists d2, m2. split; [done|]. by eapply emits_app.
Qed.

Lemma movabs_length value bits : zlength (movabs_code value bits) = 10.
Proof. done. Qed.

Lemma zlength_template_code i : template_wf -> zlength (template_code i) = zlength (tmpl T).
Proof.
  intros [[] []]. unfold template_code.
  assert (zlength (overwrite (o_patch_desc_addr T) (movabs_code (patch_ptr i) 11) (tmpl T)) =
    zlength (tmpl T)) as E by (rewrite zlength_overwrite by lia; rewrite movabs_length; lia).
  rewrite zlength_overwrite by lia. rewrite movabs_length. lia.
Qed.

(** The part of [create_wrapper] that copies the template. *)
Definition copy_template (i : nat) (m : mem) (dst : Z) : option (Z * mem) :=
  let m := mem_write m dst (tmpl T) in
  '(_, m) ← create_movabs_r11 m (dst + o_patch_desc_addr T) (patch_ptr i);
  '(_, m) ← create_movabs_r11 m (dst + o_wrapper_level1_addr T) (intercept_wrapper T);
  Some (dst + zlength (tmpl T), m).

Lemma generates_template desc m0 i :
  template_wf -> generates desc m0 (copy_template i) (template_code i).
Proof.
  intros [[] []] m dst _ _. do 2 eexists. split; [reflexivity|].
  apply (emits_overwrite _ _ _ _ _ _ (movabs_code _ 11));
    [apply (emits_overwrite _ _ _ _ _ _ (movabs_code _ 11)); [apply emits_write|..]|..];
    rewrite ?zlength_overwrite by lia; rewrite ?movabs_length; lia.
Qed.

Lemma generates_absolute_jump desc m0 to :
  generates desc m0 (fun m dst => Some (create_absolute_jump m dst to)) (absolute_jump_code to).
Proof. intros m dst _ _. by do 2 eexists. Qed.

(** [create_wrapper] as one piece after the other. *)
Definition pick (b : bool) (f : mem -> Z -> option (Z * mem)) (m : mem) (dst : Z)
    : option (Z * mem) := if b then f m dst else Some (dst, m).

Definition and_then (f g : mem -> Z -> option (Z * mem)) (m : mem) (dst : Z)
    : option (Z * mem) := '(dst, m) ← f m dst; g m dst.

Definition wrapper_pieces (i : nat) (p : patch_desc) : mem -> Z -> option (Z * mem) :=
  and_then
    (pick (p_uses_prev_ins p)
       (and_then (pick (p_uses_prev_ins_2 p) (relocated (p_preceding_ins_2 p)))
          (relocated (p_preceding_ins p))))
    (and_then (copy_template i)
       (and_then (pick (p_uses_next_ins p) (relocated (p_following_ins p)))
          (fun m dst => Some (create_absolute_jump m dst (p_return_address p))))).

Lemma create_wrapper_pieces i p m dst :
  create_wrapper T patch_ptr i p m dst =
    ('(dst', m') ← wrapper_pieces i p m dst; Some (p <| p_asm_wrapper := dst |>, m', dst')).
Proof.
  unfold create_wrapper, wrapper_pieces, and_then, pick, relocated, copy_template.
  cbn -[create_movabs_r11 relocate_instruction].
  destruct (if p_uses_prev_ins p then _ else _) as [[d1 m1]|]; [|done].
  cbn -[create_movabs_r11 relocate_instruction].
  destruct (create_movabs_r11 _ _ _) as [[? m2]|]; [|done].
  cbn -[create_movabs_r11 relocate_instruction].
  destruct (create_movabs_r11 _ _ _) as [[? m3]|]; [|done].
  cbn -[create_movabs_r11 relocate_instruction].
  by destruct (if p_uses_next_ins p then _ else _) as [[d4 m4]|].
Qed.

Lemma generates_pick desc m0 (b : bool) f c :
  (b = true -> generates desc m0 f c) -> generates desc m0 (pick b f) (if b then c else []).
Proof. destruct b; [by auto|]. intros _. apply generates_skip. Qed.

Lemma generates_wrapper desc m0 i p :
  template_wf -> moves_ok desc p -> generates desc m0 (wrapper_pieces i p) (wrapper_code m0 i p).
Proof.
  intros TW (H1 & H2 & H3). unfold wrapper_pieces, wrapper_code.
  apply generates_seq; [apply generates_pick; intros; apply generates_seq|
    apply generates_seq; [by apply generates_template|apply generates_seq]];
    auto using generates_reloc, generates_pick, generates_absolute_jump.
Qed.

Lemma create_wrapper_ok desc m0 i p m dst :
  template_wf -> moves_ok desc p -> text_eq desc m0 m ->
  away desc dst (zlength (wrapper_code m0 i p)) ->
  exists m' dst', create_wrapper T patch_ptr i p m dst =
      Some (p <| p_asm_wrapper := dst |>, m', dst') /\
    emits m dst (wrapper_code m0 i p) m' dst' /\ text_eq desc m0 m'.
Proof.
  intros TW M Ht Ha. rewrite create_wrapper_pieces.
  destruct (generates_wrapper desc m0 i p TW M m dst Ht Ha) as (d' & m' & -> & E).
  exists m', d'. split; [done|]. split; [done|]. eapply emits_text; [done..|].
  by destruct E as [-> _].
Qed.

(** ** All wrappers *)

(** The decisions of [create_patch_wrappers] without the code it generates. *)
Fixpoint place_all (todo : list patch_desc) (next_nop_i : Z) (desc : intercept_desc)
    : option (list patch_desc * intercept_desc) :=
  match todo with
  | [] => Some ([], desc)
  | patch :: todo =>
      '(patch, desc, next_nop_i) ← place_patch desc patch next_nop_i;
      '(items, desc) ← place_all todo next_nop_i desc;
      Some (patch :: items, desc)
  end.

(** The code of the wrappers from patch [i] on, and where each wrapper starts. *)
Fixpoint wrappers_code (m : mem) (i : nat) (ps : list patch_desc) : list byte :=
  match ps with
  | [] => []
  | p :: ps => wrapper_code m i p ++ wrappers_code m (S i) ps
  end.

Fixpoint set_wrappers (m : mem) (i : nat) (dst : Z) (ps : list patch_desc)
    : list patch_desc :=
  match ps with
  | [] => []
  | p :: ps => p <| p_asm_wrapper := dst |> ::
      set_wrappers m (S i) (dst + zlength (wrapper_code m i p)) ps
  end.

Lemma wrappers_loop_ok m0 todo : forall i n desc ps desc' m dst,
  template_wf -> place_all todo n desc = Some (ps, desc') ->
  Forall (moves_ok desc) ps -> text_eq desc m0 m ->
  away desc dst (zlength (wrappers_code m0 i ps)) ->
  exists m' dst', wrappers_loop T patch_ptr todo i n desc m dst =
      Some (set_wrappers m0 i dst ps, desc', m', dst') /\
    emits m dst (wrappers_code m0 i ps) m' dst' /\ text_eq desc m0 m'.
Proof.
  induction todo as [|p todo IH]; intros i n desc ps desc' m dst TW; cbn [place_all].
  - intros [= <- <-] _ Ht _. exists m, dst. split; [done|]. split; [apply emits_nil|done].
  - intros Hp M Ht Ha. cbn [wrappers_loop].
    destruct (place_patch desc p n) as [[[p1 d1] n1]|] eqn:E1; [|done].
    cbn [mbind option_bind] in *.
    destruct (place_all todo n1 d1) as [[ps1 d2]|] eqn:E2; [|done]. cbn in Hp. simplify_eq.
    apply Forall_cons in M as [M1 M2]. cbn [wrappers_code] in Ha. rewrite length_app in Ha.
    destruct (create_wrapper_ok desc m0 i p1 m dst TW M1 Ht) as (m1 & dst1 & -> & Em & Ht1).
    { intros x Hx Hr. apply (Ha x Hx). lia. }
    cbn [mbind option_bind]. pose proof Em as [Ed _].
    assert (forall x, in_text d1 x = in_text desc x) as Hin.
    { intros x. by eapply place_patch_text. }
    destruct (IH (S i) n1 d1 ps1 desc' m1 dst1) as (m2 & dst2 & E3 & Em2 & Ht2).
    + done.
    + done.
    + eapply Forall_impl; [exact M2|]. unfold moves_ok, ins_ok. intros q.
      by setoid_rewrite Hin.
    + intros x. rewrite Hin. apply Ht1.
    + intros x. rewrite Hin. intros Hx Hr. apply (Ha x Hx). lia.
    + rewrite E3. cbn [mbind option_bind]. exists m2, dst2. rewrite Ed in *. split; [done|].
      split; [by eapply emits_app|]. intros x. rewrite <-Hin. apply Ht2.
Qed.

End wrappers.

Section patches.
Variables (l : list intercept_disasm_result) (desc0 : intercept_desc) (ks js : list nat).
Hypothesis L : layout l desc0 ks js.

Lemma place_all_placing todo : forall ks1 n desc ps desc',
  Forall2 (site l) ks1 todo -> 0 <= n -> place_all todo n desc = Some (ps, desc') ->
  placing l ks1 n desc ps desc'.
Proof.
  induction todo as [|p todo IH]; intros ks1 n desc ps desc' HF Hn; cbn [place_all].
  - intros [= <- <-]. apply Forall2_nil_inv_r in HF as ->. constructor.
  - apply Forall2_cons_inv_r in HF as (k & ks2 & Hk & HF & ->).
    destruct (place_patch desc p n) as [[[p1 d1] n1]|] eqn:E1; [|done].
    cbn [mbind option_bind].
    destruct (place_all todo n1 d1) as [[ps1 d2]|] eqn:E2; [|done]. intros [= <- <-].
    destruct (place_patch_spec _ _ _ _ _ _ _ _ Hk Hn E1) as [P ->].
    apply (placing_cons _ _ _ _ _ _ n1); [done|]. apply IH; [done| |done].
    pose proof (pc_le _ _ _ _ _ _ P). lia.
Qed.

Lemma layout_ins_ok i r : l !! i = Some r -> ins_ok desc0 r.
Proof.
  intros Hr. pose proof (ly_decoded _ _ _ _ L _ _ Hr) as D.
  destruct (tiling_bounds _ _ _ _ _ (ly_tiling _ _ _ _ L) Hr) as (? & ? & ?).
  split; [lia|]. split; [apply (dc_bits _ _ _ D)|]. intros x Hx. unfold in_text.
  by rewrite !(proj2 (Z.leb_le _ _)) by lia.
Qed.

Lemma placing_moves n ps desc' :
  placing l ks n desc0 ps desc' -> Forall (moves_ok desc0) ps.
Proof.
  intros PS. apply Forall_lookup. intros i p Hp.
  destruct (placing_position _ _ _ _ _ _ _ _ PS Hp) as [k Hk].
  destruct (placing_lookup _ _ _ _ _ _ PS i k p Hk Hp) as (d & n1 & n2 & P & _).
  pose proof (placed_neighbours _ _ _ _ L _ _ _ _ _ P) as N.
  split; [|split]; intros U.
  - destruct (nb_prev _ _ _ _ N U) as (_ & H & _). by eapply layout_ins_ok.
  - destruct (nb_prev_2 _ _ _ _ N U) as (_ & H & _). by eapply layout_ins_ok.
  - destruct (nb_next _ _ _ _ N) as (f & H & -> & _). by eapply layout_ins_ok.
Qed.

(** What a patch takes lies in the text. *)
Lemma placing_owned_text n ps desc' i p x :
  placing l ks n desc0 ps desc' -> ps !! i = Some p -> owned p x -> in_text desc0 x = true.
Proof.
  intros PS Hp Ho. destruct (placing_position _ _ _ _ _ _ _ _ PS Hp) as [k Hk].
  destruct (placing_lookup _ _ _ _ _ _ PS i k p Hk Hp) as (d & n1 & n2 & P & _ & E & _).
  destruct (owned_takes _ _ _ _ L _ _ _ _ _ _ P E Ho) as (j & r & _ & Hr & Hx).
  by apply (layout_ins_ok j r Hr).
Qed.

End patches.

(** ** Stores that do not overlap *)

Definition store : Type := Z * list byte.

Definition in_store (s : store) (x : Z) : Prop := s.1 <= x < s.1 + zlength s.2.

Definition apart (s s' : store) : Prop := forall x, in_store s x -> in_store s' x -> False.

Definition apply_stores (m : mem) (ss : list store) : mem :=
  foldl (fun m s => mem_write m s.1 s.2) m ss.

Fixpoint separate (ss : list store) : Prop :=
  match ss with
  | [] => True
  | s :: ss => Forall (apart s) ss /\ separate ss
  end.

Lemma apply_stores_proper ss m m' : meq m m' -> meq (apply_stores m ss) (apply_stores m' ss).
Proof.
  revert m m'. induction ss as [|s ss IH]; intros m m' E; cbn; [done|]. apply IH. by rewrite E.
Qed.

Lemma apply_stores_outside ss : forall m x,
  Forall (fun s => ~ in_store s x) ss -> apply_stores m ss x = m x.
Proof.
  induction ss as [|s ss IH]; intros m x H; cbn; [done|].
  apply Forall_cons in H as [H1 H2]. rewrite IH by done. by apply mem_write_outside.
Qed.

Lemma apply_stores_inside ss : forall m s,
  separate ss -> s ∈ ss -> mem_read (apply_stores m ss) s.1 (zlength s.2) = s.2.
Proof.
  induction ss as [|s0 ss IH]; intros m s; [intros _ []%not_elem_of_nil|]. cbn.
  intros [Ha Hs] [->|Hin]%elem_of_cons; [|by apply IH].
  transitivity (mem_read (mem_write m s0.1 s0.2) s0.1 (zlength s0.2));
    [|apply mem_read_write]. apply mem_read_ext. intros x Hx.
  apply apply_stores_outside. eapply Forall_impl; [exact Ha|]. intros s H Hx'.
  by apply (H x).
Qed.

Lemma separate_app ss ss' :
  separate (ss ++ ss') <-> separate ss /\ separate ss' /\
    forall s s', s ∈ ss -> s' ∈ ss' -> apart s s'.
Proof.
  induction ss as [|s ss IH]; cbn.
  - split; [intros; split_and!; [done..|]; intros ? ? []%not_elem_of_nil|].
    by intros (_ & H & _).
  - rewrite IH, Forall_app, !Forall_forall. setoid_rewrite elem_of_cons. naive_solver.
Qed.

(** ** What activating a patch stores *)

Definition jump_code (from to : Z) : list byte :=
  JMP_OPCODE :: le_split 4 (to - (from + JUMP_INS_SIZE)).

Definition short_jump_code (from to : Z) : list byte :=
  [SHORT_JMP_OPCODE; byte_of_Z (to - (from + 2))].

Definition patch_stores (uses : bool) (slot : Z) (p : patch_desc) : list store :=
  let dst := p_dst_jmp_patch p in
  let nop := p_nop_trampoline p in
  (if uses
   then [(dst, jump_code dst slot); (slot, absolute_jump_code (p_asm_wrapper p))]
   else [(dst, jump_code dst (p_asm_wrapper p))]) ++
  (if p_uses_nop_trampoline p
   then [(p_syscall_addr p, short_jump_code (p_syscall_addr p) dst);
         (r_address nop, short_jump_code (r_address nop) (after_nop nop))]
   else [(dst + JUMP_INS_SIZE,
          replicate (Z.to_nat (p_return_address p - (dst + JUMP_INS_SIZE))) INT3_OPCODE)]).

Fixpoint all_stores (uses : bool) (slot : Z) (ps : list patch_desc) : list store :=
  match ps with
  | [] => []
  | p :: ps => patch_stores uses slot p ++ all_stores uses (slot + TRAMPOLINE_SIZE) ps
  end.

Definition reachable (from to : Z) : Prop :=
  INT32_MIN <= to - (from + JUMP_INS_SIZE) <= INT32_MAX.

Definition short_reachable (from to : Z) : Prop := - 128 <= to - (from + 2) <= 127.

(** Every jump of a patch reaches its target. *)
Record activates (desc : intercept_desc) (slot : Z) (p : patch_desc) : Prop := {
  ac_text : i_text_start desc <= p_dst_jmp_patch p <= i_text_end desc;
  ac_slot : i_uses_trampoline_table desc = true -> reachable (p_dst_jmp_patch p) slot /\
    slot - i_trampoline_table desc + TRAMPOLINE_SIZE < i_trampoline_table_size desc;
  ac_wrapper : i_uses_trampoline_table desc = false ->
    reachable (p_dst_jmp_patch p) (p_asm_wrapper p);
  ac_nop : p_uses_nop_trampoline p = true ->
    short_reachable (p_syscall_addr p) (p_dst_jmp_patch p) /\
    short_reachable (r_address (p_nop_trampoline p)) (after_nop (p_nop_trampoline p))
}.

Lemma create_jump_ok m from to :
  reachable from to ->
  create_jump JMP_OPCODE m from to = Some (mem_write m from (jump_code from to)).
Proof.
  intros H. unfold reachable, create_jump in *.
  by rewrite (proj2 (Z.ltb_ge _ _)), (proj2 (Z.ltb_ge _ _)) by lia.
Qed.

Lemma create_short_jump_ok m from to :
  short_reachable from to ->
  create_short_jump m from to = Some (mem_write m from (short_jump_code from to)).
Proof.
  intros H. unfold short_reachable, create_short_jump in *.
  by rewrite (proj2 (Z.ltb_ge _ _)), (proj2 (Z.ltb_ge _ _)) by lia.
Qed.

Lemma mem_set_write m a b n : meq (mem_set m a b n) (mem_write m a (replicate (Z.to_nat n) b)).
Proof.
  intros x. unfold mem_set, mem_write. rewrite length_replicate.
  destruct (Z_lt_le_dec n 0) as [Hn|Hn].
  - replace (Z.of_nat (Z.to_nat n)) with 0 by lia. repeat case_match; zbool; try done; lia.
  - rewrite Z2Nat.id by done. destruct (_ && _) eqn:E; [|done]. zbool.
    by rewrite lookup_replicate_2 by lia.
Qed.

(** The description after a patch. *)
Definition next_slot (desc : intercept_desc) : intercept_desc :=
  if i_uses_trampoline_table desc
  then desc <| i_next_trampoline := i_next_trampoline desc + TRAMPOLINE_SIZE |> else desc.

Lemma activate_patch_ok desc m p :
  activates desc (i_next_trampoline desc) p ->
  exists m', activate_patch desc m p = Some (next_slot desc, m') /\
    meq m' (apply_stores m
      (patch_stores (i_uses_trampoline_table desc) (i_next_trampoline desc) p)).
Proof.
  intros [H1 H2 H3 H4]. unfold activate_patch, next_slot, patch_stores.
  rewrite (proj2 (Z.ltb_ge _ _)), (proj2 (Z.ltb_ge _ _)) by lia. cbn [orb].
  destruct (i_uses_trampoline_table desc) eqn:U.
  - destruct (H2 eq_refl) as [Hr Hs]. unfold assert_, check_trampoline_usage. rewrite U.
    rewrite (proj2 (Z.leb_gt _ _)) by lia. rewrite create_jump_ok by done. cbn.
    destruct (p_uses_nop_trampoline p).
    + destruct (H4 eq_refl). rewrite create_short_jump_ok by done. cbn.
      rewrite create_short_jump_ok by done. cbn. by eexists.
    + eexists. split; [done|]. apply mem_set_write.
  - rewrite create_jump_ok by auto. cbn. destruct (p_uses_nop_trampoline p).
    + destruct (H4 eq_refl). rewrite create_short_jump_ok by done. cbn.
      rewrite create_short_jump_ok by done. cbn. by eexists.
    + eexists. split; [done|]. apply mem_set_write.
Qed.

(** Each patch has its own slot of the table. *)
Fixpoint all_activate (desc : intercept_desc) (slot : Z) (ps : list patch_desc) : Prop :=
  match ps with
  | [] => True
  | p :: ps => activates desc slot p /\ all_activate desc (slot + TRAMPOLINE_SIZE) ps
  end.

Lemma activates_slot desc slot p a :
  activates desc slot p -> activates (desc <| i_next_trampoline := a |>) slot p.
Proof. by intros []. Qed.

Lemma all_activate_slot desc a ps : forall slot,
  all_activate desc slot ps -> all_activate (desc <| i_next_trampoline := a |>) slot ps.
Proof.
  induction ps as [|p ps IH]; intros slot; cbn; [done|]. intros [H1 H2].
  split; [by apply activates_slot|by apply IH].
Qed.

(** Without a table the slot does not matter. *)
Lemma all_activate_no_table desc ps : forall slot slot',
  i_uses_trampoline_table desc = false ->
  all_activate desc slot ps -> all_activate desc slot' ps.
Proof.
  induction ps as [|p ps IH]; intros slot slot' U; cbn; [done|]. intros [[] H2].
  split; [split; auto; congruence|by eapply IH].
Qed.

Lemma all_stores_no_table ps : forall slot slot',
  all_stores false slot ps = all_stores false slot' ps.
Proof.
  induction ps as [|p ps IH]; intros slot slot'; cbn [all_stores]; [done|].
  by rewrite (IH _ (slot' + TRAMPOLINE_SIZE)).
Qed.

Lemma activate_loop_ok ps : forall desc m,
  all_activate desc (i_next_trampoline desc) ps ->
  exists desc' m', activate_loop ps desc m = Some (desc', m') /\
    i_items desc' = i_items desc /\
    meq m' (apply_stores m
      (all_stores (i_uses_trampoline_table desc) (i_next_trampoline desc) ps)).
Proof.
  induction ps as [|p ps IH]; intros desc m; cbn [all_activate activate_loop all_stores].
  { intros _. by exists desc, m. }
  intros [H1 H2]. destruct (activate_patch_ok desc m p H1) as (m1 & -> & E1).
  cbn [mbind option_bind]. unfold apply_stores. rewrite foldl_app.
  fold (apply_stores m (patch_stores (i_uses_trampoline_table desc)
    (i_next_trampoline desc) p)). unfold next_slot.
  destruct (i_uses_trampoline_table desc) eqn:U.
  - destruct (IH (desc <| i_next_trampoline := i_next_trampoline desc + TRAMPOLINE_SIZE |>) m1)
      as (d' & m' & -> & Ei & E2); [by apply all_activate_slot|].
    exists d', m'. split; [done|]. split; [done|]. cbn in E2. rewrite U in E2. rewrite E2.
    by apply apply_stores_proper.
  - destruct (IH desc m1) as (d' & m' & -> & Ei & E2); [by eapply all_activate_no_table|].
    exists d', m'. split; [done|]. split; [done|]. rewrite U in E2. rewrite E2.
    rewrite (all_stores_no_table ps _ (i_next_trampoline desc + TRAMPOLINE_SIZE)).
    by apply apply_stores_proper.
Qed.

(** ** The stores of all patches do not overlap *)

(** The places of a patch fit together. *)
Record compact (p : patch_desc) : Prop := {
  cp_nop : p_uses_nop_trampoline p = true ->
    p_dst_jmp_patch p = r_address (p_nop_trampoline p) + 2 /\
    7 <= r_size (p_nop_trampoline p) /\
    forall x, p_syscall_addr p <= x < p_syscall_addr p + SYSCALL_INS_SIZE ->
      ~ (r_address (p_nop_trampoline p) <= x < after_nop (p_nop_trampoline p));
  cp_jump : p_uses_nop_trampoline p = false ->
    p_dst_jmp_patch p + JUMP_INS_SIZE <= p_return_address p
}.

Definition in_slot (uses : bool) (slot x : Z) : Prop :=
  uses = true /\ slot <= x < slot + TRAMPOLINE_SIZE.

Lemma zlength_jump_code from to : zlength (jump_code from to) = 5.
Proof. done. Qed.

Lemma zlength_absolute_jump_code to : zlength (absolute_jump_code to) = 14.
Proof. done. Qed.

Ltac store_cases :=
  repeat match goal with
  | H : _ ∈ _ :: _ |- _ => apply elem_of_cons in H as [->|H]
  | H : _ ∈ [] |- _ => by apply elem_of_nil in H
  | H : _ ∈ _ ++ _ |- _ => apply elem_of_app in H as [H|H]
  end.

Lemma patch_stores_place uses slot p s x :
  compact p -> s ∈ patch_stores uses slot p -> in_store s x ->
  owned p x \/ in_slot uses slot x.
Proof.
  intros [H1 H2] Hs. unfold patch_stores in Hs. unfold owned, in_store, in_slot, after_nop in *.
  unfold SYSCALL_INS_SIZE, JUMP_INS_SIZE, TRAMPOLINE_SIZE in *.
  destruct (p_uses_nop_trampoline p); [destruct (H1 eq_refl) as (E & Hn & _)|specialize (H2 eq_refl)];
    destruct uses; store_cases; cbn [fst snd]; rewrite ?zlength_jump_code,
      ?zlength_absolute_jump_code, ?length_replicate; cbn [length short_jump_code]; intros Hx;
    first [right; split; [done|lia] | left; lia].
Qed.

Lemma patch_stores_separate uses slot p :
  compact p -> (forall x, owned p x -> ~ in_slot uses slot x) ->
  separate (patch_stores uses slot p).
Proof.
  intros [H1 H2] Hs. unfold patch_stores, owned, in_slot, after_nop in *.
  unfold SYSCALL_INS_SIZE, JUMP_INS_SIZE, TRAMPOLINE_SIZE in *.
  destruct (p_uses_nop_trampoline p); [destruct (H1 eq_refl) as (E & Hn & Hd)|specialize (H2 eq_refl)];
    destruct uses; cbn [app separate]; repeat (split || constructor); intros x;
    unfold in_store; cbn [fst snd]; rewrite ?zlength_jump_code,
      ?zlength_absolute_jump_code, ?length_replicate; cbn [length short_jump_code];
    intros Hx Hx'; try lia; first [by apply (Hs x); [lia|split; [done|lia]] | apply (Hd x); lia].
Qed.

Lemma all_stores_place uses ps : forall slot s x,
  Forall compact ps -> s ∈ all_stores uses slot ps -> in_store s x ->
  exists (i : nat) p, ps !! i = Some p /\
    (owned p x \/ in_slot uses (slot + TRAMPOLINE_SIZE * i) x).
Proof.
  induction ps as [|p ps IH]; intros slot s x HC; cbn [all_stores]; [by intros ?%elem_of_nil|].
  apply Forall_cons in HC as [C HC]. intros [Hs|Hs]%elem_of_app Hx.
  - exists 0%nat, p. split; [done|]. rewrite Z.mul_0_r, Z.add_0_r.
    by eapply patch_stores_place.
  - destruct (IH _ _ _ HC Hs Hx) as (i & p' & Hp & H). exists (S i), p'. split; [done|].
    replace (slot + TRAMPOLINE_SIZE * S i) with (slot + TRAMPOLINE_SIZE + TRAMPOLINE_SIZE * i)
      by lia. done.
Qed.

(** The patches overlap neither each other nor the table at [slot]. *)
Record disjoint_patches (uses : bool) (slot : Z) (ps : list patch_desc) : Prop := {
  dp_compact : Forall compact ps;
  dp_owned : forall i i' p p' x, (i < i')%nat -> ps !! i = Some p -> ps !! i' = Some p' ->
    owned p x -> owned p' x -> False;
  dp_table : uses = true -> forall i p x, ps !! i = Some p -> owned p x ->
    ~ (slot <= x < slot + TRAMPOLINE_SIZE * zlength ps)
}.

Lemma disjoint_tail uses slot p ps :
  disjoint_patches uses slot (p :: ps) -> disjoint_patches uses (slot + TRAMPOLINE_SIZE) ps.
Proof.
  intros [[_ HC]%Forall_cons HO HT]. split; [done| |].
  - intros i i' q q' x Hi. apply (HO (S i) (S i')). lia.
  - intros U i q x Hq Ho Hx. apply (HT U (S i) q x Hq Ho). cbn [length].
    unfold TRAMPOLINE_SIZE in *. lia.
Qed.

Lemma all_stores_separate uses ps : forall slot,
  disjoint_patches uses slot ps -> separate (all_stores uses slot ps).
Proof.
  induction ps as [|p ps IH]; intros slot D; cbn [all_stores]; [done|].
  apply separate_app. pose proof D as [[C HC]%Forall_cons HO HT].
  split; [|split; [by apply IH, (disjoint_tail _ _ p)|]].
  - apply patch_stores_separate; [done|]. intros x Ho [U Hx].
    apply (HT U 0%nat p x eq_refl Ho). cbn [length]. unfold TRAMPOLINE_SIZE in *. lia.
  - intros s s' Hs Hs' x Hx Hx'.
    destruct (patch_stores_place _ _ _ _ _ C Hs Hx) as [Ho|[U Hsl]];
      destruct (all_stores_place _ _ _ _ _ HC Hs' Hx') as (i & p' & Hp & [Ho'|[U' Hsl']]).
    + by apply (HO 0%nat (S i) p p' x ltac:(lia)).
    + apply (HT U' 0%nat p x eq_refl Ho). pose proof (lookup_lt_Some _ _ _ Hp). cbn [length].
      unfold TRAMPOLINE_SIZE in *. lia.
    + apply (HT U (S i) p' x Hp Ho'). cbn [length]. unfold TRAMPOLINE_SIZE in *. lia.
    + unfold TRAMPOLINE_SIZE in *. lia.
Qed.

Lemma all_stores_elem uses ps : forall slot (i : nat) p s,
  ps !! i = Some p -> s ∈ patch_stores uses (slot + TRAMPOLINE_SIZE * i) p ->
  s ∈ all_stores uses slot ps.
Proof.
  induction ps as [|p0 ps IH]; intros slot i p s; [done|]. destruct i as [|i]; cbn [lookup list_lookup].
  - intros [= ->] Hs. apply elem_of_app. left.
    by rewrite Z.mul_0_r, Z.add_0_r in Hs.
  - intros Hp Hs. apply elem_of_app. right. eapply IH; [done|].
    by replace (slot + TRAMPOLINE_SIZE + TRAMPOLINE_SIZE * i)
      with (slot + TRAMPOLINE_SIZE * S i) by lia.
Qed.

(** ** Jumps of the processor *)

Definition s8 (x : Z) : Z := (x + 2 ^ 7) mod 2 ^ 8 - 2 ^ 7.

(** Where the jump at [a] goes: [jmp rel32], [jmp rel8] or [jmp *disp(%rip)]. *)
Definition jump_target (m : mem) (a : Z) : option Z :=
  if decide (m a = xe9) then Some (a + 5 + s32 (le_combine (mem_read m (a + 1) 4)))
  else if decide (m a = xeb) then Some (a + 2 + s8 (Z_of_byte (m (a + 1))))
  else if decide (m a = xff /\ m (a + 1) = x25)
  then Some (le_combine (mem_read m (a + 6 + s32 (le_combine (mem_read m (a + 2) 4))) 8))
  else None.

(** Jumps lead from [a] to [b]. *)
Definition leads (m : mem) : Z -> Z -> Prop := rtc (fun a b => jump_target m a = Some b).

Lemma mem_read_part m a n c k n' :
  mem_read m a n = c -> 0 <= k -> 0 <= n' -> k + n' <= n -> mem_read m (a + k) n' = slice k n' c.
Proof.
  intros <- Hk Hn' Hn. apply list_eq. intros i. unfold mem_read. rewrite lookup_tabulate.
  case_decide.
  - rewrite lookup_slice, lookup_tabulate, decide_True by lia. f_equal. f_equal. lia.
  - symmetry. apply lookup_ge_None.
    pose proof (zlength_slice k n' (tabulate (fun i => m (a + i)) n) ltac:(lia) ltac:(lia)).
    lia.
Qed.

Lemma mem_read_byte m a n c k b :
  mem_read m a n = c -> 0 <= k < n -> c !! Z.to_nat k = Some b -> m (a + k) = b.
Proof.
  intros <- Hk. unfold mem_read. rewrite lookup_tabulate, decide_True by lia.
  rewrite Z2Nat.id by lia. congruence.
Qed.

Lemma jump_target_jump m from to :
  mem_read m from 5 = jump_code from to -> reachable from to -> jump_target m from = Some to.
Proof.
  intros H R. unfold jump_target.
  assert (m from = xe9) as ->.
  { rewrite <-(Z.add_0_r from). by apply (mem_read_byte _ _ _ _ 0 _ H). }
  rewrite decide_True by done. f_equal.
  rewrite (mem_read_part _ _ _ _ 1 4 H) by lia.
  change (slice 1 4 (jump_code from to)) with (le_split 4 (to - (from + JUMP_INS_SIZE))).
  rewrite le_combine_split. unfold reachable, INT32_MIN, INT32_MAX, JUMP_INS_SIZE in *.
  unfold s32. cbn [Z.of_nat Z.pow].
  change (256 ^ Z.of_nat 4) with (2 ^ 32). rewrite Zplus_mod_idemp_l, Z.mod_small; lia.
Qed.

Lemma jump_target_short m from to :
  mem_read m from 2 = short_jump_code from to -> short_reachable from to ->
  jump_target m from = Some to.
Proof.
  intros H R. unfold jump_target.
  assert (m from = xeb) as ->.
  { rewrite <-(Z.add_0_r from). by apply (mem_read_byte _ _ _ _ 0 _ H). }
  rewrite decide_False, decide_True by done. f_equal.
  rewrite (mem_read_byte _ _ _ _ 1 _ H) by (done || lia).
  rewrite Z_of_byte_of_Z. unfold short_reachable, s8 in *. change 256 with (2 ^ 8).
  rewrite Zplus_mod_idemp_l, Z.mod_small; lia.
Qed.

Lemma jump_target_absolute m from to :
  mem_read m from 14 = absolute_jump_code to -> 0 <= to < 2 ^ 64 ->
  jump_target m from = Some to.
Proof.
  intros H R. unfold jump_target.
  assert (m from = xff) as ->.
  { rewrite <-(Z.add_0_r from). by apply (mem_read_byte _ _ _ _ 0 _ H). }
  assert (m (from + 1) = x25) as -> by (by apply (mem_read_byte _ _ _ _ 1 _ H)).
  rewrite decide_False, decide_False, decide_True by done. f_equal.
  rewrite (mem_read_part _ _ _ _ 2 4 H) by lia. cbn -[Z.pow].
  change (from + 6 + s32 0) with (from + 6 + 0). rewrite Z.add_0_r.
  rewrite (mem_read_part _ _ _ _ 6 8 H) by lia.
  change (slice 6 8 (absolute_jump_code to)) with (le_split 8 to).
  rewrite le_combine_split. apply Z.mod_small. lia.
Qed.

End PatchedText.
