(* ===== verification/Patching.v ===== *)
(** * Patching a text preserves what it computes

    The composition of the parts of the patcher on one library: wrappers are
    generated for all system calls found, and the text is overwritten.  Every system
    call then leads to its wrapper, whose code is the one meant, and the rest of the
    text is as before. *)

From S2P Require Import Prelude Defs Util Disasm InterceptDesc Patcher PatchLayout MiniX86 PatchPlace PatchedText.
Import Util.Util Disasm InterceptDesc Patcher PatchLayout MiniX86 PatchPlace PatchedText.

#[local] Open Scope Z_scope.

Module Patching.

(** ** Where the wrappers start *)

Section wrappers.
Variable T : template.
Variable patch_ptr : nat -> Z.

Lemma set_wrappers_lookup m ps : forall i dst (j : nat) q,
  set_wrappers T patch_ptr m i dst ps !! j = Some q ->
  exists p, ps !! j = Some p /\ q = p <| p_asm_wrapper := p_asm_wrapper q |> /\
    let code := wrapper_code T patch_ptr m (i + j) p in
    dst <= p_asm_wrapper q /\
    p_asm_wrapper q + zlength code <= dst + zlength (wrappers_code T patch_ptr m i ps) /\
    slice (p_asm_wrapper q - dst) (zlength code) (wrappers_code T patch_ptr m i ps) = code.
Proof.
  induction ps as [|p ps IH]; intros i dst j q; [done|]. cbn [set_wrappers wrappers_code].
  destruct j as [|j]; cbn [lookup list_lookup].
  - intros [= <-]. exists p. split; [done|]. split; [done|]. cbn [p_asm_wrapper].
    rewrite Nat.add_0_r, length_app. cbn. split; [lia|]. split; [lia|].
    rewrite Z.sub_diag. unfold slice, ztake, zdrop. rewrite drop_0, Nat2Z.id.
    apply take_app_length.
  - intros (p' & Hp & Eq & H1 & H2 & H3)%IH. exists p'. split; [done|]. split; [done|].
    replace (S i + j)%nat with (i + S j)%nat in * by lia. rewrite length_app.
    split; [lia|]. split; [lia|]. rewrite <-H3 at 2. unfold slice, zdrop. f_equal.
    set (w := wrapper_code T patch_ptr m i p) in *.
    replace (Z.to_nat (p_asm_wrapper q - dst))
      with (length w + Z.to_nat (p_asm_wrapper q - (dst + zlength w)))%nat by lia.
    by rewrite <-drop_drop, drop_app_length.
Qed.

Lemma set_wrappers_length m ps : forall i dst,
  length (set_wrappers T patch_ptr m i dst ps) = length ps.
Proof. induction ps as [|p ps IH]; intros i dst; cbn; [done|]. by rewrite IH. Qed.

End wrappers.

(** Deciding about patches changes the jump table only. *)
Lemma place_all_desc todo : forall n desc ps desc',
  place_all todo n desc = Some (ps, desc') ->
  exists t, desc' = desc <| i_jump_table := t |>.
Proof.
  induction todo as [|p todo IH]; intros n desc ps desc'; cbn [place_all].
  - intros [= <- <-]. exists (i_jump_table desc). by destruct desc.
  - destruct (place_patch desc p n) as [[[p1 d1] n1]|] eqn:E1; [|done].
    cbn [mbind option_bind].
    destruct (place_all todo n1 d1) as [[ps1 d2]|] eqn:E2; [|done]. intros [= <- <-].
    apply IH in E2 as [t ->]. apply place_patch_desc in E1 as ->. exists t. unfold mark_jump. by destruct (in_text desc _).
Qed.

(** Each patch was decided on from its description. *)
Lemma place_all_lookup todo : forall n desc ps desc' i p',
  place_all todo n desc = Some (ps, desc') -> ps !! i = Some p' ->
  exists p d n1 d2 n2, todo !! i = Some p /\ place_patch d p n1 = Some (p', d2, n2).
Proof.
  induction todo as [|p todo IH]; intros n desc ps desc' i p'; cbn [place_all];
    [by intros [= <- <-]|].
  destruct (place_patch desc p n) as [[[p1 d1] n1]|] eqn:E1; [|done]. cbn [mbind option_bind].
  destruct (place_all todo n1 d1) as [[ps1 d2]|] eqn:E2; [|done]. intros [= <- <-].
  destruct i as [|i]; cbn; [intros [= <-]; by eauto 10|]. by eapply IH.
Qed.

(** ** Room for the generated code *)

(** The table of jumps: unused, large enough, away from the text and the wrappers,
    and near the text. *)
Record table_room (desc : intercept_desc) (dst len : Z) (count : nat) : Prop := {
  tr_next : i_next_trampoline desc = i_trampoline_table desc;
  tr_size : TRAMPOLINE_SIZE * count < i_trampoline_table_size desc;
  tr_text : away desc (i_trampoline_table desc) (i_trampoline_table_size desc);
  tr_space : i_trampoline_table desc + i_trampoline_table_size desc <= dst \/
    dst + len <= i_trampoline_table desc;
  tr_low : i_text_end desc - INT32_MAX < i_trampoline_table desc;
  tr_high : i_trampoline_table desc + i_trampoline_table_size desc <
    i_text_start desc + INT32_MAX
}.

Record room (desc : intercept_desc) (dst len : Z) (count : nat) : Prop := {
  rm_space : away desc dst len;
  rm_addr : 0 <= dst /\ dst + len < 2 ^ 64;
  rm_text : 0 <= i_text_start desc /\ i_text_end desc + 1 < 2 ^ 64;
  rm_table : i_uses_trampoline_table desc = true -> table_room desc dst len count;
  rm_near : i_uses_trampoline_table desc = false ->
    forall a, i_text_start desc <= a -> a + JUMP_INS_SIZE <= i_text_end desc + 1 ->
    forall b, dst <= b <= dst + len -> reachable a b
}.

(** ** What is promised *)

(** The code for patch [i] of the text of [m] in the memory [m']. *)
Record patched (T : template) (patch_ptr : nat -> Z) (m m' : mem) (i : nat)
    (p : patch_desc) : Prop := {
  pd_wrapper : let code := wrapper_code T patch_ptr m i p in
    mem_read m' (p_asm_wrapper p) (zlength code) = code;
  pd_return : leads m' (p_asm_wrapper p + zlength (wrapper_code T patch_ptr m i p) - 14)
    (p_return_address p);
  pd_entry : leads m' (if p_uses_nop_trampoline p then p_syscall_addr p else p_dst_jmp_patch p)
    (p_asm_wrapper p);
  pd_nop : p_uses_nop_trampoline p = true ->
    leads m' (r_address (p_nop_trampoline p)) (after_nop (p_nop_trampoline p));
  pd_rest : p_uses_nop_trampoline p = false ->
    forall x, p_dst_jmp_patch p + JUMP_INS_SIZE <= x < p_return_address p ->
      m' x = INT3_OPCODE
}.

(** ** The proof *)

Section patching.
Variables (l : list intercept_disasm_result) (desc0 : intercept_desc) (ks js : list nat).
Hypothesis L : layout l desc0 ks js.
Variables (ps : list patch_desc) (desc' : intercept_desc).
Hypothesis PS : placing l ks 0 desc0 ps desc'.

(** Padding is an instruction of seven to fifteen bytes. *)
Lemma placing_nop i p :
  ps !! i = Some p -> p_uses_nop_trampoline p = true ->
  p_dst_jmp_patch p = r_address (p_nop_trampoline p) + 2 /\
  7 <= r_size (p_nop_trampoline p) <= 15 /\
  short_reachable (p_syscall_addr p) (p_dst_jmp_patch p) /\
  forall x, p_syscall_addr p <= x < p_syscall_addr p + SYSCALL_INS_SIZE ->
    ~ (r_address (p_nop_trampoline p) <= x < after_nop (p_nop_trampoline p)).
Proof.
  intros Hp U. destruct (placing_position _ _ _ _ _ _ _ _ PS Hp) as [k Hk].
  destruct (placing_lookup _ _ _ _ _ _ PS i k p Hk Hp) as (d & n1 & n2 & P & _ & E & _).
  destruct (pc_nop _ _ _ _ _ _ P U) as ((j & _ & Hj) & Hr & _ & _ & _ & Ed).
  rewrite E in Hj. destruct (Forall2_lookup_r _ _ _ _ _ (ly_nops _ _ _ _ L) Hj)
    as (i1 & _ & r & Hl & Hn & En).
  pose proof (ly_decoded _ _ _ _ L _ _ Hl) as D.
  split; [done|]. split.
  { rewrite En. cbn. unfold is_overwritable_nop in Hn. pose proof (dc_max _ _ _ D). zbool. lia. }
  split.
  { unfold short_reachable. rewrite Ed. unfold is_nop_in_range in Hr. zbool. lia. }
  intros x Hx Hx'. pose proof (placed_neighbours _ _ _ _ L _ _ _ _ _ P) as N.
  destruct (nb_syscall _ _ _ _ N) as (s & Hs & Hsc & _ & Ea & El).
  assert (k = i1) as ->.
  { rewrite En in Hx'. unfold after_nop in Hx'. cbn in Hx'.
    apply (tiling_unique _ _ l k i1 s r x (ly_tiling _ _ _ _ L) Hs Hl); [|done].
    unfold ins_end, SYSCALL_INS_SIZE in *. lia. }
  assert (r = s) as -> by congruence.
  destruct (dc_syscall _ _ _ D Hsc) as [_ Hnn]. unfold is_overwritable_nop in Hn.
  by rewrite Hnn in Hn.
Qed.

Lemma placing_compact : Forall compact ps.
Proof.
  apply Forall_lookup. intros i p Hp. split.
  - intros U. destruct (placing_nop i p Hp U) as (? & ? & _ & ?). split_and!; [done|lia|done].
  - intros U. destruct (placing_position _ _ _ _ _ _ _ _ PS Hp) as [k Hk].
    destruct (placing_lookup _ _ _ _ _ _ PS i k p Hk Hp) as (d & n1 & n2 & P & _).
    pose proof (pc_room _ _ _ _ _ _ P U). lia.
Qed.

(** The jump of a patch lies in the text. *)
Lemma placing_jump_text i p :
  ps !! i = Some p -> i_text_start desc0 <= p_dst_jmp_patch p /\
    p_dst_jmp_patch p + JUMP_INS_SIZE <= i_text_end desc0 + 1.
Proof.
  intros Hp. pose proof (proj1 (Forall_lookup _ _) placing_compact i p Hp) as C.
  assert (forall x, p_dst_jmp_patch p <= x < p_dst_jmp_patch p + JUMP_INS_SIZE -> owned p x) as Ho.
  { intros x Hx. unfold owned, after_nop, JUMP_INS_SIZE in *.
    destruct (p_uses_nop_trampoline p) eqn:U.
    - destruct (cp_nop _ C U) as (-> & ? & _) in Hx. right. lia.
    - pose proof (cp_jump _ C U). unfold JUMP_INS_SIZE in *. lia. }
  assert (forall x, p_dst_jmp_patch p <= x < p_dst_jmp_patch p + JUMP_INS_SIZE ->
    in_text desc0 x = true) as Ht.
  { intros x Hx. eapply (placing_owned_text _ _ _ _ L); [exact PS|exact Hp|auto]. }
  pose proof (Ht (p_dst_jmp_patch p) ltac:(unfold JUMP_INS_SIZE; lia)).
  pose proof (Ht (p_dst_jmp_patch p + 4) ltac:(unfold JUMP_INS_SIZE; lia)).
  unfold in_text, JUMP_INS_SIZE in *. zbool. lia.
Qed.

(** Where a patch returns to. *)
Lemma placing_return_text i p :
  ps !! i = Some p ->
  i_text_start desc0 <= p_return_address p <= i_text_end desc0 + 1.
Proof.
  intros Hp. destruct (placing_position _ _ _ _ _ _ _ _ PS Hp) as [k Hk].
  destruct (placing_lookup _ _ _ _ _ _ PS i k p Hk Hp) as (d & n1 & n2 & P & _).
  pose proof (placed_neighbours _ _ _ _ L _ _ _ _ _ P) as N.
  destruct (nb_next _ _ _ _ N) as (f & Hf & Ef & Ea).
  destruct (tiling_bounds _ _ _ _ _ (ly_tiling _ _ _ _ L) Hf) as (? & ? & ?).
  rewrite (pc_return _ _ _ _ _ _ P). unfold next_len. rewrite Ef.
  unfold ins_end in *. destruct (p_uses_next_ins p); lia.
Qed.

Variables (T : template) (patch_ptr : nat -> Z) (m : mem) (dst : Z).
Let len : Z := zlength (wrappers_code T patch_ptr m 0 ps).
Let qs : list patch_desc := set_wrappers T patch_ptr m 0 dst ps.
Hypothesis TW : template_wf T.
Hypothesis A : lea_apart l.
Hypothesis R : room desc0 dst len (length ps).

Lemma wrapper_of i q :
  qs !! i = Some q -> exists p, ps !! i = Some p /\
    q = p <| p_asm_wrapper := p_asm_wrapper q |> /\ dst <= p_asm_wrapper q /\
    p_asm_wrapper q + zlength (wrapper_code T patch_ptr m i q) <= dst + len /\
    slice (p_asm_wrapper q - dst) (zlength (wrapper_code T patch_ptr m i q))
      (wrappers_code T patch_ptr m 0 ps) = wrapper_code T patch_ptr m i q.
Proof.
  intros (p & Hp & E & H)%set_wrappers_lookup. exists p. split; [done|]. split; [done|].
  by rewrite E.
Qed.

Lemma zlength_wrapper_code i p : 14 <= zlength (wrapper_code T patch_ptr m i p).
Proof.
  unfold wrapper_code. rewrite !length_app.
  pose proof (zlength_absolute_jump_code (p_return_address p)). lia.
Qed.

Lemma placing_activates d (i : nat) q :
  i_text_start d = i_text_start desc0 -> i_text_end d = i_text_end desc0 ->
  i_uses_trampoline_table d = i_uses_trampoline_table desc0 ->
  i_trampoline_table d = i_trampoline_table desc0 ->
  i_trampoline_table_size d = i_trampoline_table_size desc0 ->
  qs !! i = Some q ->
  activates d (i_next_trampoline desc0 + TRAMPOLINE_SIZE * i) q.
Proof.
  intros E1 E2 E3 E4 E5 Hq. pose proof (lookup_lt_Some _ _ _ Hq) as Hi.
  unfold qs in Hi. rewrite set_wrappers_length in Hi.
  destruct (wrapper_of i q Hq) as (p & Hp & Eq & Hd & Hl & _).
  pose proof (zlength_wrapper_code i q) as Hw.
  destruct (placing_jump_text i p Hp) as [J1 J2].
  assert (p_dst_jmp_patch q = p_dst_jmp_patch p) as Ej by (by rewrite Eq).
  split; rewrite ?E1, ?E2, ?E3, ?E4, ?E5, ?Ej; [unfold JUMP_INS_SIZE in *; lia| | |].
  - intros U. destruct (rm_table _ _ _ _ R U) as [-> Hs _ _ Hlo Hhi].
    unfold reachable, TRAMPOLINE_SIZE, INT32_MIN, INT32_MAX, JUMP_INS_SIZE in *. split; nia.
  - intros U. apply (rm_near _ _ _ _ R U); [done|done|lia].
  - rewrite Eq. cbn. intros U. destruct (placing_nop i p Hp U) as (E & Hz & Hsr & _).
    split; [done|]. unfold short_reachable, after_nop. lia.
Qed.

Lemma all_activate_lookup d xs : forall slot,
  (forall (i : nat) q, xs !! i = Some q -> activates d (slot + TRAMPOLINE_SIZE * i) q) ->
  all_activate d slot xs.
Proof.
  induction xs as [|q xs IH]; intros slot H; cbn; [done|]. split.
  - specialize (H 0%nat q eq_refl). by rewrite Z.mul_0_r, Z.add_0_r in H.
  - apply IH. intros i q' Hq. specialize (H (S i) q' Hq).
    by replace (slot + TRAMPOLINE_SIZE + TRAMPOLINE_SIZE * i)
      with (slot + TRAMPOLINE_SIZE * S i) by lia.
Qed.

Lemma placing_disjoint_patches :
  disjoint_patches (i_uses_trampoline_table desc0) (i_next_trampoline desc0) qs.
Proof.
  split.
  - apply Forall_lookup. intros i q Hq. destruct (wrapper_of i q Hq) as (p & Hp & -> & _).
    pose proof (proj1 (Forall_lookup _ _) placing_compact i p Hp) as []. by split.
  - intros i i' q q' x Hi Hq Hq' Ho Ho'.
    destruct (wrapper_of i q Hq) as (p & Hp & Eq & _). rewrite Eq in Ho.
    destruct (wrapper_of i' q' Hq') as (p' & Hp' & Eq' & _). rewrite Eq' in Ho'.
    by apply (placing_disjoint _ _ _ _ L ps desc' i i' p p' x A PS Hi Hp Hp').
  - intros U i q x Hq Ho Hx. destruct (wrapper_of i q Hq) as (p & Hp & Eq & _).
    rewrite Eq in Ho. destruct (rm_table _ _ _ _ R U) as [En Hs Ht _ _ _].
    apply (Ht x); [by eapply (placing_owned_text _ _ _ _ L); [exact PS|exact Hp|]|].
    unfold qs in Hx. rewrite set_wrappers_length, En in Hx. lia.
Qed.

(** What the stores leave alone. *)
Lemma stores_outside m1 x :
  let m2 := apply_stores m1 (all_stores (i_uses_trampoline_table desc0)
              (i_next_trampoline desc0) qs) in
  (forall i q, qs !! i = Some q -> ~ owned q x) ->
  (i_uses_trampoline_table desc0 = true -> ~ (i_trampoline_table desc0 <= x <
     i_trampoline_table desc0 + i_trampoline_table_size desc0)) -> m2 x = m1 x.
Proof.
  intros m2 Ho Ht. apply apply_stores_outside. apply Forall_forall. intros s Hs Hx.
  destruct placing_disjoint_patches as [C _ _].
  destruct (all_stores_place _ _ _ _ _ C Hs Hx) as (i & q & Hq & [H|[U H]]); [by apply (Ho i q)|].
  apply (Ht U). destruct (rm_table _ _ _ _ R U) as [En Hz _ _ _ _]. rewrite En in H.
  apply lookup_lt_Some in Hq. unfold qs in Hq. rewrite set_wrappers_length in Hq.
  unfold TRAMPOLINE_SIZE in *. nia.
Qed.

Lemma owned_text i q x : qs !! i = Some q -> owned q x -> in_text desc0 x = true.
Proof.
  intros Hq Ho. destruct (wrapper_of i q Hq) as (p & Hp & Eq & _). rewrite Eq in Ho.
  by eapply (placing_owned_text _ _ _ _ L); [exact PS|exact Hp|].
Qed.

(** A store of a patch is in the final memory. *)
Lemma stores_inside m1 (i : nat) q s :
  let m2 := apply_stores m1 (all_stores (i_uses_trampoline_table desc0)
              (i_next_trampoline desc0) qs) in
  qs !! i = Some q -> s ∈ patch_stores (i_uses_trampoline_table desc0)
    (i_next_trampoline desc0 + TRAMPOLINE_SIZE * i) q ->
  mem_read m2 s.1 (zlength s.2) = s.2.
Proof.
  intros m2 Hq Hs. apply apply_stores_inside.
  - apply all_stores_separate, placing_disjoint_patches.
  - by eapply all_stores_elem.
Qed.

(** The stores of a patch and its wrapper are all that is needed. *)
Lemma reads_lead m2 (i : nat) q :
  qs !! i = Some q ->
  (forall s, s ∈ patch_stores (i_uses_trampoline_table desc0)
     (i_next_trampoline desc0 + TRAMPOLINE_SIZE * i) q ->
     mem_read m2 s.1 (zlength s.2) = s.2) ->
  leads m2 (if p_uses_nop_trampoline q then p_syscall_addr q else p_dst_jmp_patch q)
    (p_asm_wrapper q).
Proof.
  intros Hq Hin.
  pose proof (placing_activates desc0 i q eq_refl eq_refl eq_refl eq_refl eq_refl Hq)
    as [_ AS AW AN].
  destruct (wrapper_of i q Hq) as (p & _ & _ & Hd & Hl & _).
  pose proof (zlength_wrapper_code i q). pose proof (rm_addr _ _ _ _ R) as [? ?].
  assert (leads m2 (p_dst_jmp_patch q) (p_asm_wrapper q)) as Hj.
  { unfold patch_stores in Hin. destruct (i_uses_trampoline_table desc0).
    - destruct (AS eq_refl) as [Hr _].
      eapply rtc_l; [apply jump_target_jump; [|exact Hr]|apply rtc_once, jump_target_absolute; [|lia]].
      + by apply (Hin (_, jump_code _ _)); left.
      + by apply (Hin (_, absolute_jump_code _)); right; left.
    - apply rtc_once, jump_target_jump; [|by apply AW].
      by apply (Hin (_, jump_code _ _)); left. }
  destruct (p_uses_nop_trampoline q) eqn:U; [|done]. destruct (AN eq_refl) as [Hs _].
  eapply rtc_l; [|exact Hj]. apply jump_target_short; [|done].
  apply (Hin (_, short_jump_code _ _)). unfold patch_stores. rewrite U.
  apply elem_of_app. right. by left.
Qed.

Lemma reads_patched m2 (i : nat) q :
  qs !! i = Some q ->
  (forall s, s ∈ patch_stores (i_uses_trampoline_table desc0)
     (i_next_trampoline desc0 + TRAMPOLINE_SIZE * i) q ->
     mem_read m2 s.1 (zlength s.2) = s.2) ->
  (let code := wrapper_code T patch_ptr m i q in
   mem_read m2 (p_asm_wrapper q) (zlength code) = code) ->
  patched T patch_ptr m m2 i q.
Proof.
  intros Hq Hin Hw.
  pose proof (placing_activates desc0 i q eq_refl eq_refl eq_refl eq_refl eq_refl Hq)
    as [_ _ _ AN].
  destruct (wrapper_of i q Hq) as (p & Hp & Eq & Hd & Hl & _).
  split; [done| |by apply (reads_lead m2 i q)| |].
  - apply rtc_once, jump_target_absolute.
    + pose proof (zlength_wrapper_code i q).
      rewrite <-Z.add_sub_assoc, (mem_read_part _ _ _ _ _ 14 Hw) by lia.
      unfold wrapper_code. rewrite !app_assoc. rewrite length_app.
      pose proof (zlength_absolute_jump_code (p_return_address q)).
      set (w := ((_ ++ _) ++ _)). set (a := absolute_jump_code _) in *.
      replace (Z.of_nat (length w + length a) - 14) with (zlength w) by lia.
      unfold slice, ztake, zdrop. rewrite Nat2Z.id, drop_app_length.
      apply take_ge. lia.
    + pose proof (placing_return_text i p Hp). rewrite Eq. cbn.
      destruct (rm_text _ _ _ _ R). lia.
  - intros U. destruct (AN U) as [_ Hs]. apply rtc_once, jump_target_short; [|done].
    apply (Hin (_, short_jump_code _ _)). unfold patch_stores. rewrite U.
    apply elem_of_app. by right; right; left.
  - intros U x Hx. set (b := p_dst_jmp_patch q + JUMP_INS_SIZE).
    set (c := replicate (Z.to_nat (p_return_address q - b)) INT3_OPCODE).
    assert (mem_read m2 b (zlength c) = c) as Hc.
    { apply (Hin (b, c)). unfold patch_stores. rewrite U. apply elem_of_app.
      by right; left. }
    replace x with (b + (x - b)) by lia.
    apply (mem_read_byte _ _ _ _ (x - b) _ Hc); unfold c; rewrite ?length_replicate;
      [lia|]. apply lookup_replicate_2. lia.
Qed.

(** Generating the wrappers of the object in a memory that has its text. *)
Lemma wrappers_created m1 :
  place_all (i_items desc0) 0 desc0 = Some (ps, desc') -> text_eq desc0 m m1 ->
  exists m1', create_patch_wrappers T patch_ptr desc0 m1 dst =
      Some (desc' <| i_items := qs |>, m1', dst + len) /\
    emits m1 dst (wrappers_code T patch_ptr m 0 ps) m1' (dst + len).
Proof.
  intros Hp Ht. pose proof (placing_moves _ _ _ _ L _ _ _ PS) as M.
  destruct (wrappers_loop_ok T patch_ptr m (i_items desc0) 0 0 desc0 ps desc' m1 dst TW Hp M Ht
    (rm_space _ _ _ _ R)) as (m1' & dst' & E & Em & _).
  unfold create_patch_wrappers. rewrite E. cbn [mbind option_bind].
  pose proof Em as [-> _]. by exists m1'.
Qed.

(** Activating them. *)
Lemma patches_activated m1 t :
  desc' = desc0 <| i_jump_table := t |> ->
  exists d2 m2, activate_patches (desc' <| i_items := qs |>) m1 = Some (d2, m2) /\
    i_items d2 = qs /\ meq m2 (apply_stores m1 (all_stores (i_uses_trampoline_table desc0)
      (i_next_trampoline desc0) qs)).
Proof.
  intros Et. set (d := desc' <| i_items := qs |>).
  assert (d = desc0 <| i_jump_table := t |> <| i_items := qs |>) as Ed
    by (unfold d; by rewrite Et). clearbody d.
  destruct (activate_loop_ok qs d m1) as (d2 & m2 & E & Ei & Em).
  - apply all_activate_lookup. intros i q Hq. rewrite Ed. by apply placing_activates.
  - exists d2, m2. rewrite Ed in *. done.
Qed.

(** The wrapper of a patch after all were generated. *)
Lemma wrapper_read m1 m1' i q :
  emits m1 dst (wrappers_code T patch_ptr m 0 ps) m1' (dst + len) -> qs !! i = Some q ->
  let code := wrapper_code T patch_ptr m i q in
  mem_read m1' (p_asm_wrapper q) (zlength code) = code.
Proof.
  intros E Hq. destruct (wrapper_of i q Hq) as (p & _ & _ & Hd & Hl & Hs). cbn zeta.
  rewrite <-Hs at 2. rewrite <-(mem_read_part _ _ _ _ _ _ (emits_read _ _ _ _ _ E)) by lia.
  f_equal. lia.
Qed.

End patching.

(** ** One library *)

(** The descriptions of the patches and the memory after patching one library. *)
Definition patch_text (T : template) (patch_ptr : nat -> Z) (desc : intercept_desc)
    (m : mem) (dst : Z) : option (intercept_desc * mem) :=
  '(desc, m, _) ← create_patch_wrappers T patch_ptr desc m dst;
  activate_patches desc m.

Lemma patch_text_ok T patch_ptr l desc ks js m dst ps desc' :
  layout l desc ks js -> lea_apart l -> template_wf T ->
  place_all (i_items desc) 0 desc = Some (ps, desc') ->
  room desc dst (zlength (wrappers_code T patch_ptr m 0 ps)) (length ps) ->
  exists d2 m', patch_text T patch_ptr desc m dst = Some (d2, m') /\
    Forall2 (site l) ks (i_items d2) /\
    (forall i p, i_items d2 !! i = Some p -> patched T patch_ptr m m' i p) /\
    (forall x, in_text desc x = true ->
       (forall i p, i_items d2 !! i = Some p -> ~ owned p x) -> m' x = m x).
Proof.
  intros L A TW Hpl R. pose proof (place_all_desc _ _ _ _ _ Hpl) as [t Et].
  assert (placing l ks 0 desc ps desc') as PS
    by (eapply place_all_placing; [apply (ly_sites _ _ _ _ L)|lia|done]).
  destruct (wrappers_created _ _ _ _ L ps desc' PS T patch_ptr m dst TW R m Hpl)
    as (m1 & E1 & Em1); [done|].
  destruct (patches_activated _ _ _ _ L ps desc' PS T patch_ptr m dst R m1 t Et)
    as (d2 & m2 & E2 & Ei & Em2).
  exists d2, m2. unfold patch_text. rewrite E1. cbn [mbind option_bind].
  split; [done|]. rewrite Ei. split; [|split].
  - apply Forall2_same_length_lookup. rewrite set_wrappers_length.
    split; [by rewrite (placing_length _ _ _ _ _ _ PS)|].
    intros i k q Hk Hq.
    destruct (wrapper_of ps T patch_ptr m dst i q Hq) as (p & Hp & -> & _).
    destruct (placing_lookup _ _ _ _ _ _ PS i k p Hk Hp) as (d & n1 & n2 & P & _).
    by eapply site_fields; [..|apply P].
  - intros i q Hq. eapply reads_patched; try done.
    + intros s Hs. rewrite Em2. eapply stores_inside; done.
    + intros code. transitivity (mem_read m1 (p_asm_wrapper q) (zlength code));
        [|by apply (wrapper_read ps T patch_ptr m dst m m1 i q)]. rewrite Em2. apply mem_read_ext. intros x Hx.
      destruct (wrapper_of ps T patch_ptr m dst i q Hq) as (p & Hp & Eq & Hd & Hl & _).
      eapply stores_outside; try done.
      * intros i' q' Hq' Ho. eapply (rm_space _ _ _ _ R x); [|unfold code in Hx; lia].
        by eapply owned_text.
      * intros U Hr. destruct (tr_space _ _ _ _ (rm_table _ _ _ _ R U));
          unfold code in Hx; lia.
  - intros x Hx Ho. rewrite (Em2 x).
    transitivity (m1 x).
    + eapply stores_outside; try done. intros U. by apply (tr_text _ _ _ _ (rm_table _ _ _ _ R U)).
    + apply (emits_outside _ _ _ _ _ _ Em1). by apply (rm_space _ _ _ _ R).
Qed.

(** ** Main theorems *)

(** C15: finding the system calls ends for every text whose sweep has no gaps: each
    address that is reached from the start, instruction by instruction, disassembles.
    The patches describe, in order and with their neighbours, exactly the system calls
    that an instruction follows, the first instruction of the text included.  Known as
    jump targets are then all addresses of the text that an instruction refers to
    relative to [rip], entries and ends of the functions of the symbol tables, and the
    places of the relative relocations of both types. *)
Theorem find_syscalls_complete {cs : Capstone} {cl : CapstoneLaws} m file desc desc1 :
  readable file desc desc1 -> decodes m desc1 ->
  let l := text_listing m desc1 in
  tiling (i_text_start desc1) l (i_text_end desc1 + 1) /\
  exists desc' ks, find_syscalls m (Some file) desc = Some desc' /\
    Forall2 (site l) ks (i_items desc') /\ StronglySorted lt ks /\
    (forall k, k ∈ ks <-> exists s f, l !! k = Some s /\ d_is_syscall s = true /\
       l !! S k = Some f) /\
    (forall k r, l !! k = Some r -> d_has_ip_relative_opr r = true ->
       in_text desc1 (d_rip_ref_addr r) = true -> has_jump desc' (d_rip_ref_addr r) = true) /\
    (forall s syms sym, s ∈ i_symbol_tables desc1 -> elf_syms file s = Some syms ->
       sym ∈ syms -> sym_marked desc1 desc' sym) /\
    (forall s relas rela, s ∈ i_rela_tables desc1 -> elf_relas file s = Some relas ->
       rela ∈ relas -> rela_marked desc1 desc' rela).
Proof.
  intros R D l. destruct (find_syscalls_ok m file desc desc1 R D)
    as (desc' & ks & js & E & L & Es & Ee & Hs & Hr).
  pose proof L as [LT _ _ LJ LS LO LC _ _]. rewrite Es, Ee in LT. split; [done|].
  exists desc', ks. split_and!; try done.
  - intros k. split; [|intros (s & f & H1 & H2 & H3); by eapply LC].
    intros (i & Hi)%list_elem_of_lookup.
    destruct (Forall2_lookup_l _ _ _ _ _ LS Hi) as (p & _ & [(s & H1 & H2 & _) H3 _ _]).
    by exists s, (p_following_ins p).
  - intros k r Hk Hrel Hin. eapply LJ; [done..|]. unfold in_text in *. by rewrite Es, Ee.
Qed.

Definition two_calls_mem : mem := mem_with 0x401000 two_calls.
Definition two_calls_file : elf_file := text_file 0x1000 (zlength two_calls).
Definition two_calls_desc : intercept_desc := found two_calls_mem two_calls_file 0x400000.

Definition start_desc (base : Z) : intercept_desc :=
  InterceptDesc false base 0 [] [] 0 0 0 [] 0 [] 0 [] 0 0 0.

Lemma text_file_readable off size base :
  0 <= off -> 1 < size ->
  readable (text_file off size) (start_desc base)
    (add_text_info (start_desc base) (Shdr 1 off off size) 0).
Proof.
  intros Ho Hs. split; [done|cbn; lia|done|by intros s ?%elem_of_nil..].
Qed.

Lemma two_calls_found :
  find_syscalls two_calls_mem (Some two_calls_file) (start_desc 0x400000) =
    Some two_calls_desc.
Proof. vm_compute. reflexivity. Qed.

Lemma find_syscalls_complete_witness :
  readable two_calls_file (start_desc 0x400000)
    (add_text_info (start_desc 0x400000) (Shdr 1 0x1000 0x1000 (zlength two_calls)) 0) /\
  exists desc', find_syscalls two_calls_mem (Some two_calls_file) (start_desc 0x400000) =
    Some desc' /\ p_syscall_addr <$> i_items desc' = [0x401006; 0x40100b].
Proof.
  split; [by apply text_file_readable|].
  destruct (find_syscalls_complete two_calls_mem two_calls_file (start_desc 0x400000)
    (add_text_info (start_desc 0x400000) (Shdr 1 0x1000 0x1000 (zlength two_calls)) 0)
    ltac:(by apply text_file_readable) (mini_decodes _ _)) as (_ & desc' & ks & E & _).
  exists desc'. split; [done|].
  rewrite two_calls_found in E. apply (inj Some) in E as <-. vm_compute. reflexivity.
Defined.


(** The patch of a system call that an instruction follows. *)
Lemma placed_patch l desc ks js ps desc' k s f :
  layout l desc ks js -> place_all (i_items desc) 0 desc = Some (ps, desc') ->
  l !! k = Some s -> d_is_syscall s = true -> l !! S k = Some f ->
  exists i p d n n', ks !! i = Some k /\ ps !! i = Some p /\ placed l k d n p n' /\
    (p_uses_nop_trampoline p = false ->
     (d_is_lea_rip f = true -> p_uses_next_ins p = true) /\
     (d_is_lea_rip (before l k 1) = true -> p_uses_prev_ins p = true)).
Proof.
  intros L Hp Hs Hsc Hf. assert (placing l ks 0 desc ps desc') as PS
    by (eapply place_all_placing; [apply (ly_sites _ _ _ _ L)|lia|done]).
  destruct (list_elem_of_lookup_1 _ _ (ly_complete _ _ _ _ L k s f Hs Hsc Hf)) as [i Hi].
  destruct (lookup_lt_is_Some_2 ps i) as [p Hip].
  { rewrite (placing_length _ _ _ _ _ _ PS). by eapply lookup_lt_Some. }
  destruct (placing_lookup _ _ _ _ _ _ PS i k p Hi Hip) as (d & n1 & n2 & P & _).
  exists i, p, d, n1, n2. split_and!; [done..|]. intros U.
  destruct (place_all_lookup _ _ _ _ _ _ _ Hp Hip) as (p0 & d' & m1 & d2 & m2 & Hi0 & E).
  destruct (Forall2_lookup_lr _ _ _ _ _ _ (ly_sites _ _ _ _ L) Hi Hi0) as [_ H1 H2 _].
  rewrite Hf in H1. injection H1 as ->. rewrite <-H2.
  by apply (place_patch_lea _ _ _ _ _ _ E).
Qed.


(** The text has no such instruction at all. *)
Lemma two_calls_no_lea i r :
  text_listing two_calls_mem two_calls_desc !! i = Some r -> d_is_lea_rip r = false.
Proof.
  intros Hr. assert (Forall (fun r => d_is_lea_rip r = false)
    (text_listing two_calls_mem two_calls_desc)) as HF by (vm_compute; repeat constructor).
  rewrite Forall_lookup in HF. by eapply HF.
Qed.

Lemma two_calls_apart : lea_apart (text_listing two_calls_mem two_calls_desc).
Proof.
  intros k s r _ _ Hr Hlea. apply two_calls_no_lea in Hr. clear -Hr Hlea. congruence.
Qed.


Definition lea_mem : mem := mem_with 0x401000 lea_between.
Definition lea_desc : intercept_desc :=
  found lea_mem (text_file 0x1000 (zlength lea_between)) 0x400000.
Definition nop_template : template := Template nops 0 20 0x700000.

(** The first patch of the text: the address of its jump, and whether the jump goes
    to the wrapper. *)
Definition first_jump (r : option (intercept_desc * mem)) : option (Z * bool) :=
  '(d, m) ← r;
  p ← i_items d !! 0%nat;
  Some (p_dst_jmp_patch p,
        bool_decide (jump_target m (p_dst_jmp_patch p) = Some (p_asm_wrapper p))).

Lemma lea_found :
  find_syscalls lea_mem (Some (text_file 0x1000 (zlength lea_between))) (start_desc 0x400000) =
    Some lea_desc.
Proof. vm_compute. reflexivity. Qed.


(** What comes of it: after patching a text with such an instruction the jump that
    replaces the first system call does not go to its wrapper. *)
Theorem lea_between_syscalls_broken :
  (exists ps desc' p p', place_all (i_items lea_desc) 0 lea_desc = Some (ps, desc') /\
    ps = [p; p'] /\ forall x, 0x401002 <= x < 0x401009 -> owned p x /\ owned p' x) /\
  first_jump (patch_text nop_template (fun i => 0x600000 + 8 * i) lea_desc lea_mem 0x500000) =
    Some (0x401000, false).
Proof.
  split; [|vm_compute; reflexivity].
  do 4 eexists. split; [vm_compute; reflexivity|]. split; [reflexivity|].
  intros x Hx. unfold owned. cbn. lia.
Qed.

End Patching.
