(* ===== verification/Trampoline.v ===== *)
(** * Where the table of jumps is placed

    [allocate_trampoline_table] reads the mappings of the process and asks for
    memory at the first gap near the text.  What it finds overlaps no mapping, and
    every jump of the text reaches it. *)

From S2P Require Import Prelude Defs Util Disasm InterceptDesc Patcher PatchLayout PatchedText Patching.
Import Util.Util Disasm InterceptDesc Patcher PatchLayout PatchedText Patching.

#[local] Open Scope Z_scope.

Module Trampoline.

(** The lines of the file: ranges in ascending order. *)
Fixpoint ascending (low : Z) (maps : list (Z * Z)) : Prop :=
  match maps with
  | [] => True
  | (start, end_) :: maps => low <= start < end_ /\ ascending end_ maps
  end.

(** No byte of [n] bytes at [a] is mapped. *)
Definition unmapped (maps : list (Z * Z)) (a n : Z) : Prop :=
  Forall (fun '(start, end_) => end_ <= a \/ a + n <= start) maps.

Lemma ascending_unmapped maps : forall low a n,
  ascending low maps -> a + n <= low -> unmapped maps a n.
Proof.
  induction maps as [|[s e] maps IH]; intros low a n; cbn; [constructor|].
  intros [H1 H2] Ha. constructor; [lia|]. apply (IH e); [done|lia].
Qed.

Lemma find_gap_spec maps : forall low guess size text_start g,
  ascending low maps -> 0 <= size ->
  find_gap (Some <$> maps) guess size text_start = Some g ->
  unmapped maps g size /\ guess <= g /\
  (g = guess \/ g + size < text_start + INT32_MAX).
Proof.
  induction maps as [|[s e] maps IH]; intros low guess size text_start g; cbn.
  - intros _ _ [= <-]. split; [constructor|]. split; [lia|by left].
  - intros [H1 H2] Hsz. destruct (e <? guess) eqn:E1; zbool.
    { intros (Hu & Hg & Hr)%(IH e); [|done..]. split; [|done]. constructor; [lia|done]. }
    destruct (guess + size <=? s) eqn:E2; zbool.
    { intros [= <-]. split; [|split; [lia|by left]]. constructor; [lia|].
      apply (ascending_unmapped _ e); [done|lia]. }
    destruct (text_start + INT32_MAX <=? e + size) eqn:E3; [done|]. zbool.
    intros (Hu & Hg & Hr)%(IH e); [|done..]. split; [constructor; [lia|done]|].
    split; [lia|]. right. destruct Hr; lia.
Qed.

(** The search finds a place when there is one within reach, and the lowest. *)
Lemma find_gap_complete maps : forall guess size text_start g0,
  guess <= g0 -> unmapped maps g0 size -> g0 + size < text_start + INT32_MAX ->
  exists g, find_gap (Some <$> maps) guess size text_start = Some g /\ g <= g0.
Proof.
  induction maps as [|[s e] maps IH]; intros guess size text_start g0 Hg; cbn.
  { intros _ _. by exists guess. }
  intros [H1 H2]%Forall_cons Ht. destruct (e <? guess); [by apply IH|].
  destruct (guess + size <=? s) eqn:E; zbool; [by exists guess|].
  assert (e <= g0) by lia. rewrite (proj2 (Z.leb_gt _ _)) by lia. by apply IH.
Qed.

Lemma page_round x : x - 0x1000 < Z.land x (Z.lnot 0xfff) <= x.
Proof.
  change 0xfff with (Z.ones 12).
  rewrite <-Z.ldiff_land, Z.ldiff_ones_r by lia.
  rewrite Z.shiftl_mul_pow2, Z.shiftr_div_pow2 by lia.
  change 0x1000 with (2 ^ 12).
  pose proof (Z.div_mod x (2 ^ 12)). pose proof (Z.mod_pos_bound x (2 ^ 12)). lia.
Qed.

Lemma first_guess_range text_start text_end min_line :
  text_start <= text_end < text_start + 2 ^ 31 -> 0 <= text_start ->
  get_min_address min_line <= text_start ->
  text_end - INT32_MAX < first_guess text_end min_line /\
  first_guess text_end min_line + TRAMPOLINE_TABLE_SIZE < text_start + INT32_MAX.
Proof.
  intros Ht H0 Hm. unfold first_guess, TRAMPOLINE_TABLE_SIZE, INT32_MAX in *.
  destruct (text_end <? 2 ^ 31 - 1) eqn:E; zbool.
  - zif; lia.
  - pose proof (page_round (text_end - (2 ^ 31 - 1))). zif; lia.
Qed.

(** The table allocated for an object. *)
Definition with_table (desc : intercept_desc) (table : Z) : intercept_desc :=
  desc <| i_uses_trampoline_table := true |> <| i_trampoline_table := table |>
       <| i_trampoline_table_size := TRAMPOLINE_TABLE_SIZE |>
       <| i_next_trampoline := table |>.

(** The text and the wrappers are mapped. *)
Definition covered (maps : list (Z * Z)) (a n : Z) : Prop :=
  exists s e, (s, e) ∈ maps /\ s <= a /\ a + n <= e.

Lemma covered_unmapped maps a n a' n' :
  covered maps a n -> unmapped maps a' n' -> a' + n' <= a \/ a + n <= a'.
Proof.
  intros (s & e & Hin & H1 & H2) Hu. unfold unmapped in Hu. rewrite Forall_forall in Hu.
  specialize (Hu _ Hin). cbn in Hu. lia.
Qed.

(** What is documented of the mappings of a process. *)
Class ProcessLaws (VM : Type) `{Process VM} := {
  maps_of : VM -> list (Z * Z);
  maps_lines vm : proc_maps vm = Some (Some <$> maps_of vm);
  maps_ascending vm : ascending 0 (maps_of vm);
  mmap_fixed vm a n a' vm' :
    unmapped (maps_of vm) a n -> 0 < n -> proc_mmap vm a n = Some (a', vm') ->
    a' = a /\ covered (maps_of vm') a n /\
    forall b k, covered (maps_of vm) b k -> covered (maps_of vm') b k
}.

(** The text of an object is mapped, at an address a process may use. *)
Record text_mapped (maps : list (Z * Z)) (min_line : option string)
    (desc : intercept_desc) : Prop := {
  tm_text : covered maps (i_text_start desc) (text_bytes desc);
  tm_size : 0 <= i_text_start desc <= i_text_end desc /\
    i_text_end desc < i_text_start desc + 2 ^ 31;
  tm_min : get_min_address min_line <= i_text_start desc
}.

Lemma allocate_trampoline_table_spec `{PL : ProcessLaws VM} env min_line (vm : VM) desc desc' vm' :
  text_mapped (maps_of vm) min_line desc -> wants_table env = true ->
  allocate_trampoline_table env min_line vm desc = Some (desc', vm') ->
  exists table, desc' = with_table desc table /\
    unmapped (maps_of vm) table TRAMPOLINE_TABLE_SIZE /\
    covered (maps_of vm') table TRAMPOLINE_TABLE_SIZE /\
    (forall b k, covered (maps_of vm) b k -> covered (maps_of vm') b k) /\
    i_text_end desc - INT32_MAX < table /\
    table + TRAMPOLINE_TABLE_SIZE < i_text_start desc + INT32_MAX.
Proof.
  intros [Ht [H0 Hs] Hm] Hu. unfold allocate_trampoline_table. rewrite Hu, maps_lines.
  cbn -[find_gap fmap].
  destruct (find_gap _ _ _ _) as [g|] eqn:Eg; [|done]. cbn.
  destruct (proc_mmap vm g TRAMPOLINE_TABLE_SIZE) as [[t vm1]|] eqn:Et; [|done]. cbn.
  intros [= <- <-].
  destruct (find_gap_spec (maps_of vm) 0 _ TRAMPOLINE_TABLE_SIZE _ _ (maps_ascending vm)
    ltac:(done) Eg) as (Hun & Hge & Hr).
  destruct (mmap_fixed vm g TRAMPOLINE_TABLE_SIZE t vm1 Hun ltac:(done) Et) as (-> & Hc & Hk).
  destruct (first_guess_range (i_text_start desc) (i_text_end desc) min_line) as [L1 L2];
    [lia|lia|done|].
  exists g. split_and!; try done; [lia|]. destruct Hr as [->|?]; [done|lia].
Qed.

(** The room needed by the patches of the object. *)
Lemma allocated_room maps min_line desc space len table dst n (count : nat) :
  text_mapped maps min_line desc -> covered maps space len ->
  unmapped maps table TRAMPOLINE_TABLE_SIZE ->
  i_text_end desc - INT32_MAX < table ->
  table + TRAMPOLINE_TABLE_SIZE < i_text_start desc + INT32_MAX ->
  TRAMPOLINE_SIZE * count < TRAMPOLINE_TABLE_SIZE ->
  space <= dst -> dst + n <= space + len -> 0 <= n ->
  table_room (with_table desc table) dst n count.
Proof.
  intros [Ht [H1 Hs] Hm] Hsp Hu Hlo Hhi Hc Hd Hn H0.
  pose proof (covered_unmapped _ _ _ _ _ Ht Hu) as Dt.
  pose proof (covered_unmapped _ _ _ _ _ Hsp Hu) as Ds.
  split; cbn; try done; [|lia]. intros x Hx Hr. unfold in_text in Hx.
  cbn in Hx, Hr. unfold text_bytes in Dt. zbool. lia.
Qed.

(** C17: the table of jumps for an object is placed where nothing is mapped, and every
    jump of five bytes in the text reaches every byte of it.  The place is the lowest
    one that is free, from the first guess on; the allocation does not fail when
    there is one within reach of the start of the text. *)
Theorem trampoline_table_placed `{PL : ProcessLaws VM} env min_line (vm : VM) desc :
  text_mapped (maps_of vm) min_line desc -> wants_table env = true ->
  (forall desc' vm', allocate_trampoline_table env min_line vm desc = Some (desc', vm') ->
     exists table, desc' = with_table desc table /\
       unmapped (maps_of vm) table TRAMPOLINE_TABLE_SIZE /\
       (forall a slot, i_text_start desc <= a -> a + JUMP_INS_SIZE <= i_text_end desc + 1 ->
          table <= slot < table + TRAMPOLINE_TABLE_SIZE -> reachable a slot)) /\
  (forall g0, first_guess (i_text_end desc) min_line <= g0 ->
     unmapped (maps_of vm) g0 TRAMPOLINE_TABLE_SIZE ->
     g0 + TRAMPOLINE_TABLE_SIZE < i_text_start desc + INT32_MAX ->
     (forall a, first_guess (i_text_end desc) min_line <= a <= g0 ->
        is_Some (proc_mmap vm a TRAMPOLINE_TABLE_SIZE)) ->
     exists table vm', table <= g0 /\
       allocate_trampoline_table env min_line vm desc = Some (with_table desc table, vm')).
Proof.
  intros M Hw. split.
  - intros desc' vm' Ea. destruct (allocate_trampoline_table_spec _ _ _ _ _ _ M Hw Ea)
      as (table & -> & Hu & _ & _ & Hlo & Hhi).
    exists table. split; [done|]. split; [done|]. intros a slot H1 H2 H3.
    unfold reachable, INT32_MIN, INT32_MAX, JUMP_INS_SIZE, TRAMPOLINE_TABLE_SIZE in *. lia.
  - intros g0 Hg Hu Hr Hm.
    destruct (find_gap_complete (maps_of vm) _ TRAMPOLINE_TABLE_SIZE (i_text_start desc) g0 Hg Hu Hr)
      as (g & Eg & Hle).
    destruct (find_gap_spec (maps_of vm) 0 _ TRAMPOLINE_TABLE_SIZE _ _ (maps_ascending vm)
      ltac:(done) Eg) as (Hun & Hge & _).
    destruct (Hm g) as [[t vm'] Em]; [lia|].
    destruct (mmap_fixed vm g TRAMPOLINE_TABLE_SIZE t vm' Hun ltac:(done) Em) as [-> _].
    exists g, vm'. split; [done|]. unfold allocate_trampoline_table.
    rewrite Hw, maps_lines. cbn -[find_gap fmap]. rewrite Eg. cbn. by rewrite Em.
Qed.

(** ** An example *)

(** A process with one range of mappings, and room for a table below it. *)
Inductive small_vm := Before | After.

Definition small_maps (vm : small_vm) : list (Z * Z) :=
  match vm with
  | Before => [(0x400000, 0x700000)]
  | After => [(0x10000, 0x50000); (0x400000, 0x700000)]
  end.

#[export] Instance small_process : Process small_vm := {
  proc_maps vm := Some (Some <$> small_maps vm);
  proc_mmap vm a n :=
    match vm with
    | Before => if (a =? 0x10000) && (n =? TRAMPOLINE_TABLE_SIZE) then Some (a, After) else None
    | After => None
    end
}.

#[export] Instance small_process_laws : ProcessLaws small_vm.
Proof.
  refine {| maps_of := small_maps |}.
  - done.
  - intros []; cbn; lia.
  - intros [] a n a' vm' _ _; cbn; [|done]. destruct (_ && _) eqn:E; [|done].
    intros [= <- <-]. zbool. subst. split; [done|]. split.
    + exists 0x10000, 0x50000. split; [by left|]. unfold TRAMPOLINE_TABLE_SIZE. lia.
    + intros b k (s & e & Hin & H1). exists s, e. split; [by right|done].
Defined.

Definition small_desc : intercept_desc :=
  InterceptDesc false 0x400000 0 [] [] 0x1000 0x401000 0x401016 [] 0 [] 0 [] 0 0 0.

Lemma small_mapped : text_mapped (maps_of Before) None small_desc.
Proof.
  split; [|cbn; lia|by vm_compute]. exists 0x400000, 0x700000. split; [by left|]. unfold text_bytes. cbn. lia.
Qed.

Lemma trampoline_table_placed_witness : exists table vm', table <= 0x10000 /\
  allocate_trampoline_table None None Before small_desc = Some (with_table small_desc table, vm') /\
  unmapped (maps_of Before) table TRAMPOLINE_TABLE_SIZE.
Proof.
  destruct (trampoline_table_placed None None Before small_desc small_mapped eq_refl) as [H1 H2].
  destruct (H2 0x10000) as (table & vm' & Hle & E).
  - by vm_compute.
  - constructor; [|constructor]. unfold TRAMPOLINE_TABLE_SIZE. lia.
  - by vm_compute.
  - intros a Ha. change (first_guess (i_text_end small_desc) None) with 0x10000 in Ha.
    assert (a = 0x10000) as -> by lia. by eexists.
  - exists table, vm'. split; [done|]. split; [done|]. destruct (H1 _ _ E) as (t & Et & Hu & _).
    assert (t = table) as -> by (by injection Et). done.
Defined.

End Trampoline.
