(* ===== verification/SyscallFormats.v ===== *)
(** * The formats of system calls
      ([polylib/libs/syscall-intercept/src/syscall_formats.c], [syscall_formats.h],
      the names of errors in [intercept_util.c])

    For every system call its name, how its result is printed and how each of its
    arguments is.  The arrays of the source are indexed by number with designated
    initialisers; here they are association lists, and the elements without an
    initialiser are those without an entry.  The numbers are those of Linux on
    x86-64. *)

From S2P Require Import Prelude Defs Util.
Import Util.Util.

#[local] Open Scope string_scope.
#[local] Open Scope Z_scope.

Module SyscallFormats.

(** ** Calls *)

Record args := Args { a0 : Z; a1 : Z; a2 : Z; a3 : Z; a4 : Z; a5 : Z }.

(** [desc->args[i]]; [None] outside of the array. *)
Definition arg_at (a : args) (i : nat) : option Z :=
  match i with
  | 0%nat => Some (a0 a) | 1%nat => Some (a1 a) | 2%nat => Some (a2 a)
  | 3%nat => Some (a3 a) | 4%nat => Some (a4 a) | 5%nat => Some (a5 a)
  | _ => None
  end.

Record syscall_desc := SyscallDesc { sd_nr : Z; sd_args : args }.

(** ** Formats *)

Inductive arg_format :=
| arg_none | arg_ | arg_dec | arg_dec32 | arg_oct_mode | arg_hex | arg_cstr | arg_buf_in
| arg_buf_out | arg_open_flags | arg_fd | arg_atfd | arg_pointer | arg_fcntl_cmd
| arg_clone_flags | arg_seek_whence | arg_2fds | arg_pipe2_flags | arg_access_mode
| arg_flock.

#[export] Instance arg_format_eq_dec : EqDecision arg_format.
Proof. solve_decision. Defined.

Inductive return_type := rpointer | rhex | rdec | rmode | rnoreturn.

#[export] Instance return_type_eq_dec : EqDecision return_type.
Proof. solve_decision. Defined.

(** [name] is a null pointer for an unknown call. *)
Record syscall_format := SyscallFormat {
  f_name : option string;
  f_return_type : return_type;
  f_args : list arg_format
}.

Definition SARGS (nr : Z) (name : string) (r : return_type) (args : list arg_format)
    : Z * syscall_format :=
  (nr, SyscallFormat (Some name) r args).

Definition formats : list (Z * syscall_format) := [
  SARGS 0 "read" rdec [arg_fd; arg_buf_out; arg_dec];
  SARGS 1 "write" rdec [arg_fd; arg_buf_in; arg_dec];
  SARGS 2 "open" rdec [arg_cstr; arg_open_flags];
  SARGS 3 "close" rdec [arg_fd];
  SARGS 4 "stat" rdec [arg_cstr; arg_pointer];
  SARGS 5 "fstat" rdec [arg_fd; arg_pointer];
  SARGS 6 "lstat" rdec [arg_cstr; arg_pointer];
  SARGS 7 "poll" rdec [arg_pointer; arg_; arg_];
  SARGS 8 "lseek" rdec [arg_fd; arg_dec; arg_seek_whence];
  SARGS 9 "mmap" rpointer [arg_pointer; arg_; arg_; arg_; arg_fd; arg_];
  SARGS 10 "mprotect" rdec [arg_pointer; arg_; arg_];
  SARGS 11 "munmap" rdec [arg_pointer; arg_];
  SARGS 12 "brk" rdec [arg_dec];
  SARGS 13 "rt_sigaction" rdec [arg_dec32; arg_pointer; arg_pointer; arg_dec];
  SARGS 14 "rt_sigprocmask" rdec [arg_; arg_pointer; arg_pointer; arg_dec];
  SARGS 15 "rt_sigreturn" rnoreturn [arg_none];
  SARGS 16 "ioctl" rdec [arg_fd; arg_; arg_pointer];
  SARGS 17 "pread64" rdec [arg_fd; arg_buf_out; arg_dec; arg_dec];
  SARGS 18 "pwrite64" rdec [arg_fd; arg_buf_in; arg_dec; arg_dec];
  SARGS 19 "readv" rdec [arg_fd; arg_pointer; arg_dec];
  SARGS 20 "writev" rdec [arg_fd; arg_pointer; arg_dec];
  SARGS 21 "access" rdec [arg_cstr; arg_access_mode];
  SARGS 22 "pipe" rdec [arg_2fds];
  SARGS 23 "select" rdec [arg_dec32; arg_pointer; arg_pointer; arg_pointer; arg_pointer];
  SARGS 24 "sched_yield" rdec [arg_none];
  SARGS 25 "mremap" rpointer [arg_pointer; arg_dec; arg_dec; arg_dec32; arg_];
  SARGS 26 "msync" rdec [arg_pointer; arg_dec; arg_dec32];
  SARGS 27 "mincore" rdec [arg_pointer; arg_dec; arg_pointer];
  SARGS 28 "madvise" rdec [arg_pointer; arg_dec; arg_dec32];
  SARGS 29 "shmget" rdec [arg_; arg_; arg_];
  SARGS 30 "shmat" rhex [arg_; arg_; arg_];
  SARGS 31 "shmctl" rdec [arg_; arg_; arg_];
  SARGS 32 "dup" rdec [arg_fd];
  SARGS 33 "dup2" rdec [arg_fd; arg_fd];
  SARGS 34 "pause" rdec [arg_none];
  SARGS 35 "nanosleep" rdec [arg_; arg_];
  SARGS 36 "getitimer" rdec [arg_; arg_];
  SARGS 37 "alarm" rdec [arg_];
  SARGS 38 "setitimer" rdec [arg_; arg_; arg_];
  SARGS 39 "getpid" rdec [arg_none];
  SARGS 40 "sendfile" rdec [arg_fd; arg_fd; arg_; arg_];
  SARGS 41 "socket" rdec [arg_; arg_; arg_];
  SARGS 42 "connect" rdec [arg_fd; arg_; arg_];
  SARGS 43 "accept" rdec [arg_fd; arg_; arg_];
  SARGS 44 "sendto" rdec [arg_fd; arg_; arg_; arg_];
  SARGS 45 "recvfrom" rdec [arg_fd; arg_; arg_; arg_; arg_; arg_];
  SARGS 46 "sendmsg" rdec [arg_fd; arg_; arg_];
  SARGS 47 "recvmsg" rdec [arg_fd; arg_; arg_];
  SARGS 48 "shutdown" rdec [arg_fd; arg_];
  SARGS 49 "bind" rdec [arg_fd; arg_; arg_];
  SARGS 50 "listen" rdec [arg_fd; arg_];
  SARGS 51 "getsockname" rdec [arg_fd; arg_; arg_];
  SARGS 52 "getpeername" rdec [arg_fd; arg_; arg_];
  SARGS 53 "socketpair" rdec [arg_; arg_; arg_; arg_];
  SARGS 54 "setsockopt" rdec [arg_fd; arg_; arg_; arg_; arg_];
  SARGS 55 "getsockopt" rdec [arg_fd; arg_; arg_; arg_; arg_];
  SARGS 56 "clone" rdec [arg_clone_flags; arg_pointer; arg_pointer; arg_pointer; arg_];
  SARGS 57 "fork" rdec [arg_none];
  SARGS 58 "vfork" rdec [arg_none];
  SARGS 59 "execve" rdec [arg_; arg_; arg_];
  SARGS 60 "exit" rnoreturn [arg_];
  SARGS 61 "wait4" rdec [arg_dec; arg_; arg_; arg_];
  SARGS 62 "kill" rdec [arg_; arg_];
  SARGS 63 "uname" rdec [arg_];
  SARGS 64 "semget" rdec [arg_; arg_; arg_];
  SARGS 65 "semop" rdec [arg_; arg_; arg_];
  SARGS 66 "semctl" rdec [arg_; arg_; arg_; arg_; arg_; arg_];
  SARGS 67 "shmdt" rdec [arg_];
  SARGS 68 "msgget" rdec [arg_; arg_];
  SARGS 69 "msgsnd" rdec [arg_; arg_; arg_; arg_];
  SARGS 70 "msgrcv" rdec [arg_; arg_; arg_; arg_; arg_];
  SARGS 71 "msgctl" rdec [arg_; arg_; arg_];
  SARGS 72 "fcntl" rdec [arg_fd; arg_fcntl_cmd; arg_];
  SARGS 73 "flock" rdec [arg_fd; arg_];
  SARGS 74 "fsync" rdec [arg_fd];
  SARGS 75 "fdatasync" rdec [arg_fd];
  SARGS 76 "truncate" rdec [arg_cstr; arg_];
  SARGS 77 "ftruncate" rdec [arg_fd; arg_];
  SARGS 78 "getdents" rdec [arg_fd; arg_; arg_];
  SARGS 79 "getcwd" rdec [arg_; arg_];
  SARGS 80 "chdir" rdec [arg_cstr];
  SARGS 81 "fchdir" rdec [arg_fd];
  SARGS 82 "rename" rdec [arg_cstr; arg_cstr];
  SARGS 83 "mkdir" rdec [arg_cstr; arg_oct_mode];
  SARGS 84 "rmdir" rdec [arg_cstr];
  SARGS 85 "creat" rdec [arg_cstr; arg_oct_mode];
  SARGS 86 "link" rdec [arg_cstr; arg_cstr];
  SARGS 87 "unlink" rdec [arg_cstr];
  SARGS 88 "symlink" rdec [arg_cstr; arg_cstr];
  SARGS 89 "readlink" rdec [arg_cstr; arg_buf_out; arg_dec];
  SARGS 90 "chmod" rdec [arg_cstr; arg_oct_mode];
  SARGS 91 "fchmod" rdec [arg_fd; arg_oct_mode];
  SARGS 92 "chown" rdec [arg_cstr; arg_; arg_];
  SARGS 93 "fchown" rdec [arg_fd; arg_; arg_];
  SARGS 94 "lchown" rdec [arg_cstr; arg_; arg_];
  SARGS 95 "umask" rmode [arg_oct_mode];
  SARGS 96 "gettimeofday" rdec [arg_; arg_];
  SARGS 97 "getrlimit" rdec [arg_; arg_];
  SARGS 98 "getrusage" rdec [arg_; arg_];
  SARGS 99 "sysinfo" rdec [arg_; arg_];
  SARGS 100 "times" rdec [arg_];
  SARGS 101 "ptrace" rhex [arg_; arg_; arg_; arg_];
  SARGS 102 "getuid" rdec [arg_none];
  SARGS 103 "syslog" rdec [arg_; arg_; arg_];
  SARGS 104 "getgid" rdec [arg_none];
  SARGS 105 "setuid" rdec [arg_];
  SARGS 106 "setgid" rdec [arg_];
  SARGS 107 "geteuid" rdec [arg_none];
  SARGS 108 "getegid" rdec [arg_none];
  SARGS 109 "setpgid" rdec [arg_none];
  SARGS 111 "getpgrp" rdec [arg_none];
  SARGS 112 "setsid" rdec [arg_none];
  SARGS 113 "setreuid" rdec [arg_; arg_];
  SARGS 114 "setregid" rdec [arg_; arg_];
  SARGS 115 "getgroups" rdec [arg_; arg_];
  SARGS 116 "setgroups" rdec [arg_; arg_];
  SARGS 117 "setresuid" rdec [arg_; arg_; arg_];
  SARGS 118 "getresuid" rdec [arg_; arg_; arg_];
  SARGS 119 "setresgid" rdec [arg_; arg_; arg_];
  SARGS 120 "getresgid" rdec [arg_; arg_; arg_];
  SARGS 121 "getpgid" rdec [arg_];
  SARGS 122 "setfsuid" rdec [arg_];
  SARGS 123 "setfsgid" rdec [arg_];
  SARGS 124 "getsid" rdec [arg_];
  SARGS 125 "capget" rdec [arg_; arg_];
  SARGS 126 "capset" rdec [arg_; arg_];
  SARGS 127 "rt_sigpending" rdec [arg_];
  SARGS 128 "rt_sigtimedwait" rdec [arg_; arg_; arg_; arg_];
  SARGS 129 "rt_sigqueueinfo" rdec [arg_; arg_; arg_];
  SARGS 130 "rt_sigsuspend" rdec [arg_; arg_];
  SARGS 131 "sigaltstack" rdec [arg_; arg_];
  SARGS 132 "utime" rdec [arg_cstr; arg_];
  SARGS 133 "mknod" rdec [arg_cstr; arg_; arg_];
  SARGS 134 "uselib" rdec [arg_cstr];
  SARGS 135 "personality" rdec [arg_];
  SARGS 136 "ustat" rdec [arg_; arg_];
  SARGS 137 "statfs" rdec [arg_cstr; arg_];
  SARGS 138 "fstatfs" rdec [arg_fd; arg_];
  SARGS 139 "sysfs" rdec [arg_; arg_; arg_];
  SARGS 140 "getpriority" rdec [arg_; arg_];
  SARGS 141 "setpriority" rdec [arg_; arg_; arg_];
  SARGS 142 "sched_setparam" rdec [arg_; arg_];
  SARGS 143 "sched_getparam" rdec [arg_; arg_];
  SARGS 144 "sched_setscheduler" rdec [arg_; arg_; arg_];
  SARGS 145 "sched_getscheduler" rdec [arg_];
  SARGS 146 "sched_get_priority_max" rdec [arg_];
  SARGS 147 "sched_get_priority_min" rdec [arg_];
  SARGS 148 "sched_rr_get_interval" rdec [arg_; arg_];
  SARGS 149 "mlock" rdec [arg_; arg_];
  SARGS 150 "munlock" rdec [arg_; arg_];
  SARGS 151 "mlockall" rdec [arg_];
  SARGS 152 "munlockall" rdec [arg_none];
  SARGS 153 "vhangup" rdec [arg_none];
  SARGS 154 "modify_ldt" rdec [arg_; arg_; arg_];
  SARGS 155 "pivot_root" rdec [arg_cstr; arg_];
  SARGS 156 "_sysctl" rdec [arg_];
  SARGS 157 "prctl" rdec [arg_; arg_; arg_; arg_; arg_];
  SARGS 158 "arch_prctl" rdec [arg_; arg_; arg_];
  SARGS 159 "adjtimex" rdec [arg_];
  SARGS 160 "setrlimit" rdec [arg_; arg_];
  SARGS 161 "chroot" rdec [arg_cstr];
  SARGS 162 "sync" rdec [arg_none];
  SARGS 163 "acct" rdec [arg_cstr];
  SARGS 164 "settimeofday" rdec [arg_; arg_];
  SARGS 165 "mount" rdec [arg_cstr; arg_cstr; arg_; arg_; arg_];
  SARGS 166 "umount2" rdec [arg_cstr; arg_];
  SARGS 167 "swapon" rdec [arg_cstr; arg_];
  SARGS 168 "swapoff" rdec [arg_cstr];
  SARGS 169 "reboot" rdec [arg_; arg_; arg_; arg_];
  SARGS 170 "sethostname" rdec [arg_; arg_];
  SARGS 171 "setdomainname" rdec [arg_; arg_];
  SARGS 172 "iopl" rdec [arg_];
  SARGS 173 "ioperm" rdec [arg_; arg_; arg_];
  SARGS 186 "gettid" rdec [arg_none];
  SARGS 187 "readahead" rdec [arg_fd; arg_dec; arg_dec];
  SARGS 188 "setxattr" rdec [arg_cstr; arg_cstr; arg_buf_in; arg_dec; arg_];
  SARGS 189 "lsetxattr" rdec [arg_cstr; arg_cstr; arg_buf_in; arg_dec; arg_];
  SARGS 190 "fsetxattr" rdec [arg_fd; arg_cstr; arg_buf_in; arg_dec; arg_];
  SARGS 191 "getxattr" rdec [arg_cstr; arg_cstr; arg_dec; arg_];
  SARGS 192 "lgetxattr" rdec [arg_cstr; arg_cstr; arg_dec; arg_];
  SARGS 193 "fgetxattr" rdec [arg_fd; arg_cstr; arg_dec; arg_];
  SARGS 194 "listxattr" rdec [arg_cstr; arg_pointer; arg_dec];
  SARGS 195 "llistxattr" rdec [arg_cstr; arg_pointer; arg_dec];
  SARGS 196 "flistxattr" rdec [arg_fd; arg_pointer; arg_dec];
  SARGS 197 "removexattr" rdec [arg_cstr; arg_cstr];
  SARGS 198 "lremovexattr" rdec [arg_cstr; arg_cstr];
  SARGS 199 "fremovexattr" rdec [arg_fd; arg_cstr];
  SARGS 200 "tkill" rdec [arg_; arg_];
  SARGS 201 "time" rdec [arg_];
  SARGS 202 "futex" rdec [arg_; arg_; arg_; arg_; arg_; arg_];
  SARGS 203 "sched_setaffinity" rdec [arg_; arg_; arg_];
  SARGS 204 "sched_getaffinity" rdec [arg_; arg_; arg_];
  SARGS 205 "set_thread_area" rdec [arg_];
  SARGS 206 "io_setup" rdec [arg_; arg_];
  SARGS 207 "io_destroy" rdec [arg_];
  SARGS 208 "io_getevents" rdec [arg_; arg_; arg_; arg_; arg_];
  SARGS 209 "io_submit" rdec [arg_; arg_; arg_];
  SARGS 210 "io_cancel" rdec [arg_; arg_; arg_];
  SARGS 211 "get_thread_area" rdec [arg_];
  SARGS 212 "lookup_dcookie" rdec [arg_; arg_; arg_];
  SARGS 213 "epoll_create" rdec [arg_];
  SARGS 217 "getdents64" rdec [arg_fd; arg_; arg_];
  SARGS 218 "set_tid_address" rdec [arg_];
  SARGS 220 "semtimedop" rdec [arg_; arg_; arg_; arg_];
  SARGS 221 "fadvise64" rdec [arg_fd; arg_; arg_; arg_];
  SARGS 222 "timer_create" rdec [arg_; arg_; arg_];
  SARGS 223 "timer_settime" rdec [arg_; arg_; arg_; arg_];
  SARGS 224 "timer_gettime" rdec [arg_; arg_];
  SARGS 225 "timer_getoverrun" rdec [arg_];
  SARGS 226 "timer_delete" rdec [arg_];
  SARGS 227 "clock_settime" rdec [arg_; arg_];
  SARGS 228 "clock_gettime" rdec [arg_; arg_];
  SARGS 229 "clock_getres" rdec [arg_; arg_];
  SARGS 230 "clock_nanosleep" rdec [arg_; arg_; arg_; arg_];
  SARGS 231 "exit_group" rnoreturn [arg_];
  SARGS 232 "epoll_wait" rdec [arg_fd; arg_; arg_; arg_];
  SARGS 233 "epoll_ctl" rdec [arg_fd; arg_; arg_fd; arg_];
  SARGS 234 "tgkill" rdec [arg_; arg_; arg_];
  SARGS 235 "utimes" rdec [arg_cstr; arg_];
  SARGS 237 "mbind" rdec [arg_; arg_; arg_; arg_; arg_];
  SARGS 238 "set_mempolicy" rdec [arg_; arg_; arg_];
  SARGS 239 "get_mempolicy" rdec [arg_; arg_; arg_; arg_; arg_];
  SARGS 240 "mq_open" rdec [arg_cstr; arg_; arg_; arg_; arg_];
  SARGS 241 "mq_unlink" rdec [arg_cstr];
  SARGS 242 "mq_timedsend" rdec [arg_; arg_; arg_; arg_; arg_];
  SARGS 243 "mq_timedreceive" rdec [arg_; arg_; arg_; arg_; arg_];
  SARGS 244 "mq_notify" rdec [arg_; arg_];
  SARGS 245 "mq_getsetattr" rdec [arg_; arg_; arg_];
  SARGS 246 "kexec_load" rdec [arg_; arg_; arg_; arg_];
  SARGS 247 "waitid" rdec [arg_; arg_; arg_; arg_];
  SARGS 248 "add_key" rdec [arg_; arg_; arg_; arg_; arg_];
  SARGS 249 "request_key" rdec [arg_; arg_; arg_; arg_];
  SARGS 250 "keyctl" rdec [arg_; arg_; arg_; arg_; arg_];
  SARGS 251 "ioprio_set" rdec [arg_; arg_; arg_];
  SARGS 252 "ioprio_get" rdec [arg_; arg_];
  SARGS 253 "inotify_init" rdec [arg_none];
  SARGS 254 "inotify_add_watch" rdec [arg_fd; arg_cstr; arg_];
  SARGS 255 "inotify_rm_watch" rdec [arg_fd; arg_];
  SARGS 256 "migrate_pages" rdec [arg_; arg_; arg_; arg_];
  SARGS 257 "openat" rdec [arg_atfd; arg_cstr; arg_open_flags];
  SARGS 258 "mkdirat" rdec [arg_atfd; arg_cstr; arg_oct_mode];
  SARGS 259 "mknodat" rdec [arg_atfd; arg_cstr; arg_oct_mode; arg_];
  SARGS 260 "fchownat" rdec [arg_atfd; arg_cstr; arg_; arg_; arg_];
  SARGS 261 "futimesat" rdec [arg_atfd; arg_cstr; arg_];
  SARGS 262 "newfstatat" rdec [arg_atfd; arg_cstr; arg_; arg_];
  SARGS 263 "unlinkat" rdec [arg_atfd; arg_cstr; arg_];
  SARGS 264 "renameat" rdec [arg_atfd; arg_cstr; arg_atfd; arg_cstr];
  SARGS 265 "linkat" rdec [arg_atfd; arg_cstr; arg_atfd; arg_cstr; arg_];
  SARGS 266 "symlinkat" rdec [arg_cstr; arg_atfd; arg_cstr];
  SARGS 267 "readlinkat" rdec [arg_atfd; arg_cstr; arg_buf_out; arg_dec];
  SARGS 268 "fchmodat" rdec [arg_atfd; arg_cstr; arg_oct_mode];
  SARGS 269 "faccessat" rdec [arg_atfd; arg_cstr; arg_oct_mode];
  SARGS 270 "pselect6" rdec [arg_; arg_; arg_; arg_; arg_; arg_];
  SARGS 271 "ppoll" rdec [arg_; arg_; arg_; arg_; arg_];
  SARGS 272 "unshare" rdec [arg_];
  SARGS 273 "set_robust_list" rdec [arg_; arg_];
  SARGS 274 "get_robust_list" rdec [arg_; arg_; arg_];
  SARGS 275 "splice" rdec [arg_fd; arg_; arg_fd; arg_; arg_; arg_];
  SARGS 276 "tee" rdec [arg_fd; arg_fd; arg_; arg_];
  SARGS 277 "sync_file_range" rdec [arg_fd; arg_; arg_; arg_];
  SARGS 278 "vmsplice" rdec [arg_fd; arg_; arg_; arg_];
  SARGS 279 "move_pages" rdec [arg_; arg_; arg_; arg_; arg_; arg_];
  SARGS 280 "utimensat" rdec [arg_atfd; arg_cstr; arg_; arg_];
  SARGS 281 "epoll_pwait" rdec [arg_fd; arg_; arg_; arg_; arg_; arg_];
  SARGS 282 "signalfd" rdec [arg_fd; arg_; arg_];
  SARGS 283 "timerfd_create" rdec [arg_; arg_];
  SARGS 284 "eventfd" rdec [arg_];
  SARGS 285 "fallocate" rdec [arg_fd; arg_; arg_; arg_];
  SARGS 286 "timerfd_settime" rdec [arg_fd; arg_; arg_; arg_];
  SARGS 287 "timerfd_gettime" rdec [arg_fd; arg_];
  SARGS 288 "accept4" rdec [arg_fd; arg_; arg_; arg_; arg_];
  SARGS 289 "signalfd4" rdec [arg_fd; arg_; arg_; arg_; arg_];
  SARGS 290 "eventfd2" rdec [arg_; arg_];
  SARGS 291 "epoll_create1" rdec [arg_];
  SARGS 292 "dup3" rdec [arg_fd; arg_fd; arg_];
  SARGS 293 "pipe2" rdec [arg_2fds; arg_pipe2_flags];
  SARGS 294 "inotify_init1" rdec [arg_];
  SARGS 295 "preadv" rdec [arg_fd; arg_; arg_; arg_];
  SARGS 296 "pwritev" rdec [arg_fd; arg_; arg_; arg_];
  SARGS 297 "rt_tgsigqueueinfo" rdec [arg_; arg_; arg_; arg_];
  SARGS 298 "perf_event_open" rdec [arg_; arg_; arg_; arg_; arg_];
  SARGS 299 "recvmmsg" rdec [arg_fd; arg_; arg_; arg_; arg_];
  SARGS 300 "fanotify_init" rdec [arg_; arg_];
  SARGS 301 "fanotify_mark" rdec [arg_; arg_; arg_; arg_; arg_];
  SARGS 302 "prlimit64" rdec [arg_; arg_; arg_; arg_];
  SARGS 303 "name_to_handle_at" rdec [arg_atfd; arg_cstr; arg_; arg_; arg_];
  SARGS 304 "open_by_handle_at" rdec [arg_fd; arg_pointer; arg_dec32];
  SARGS 305 "clock_adjtime" rdec [arg_; arg_];
  SARGS 306 "syncfs" rdec [arg_fd];
  SARGS 307 "sendmmsg" rdec [arg_fd; arg_; arg_; arg_];
  SARGS 308 "setns" rdec [arg_fd; arg_];
  SARGS 309 "getcpu" rdec [arg_; arg_; arg_];
  SARGS 310 "process_vm_readv" rdec [arg_; arg_; arg_; arg_; arg_; arg_];
  SARGS 311 "process_vm_writev" rdec [arg_; arg_; arg_; arg_; arg_; arg_];
  SARGS 312 "kcmp" rdec [arg_; arg_; arg_; arg_; arg_];
  SARGS 313 "finit_module" rdec [arg_fd; arg_; arg_];
  SARGS 314 "sched_setattr" rdec [arg_; arg_; arg_];
  SARGS 315 "sched_getattr" rdec [arg_; arg_; arg_; arg_];
  SARGS 316 "renameat2" rdec [arg_atfd; arg_cstr; arg_atfd; arg_cstr; arg_];
  SARGS 317 "seccomp" rdec [arg_; arg_; arg_];
  SARGS 318 "getrandom" rdec [arg_; arg_; arg_];
  SARGS 319 "memfd_create" rdec [arg_cstr; arg_];
  SARGS 320 "kexec_file_load" rdec [arg_; arg_; arg_; arg_; arg_];
  SARGS 321 "bpf" rdec [arg_; arg_; arg_];
  SARGS 322 "execveat" rdec [arg_atfd; arg_cstr; arg_; arg_; arg_];
  SARGS 323 "userfaultfd" rdec [arg_];
  SARGS 324 "membarrier" rdec [arg_; arg_];
  SARGS 325 "mlock2" rdec [arg_; arg_; arg_];
  SARGS 326 "copy_file_range" rdec [arg_fd; arg_; arg_fd; arg_; arg_; arg_];
  SARGS 327 "preadv2" rdec [arg_fd; arg_; arg_; arg_; arg_];
  SARGS 328 "pwritev2" rdec [arg_fd; arg_; arg_; arg_; arg_];
  SARGS 329 "pkey_mprotect" rdec [arg_; arg_; arg_; arg_];
  SARGS 330 "pkey_alloc" rdec [arg_; arg_];
  SARGS 331 "pkey_free" rdec [arg_]
].

(** The element of an array with designated initialisers, and its size. *)
Fixpoint element {A} (l : list (Z * A)) (i : Z) : option A :=
  match l with
  | [] => None
  | (j, x) :: l => if i =? j then Some x else element l i
  end.

Definition ARRAY_SIZE {A} (l : list (Z * A)) : Z :=
  foldr (fun '(j, _) n => Z.max (j + 1) n) 0 l.

Definition open_with_o_creat : syscall_format :=
  SyscallFormat (Some "open") rdec [arg_cstr; arg_open_flags; arg_oct_mode].
Definition openat_with_o_creat : syscall_format :=
  SyscallFormat (Some "openat") rdec [arg_atfd; arg_cstr; arg_open_flags; arg_oct_mode].
Definition fcntl_with_flock : syscall_format :=
  SyscallFormat (Some "fcntl") rdec [arg_fd; arg_fcntl_cmd; arg_flock].
Definition unkown : syscall_format :=
  SyscallFormat None rdec [arg_; arg_; arg_; arg_; arg_; arg_].

Definition SYS_open : Z := 2.
Definition SYS_fcntl : Z := 72.
Definition SYS_openat : Z := 257.

Definition F_GETLK : Z := 5.
Definition F_SETLK : Z := 6.
Definition F_SETLKW : Z := 7.
Definition F_OFD_GETLK : Z := 36.
Definition F_OFD_SETLK : Z := 37.
Definition F_OFD_SETLKW : Z := 38.

Definition is_fcntl_with_flock (desc : syscall_desc) : bool :=
  if negb (sd_nr desc =? SYS_fcntl) then false
  else existsb (Z.eqb (s32 (a1 (sd_args desc))))
         [F_GETLK; F_SETLK; F_SETLKW; F_OFD_GETLK; F_OFD_SETLK; F_OFD_SETLKW].

Definition O_CREAT : Z := 0x40.
Definition O_TMPFILE : Z := 0x410000.

Definition oflags_refer_mode_arg (flags : Z) : bool :=
  if Z.land flags O_CREAT =? O_CREAT then true
  else Z.land flags O_TMPFILE =? O_TMPFILE.

Definition get_syscall_format (desc : syscall_desc) : syscall_format :=
  let nr := sd_nr desc in
  if (nr <? 0) || (ARRAY_SIZE formats <=? nr) then unkown
  else
    match element formats nr with
    | None => unkown
    | Some format =>
        if (nr =? SYS_open) && oflags_refer_mode_arg (s32 (a1 (sd_args desc)))
        then open_with_o_creat
        else if (nr =? SYS_openat) && oflags_refer_mode_arg (s32 (a2 (sd_args desc)))
        then openat_with_o_creat
        else if is_fcntl_with_flock desc then fcntl_with_flock
        else format
    end.

(** ** Errors *)

Definition error_strings : list (Z * string) := [
  (1, "EPERM (Operation not permitted)");
  (2, "ENOENT (No such file or directory)");
  (3, "ESRCH (No such process)");
  (4, "EINTR (Interrupted system call)");
  (5, "EIO (I/O error)");
  (6, "ENXIO (No such device or address)");
  (7, "E2BIG (Argument list too long)");
  (8, "ENOEXEC (Exec format error)");
  (9, "EBADF (Bad file number)");
  (10, "ECHILD (No child processes)");
  (11, "EAGAIN (Try again)");
  (12, "ENOMEM (Out of memory)");
  (13, "EACCES (Permission denied)");
  (14, "EFAULT (Bad address)");
  (15, "ENOTBLK (Block device required)");
  (16, "EBUSY (Device or resource busy)");
  (17, "EEXIST (File exists)");
  (18, "EXDEV (Cross-device link)");
  (19, "ENODEV (No such device)");
  (20, "ENOTDIR (Not a directory)");
  (21, "EISDIR (Is a directory)");
  (22, "EINVAL (Invalid argument)");
  (23, "ENFILE (File table overflow)");
  (24, "EMFILE (Too many open files)");
  (25, "ENOTTY (Not a typewriter)");
  (26, "ETXTBSY (Text file busy)");
  (27, "EFBIG (File too large)");
  (28, "ENOSPC (No space left on device)");
  (29, "ESPIPE (Illegal seek)");
  (30, "EROFS (Read-only file system)");
  (31, "EMLINK (Too many links)");
  (32, "EPIPE (Broken pipe)");
  (33, "EDOM (Math argument out of domain of func)");
  (34, "ERANGE (Math result not representable)");
  (35, "EDEADLK (Resource deadlock would occur)");
  (36, "ENAMETOOLONG (File name too long)");
  (37, "ENOLCK (No record locks available)");
  (38, "ENOSYS (Invalid system call number)");
  (39, "ENOTEMPTY (Directory not empty)");
  (40, "ELOOP (Too many symbolic links encountered)");
  (42, "ENOMSG (No message of desired type)");
  (43, "EIDRM (Identifier removed)");
  (44, "ECHRNG (Channel number out of range)");
  (45, "EL2NSYNC (Level 2 not synchronized)");
  (46, "EL3HLT (Level 3 halted)");
  (47, "EL3RST (Level 3 reset)");
  (48, "ELNRNG (Link number out of range)");
  (49, "EUNATCH (Protocol driver not attached)");
  (50, "ENOCSI (No CSI structure available)");
  (51, "EL2HLT (Level 2 halted)");
  (52, "EBADE (Invalid exchange)");
  (53, "EBADR (Invalid request descriptor)");
  (54, "EXFULL (Exchange full)");
  (55, "ENOANO (No anode)");
  (56, "EBADRQC (Invalid request code)");
  (57, "EBADSLT (Invalid slot)");
  (59, "EBFONT (Bad font file format)");
  (60, "ENOSTR (Device not a stream)");
  (61, "ENODATA (No data available)");
  (62, "ETIME (Timer expired)");
  (63, "ENOSR (Out of streams resources)");
  (64, "ENONET (Machine is not on the network)");
  (65, "ENOPKG (Package not installed)");
  (66, "EREMOTE (Object is remote)");
  (67, "ENOLINK (Link has been severed)");
  (68, "EADV (Advertise error)");
  (69, "ESRMNT (Srmount error)");
  (70, "ECOMM (Communication error on send)");
  (71, "EPROTO (Protocol error)");
  (72, "EMULTIHOP (Multihop attempted)");
  (73, "EDOTDOT (RFS specific error)");
  (74, "EBADMSG (Not a data message)");
  (75, "EOVERFLOW (Value too large for defined data type)");
  (76, "ENOTUNIQ (Name not unique on network)");
  (77, "EBADFD (File descriptor in bad state)");
  (78, "EREMCHG (Remote address changed)");
  (79, "ELIBACC (Can not access a needed shared library)");
  (80, "ELIBBAD (Accessing a corrupted shared library)");
  (81, "ELIBSCN (.lib section in a.out corrupted)");
  (82, "ELIBMAX (Attempting to link in too many shared libraries)");
  (83, "ELIBEXEC (Cannot exec a shared library directly)");
  (84, "EILSEQ (Illegal byte sequence)");
  (85, "ERESTART (Interrupted system call should be restarted)");
  (86, "ESTRPIPE (Streams pipe error)");
  (87, "EUSERS (Too many users)");
  (88, "ENOTSOCK (Socket operation on non-socket)");
  (89, "EDESTADDRREQ (Destination address required)");
  (90, "EMSGSIZE (Message too long)");
  (91, "EPROTOTYPE (Protocol wrong type for socket)");
  (92, "ENOPROTOOPT (Protocol not available)");
  (93, "EPROTONOSUPPORT (Protocol not supported)");
  (94, "ESOCKTNOSUPPORT (Socket type not supported)");
  (95, "EOPNOTSUPP (Operation not supported on transport endpoint)");
  (96, "EPFNOSUPPORT (Protocol family not supported)");
  (97, "EAFNOSUPPORT (Address family not supported by protocol)");
  (98, "EADDRINUSE (Address already in use)");
  (99, "EADDRNOTAVAIL (Cannot assign requested address)");
  (100, "ENETDOWN (Network is down)");
  (101, "ENETUNREACH (Network is unreachable)");
  (102, "ENETRESET (Network dropped connection because of reset)");
  (103, "ECONNABORTED (Software caused connection abort)");
  (104, "ECONNRESET (Connection reset by peer)");
  (105, "ENOBUFS (No buffer space available)");
  (106, "EISCONN (Transport endpoint is already connected)");
  (107, "ENOTCONN (Transport endpoint is not connected)");
  (108, "ESHUTDOWN (Cannot send after transport endpoint shutdown)");
  (109, "ETOOMANYREFS (Too many references: cannot splice)");
  (110, "ETIMEDOUT (Connection timed out)");
  (111, "ECONNREFUSED (Connection refused)");
  (112, "EHOSTDOWN (Host is down)");
  (113, "EHOSTUNREACH (No route to host)");
  (114, "EALREADY (Operation already in progress)");
  (115, "EINPROGRESS (Operation now in progress)");
  (116, "ESTALE (Stale file handle)");
  (117, "EUCLEAN (Structure needs cleaning)");
  (118, "ENOTNAM (Not a XENIX named type file)");
  (119, "ENAVAIL (No XENIX semaphores available)");
  (120, "EISNAM (Is a named type file)");
  (121, "EREMOTEIO (Remote I/O error)");
  (122, "EDQUOT (Quota exceeded)");
  (123, "ENOMEDIUM (No medium found)");
  (124, "EMEDIUMTYPE (Wrong medium type)");
  (125, "ECANCELED (Operation Canceled)");
  (126, "ENOKEY (Required key not available)");
  (127, "EKEYEXPIRED (Key has expired)");
  (128, "EKEYREVOKED (Key has been revoked)");
  (129, "EKEYREJECTED (Key was rejected by service)");
  (130, "EOWNERDEAD (Owner died)");
  (131, "ENOTRECOVERABLE (State not recoverable)");
  (132, "ERFKILL (Operation not possible due to RF-kill)");
  (133, "EHWPOISON (Memory page has hardware error)")
].

Definition strerror_no_intercept (errnum : Z) : string :=
  let unkown := "Unknown error" in
  if (errnum <? 0) || (ARRAY_SIZE error_strings <=? errnum) then unkown
  else default unkown (element error_strings errnum).

(** ** The formats a call can have *)

Definition all_formats : list syscall_format :=
  [unkown; open_with_o_creat; openat_with_o_creat; fcntl_with_flock] ++ (snd <$> formats).

Lemma element_In {A} (l : list (Z * A)) i x : element l i = Some x -> x ∈ (snd <$> l).
Proof.
  induction l as [|[j y] l IH]; cbn; [done|]. destruct (i =? j); intros ?; simplify_eq; set_solver.
Qed.

#[local] Opaque formats error_strings.

(** A property of all entries of the tables is one of every call. *)
Lemma get_syscall_format_In desc : get_syscall_format desc ∈ all_formats.
Proof.
  unfold get_syscall_format, all_formats.
  assert (forall f, f ∈ (snd <$> formats) -> f ∈ ([unkown; open_with_o_creat;
    openat_with_o_creat; fcntl_with_flock] ++ (snd <$> formats))%list) as Hr.
  { intros f Hf. apply elem_of_app. by right. }
  destruct (_ || _); [left|].
  destruct (element formats _) as [f|] eqn:E; [|left].
  apply element_In, Hr in E.
  destruct (_ && _); [right; left|].
  destruct (_ && _); [right; right; left|].
  destruct (is_fcntl_with_flock desc); [right; right; right; left|exact E].
Qed.

Lemma strerror_In errnum :
  strerror_no_intercept errnum ∈ "Unknown error" :: (snd <$> error_strings).
Proof.
  unfold strerror_no_intercept. destruct (_ || _); [left|].
  destruct (element _ _) as [x|] eqn:E; [|left]. apply element_In in E. by right.
Qed.

End SyscallFormats.
