(* ===== verification/InterceptLog.v ===== *)
(** * The log of system calls
      ([polylib/libs/syscall-intercept/src/intercept_log.c])

    A printer writes characters to a buffer and returns a pointer behind them; here
    it returns the characters.  The printers for a list of flags look at what they
    have written before: they take it as an argument.  Values are read from the
    memory of the process.  [None] is an access that is not allowed: a null function
    pointer in the table of printers, or an argument that a call does not have. *)

From Stdlib Require Import Ascii.
From S2P Require Import Prelude Defs Util SyscallFormats.
Import Util.Util SyscallFormats.

#[local] Open Scope string_scope.
#[local] Open Scope Z_scope.

Module InterceptLog.

(** ** Memory *)

(** The string at an address, cut after [n] characters. *)
Fixpoint cstr_upto (n : nat) (m : mem) (p : Z) : string :=
  match n with
  | O => EmptyString
  | S n =>
      if Byte.eqb (m p) x00 then EmptyString
      else String (ascii_of_byte (m p)) (cstr_upto n m (p + 1))
  end.

(** Fields of type [short] and [int]. *)
Definition s16 (x : Z) : Z := (x + 2 ^ 15) mod 2 ^ 16 - 2 ^ 15.
Definition load_short (m : mem) (a : Z) : Z := s16 (le_combine (mem_read m a 2)).
Definition load_int (m : mem) (a : Z) : Z := s32 (le_combine (mem_read m a 4)).
Definition load_long (m : mem) (a : Z) : Z := s64 (load64 m a).

(** ** Numbers *)

Definition digit_chars : string := "0123456789abcdef".

Definition digit_char (d : Z) : ascii := default zero (String.get (Z.to_nat d) digit_chars).

(** The loop of [print_number]; [acc] holds the digits from [c] on. *)
Fixpoint print_digits (fuel : nat) (n base width : Z) (acc : string) : string :=
  let acc := String (digit_char (n mod base)) acc in
  let n := n / base in
  let width := if 0 <? width then width - 1 else width in
  match fuel with
  | O => acc
  | S fuel =>
      if (0 <? n) || (0 <? width) then print_digits fuel n base width acc else acc
  end.

Definition DIGITS_SIZE : Z := 0x20.

Definition print_number (n base width : Z) : string :=
  let width := if DIGITS_SIZE - 1 <=? width then DIGITS_SIZE - 2 else width in
  print_digits 30 n base width EmptyString.

Definition print_hex (n : Z) : string := "0x" +:+ print_number (u64 n) 16 1.

Definition print_pointer (pointer : Z) : string :=
  if pointer =? 0 then "(null)" else "0x" +:+ print_number (u64 pointer) 16 16.

Definition print_signed_dec (n : Z) : string :=
  if 0 <=? n then print_number (u64 n) 10 1
  else "-" +:+ print_number (u64 (- u64 n)) 10 1.

Definition print_signed_dec32 (n : Z) : string := print_signed_dec (s32 n).

Definition print_octal (n : Z) : string := "0" +:+ print_number (u64 n) 8 1.

(** ** Flags *)

(** [text] is what is between [buffer_start] and [c]. *)
Definition print_flag (text flag_name : string) : string :=
  (if String.eqb text EmptyString then text else text +:+ " | ") +:+ flag_name.

Fixpoint flag_loop (is_zero : bool) (text : string) (flags : Z) (desc : list (Z * string))
    : string + string * Z :=
  match desc with
  | [] => inr (text, flags)
  | (flag, printable_name) :: desc =>
      if flags =? 0 then inr (text, flags)
      else if is_zero && (flag =? 0) then inl (print_flag text printable_name)
      else if negb (Z.land flags flag =? 0)
      then flag_loop is_zero (print_flag text printable_name)
             (Z.land flags (Z.lnot flag)) desc
      else flag_loop is_zero text flags desc
  end.

Definition print_flag_set (text : string) (flags : Z) (desc : list (Z * string)) : string :=
  match flag_loop (flags =? 0) text flags desc with
  | inl text => text
  | inr (text, flags) =>
      let text :=
        if negb (flags =? 0)
        then (if String.eqb text EmptyString then text else text +:+ " | ") +:+ print_hex flags
        else text in
      if String.eqb text EmptyString then "0" else text
  end.

Definition clone_flags : list (Z * string) := [
  (0x200000, "CLONE_CHILD_CLEARTID"); (0x1000000, "CLONE_CHILD_SETTID");
  (0x400, "CLONE_FILES"); (0x200, "CLONE_FS"); (0x80000000, "CLONE_IO");
  (0x2000000, "CLONE_NEWCGROUP"); (0x8000000, "CLONE_NEWIPC");
  (0x40000000, "CLONE_NEWNET"); (0x20000, "CLONE_NEWNS"); (0x20000000, "CLONE_NEWPID");
  (0x10000000, "CLONE_NEWUSER"); (0x4000000, "CLONE_NEWUTS"); (0x8000, "CLONE_PARENT");
  (0x100000, "CLONE_PARENT_SETTID"); (0x2000, "CLONE_PTRACE"); (0x80000, "CLONE_SETTLS");
  (0x800, "CLONE_SIGHAND"); (0x40000, "CLONE_SYSVSEM"); (0x10000, "CLONE_THREAD");
  (0x800000, "CLONE_UNTRACED"); (0x4000, "CLONE_VFORK"); (0x100, "CLONE_VM")
].

(** ** Strings and buffers *)

Definition isprint (b : byte) : bool :=
  (0x20 <=? Z_of_byte b) && (Z_of_byte b <=? 0x7e).

Definition QUOTE : ascii := "034".

(** The body of the loop of [xprint_escape]. *)
Definition escape_char (b : byte) : string :=
  if Byte.eqb b x22 then String "\" (String QUOTE EmptyString)
  else if Byte.eqb b x5c then "\\"
  else if isprint b then String (ascii_of_byte b) EmptyString
  else if Byte.eqb b x0a then "\n"
  else if Byte.eqb b x09 then "\t"
  else if Byte.eqb b x0d then "\r"
  else if Byte.eqb b x07 then "\a"
  else if Byte.eqb b x08 then "\b"
  else if Byte.eqb b x0c then "\f"
  else if Byte.eqb b x0b then "\v"
  else if Byte.eqb b x00 then "\0"
  else "\x" +:+ print_number (Z_of_byte b) 16 2.

(** [None] when the fuel is used up; [dst_end] is relative to the start of [text]. *)
Fixpoint escape_loop (fuel : nat) (m : mem) (zero_term : bool) (dst_end : Z)
    (text : string) (src src_size : Z) : option (string * Z * Z) :=
  if (Z.of_nat (String.length text) <? dst_end) && (zero_term || (0 <? src_size)) then
    if zero_term && Byte.eqb (m src) x00 then Some (text, src, src_size)
    else
      match fuel with
      | O => None
      | S fuel =>
          escape_loop fuel m zero_term dst_end (text +:+ escape_char (m src)) (src + 1)
            (if zero_term then src_size else src_size - 1)
      end
  else Some (text, src, src_size).

Definition xprint_escape (m : mem) (src dst_size : Z) (zero_term : bool) (src_size : Z)
    : option string :=
  let dst_end := dst_size - 5 in
  if src =? 0 then Some "(null)"
  else
    '(text, src, src_size) ← escape_loop (Z.to_nat dst_size) m zero_term dst_end
       (String QUOTE EmptyString) src src_size;
    let text :=
      if ((0 <? src_size) && negb zero_term) || (zero_term && negb (Byte.eqb (m src) x00))
      then text +:+ "..." else text in
    Some (text +:+ String QUOTE EmptyString).

(** ** Arguments *)

Inductive intercept_log_result := KNOWN | UNKNOWN.

(** The type of the printers in the table: the memory, the call, the index of the
    argument, whether the result is known, and the result. *)
Abbreviation arg_printer_func :=
  (mem -> syscall_desc -> nat -> intercept_log_result -> Z -> option string).

Definition arg_print_signed_dec : arg_printer_func := fun _ desc i _ _ =>
  a ← arg_at (sd_args desc) i; Some (print_signed_dec a).

Definition arg_print_signed_dec32 : arg_printer_func := fun _ desc i _ _ =>
  a ← arg_at (sd_args desc) i; Some (print_signed_dec32 a).

Definition arg_print_octal_mode : arg_printer_func := fun _ desc i _ _ =>
  a ← arg_at (sd_args desc) i; Some (print_octal a).

Definition arg_print_pointer : arg_printer_func := fun _ desc i _ _ =>
  a ← arg_at (sd_args desc) i; Some (print_pointer a).

Definition arg_print_general : arg_printer_func := fun _ desc i _ _ =>
  a ← arg_at (sd_args desc) i; Some (print_hex a).

Definition AT_FDCWD : Z := - 100.

Definition arg_print_atfd : arg_printer_func := fun _ desc i _ _ =>
  a ← arg_at (sd_args desc) i;
  let fd := s32 a in
  Some (if fd =? AT_FDCWD then "AT_FDCWD" else print_signed_dec32 fd).

Definition open_flags : list (Z * string) := [
  (0x400, "O_APPEND"); (0x80000, "O_CLOEXEC"); (0x40, "O_CREAT");
  (0x10000, "O_DIRECTORY"); (0x1000, "O_DSYNC"); (0x80, "O_EXCL"); (0x100, "O_NOCTTY");
  (0x20000, "O_NOFOLLOW"); (0x800, "O_NONBLOCK"); (0x101000, "O_RSYNC");
  (0x101000, "O_SYNC"); (0x200, "O_TRUNC")
].

Definition O_ACCMODE : Z := 3.
Definition O_RDONLY : Z := 0.
Definition O_WRONLY : Z := 1.
Definition O_RDWR : Z := 2.

Definition arg_print_open_flags : arg_printer_func := fun _ desc i _ _ =>
  a ← arg_at (sd_args desc) i;
  let flags := s32 a in
  if flags =? 0 then Some "O_RDONLY"
  else
    let mode := Z.land flags O_ACCMODE in
    let c := if mode =? O_RDWR then print_flag EmptyString "O_RDWR"
             else if mode =? O_WRONLY then print_flag EmptyString "O_WRONLY"
             else if mode =? O_RDONLY then print_flag EmptyString "O_RDONLY"
             else EmptyString in
    let flags := Z.land flags (Z.lnot (Z.lor (Z.lor O_RDONLY O_WRONLY) O_RDWR)) in
    let '(c, flags) :=
      if Z.land flags O_TMPFILE =? O_TMPFILE
      then (print_flag c "O_TMPFILE", Z.land flags (Z.lnot O_TMPFILE)) else (c, flags) in
    Some (print_flag_set c flags open_flags).

(** The sizes of the buffers for strings. *)
Definition ESCAPED_SIZE : Z := 0x80.

Definition arg_print_cstr : arg_printer_func := fun m desc i _ _ =>
  a ← arg_at (sd_args desc) i;
  if a =? 0 then Some (print_pointer a)
  else xprint_escape m (u64 a) ESCAPED_SIZE true 0.

Definition arg_print_input_buf : arg_printer_func := fun m desc i _ _ =>
  a ← arg_at (sd_args desc) i;
  if a =? 0 then Some (print_pointer a)
  else
    size ← arg_at (sd_args desc) (i + 1);
    xprint_escape m (u64 a) ESCAPED_SIZE false (u64 size).

Definition is_known (r : intercept_log_result) : bool :=
  match r with KNOWN => true | UNKNOWN => false end.

Definition arg_print_output_buf : arg_printer_func := fun m desc i result_status result =>
  a ← arg_at (sd_args desc) i;
  if (a =? 0) || negb (is_known result_status) || (result <? 0)
  then Some (print_pointer a)
  else xprint_escape m (u64 a) ESCAPED_SIZE false (u64 result).

Definition pipe2_flags : list (Z * string) := [
  (0x80000, "O_CLOEXEC"); (0x4000, "O_DIRECT"); (0x800, "O_NONBLOCK")
].

Definition access_modes : list (Z * string) := [
  (4, "R_OK"); (2, "W_OK"); (1, "X_OK")
].

Definition flock_type : list (Z * string) := [
  (0, "F_RDLCK"); (1, "F_WRLCK"); (2, "F_UNLCK")
].

Definition print_seek_whence (whence : Z) : string :=
  if whence =? 0 then "SEEK_SET"
  else if whence =? 1 then "SEEK_CUR"
  else if whence =? 2 then "SEEK_END"
  else if whence =? 3 then "SEEK_DATA"
  else if whence =? 4 then "SEEK_HOLE"
  else print_hex whence.

Definition fcntl_cmds : list (Z * string) := [
  (0, "F_DUPFD"); (1030, "F_DUPFD_CLOEXEC"); (1, "F_GETFD"); (2, "F_SETFD");
  (3, "F_GETFL"); (4, "F_SETFL"); (6, "F_SETLK"); (7, "F_SETLKW"); (5, "F_GETLK");
  (37, "F_OFD_SETLK"); (38, "F_OFD_SETLKW"); (36, "F_OFD_GETLK"); (9, "F_GETOWN");
  (8, "F_SETOWN"); (16, "F_GETOWN_EX"); (15, "F_SETOWN_EX"); (11, "F_GETSIG");
  (10, "F_SETSIG"); (1024, "F_SETLEASE"); (1025, "F_GETLEASE"); (1026, "F_NOTIFY");
  (1031, "F_SETPIPE_SZ"); (1032, "F_GETPIPE_SZ"); (1033, "F_ADD_SEALS");
  (1034, "F_GET_SEALS"); (1, "F_SEAL_SEAL"); (2, "F_SEAL_SHRINK"); (4, "F_SEAL_GROW");
  (8, "F_SEAL_WRITE")
].

Definition print_fcntl_cmd (cmd : Z) : string := default "unknown" (element fcntl_cmds cmd).

(** The fields of [struct flock] at [arg]. *)
Definition print_fcntl_flock (m : mem) (arg : Z) : string :=
  if arg =? 0 then EmptyString
  else
    let fl := u64 arg in
    let l_type := load_short m fl in
    let l_whence := load_short m (fl + 2) in
    let l_start := load_long m (fl + 8) in
    let l_len := load_long m (fl + 16) in
    let l_pid := load_int m (fl + 24) in
    " ({.l_type = " +:+ print_signed_dec l_type +:+
    " (" +:+ print_flag_set EmptyString l_type flock_type +:+
    "), .l_whence = " +:+ print_signed_dec l_whence +:+
    " (" +:+ print_seek_whence l_whence +:+
    "), .l_start = " +:+ print_signed_dec l_start +:+
    ", .l_len = " +:+ print_signed_dec l_len +:+
    ", .l_pid = " +:+ print_signed_dec l_pid +:+ "})".

Definition arg_print_fcntl_cmd : arg_printer_func := fun _ desc i _ _ =>
  a ← arg_at (sd_args desc) i;
  let cmd := s32 a in
  Some (print_signed_dec cmd +:+ " (" +:+ print_fcntl_cmd cmd +:+ ")").

Definition arg_print_flock : arg_printer_func := fun m desc i _ _ =>
  a ← arg_at (sd_args desc) i;
  Some (print_pointer a +:+ print_fcntl_flock m a).

Definition arg_print_clone_flags : arg_printer_func := fun _ desc i _ _ =>
  a ← arg_at (sd_args desc) i; Some (print_flag_set EmptyString a clone_flags).

Definition arg_print_seek_whence : arg_printer_func := fun _ desc i _ _ =>
  a ← arg_at (sd_args desc) i; Some (print_seek_whence (s32 a)).

Definition arg_print_2fds : arg_printer_func := fun m desc i result_status result =>
  a ← arg_at (sd_args desc) i;
  if (a =? 0) || negb (is_known result_status) || (result <? 0)
  then Some (print_pointer a)
  else
    let fds := u64 a in
    Some ("[" +:+ print_signed_dec (load_int m fds) +:+ ", " +:+
          print_signed_dec (load_int m (fds + 4)) +:+ "]").

Definition arg_print_pipe2_flags : arg_printer_func := fun _ desc i _ _ =>
  a ← arg_at (sd_args desc) i; Some (print_flag_set EmptyString a pipe2_flags).

Definition F_OK : Z := 0.

Definition arg_print_access_mode : arg_printer_func := fun _ desc i _ _ =>
  a ← arg_at (sd_args desc) i;
  let mode := s32 a in
  Some (if mode =? F_OK then "F_OK" else print_flag_set EmptyString mode access_modes).

(** The table of printers; [None] for the entries without one. *)
Definition arg_printer_func_table (f : arg_format) : option arg_printer_func :=
  match f with
  | arg_none | arg_hex => None
  | arg_ => Some arg_print_general
  | arg_dec => Some arg_print_signed_dec
  | arg_dec32 => Some arg_print_signed_dec32
  | arg_oct_mode => Some arg_print_octal_mode
  | arg_pointer => Some arg_print_pointer
  | arg_open_flags => Some arg_print_open_flags
  | arg_fd => Some arg_print_signed_dec32
  | arg_atfd => Some arg_print_atfd
  | arg_cstr => Some arg_print_cstr
  | arg_buf_in => Some arg_print_input_buf
  | arg_buf_out => Some arg_print_output_buf
  | arg_fcntl_cmd => Some arg_print_fcntl_cmd
  | arg_clone_flags => Some arg_print_clone_flags
  | arg_seek_whence => Some arg_print_seek_whence
  | arg_2fds => Some arg_print_2fds
  | arg_pipe2_flags => Some arg_print_pipe2_flags
  | arg_access_mode => Some arg_print_access_mode
  | arg_flock => Some arg_print_flock
  end.

Definition return_value_printer_table (r : return_type) : option (Z -> string) :=
  match r with
  | rpointer => Some print_pointer
  | rhex => Some print_hex
  | rdec => Some print_signed_dec
  | rmode => Some print_octal
  | rnoreturn => None
  end.

(** ** Lines *)

Definition print_return_value (type : return_type) (value : Z) : option string :=
  if (- 4096 <? value) && (value <? 0)
  then Some (print_signed_dec value +:+ " " +:+ strerror_no_intercept (- value))
  else printer ← return_value_printer_table type; Some (printer value).

(** The loop over [format->args]. *)
Fixpoint print_args (formats : list arg_format) (i : nat) (m : mem) (desc : syscall_desc)
    (result_known : intercept_log_result) (result : Z) : option string :=
  match formats with
  | [] | arg_none :: _ => Some EmptyString
  | f :: formats =>
      func ← arg_printer_func_table f;
      text ← func m desc i result_known result;
      rest ← print_args formats (S i) m desc result_known result;
      Some ((if (i =? 0)%nat then EmptyString else ", ") +:+ text +:+ rest)
  end.

Definition print_syscall (m : mem) (desc : syscall_desc)
    (result_known : intercept_log_result) (result : Z) : option string :=
  let format := get_syscall_format desc in
  let start :=
    match f_name format with
    | Some name => name +:+ "("
    | None => "syscall(" +:+ print_signed_dec (sd_nr desc) +:+ ", "
    end in
  text ← print_args (f_args format) 0 m desc result_known result;
  let text := start +:+ text +:+ ")" in
  match f_return_type format with
  | rnoreturn => Some text
  | type =>
      value ← (if is_known result_known then print_return_value type result else Some "?");
      Some (text +:+ " = " +:+ value)
  end.

Definition NEWLINE : string := String "010" EmptyString.

(** The line of [intercept_log_syscall] for the patch at [patch]: its fields
    [containing_lib_path] and [syscall_offset] are at 8 and 16. *)
Definition LOG_BUFFER_SIZE : Z := 0x1000.

Definition log_line (m : mem) (patch : Z) (desc : syscall_desc)
    (result_known : intercept_log_result) (result : Z) : option string :=
  let containing_lib_path := cstr_upto (Z.to_nat LOG_BUFFER_SIZE) m (load64 m (patch + 8)) in
  let syscall_offset := load64 m (patch + 16) in
  text ← print_syscall m desc result_known result;
  Some (containing_lib_path +:+ " " +:+ print_hex syscall_offset +:+ " -- " +:+ text +:+
        NEWLINE).

End InterceptLog.
