(* ===== verification/InterceptLogSpec.v ===== *)
(** * What the log shows

    Numbers are printed exactly and in few digits.  The printed form of a string or a
    buffer determines the bytes it shows, and shows as many as fit.  A line of the
    log fits into its buffer whatever the call and its arguments are, provided the
    path of the patched library is not too long. *)

From Stdlib Require Import Ascii.
From S2P Require Import Prelude Defs Util SyscallFormats InterceptLog.
Import Util.Util SyscallFormats InterceptLog.

#[local] Open Scope string_scope.
#[local] Open Scope Z_scope.

Module InterceptLogSpec.

Abbreviation slen := String.length.

(** ** Numbers *)

(** The value of a character as a digit: its place in [digit_chars]. *)
Definition digit_value (c : ascii) : Z :=
  let n := Z.of_N (N_of_ascii c) in if n <? 0x61 then n - 0x30 else n - 0x61 + 10.

Fixpoint number_value (base : Z) (s : string) : Z :=
  match s with
  | EmptyString => 0
  | String c s => digit_value c * base ^ slen s + number_value base s
  end.

Lemma digit_value_char d : 0 <= d < 16 -> digit_value (digit_char d) = d.
Proof.
  intros Hd. rewrite <-(Z2Nat.id d) by lia. assert (Z.to_nat d < 16)%nat as Hk by lia.
  generalize (Z.to_nat d) Hk. intros k Hk'.
  do 16 (destruct k as [|k]; [reflexivity|]). lia.
Qed.

Lemma print_digits_value fuel : forall n base width acc,
  2 <= base <= 16 -> 0 <= n < base ^ S fuel ->
  number_value base (print_digits fuel n base width acc) =
    n * base ^ slen acc + number_value base acc.
Proof.
  induction fuel as [|fuel IH]; intros n base width acc Hb Hn; cbn [print_digits];
    pose proof (Z.div_mod n base ltac:(lia)); pose proof (Z.mod_pos_bound n base ltac:(lia));
    set (w := if 0 <? width then width - 1 else width); clearbody w.
  - cbn [number_value]. rewrite digit_value_char by lia.
    rewrite Z.mod_small by (rewrite Z.pow_1_r in Hn; lia). done.
  - assert (0 <= n / base < base ^ S fuel) as Hq.
    { split; [apply Z.div_pos; lia|]. apply Z.div_lt_upper_bound; [lia|].
      rewrite <-Z.pow_succ_r by lia. rewrite <-Nat2Z.inj_succ. lia. }
    destruct (_ || _) eqn:E.
    + rewrite IH by lia. cbn [number_value slen]. rewrite digit_value_char by lia.
      rewrite Nat2Z.inj_succ, Z.pow_succ_r by lia. nia.
    + apply orb_false_iff in E as [E _]. apply Z.ltb_ge in E.
      cbn [number_value]. rewrite digit_value_char by lia. nia.
Qed.

Lemma print_digits_length fuel : forall n base width acc (k : nat),
  2 <= base -> 0 <= n < base ^ k -> width <= k -> (1 <= k)%nat ->
  (slen (print_digits fuel n base width acc) <= slen acc + k)%nat.
Proof.
  induction fuel as [|fuel IH]; intros n base width acc k Hb Hn Hw Hk; cbn [print_digits];
    [cbn; lia|].
  destruct (_ || _) eqn:E; [|cbn; lia].
  assert (2 <= k)%nat as Hk2.
  { destruct (decide (k = 1)%nat) as [->|]; [|lia]. exfalso. rewrite Z.pow_1_r in Hn.
    rewrite Z.div_small in E by lia. cbn in E.
    destruct (Z.ltb_spec 0 width); zbool; lia. }
  destruct k as [|k]; [lia|].
  pose proof (IH (n / base) base (if 0 <? width then width - 1 else width)
    (String (digit_char (n mod base)) acc) k Hb) as H.
  cbn [slen] in H. rewrite <-plus_n_Sm. apply H;
    [|destruct (Z.ltb_spec 0 width); lia|lia].
  split; [apply Z.div_pos; lia|]. apply Z.div_lt_upper_bound; [lia|].
  rewrite <-Z.pow_succ_r by lia. rewrite <-Nat2Z.inj_succ. lia.
Qed.

(** A 64-bit number in one of the bases used: the characters are its digits. *)
Lemma print_number_value n base width :
  8 <= base <= 16 -> number_value base (print_number (u64 n) base width) = u64 n.
Proof.
  intros Hb. unfold print_number. rewrite print_digits_value; [cbn; lia|lia|].
  pose proof (Z.mod_pos_bound n (2 ^ 64) ltac:(lia)). unfold u64.
  assert (2 ^ 64 <= base ^ 31); [|lia].
  transitivity (8 ^ 31); [done|]. apply Z.pow_le_mono_l. lia.
Qed.

Lemma print_number_length n base width (k : nat) :
  2 <= base -> 0 <= n < base ^ k -> width <= k -> (1 <= k <= 30)%nat ->
  (slen (print_number n base width) <= k)%nat.
Proof.
  intros Hb Hn Hw Hk. unfold print_number.
  rewrite (proj2 (Z.leb_gt _ _)) by (unfold DIGITS_SIZE; lia).
  apply (print_digits_length 30 n base width EmptyString); lia.
Qed.

Lemma print_hex_length n : (slen (print_hex n) <= 18)%nat.
Proof.
  unfold print_hex. rewrite append_length.
  pose proof (print_number_length (u64 n) 16 1 16 ltac:(lia)) as H.
  pose proof (u64_range n). cbn [slen]. enough (slen (print_number (u64 n) 16 1) <= 16)%nat by lia.
  apply H; [change (16 ^ 16%nat) with (2 ^ 64)|..]; lia.
Qed.

Lemma print_pointer_length n : (slen (print_pointer n) <= 18)%nat.
Proof.
  unfold print_pointer. destruct (n =? 0); [cbn; lia|]. rewrite append_length.
  pose proof (print_number_length (u64 n) 16 16 16 ltac:(lia)) as H.
  pose proof (u64_range n). cbn [slen]. enough (slen (print_number (u64 n) 16 16) <= 16)%nat by lia.
  apply H; [change (16 ^ 16%nat) with (2 ^ 64)|..]; lia.
Qed.

Lemma print_dec_length n : (slen (print_number (u64 n) 10 1) <= 20)%nat.
Proof.
  pose proof (u64_range n). apply print_number_length; try lia.
Qed.

Lemma print_signed_dec_length n : (slen (print_signed_dec n) <= 21)%nat.
Proof.
  unfold print_signed_dec. destruct (0 <=? n).
  - pose proof (print_dec_length n). lia.
  - rewrite append_length. pose proof (print_dec_length (- u64 n)). cbn [slen]. lia.
Qed.

Lemma print_octal_length n : (slen (print_octal n) <= 23)%nat.
Proof.
  unfold print_octal. rewrite append_length. pose proof (u64_range n).
  enough (slen (print_number (u64 n) 8 1) <= 22)%nat by (cbn [slen]; lia).
  apply print_number_length; try lia.
Qed.

(** ** Flags *)

Fixpoint names_length (desc : list (Z * string)) : nat :=
  match desc with [] => 0%nat | (_, name) :: desc => (3 + slen name + names_length desc)%nat end.

Lemma print_flag_length text name : (slen (print_flag text name) <= slen text + 3 + slen name)%nat.
Proof.
  unfold print_flag. destruct (String.eqb text _); rewrite ?append_length; cbn [slen]; lia.
Qed.

Lemma flag_loop_length z desc : forall text flags,
  match flag_loop z text flags desc with
  | inl t | inr (t, _) => (slen t <= slen text + names_length desc)%nat
  end.
Proof.
  induction desc as [|[flag name] desc IH]; intros text flags; cbn [flag_loop names_length];
    [lia|]. pose proof (print_flag_length text name).
  destruct (flags =? 0); [lia|]. destruct (_ && _); [lia|].
  destruct (negb _);
    [specialize (IH (print_flag text name) (Z.land flags (Z.lnot flag)))|
     specialize (IH text flags)];
    destruct (flag_loop _ _ _ _) as [|[]]; lia.
Qed.

Lemma print_flag_set_length text flags desc :
  (slen (print_flag_set text flags desc) <= slen text + names_length desc + 21)%nat.
Proof.
  unfold print_flag_set. pose proof (flag_loop_length (flags =? 0) desc text flags) as H.
  destruct (flag_loop _ _ _ _) as [t|[t f]]; [lia|]. pose proof (print_hex_length f).
  set (t' := if negb (f =? 0) then _ else t).
  assert (slen t' <= slen t + 21)%nat.
  { unfold t'. destruct (negb _); [|lia].
    destruct (String.eqb t _); rewrite ?append_length; cbn [slen]; lia. }
  destruct (String.eqb t' _); cbn [slen]; lia.
Qed.

(** ** Strings and buffers *)

Definition escape_bytes (bs : list byte) : string :=
  foldr (fun b text => escape_char b +:+ text) EmptyString bs.

(** Reading one escaped byte back. *)
Definition unescape_char (s : string) : option (byte * string) :=
  match s with
  | EmptyString => None
  | String c rest =>
      if Ascii.eqb c "\" then
        match rest with
        | String c rest =>
            if Ascii.eqb c "x" then
              match rest with
              | String h (String l rest) =>
                  Some (byte_of_Z (16 * digit_value h + digit_value l), rest)
              | _ => None
              end
            else Some (default (byte_of_ascii c) (element
              [(0x6e, x0a); (0x74, x09); (0x72, x0d); (0x61, x07); (0x62, x08); (0x66, x0c);
               (0x76, x0b); (0x30, x00)] (Z.of_N (N_of_ascii c))), rest)
        | EmptyString => None
        end
      else Some (byte_of_ascii c, rest)
  end.

Lemma unescape_escape b rest : unescape_char (escape_char b +:+ rest) = Some (b, rest).
Proof. destruct b; reflexivity. Qed.

Lemma escape_char_length b : (1 <= slen (escape_char b) <= 4)%nat.
Proof. destruct b; vm_compute; lia. Qed.

(** The printed form determines the bytes. *)
Lemma escape_bytes_inj bs : forall bs', escape_bytes bs = escape_bytes bs' -> bs = bs'.
Proof.
  assert (forall b bs, escape_bytes (b :: bs) <> EmptyString) as Hne.
  { intros b l E. apply (f_equal unescape_char) in E. cbn [escape_bytes foldr] in E.
    rewrite unescape_escape in E. discriminate. }
  induction bs as [|b bs IH]; intros [|b' bs'] E; [done|by destruct (Hne b' bs')|
    by destruct (Hne b bs)|].
  apply (f_equal unescape_char) in E. cbn [escape_bytes foldr] in E.
  rewrite !unescape_escape in E. injection E as -> E. f_equal. by apply IH.
Qed.

Lemma append_nil a : a +:+ EmptyString = a.
Proof. induction a as [|x a IH]; [done|]. exact (f_equal (String x) IH). Qed.

Lemma mem_read_succ m src k :
  0 <= k -> mem_read m src (k + 1) = m src :: mem_read m (src + 1) k.
Proof.
  intros Hk. unfold mem_read, tabulate. rewrite seqZ_cons by lia. cbn. rewrite Z.add_0_r.
  f_equal. replace (Z.pred (k + 1)) with k by lia.
  rewrite <-(fmap_add_seqZ 1 0), <-list_fmap_compose. apply list_fmap_ext. intros i x _. cbn.
  f_equal. lia.
Qed.

(** Whether there is more to print behind [src]. *)
Definition more (m : mem) (zero_term : bool) (src src_size : Z) : bool :=
  ((0 <? src_size) && negb zero_term) || (zero_term && negb (Byte.eqb (m src) x00)).

(** The loop prints as many bytes as fit, up to the end of the string or buffer. *)
Lemma escape_loop_spec m z e fuel : forall text src size,
  (Z.to_nat e <= slen text + fuel)%nat -> 0 <= size ->
  exists k, 0 <= k /\
    (z = true -> forall i, 0 <= i < k -> m (src + i) <> x00) /\ (z = false -> k <= size) /\
    let bs := mem_read m src k in
    let size' := if z then size else size - k in
    escape_loop fuel m z e text src size = Some (text +:+ escape_bytes bs, src + k, size') /\
    (more m z (src + k) size' = true -> e <= slen (text +:+ escape_bytes bs)) /\
    (k = 0 \/ slen (text +:+ escape_bytes bs) <= e + 3).
Proof.
  assert (forall text src size, 0 <= size ->
    (more m z src size = true -> e <= slen text) ->
    exists k, 0 <= k /\
      (z = true -> forall i, 0 <= i < k -> m (src + i) <> x00) /\ (z = false -> k <= size) /\
      let bs := mem_read m src k in
      let size' := if z then size else size - k in
      Some (text, src, size) = Some (text +:+ escape_bytes bs, src + k, size') /\
      (more m z (src + k) size' = true -> e <= slen (text +:+ escape_bytes bs)) /\
      (k = 0 \/ slen (text +:+ escape_bytes bs) <= e + 3)) as Hstop.
  { intros text src size Hs Hm. exists 0. cbv zeta.
    change (escape_bytes (mem_read m src 0)) with EmptyString. rewrite Z.add_0_r, append_nil.
    split; [lia|]. split; [intros; lia|]. split; [lia|].
    replace (if z then size else size - 0) with size by (destruct z; lia). auto. }
  induction fuel as [|fuel IH]; intros text src size Hf Hs; cbn [escape_loop];
    destruct (_ && _) eqn:C; try destruct (z && Byte.eqb (m src) x00) eqn:N;
    try (apply Hstop; [done|]; unfold more; destruct z; cbn in *;
         rewrite ?andb_true_r, ?andb_false_r, ?N; zbool; intros; zbool; (lia || discriminate)).
  - exfalso. zbool. lia.
  - pose proof (escape_char_length (m src)) as Hc.
    destruct (IH (text +:+ escape_char (m src)) (src + 1) (if z then size else size - 1))
      as (k & Hk & Hz & Hn & HE & HM & HL).
    { rewrite append_length. lia. }
    { destruct z; [done|]. zbool. cbn in *. zbool. lia. }
    exists (k + 1). cbv zeta in *.
    rewrite (mem_read_succ m src k Hk). cbn [escape_bytes foldr]. fold (escape_bytes (mem_read m (src + 1) k)).
    rewrite <-append_assoc. replace (src + (k + 1)) with (src + 1 + k) by lia.
    replace (if z then size else size - (k + 1))
      with (if z then if z then size else size - 1 else (if z then size else size - 1) - k)
      by (destruct z; lia).
    split; [lia|]. split; [|split; [|split; [exact HE|split; [exact HM|right]]]].
    + intros -> i Hi. destruct (decide (i = 0)) as [->|].
      * rewrite Z.add_0_r. cbn in N. intros E. by rewrite E in N.
      * replace (src + i) with (src + 1 + (i - 1)) by lia. apply Hz; [done|lia].
    + intros ->. specialize (Hn eq_refl). lia.
    + destruct HL as [->|HL]; [|exact HL].
      change (escape_bytes (mem_read m (src + 1) 0)) with EmptyString.
      rewrite append_nil, append_length. zbool. lia.
Qed.

(** The text, and how much of it. *)
Lemma xprint_escape_text m src dst_size zero_term src_size :
  src <> 0 -> 6 <= dst_size -> 0 <= src_size ->
  exists k, 0 <= k /\
    (zero_term = true -> forall i, 0 <= i < k -> m (src + i) <> x00) /\
    (zero_term = false -> k <= src_size) /\
    let text := escape_bytes (mem_read m src k) in
    let cut := more m zero_term (src + k) (if zero_term then src_size else src_size - k) in
    xprint_escape m src dst_size zero_term src_size =
      Some (String QUOTE EmptyString +:+ text +:+ (if cut then "..." else EmptyString) +:+
            String QUOTE EmptyString) /\
    (cut = true -> dst_size - 6 <= slen text) /\ slen text <= dst_size - 3.
Proof.
  intros Hsrc Hd Hs.
  destruct (escape_loop_spec m zero_term (dst_size - 5) (Z.to_nat dst_size)
    (String QUOTE EmptyString) src src_size) as (k & Hk & Hz & Hn & HE & HM & HL);
    [cbn; lia|done|].
  exists k. split; [done|]. split; [done|]. split; [done|]. cbv zeta in *.
  unfold xprint_escape. rewrite (proj2 (Z.eqb_neq _ _) Hsrc), HE. cbn [mbind option_bind].
  fold (more m zero_term (src + k) (if zero_term then src_size else src_size - k)).
  rewrite append_length in HM, HL. cbn [slen] in HM, HL.
  split; [|split].
  - f_equal. destruct (more _ _ _ _); rewrite !append_assoc; done.
  - intros Ec. specialize (HM Ec). lia.
  - destruct HL as [->|HL]; [|lia].
    change (escape_bytes (mem_read m src 0)) with EmptyString. cbn [slen]. lia.
Qed.

(** C19: [xprint_escape] prints the bytes of a string up to its terminator, or of a
    buffer up to its size, as many of them as fit: when it leaves some out it says so
    with dots, and then the text is within five characters of the size given.  The
    printed form determines the bytes it stands for. *)
Theorem xprint_escape_correct m src dst_size zero_term src_size :
  src <> 0 -> 6 <= dst_size -> 0 <= src_size ->
  exists k, 0 <= k /\
    (zero_term = true -> forall i, 0 <= i < k -> m (src + i) <> x00) /\
    (zero_term = false -> k <= src_size) /\
    let text := escape_bytes (mem_read m src k) in
    let cut := more m zero_term (src + k) (if zero_term then src_size else src_size - k) in
    xprint_escape m src dst_size zero_term src_size =
      Some (String QUOTE EmptyString +:+ text +:+ (if cut then "..." else EmptyString) +:+
            String QUOTE EmptyString) /\
    (cut = true -> dst_size - 6 <= slen text) /\ slen text <= dst_size - 3 /\
    (forall bs, escape_bytes bs = text -> bs = mem_read m src k).
Proof.
  intros Hsrc Hd Hs.
  destruct (xprint_escape_text m src dst_size zero_term src_size Hsrc Hd Hs)
    as (k & Hk & Hz & Hn & HE & HM & HL).
  exists k. do 3 (split; [done|]). split; [exact HE|]. split; [exact HM|].
  split; [exact HL|]. intros bs. apply escape_bytes_inj.
Qed.

(** An example: a string with a quote and a tab. *)
Definition tab_mem : mem := fun a =>
  default x00 ([x61; x22; x09; x62] !! Z.to_nat (a - 0x1000)).

Lemma xprint_escape_correct_witness :
  xprint_escape tab_mem 0x1000 0x80 true 0 =
    Some (String QUOTE (String "a" (String "\" (String QUOTE "\tb"))) +:+
          String QUOTE EmptyString) /\
  exists k, 0 <= k /\
    (forall i, 0 <= i < k -> tab_mem (0x1000 + i) <> x00) /\
    slen (escape_bytes (mem_read tab_mem 0x1000 k)) <= 0x80 - 3.
Proof.
  split; [vm_compute; reflexivity|].
  destruct (xprint_escape_correct tab_mem 0x1000 0x80 true 0) as (k & Hk & Hz & _ & _ & _ & Hl & _);
    [lia|lia|lia|].
  exists k. split; [exact Hk|]. split; [exact (Hz eq_refl)|exact Hl].
Defined.

(** ** Lines *)

(** A check of all elements of a table. *)
Lemma forallb_elem_of {A} (f : A -> bool) (l : list A) :
  forallb f l = true -> forall x, x ∈ l -> f x = true.
Proof. intros H x Hx. apply list_elem_of_In in Hx. by eapply forallb_forall. Qed.

(** How long the text for an argument can be. *)
Definition arg_bound (f : arg_format) : nat :=
  match f with
  | arg_none | arg_hex => 0
  | arg_ | arg_pointer => 18
  | arg_dec | arg_dec32 | arg_fd | arg_atfd => 21
  | arg_oct_mode => 23
  | arg_cstr | arg_buf_in | arg_buf_out => 130
  | arg_open_flags => 8 + 12 + names_length open_flags + 21
  | arg_fcntl_cmd => 21 + 3 + 15
  | arg_clone_flags => names_length clone_flags + 21
  | arg_seek_whence => 18
  | arg_2fds => 46
  | arg_pipe2_flags => names_length pipe2_flags + 21
  | arg_access_mode => names_length access_modes + 21
  | arg_flock => 18 + 220 + names_length flock_type
  end.

(** The printers an index can be given to. *)
Definition has_args (f : arg_format) (i : nat) : bool :=
  bool_decide (f <> arg_none /\ f <> arg_hex) &&
  (i + (if bool_decide (f = arg_buf_in) then 1 else 0) <? 6)%nat.

Lemma arg_at_Some a i : (i < 6)%nat -> is_Some (arg_at a i).
Proof. intros Hi. do 6 (destruct i as [|i]; [by eexists|]). lia. Qed.

Lemma xprint_escape_length m a z size :
  0 <= size -> exists t, xprint_escape m a ESCAPED_SIZE z size = Some t /\ (slen t <= 130)%nat.
Proof.
  intros Hs. destruct (decide (a = 0)) as [->|Ha]; [by exists "(null)"; split; [|cbn; lia]|].
  destruct (xprint_escape_text m a ESCAPED_SIZE z size Ha ltac:(unfold ESCAPED_SIZE; lia) Hs)
    as (k & _ & _ & _ & E & _ & Hl).
  eexists. split; [exact E|]. rewrite !append_length. cbn [slen]. unfold ESCAPED_SIZE in Hl.
  destruct (more _ _ _ _); cbn [slen]; lia.
Qed.

(** Every fcntl command has a short name. *)
Lemma print_fcntl_cmd_length cmd : (slen (print_fcntl_cmd cmd) <= 15)%nat.
Proof.
  unfold print_fcntl_cmd. destruct (element fcntl_cmds cmd) as [n|] eqn:E; [|cbn; lia].
  apply element_In in E. apply Nat.leb_le. revert n E. by apply forallb_elem_of.
Qed.

Lemma print_seek_whence_length w : (slen (print_seek_whence w) <= 18)%nat.
Proof.
  unfold print_seek_whence. pose proof (print_hex_length w).
  repeat (destruct (_ =? _); [cbn; lia|]). done.
Qed.

Lemma print_fcntl_flock_length m a :
  (slen (print_fcntl_flock m a) <= 220 + names_length flock_type)%nat.
Proof.
  unfold print_fcntl_flock. destruct (a =? 0); [cbn; lia|]. cbv zeta.
  rewrite !append_length.
  pose proof (print_signed_dec_length (load_short m (u64 a))).
  pose proof (print_flag_set_length EmptyString (load_short m (u64 a)) flock_type).
  pose proof (print_signed_dec_length (load_short m (u64 a + 2))).
  pose proof (print_seek_whence_length (load_short m (u64 a + 2))).
  pose proof (print_signed_dec_length (load_long m (u64 a + 8))).
  pose proof (print_signed_dec_length (load_long m (u64 a + 16))).
  pose proof (print_signed_dec_length (load_int m (u64 a + 24))).
  cbn [slen] in *. lia.
Qed.

Lemma open_flags_length desc i a m k r :
  arg_at (sd_args desc) i = Some a -> exists t,
    arg_print_open_flags m desc i k r = Some t /\ (slen t <= arg_bound arg_open_flags)%nat.
Proof.
  intros E. unfold arg_print_open_flags. rewrite E. cbn [mbind option_bind].
  destruct (_ =? 0); [by exists "O_RDONLY"; split; [|cbn; lia]|].
  set (c := if Z.land (s32 a) O_ACCMODE =? O_RDWR then _ else _).
  assert (slen c <= 8)%nat as Hc.
  { unfold c. repeat (destruct (_ =? _); [vm_compute; lia|]). cbn. lia. }
  clearbody c. pose proof (print_flag_length c "O_TMPFILE") as Ht. cbn [slen] in Ht.
  destruct (_ =? O_TMPFILE); eexists; (split; [reflexivity|]);
    (etransitivity; [apply print_flag_set_length|]); cbn [arg_bound]; lia.
Qed.

Ltac printed :=
  eexists; split; [reflexivity|]; rewrite ?append_length; cbn [slen] in *; lia.

(** Every printer of the table returns, with a text within its bound. *)
Lemma arg_printer_ok f i m desc k r :
  has_args f i = true -> exists t,
    (func ← arg_printer_func_table f; func m desc i k r) = Some t /\
    (slen t <= arg_bound f)%nat.
Proof.
  unfold has_args. intros H. apply andb_true_iff in H as [Hf Hi].
  apply bool_decide_eq_true in Hf as [Hn Hx]. apply Nat.ltb_lt in Hi.
  destruct (arg_at_Some (sd_args desc) i ltac:(lia)) as [a Ea].
  assert (forall v z, exists t, xprint_escape m (u64 a) ESCAPED_SIZE z (u64 v) = Some t /\
    (slen t <= 130)%nat) as Hesc by (intros; apply xprint_escape_length, u64_range).
  pose proof (print_hex_length a). pose proof (print_pointer_length a).
  pose proof (print_signed_dec_length a). pose proof (print_signed_dec_length (s32 a)).
  pose proof (print_octal_length a). pose proof (print_seek_whence_length (s32 a)).
  pose proof (print_fcntl_cmd_length (s32 a)). pose proof (print_fcntl_flock_length m a).
  pose proof (print_flag_set_length EmptyString a clone_flags).
  pose proof (print_flag_set_length EmptyString a pipe2_flags).
  pose proof (print_flag_set_length EmptyString (s32 a) access_modes).
  destruct f; try congruence; cbn [arg_printer_func_table mbind option_bind].
  all: try (by eapply open_flags_length).
  all: unfold arg_print_general, arg_print_signed_dec, arg_print_signed_dec32,
    arg_print_octal_mode, arg_print_pointer, arg_print_atfd, arg_print_cstr,
    arg_print_input_buf, arg_print_output_buf, arg_print_fcntl_cmd, arg_print_clone_flags,
    arg_print_seek_whence, arg_print_2fds, arg_print_pipe2_flags, arg_print_access_mode,
    arg_print_flock, print_signed_dec32; rewrite Ea; cbn [mbind option_bind arg_bound].
  all: try printed.
  - destruct (a =? 0); [printed|exact (Hesc 0 true)].
  - destruct (a =? 0); [printed|].
    destruct (arg_at_Some (sd_args desc) (i + 1)) as [v ->]; [by rewrite bool_decide_true in Hi|].
    exact (Hesc v false).
  - destruct (_ || _); [printed|exact (Hesc r false)].
  - pose proof (print_signed_dec_length (s32 (s32 a))). destruct (_ =? _); printed.
  - pose proof (print_signed_dec_length (load_int m (u64 a))).
    pose proof (print_signed_dec_length (load_int m (u64 a + 4))).
    destruct (_ || _); printed.
  - destruct (_ =? _); printed.
Qed.

(** The same for a list of arguments. *)
Fixpoint args_ok (formats : list arg_format) (i : nat) : bool :=
  match formats with
  | [] | arg_none :: _ => true
  | f :: formats => has_args f i && args_ok formats (S i)
  end.

Definition args_bound (formats : list arg_format) : nat :=
  foldr (fun f n => 2 + arg_bound f + n)%nat 0%nat formats.

Lemma print_args_ok fs : forall i m desc k r,
  args_ok fs i = true -> exists t,
    print_args fs i m desc k r = Some t /\ (slen t <= args_bound fs)%nat.
Proof.
  induction fs as [|f fs IH]; intros i m desc k r H; [by exists EmptyString|].
  destruct (decide (f = arg_none)) as [->|Hf].
  { exists EmptyString. split; [done|]. cbn. lia. }
  assert (has_args f i = true /\ args_ok fs (S i) = true) as [H1 H2]
    by (apply andb_true_iff; destruct f; done).
  destruct (arg_printer_ok f i m desc k r H1) as (t & Et & Hl).
  destruct (IH (S i) m desc k r H2) as (rest & Er & Hr).
  exists ((if (i =? 0)%nat then EmptyString else ", ") +:+ t +:+ rest). split.
  - destruct (arg_printer_func_table f) as [func|] eqn:E; [|done]. cbn [mbind option_bind] in Et.
    transitivity (func ← arg_printer_func_table f; text ← func m desc i k r;
      rest ← print_args fs (S i) m desc k r;
      Some ((if (i =? 0)%nat then EmptyString else ", ") +:+ text +:+ rest));
      [destruct f; done|].
    rewrite E. cbn [mbind option_bind]. rewrite Et. cbn [mbind option_bind]. by rewrite Er.
  - rewrite !append_length. cbn [args_bound foldr]. fold (args_bound fs).
    destruct (i =? 0)%nat; cbn [slen]; lia.
Qed.

(** The bound for all calls: every entry of the tables is checked. *)
Definition ARGS_BOUND : nat := 447.

Definition format_ok (f : syscall_format) : bool :=
  args_ok (f_args f) 0 && (args_bound (f_args f) <=? ARGS_BOUND)%nat &&
  (match f_name f with Some name => slen name <=? 30 | None => true end)%nat.

Lemma formats_ok desc : format_ok (get_syscall_format desc) = true.
Proof. eapply forallb_elem_of, get_syscall_format_In. vm_compute. reflexivity. Qed.

Lemma print_return_value_ok type v :
  type <> rnoreturn -> exists t,
    print_return_value type v = Some t /\ (slen t <= 80)%nat.
Proof.
  intros Ht. unfold print_return_value.
  pose proof (print_signed_dec_length v). pose proof (print_pointer_length v).
  pose proof (print_hex_length v). pose proof (print_octal_length v).
  destruct (_ && _); [|destruct type; cbn [return_value_printer_table mbind option_bind];
    try congruence; printed].
  assert (slen (strerror_no_intercept (- v)) <= 58)%nat.
  { pose proof (strerror_In (- v)) as Hin. apply Nat.leb_le. revert Hin.
    generalize (strerror_no_intercept (- v)). apply forallb_elem_of. vm_compute. reflexivity. }
  printed.
Qed.

Lemma print_syscall_ok m desc k r :
  exists t, print_syscall m desc k r = Some t /\ (slen t <= 562)%nat.
Proof.
  unfold print_syscall. pose proof (formats_ok desc) as Hok.
  destruct (get_syscall_format desc) as [name type fs]. unfold format_ok in Hok.
  cbn [f_name f_return_type f_args] in *.
  apply andb_true_iff in Hok as [Hok Hn]. apply andb_true_iff in Hok as [Ha Hb].
  apply Nat.leb_le in Hb. unfold ARGS_BOUND in Hb.
  destruct (print_args_ok fs 0 m desc k r Ha) as (t & -> & Hl). cbn [mbind option_bind].
  set (start := match name with Some _ => _ | None => _ end).
  assert (slen start <= 31)%nat.
  { unfold start. destruct name as [n|].
    - apply Nat.leb_le in Hn. rewrite append_length. cbn [slen]. lia.
    - pose proof (print_signed_dec_length (sd_nr desc)). rewrite !append_length. cbn [slen]. lia. }
  destruct (decide (type = rnoreturn)) as [->|Ht]; [clearbody start; printed|].
  assert (exists v, (if is_known k then print_return_value type r else Some "?") = Some v /\
    (slen v <= 80)%nat) as (v & Ev & Hv).
  { destruct (is_known k); [by apply print_return_value_ok|]. by exists "?"; split; [|cbn; lia]. }
  clearbody start. exists ((start +:+ t +:+ ")") +:+ " = " +:+ v). split.
  - destruct type; try congruence; rewrite Ev; reflexivity.
  - rewrite !append_length. cbn [slen]. lia.
Qed.

(** C18: a line of the log fits into the buffer of [intercept_log_syscall]: whatever
    call is made, with whatever arguments, result and memory, all printers and table
    entries it needs exist, no argument outside of [args] is read, and the line is at
    most as long as the buffer, if the path of the patched library has no more than
    3510 characters. *)
Theorem log_line_fits m patch desc result_known result :
  slen (cstr_upto (Z.to_nat LOG_BUFFER_SIZE) m (load64 m (patch + 8))) <= 3510 ->
  exists line, log_line m patch desc result_known result = Some line /\
    slen line <= LOG_BUFFER_SIZE.
Proof.
  intros Hp. unfold log_line. set (path := cstr_upto _ m _) in *. clearbody path.
  destruct (print_syscall_ok m desc result_known result) as (t & -> & Ht).
  cbn [mbind option_bind]. eexists. split; [reflexivity|].
  pose proof (print_hex_length (load64 m (patch + 16))).
  rewrite !append_length. unfold LOG_BUFFER_SIZE. cbn [slen NEWLINE]. lia.
Qed.

(** An example: [open] with a path. *)
Definition open_mem : mem := fun a =>
  default x00 ([x2f; x6c; x00; x00; x00; x00; x00; x00; x00; x10; x00; x00; x00; x00; x00;
                x00; x34; x12] !! Z.to_nat (a - 0x1000)).
Definition open_desc : syscall_desc := SyscallDesc SYS_open (Args 0x1000 0x42 0x1a4 0 0 0).

Lemma log_line_fits_witness :
  log_line open_mem 0x1000 open_desc KNOWN (- 2) =
    Some ("/l 0x1234 -- open(" +:+ String QUOTE "/l" +:+ String QUOTE
            ", O_RDWR | O_CREAT, 0644) = -2 ENOENT (No such file or directory)" +:+ NEWLINE) /\
  exists line, log_line open_mem 0x1000 open_desc KNOWN (- 2) = Some line /\
    slen line <= LOG_BUFFER_SIZE.
Proof.
  split; [vm_compute; reflexivity|].
  apply (log_line_fits open_mem 0x1000 open_desc KNOWN (- 2)). vm_compute. discriminate.
Defined.

(** ** Where the log differs from what the source says of it *)

(** The comment of [xprint_escape] promises at most [dst_size] characters: here two
    more are written for a size of 128, and the terminator. *)
Lemma escaped_text_overruns :
  (slen <$> xprint_escape (fun a => if a <? 0x1079 then x61 else x01) 0x1000
     ESCAPED_SIZE false 0x100) = Some 130%nat.
Proof. vm_compute. reflexivity. Qed.

(** [O_SYNC] contains the bit of [O_DSYNC] and equals [O_RSYNC], which come first: it
    is never printed. *)
Lemma o_sync_misreported :
  arg_print_open_flags (fun _ => x00) (SyscallDesc SYS_open (Args 0 0x101001 0 0 0 0)) 1 KNOWN 0
    = Some "O_WRONLY | O_DSYNC | O_RSYNC".
Proof. vm_compute. reflexivity. Qed.

(** The case for a flag of value 0 is inside a loop that is not entered for 0: a read
    lock is printed as a number. *)
Lemma read_lock_misreported : print_flag_set EmptyString 0 flock_type = "0".
Proof. vm_compute. reflexivity. Qed.

End InterceptLogSpec.
