(* ===== verification/Intercept.v ===== *)
(** * The system call interception library
      ([polylib/libs/syscall-intercept/src/intercept.c], [cmdline_filter.c],
      [magic_syscalls.c], and the log of [intercept_log.c])

    The constructor [intercept] decides whether the process is one to hook, looks at
    the loaded objects, and patches the system calls of those it selects.  A patched
    system call calls [intercept_routine] with the registers.  [None] is the end of
    the process by [xabort].  The lines written to the log are not modelled, only
    that they are written. *)

From Stdlib Require Import Ascii.
From S2P Require Import Prelude Defs Util Disasm InterceptDesc Patcher SyscallFormats InterceptLog.
Import Disasm InterceptDesc Patcher SyscallFormats InterceptLog.

#[local] Open Scope Z_scope.

Module Intercept.

(** ** Strings *)

(** The rest of [s] from the last [c] on. *)
Fixpoint strrchr (s : string) (c : ascii) : option string :=
  match s with
  | EmptyString => None
  | String a rest =>
      match strrchr rest c with
      | Some r => Some r
      | None => if Ascii.eqb a c then Some s else None
      end
  end.

Fixpoint char_in (c : ascii) (set : string) : bool :=
  match set with
  | EmptyString => false
  | String a set => Ascii.eqb a c || char_in c set
  end.

Fixpoint strcspn (s reject : string) : nat :=
  match s with
  | EmptyString => 0
  | String a s => if char_in a reject then 0 else S (strcspn s reject)
  end.

(** [strstr(s, needle) != NULL] *)
Fixpoint strstr (s needle : string) : bool :=
  String.prefix needle s ||
  match s with EmptyString => false | String _ s => strstr s needle end.

(** ** The filter for processes ([cmdline_filter.c]) *)

(** [cmdline + n]; the terminator is part of the string. *)
Definition char_at (s : string) (n : nat) : option ascii := String.get n s.

Definition cmdline_match (cmdline : string) (filter : option string) : bool :=
  match filter with
  | None => true
  | Some filter =>
      let flen := String.length filter in
      let clen := String.length cmdline in
      if (clen <? flen)%nat then false
      else if (flen <? clen)%nat &&
              negb (bool_decide (char_at cmdline (clen - flen - 1) = Some "/"%char))
      then false
      else String.eqb (String.substring (clen - flen) flen cmdline) filter
  end.

(** The static variables: the decision once it was made. *)
Definition syscall_hook_in_process_allowed (cmdline filter : option string)
    (decided : option bool) : bool * option bool :=
  match decided with
  | Some result => (result, decided)
  | None =>
      match cmdline with
      | None => (false, None)
      | Some cmdline => let result := cmdline_match cmdline filter in (result, Some result)
      end
  end.

(** ** Which objects to patch *)

Definition get_lib_short_name (name : string) : string :=
  match strrchr name "/" with
  | Some (String _ rest) => rest
  | _ => name
  end.

Definition str_match (name : string) (name_len : nat) (expected : string) : bool :=
  (name_len =? String.length expected)%nat && strncmp_eq name_len name expected.

Definition is_vdso (vdso_addr addr : Z) (path : string) : bool :=
  (addr =? vdso_addr) || strstr path "vdso".

(** [should_patch_object]: whether to patch, and [libc_found] after it. *)
Definition should_patch_object (self_addr vdso_addr : Z) (patch_all_objs : bool)
    (libc_found : bool) (addr : Z) (path : string) : bool * bool :=
  if is_vdso vdso_addr addr path then (false, libc_found)
  else
    let name := get_lib_short_name path in
    let len := strcspn name "-." in
    if (len =? 0)%nat then (false, libc_found)
    else if addr =? self_addr then (false, libc_found)
    else if str_match name len "libcapstone" then (false, libc_found)
    else if str_match name len "libc" then (true, true)
    else if patch_all_objs then (true, libc_found)
    else if str_match name len "libpthread" then (true, libc_found)
    else (false, libc_found).

(** [struct dl_phdr_info] and what is used of a program header. *)
Record Elf64_Phdr := Phdr { p_type : Z; p_vaddr : Z; p_memsz : Z }.

Record dl_phdr_info := DlPhdrInfo {
  dlpi_addr : Z;
  dlpi_name : option string;
  dlpi_phdr : list Elf64_Phdr
}.

Definition PT_LOAD : Z := 1.

Fixpoint find_load (headers : list Elf64_Phdr) (base : Z) : Z :=
  match headers with
  | [] => 0
  | h :: headers =>
      if (p_type h =? PT_LOAD) && negb (p_memsz h =? 0) then u64 (base + p_vaddr h)
      else find_load headers base
  end.

Definition get_any_used_vaddr (info : dl_phdr_info) : Z :=
  find_load (dlpi_phdr info) (dlpi_addr info).

(** The lines of [/proc/self/maps] with a path; [None] for a line that does not
    scan. *)
Fixpoint name_loop (lines : list (option (Z * Z * string))) (addr : Z) : option string :=
  match lines with
  | [] => None
  | None :: lines => name_loop lines addr
  | Some (start, end_, path) :: lines =>
      if addr <? start then None
      else if (start <=? addr) && (addr <? end_) then Some path
      else name_loop lines addr
  end.

Definition PATHS_SIZE : Z := 0x10000.
Definition LINE_SIZE : Z := 0x2000.

(** [get_name_from_proc_maps]; [next_path] counts the bytes of [paths] in use. *)
Definition get_name_from_proc_maps (lines : option (list (option (Z * Z * string))))
    (next_path addr : Z) : option string * Z :=
  if PATHS_SIZE - LINE_SIZE <=? next_path then (None, next_path)
  else
    match lines with
    | None => (None, next_path)
    | Some lines =>
        match name_loop lines addr with
        | None => (None, next_path)
        | Some path => (Some path, next_path + String.length path + 1)
        end
    end.

Definition get_object_path (lines : option (list (option (Z * Z * string))))
    (next_path : Z) (info : dl_phdr_info) : option string * Z :=
  match dlpi_name info with
  | Some (String c name) => (Some (String c name), next_path)
  | _ =>
      let addr := get_any_used_vaddr info in
      if addr =? 0 then (None, next_path)
      else get_name_from_proc_maps lines next_path addr
  end.

(** ** Patching the objects *)

(** What the constructor is given: the environment, the addresses of the library
    and of the vdso, the mappings with their paths and the files of the objects. *)
Record process_env := ProcessEnv {
  pe_argv0 : option string;
  pe_filter : option string;            (* INTERCEPT_HOOK_CMDLINE_FILTER *)
  pe_all_objs : bool;                   (* INTERCEPT_ALL_OBJS is set *)
  pe_no_trampoline : option string;     (* INTERCEPT_NO_TRAMPOLINE *)
  pe_min_addr : option string;          (* the line of mmap_min_addr *)
  pe_self_addr : option Z;              (* dladdr *)
  pe_vdso_addr : Z;
  pe_maps : option (list (option (Z * Z * string)));
  pe_file : string -> option elf_file;
  pe_objects : list dl_phdr_info
}.

(** A new entry of [objs]: anonymous memory is zero. *)
Definition new_desc (base_addr : Z) : intercept_desc :=
  InterceptDesc false base_addr 0 [] [] 0 0 0 [] 0 [] 0 [] 0 0 0.

Record objects := Objects {
  ob_objs : list intercept_desc;
  ob_libc_found : bool;
  ob_next_path : Z
}.

Section intercept.
Context `{Capstone} `{Process VM}.
Variable env : process_env.

(** [analyze_object] *)
Definition analyze_object (m : mem) (st : objects) (info : dl_phdr_info)
    : option objects :=
  let '(path, next_path) := get_object_path (pe_maps env) (ob_next_path st) info in
  match path with
  | None => Some (Objects (ob_objs st) (ob_libc_found st) next_path)
  | Some path =>
      self_addr ← pe_self_addr env;
      let '(patch, libc_found) :=
        should_patch_object self_addr (pe_vdso_addr env) (pe_all_objs env)
          (ob_libc_found st) (dlpi_addr info) path in
      if negb patch then Some (Objects (ob_objs st) libc_found next_path)
      else
        desc ← find_syscalls m (pe_file env path) (new_desc (dlpi_addr info));
        Some (Objects (ob_objs st ++ [desc]) libc_found next_path)
  end.

(** [dl_iterate_phdr(analyze_object, NULL)] *)
Definition analyze_objects (m : mem) : option objects :=
  foldl (fun st info => st ← st; analyze_object m st info) (Some (Objects [] false 0))
    (pe_objects env).

(** The template, the address of the [i]-th description of the [k]-th object, and
    the space for wrappers. *)
Variable T : template.
Variable patch_ptr : nat -> nat -> Z.
Variable asm_wrapper_space : Z.

Definition ASM_WRAPPER_SPACE : Z := 0x100000.
Definition PAGE_SIZE : Z := 0x1000.

Definition is_asm_wrapper_space_full (next_asm_wrapper_space : Z) : bool :=
  asm_wrapper_space + ASM_WRAPPER_SPACE <? next_asm_wrapper_space + zlength (tmpl T) + 256.

(** The first loop of [intercept], from object [k] on. *)
Fixpoint wrappers_of_objects (k : nat) (objs : list intercept_desc) (vm : VM) (m : mem)
    (next_asm_wrapper_space : Z) : option (list intercept_desc * VM * mem * Z) :=
  match objs with
  | [] => Some ([], vm, m, next_asm_wrapper_space)
  | desc :: objs =>
      if (0 <? zlength (i_items desc)) && is_asm_wrapper_space_full next_asm_wrapper_space
      then None
      else
        '(desc, vm) ← allocate_trampoline_table (pe_no_trampoline env) (pe_min_addr env)
                        vm desc;
        '(desc, m, next) ← create_patch_wrappers T (patch_ptr k) desc m
                             next_asm_wrapper_space;
        '(objs, vm, m, next) ← wrappers_of_objects (S k) objs vm m next;
        Some (desc :: objs, vm, m, next)
  end.

(** The second loop. *)
Fixpoint activate_objects (objs : list intercept_desc) (m : mem)
    : option (list intercept_desc * mem) :=
  match objs with
  | [] => Some ([], m)
  | desc :: objs =>
      '(desc, m) ← activate_patches desc m;
      '(objs, m) ← activate_objects objs m;
      Some (desc :: objs, m)
  end.

(** [intercept]: the objects patched, and whether the process is hooked at all. *)
Definition intercept (vm : VM) (m : mem) : option (list intercept_desc * VM * mem) :=
  if negb (syscall_hook_in_process_allowed (pe_argv0 env) (pe_filter env) None).1
  then Some ([], vm, m)
  else
    st ← analyze_objects m;
    if negb (ob_libc_found st) then None
    else
      '(objs, vm, m, _) ← wrappers_of_objects 0 (ob_objs st) vm m
                            (asm_wrapper_space + PAGE_SIZE);
      '(objs, m) ← activate_objects objs m;
      Some (objs, vm, m).

End intercept.

(** ** The log *)

(** What the kernel does for the library itself, by [syscall_no_intercept]: a call
    with its number and six arguments, the calls for the log, and the memory of the
    process, where a call finds its arguments. *)
Class Kernel (W : Type) := {
  k_syscall : Z -> args -> W -> Z * W;
  k_getpid : W -> Z * W;
  k_open : string -> Z -> Z -> W -> Z * W;
  k_write : Z -> string -> W -> W;
  k_close : Z -> W -> W;
  k_mem : W -> mem
}.

(** A string read from a buffer: [s] was copied there with its terminator, then the
    digits over the terminator; [old] is what the buffer held before. *)
Definition append_number (old s digits : string) : string :=
  (s +:+ digits +:+
   String.substring (String.length s + String.length digits) (String.length old) old)%string.

Definition last_char (s : string) : option ascii := String.get (String.length s - 1) s.

Definition PATH_MAX : nat := 4096.
Definition O_TRUNC : Z := 512.
Definition O_APPEND : Z := 1024.

Definition syscall_error_code (result : Z) : Z :=
  if (result <? 0) && (- 0x1000 <=? result) then s32 (- result) else 0.

Section run.
Context `{Kernel W}.

(** The library while the process runs: [log_fd] and the rest of the system. *)
Record state := State { s_log_fd : Z; s_world : W }.

Definition intercept_log_close (s : state) : state :=
  if 0 <=? s_log_fd s then State (- 1) (k_close (s_log_fd s) (s_world s)) else s.

(** [intercept_setup_log]; [old] is what the buffer on the stack held. *)
Definition intercept_setup_log (old : string) (path trunc : option string) (s : state)
    : option state :=
  match path with
  | None | Some EmptyString => Some s
  | Some path =>
      if (PATH_MAX <=? String.length path)%nat then None
      else
        let opened (s : state) (full_path : string) :=
          let flags := Z.lor (Z.lor (Z.lor O_CREAT O_RDWR) O_APPEND) O_TRUNC in
          let flags := match trunc with
                       | Some (String c _) =>
                           if Ascii.eqb c "0" then Z.land flags (Z.lnot O_TRUNC) else flags
                       | _ => flags
                       end in
          let s := intercept_log_close s in
          let '(fd, w) := k_open full_path flags 448 (s_world s) in
          let log_fd := s32 fd in
          if syscall_error_code log_fd =? 0 then Some (State log_fd w) else None in
        if bool_decide (last_char path = Some "-"%char) then
          let '(pid, w) := k_getpid (s_world s) in
          let s := State (s_log_fd s) w in
          if pid <? 0 then Some s
          else opened s (append_number old path (print_number (u64 pid) 10 0))
        else opened s path
  end.

(** [intercept_log_syscall]; [None] when the line does not fit into the buffer. *)
Definition intercept_log_syscall (patch : Z) (desc : syscall_desc)
    (result_known : intercept_log_result) (result : Z) (s : state) : option state :=
  if s_log_fd s <? 0 then Some s
  else
    line ← log_line (k_mem (s_world s)) patch desc result_known result;
    if LOG_BUFFER_SIZE <? String.length line then None
    else Some (State (s_log_fd s) (k_write (s_log_fd s) line (s_world s))).

(** ** Messages to the library ([magic_syscalls.c]) *)

Definition SYS_write : Z := 1.
Definition SYS_rt_sigreturn : Z := 15.
Definition SYS_clone : Z := 56.
Definition SYS_vfork : Z := 58.
Definition SYS_clone3 : Z := 435.
Definition SYSCALL_INT_MAGIC_WRITE_FD : Z := 123.
Definition start_log_message : string := "SYSCALL_INTERCEPT_TEST_START_LOG".
Definition stop_log_message : string := "SYSCALL_INTERCEPT_TEST_STOP_LOG".

(** The string a pointer points to, as far as the callers look at it. *)
Definition string_at (n : nat) (w : W) (p : Z) : option string :=
  if p =? 0 then None else Some (cstr_upto n (k_mem w) (u64 p)).

(** [handle_magic_syscalls]: [Some (result, s)] for a message that was handled. *)
Definition handle_magic_syscalls (old : string) (desc : syscall_desc) (s : state)
    : option (option Z * state) :=
  let a := sd_args desc in
  if negb (sd_nr desc =? SYS_write) then Some (None, s)
  else if negb (a0 a =? SYSCALL_INT_MAGIC_WRITE_FD) then Some (None, s)
  else
    let message := cstr_upto 64 (k_mem (s_world s)) (u64 (a1 a)) in
    let len := u64 (a2 a) in
    if strncmp_eq (Z.to_nat (Z.min len 64)) message start_log_message then
      s ← intercept_setup_log old (string_at PATH_MAX (s_world s) (a3 a))
            (string_at 1 (s_world s) (a4 a)) s;
      Some (Some (s64 len), s)
    else if strncmp_eq (Z.to_nat (Z.min len 64)) message stop_log_message then
      Some (Some (s64 len), intercept_log_close s)
    else Some (None, s).

(** ** The routine called by the wrappers *)

(** The pointer to the patch and the general registers of [struct context]. *)
Record context := Context_ {
  x_patch_desc : Z; x_rip : Z; x_r15 : Z; x_r14 : Z; x_r13 : Z; x_r12 : Z; x_r10 : Z; x_r9 : Z; x_r8 : Z;
  x_rsp : Z; x_rbp : Z; x_rdi : Z; x_rsi : Z; x_rbx : Z; x_rdx : Z; x_rax : Z
}.

Definition get_syscall_in_context (c : context) : syscall_desc :=
  SyscallDesc (s32 (x_rax c)) (Args (x_rdi c) (x_rsi c) (x_rdx c) (x_r10 c) (x_r8 c) (x_r9 c)).

Record wrapper_ret := WrapperRet { w_rax : Z; w_rdx : Z }.

(** The hooks: [intercept_hook_point] with the value of [result] before it, which may
    end in an invalid access, and the two for [clone]; [None] for a null pointer. *)
Record hooks := Hooks {
  intercept_hook_point : option (syscall_desc -> Z -> W -> option (Z * Z * W));
  intercept_hook_point_clone_child : option (W -> W);
  intercept_hook_point_clone_parent : option (Z -> W -> W)
}.

(** Arguments a new thread needs its own stack for; [stack] is at 40 in [struct
    clone_args]. *)
Definition clones_stack (desc : syscall_desc) (w : W) : bool :=
  ((sd_nr desc =? SYS_clone) && negb (a1 (sd_args desc) =? 0)) ||
  ((sd_nr desc =? SYS_clone3) && negb (load64 (k_mem w) (u64 (a0 (sd_args desc)) + 40) =? 0)).

(** [intercept_routine]; [old] and [garbage] are what the stack holds where the
    buffer and [result] are. *)
Definition intercept_routine (hk : hooks) (old : string) (garbage : Z) (c : context)
    (s : state) : option (wrapper_ret * state) :=
  let desc := get_syscall_in_context c in
  '(handled, s) ← handle_magic_syscalls old desc s;
  match handled with
  | Some result => Some (WrapperRet result 1, s)
  | None =>
      s ← intercept_log_syscall (x_patch_desc c) desc UNKNOWN 0 s;
      '(forward_to_kernel, result, s) ←
        match intercept_hook_point hk with
        | Some hook =>
            '(f, r, w) ← hook desc garbage (s_world s);
            Some (s32 f, r, State (s_log_fd s) w)
        | None => Some (1, garbage, s)
        end;
      if (sd_nr desc =? SYS_vfork) || (sd_nr desc =? SYS_rt_sigreturn) then
        Some (WrapperRet (x_rax c) 0, s)
      else if negb (forward_to_kernel =? 0) && clones_stack desc (s_world s) then
        Some (WrapperRet (x_rax c) 2, s)
      else
        let '(result, s) :=
          if negb (forward_to_kernel =? 0) then
            let '(result, w) := k_syscall (sd_nr desc) (sd_args desc) (s_world s) in
            (result, State (s_log_fd s) w)
          else (result, s) in
        s ← intercept_log_syscall (x_patch_desc c) desc KNOWN result s;
        Some (WrapperRet result 1, s)
  end.

Definition intercept_routine_post_clone (hk : hooks) (c : context) (s : state)
    : wrapper_ret * state :=
  let w :=
    if x_rax c =? 0 then
      match intercept_hook_point_clone_child hk with
      | Some f => f (s_world s)
      | None => s_world s
      end
    else
      match intercept_hook_point_clone_parent hk with
      | Some f => f (x_rax c) (s_world s)
      | None => s_world s
      end in
  (WrapperRet (x_rax c) 1, State (s_log_fd s) w).

End run.

End Intercept.
