(* ===== verification/InterceptSelect.v ===== *)
(** * Which processes are hooked and which libraries are patched

    The filter on the command line accepts the name of a program with or without the
    directories before it; a library is selected by the part of its file name before
    the first dash or dot. *)

From Stdlib Require Import Ascii.
From S2P Require Import Prelude Defs Util Intercept.
Import Util.Util Intercept.

#[local] Open Scope Z_scope.

Module InterceptSelect.

(** ** Strings *)

Lemma substring_all s : String.substring 0 (String.length s) s = s.
Proof. induction s as [|c s IH]; cbn; [done|]. f_equal. apply IH. Qed.

Lemma substring_append a b :
  String.substring (String.length a) (String.length b) (a +:+ b)%string = b.
Proof. induction a as [|c a IH]; [apply substring_all|exact IH]. Qed.

(** A string in two parts. *)
Lemma split_at n : forall s, (n <= String.length s)%nat ->
  exists a, s = (a +:+ String.substring n (String.length s - n) s)%string /\ String.length a = n.
Proof.
  induction n as [|n IH]; intros s Hn.
  - exists EmptyString. rewrite Nat.sub_0_r, substring_all. done.
  - destruct s as [|c s]; [cbn in Hn; lia|]. cbn in Hn.
    destruct (IH s ltac:(lia)) as (a & E & El). exists (String c a).
    split; [exact (f_equal (String c) E)|]. cbn. by rewrite El.
Qed.

(** The last character. *)
Lemma get_last a b : (0 < String.length a)%nat ->
  exists a' c, a = (a' +:+ String c EmptyString)%string /\
    String.get (String.length a - 1) (a +:+ b)%string = Some c.
Proof.
  induction a as [|x a IH]; [cbn; lia|]. intros _. destruct a as [|y a].
  - by exists EmptyString, x.
  - destruct IH as (a' & c & E & Hg); [cbn; lia|]. exists (String x a'), c.
    split; [exact (f_equal (String x) E)|]. cbn [String.length] in Hg |- *.
    replace (S (S (String.length a)) - 1)%nat with (S (String.length a)) by lia.
    replace (S (String.length a) - 1)%nat with (String.length a) in Hg by lia. exact Hg.
Qed.

(** ** Processes *)

Lemma cmdline_match_spec cmdline filter :
  cmdline_match cmdline (Some filter) = true <->
    cmdline = filter \/ exists dir, cmdline = (dir +:+ "/" +:+ filter)%string.
Proof.
  unfold cmdline_match. set (clen := String.length cmdline). set (flen := String.length filter).
  destruct (clen <? flen)%nat eqn:E1.
  { apply Nat.ltb_lt in E1. split; [done|]. intros [->|(dir & ->)]; unfold clen, flen in *; [lia|].
    rewrite !append_length in E1. cbn in E1. lia. }
  apply Nat.ltb_ge in E1.
  destruct (split_at (clen - flen) cmdline ltac:(unfold clen; lia)) as (a & Ea & La).
  replace (String.length cmdline - (clen - flen))%nat with flen in Ea by (unfold clen in *; lia).
  set (b := String.substring (clen - flen) flen cmdline) in *.
  destruct (flen <? clen)%nat eqn:E2; cbn [andb].
  - apply Nat.ltb_lt in E2. destruct (get_last a b) as (a' & c & Ec & Hg); [lia|].
    rewrite <-Ea in Hg. unfold char_at. rewrite <-La, Hg.
    destruct (bool_decide _) eqn:E3; cbn [negb].
    + apply bool_decide_eq_true in E3. injection E3 as ->.
      rewrite String.eqb_eq. split.
      * intros Eb. right. exists a'. rewrite Ea, Eb, Ec, append_assoc. done.
      * intros [Ef|(dir & Ef)].
        { exfalso. unfold clen, flen in *. rewrite Ef in E2. lia. }
        unfold b. rewrite Ef. rewrite <-append_assoc.
        replace (clen - flen)%nat with (String.length (dir +:+ "/")%string)
          by (unfold clen, flen; rewrite Ef, !append_length; cbn; lia).
        apply substring_append.
    + split; [done|]. intros [Ef|(dir & Ef)].
      { exfalso. unfold clen, flen in *. rewrite Ef in E2. lia. }
      apply bool_decide_eq_false in E3. exfalso. apply E3.
      rewrite <-append_assoc in Ef.
      assert (String.length (dir +:+ "/")%string = String.length a) as Hl.
      { rewrite La. unfold clen, flen. rewrite Ef, (append_length (dir +:+ "/")%string). lia. }
      destruct (get_last (dir +:+ "/")%string filter) as (d' & c' & Ec' & Hg').
      { rewrite append_length. cbn. lia. }
      rewrite Hl, <-Ef, Hg in Hg'. injection Hg' as ->. f_equal.
      clear -Ec'. revert d' Ec'. induction dir as [|x dir IH]; intros [|y d'] E; cbn in E;
        simplify_eq; [done|destruct d'; done|destruct dir; done|by eapply IH].
  - apply Nat.ltb_ge in E2. assert (clen = flen) as El by lia.
    assert (b = cmdline) as ->.
    { unfold b. rewrite El, Nat.sub_diag, <-El. apply substring_all. }
    rewrite String.eqb_eq. split; [by left|]. intros [?|(dir & Ef)]; [done|].
    exfalso. unfold clen, flen in El. rewrite Ef, !append_length in El. cbn in El. lia.
Qed.

(** ** Libraries *)

Fixpoint no_char (set s : string) : bool :=
  match s with
  | EmptyString => true
  | String c s => negb (char_in c set) && no_char set s
  end.

(** The name [base] with something behind a dash or a dot, as in [libc-2.31.so]. *)
Definition named (base name : string) : Prop :=
  exists rest, name = (base +:+ rest)%string /\
    (rest = EmptyString \/ exists c r, rest = String c r /\ char_in c "-." = true).

Lemma str_match_spec base : forall name,
  no_char "-." base = true ->
  str_match name (strcspn name "-.") base = true <-> named base name.
Proof.
  unfold str_match, named. induction base as [|b base IH]; intros name Hb; cbn [no_char] in Hb.
  - split.
    + destruct name as [|c name]; cbn [strcspn]; [intros _; exists EmptyString; split; [done|by left]|].
      destruct (char_in c "-.") eqn:E; cbn; [|done]. intros _.
      exists (String c name). split; [done|]. right. by exists c, name.
    + intros (rest & -> & [->|(c & r & -> & Hc)]); [done|].
      change ((EmptyString +:+ String c r)%string) with (String c r). cbn [strcspn].
      by rewrite Hc.
  - apply andb_true_iff in Hb as [Hb1 Hb2]. apply negb_true_iff in Hb1.
    destruct name as [|c name].
    + split; [done|]. by intros (rest & E & _).
    + specialize (IH name Hb2). cbn [strcspn].
      destruct (char_in c "-.") eqn:Ec.
      * split; [done|]. intros (rest & E & _). injection E as -> _. congruence.
      * cbn [String.length Nat.eqb strncmp_eq]. split.
        { intros [H1 [H2 H3]%andb_true_iff]%andb_true_iff. apply Ascii.eqb_eq in H2 as ->.
          destruct (proj1 IH) as (rest & -> & Hr); [by rewrite H1, H3|].
          exists rest. split; [done|exact Hr]. }
        { intros (rest & E & Hr). injection E as -> ->.
          rewrite Ascii.eqb_refl. cbn [andb]. apply IH. by exists rest. }
Qed.

(** Without [INTERCEPT_ALL_OBJS] the C library and the thread library are patched,
    wherever they are, unless they are the vdso or the library itself. *)
Lemma should_patch_object_spec self_addr vdso_addr libc_found addr path :
  let name := get_lib_short_name path in
  (should_patch_object self_addr vdso_addr false libc_found addr path).1 = true <->
    is_vdso vdso_addr addr path = false /\ addr <> self_addr /\
    (named "libc" name \/ named "libpthread" name).
Proof.
  intros name. unfold should_patch_object. fold name.
  rewrite <-!str_match_spec by done.
  destruct (is_vdso vdso_addr addr path); [by split; [|intros [? _]]|].
  destruct (strcspn name "-." =? 0)%nat eqn:E0.
  { apply Nat.eqb_eq in E0. unfold str_match. rewrite E0. cbn. naive_solver. }
  destruct (addr =? self_addr) eqn:E1; zbool; [by split; [|intros (_ & ? & _)]|].
  destruct (str_match name (strcspn name "-.") "libcapstone") eqn:E2.
  { unfold str_match in *. apply andb_true_iff in E2 as [E2 _]. apply Nat.eqb_eq in E2.
    rewrite E2. cbn. naive_solver. }
  destruct (str_match name (strcspn name "-.") "libc"); [cbn; naive_solver|].
  destruct (str_match name (strcspn name "-.") "libpthread"); cbn; naive_solver.
Qed.

End InterceptSelect.
