(* ===== verification/InterceptSpec.v ===== *)
(** * All objects of a process are patched

    The two loops of [intercept] over the objects found: the wrappers of all objects
    are generated one after the other in one space, each object gets a table of
    jumps near its text, then the texts are overwritten.  Objects do not disturb each
    other, so that what [Patching] shows for one text holds for all. *)

From S2P Require Import Prelude Defs Util Disasm InterceptDesc Patcher PatchLayout PatchPlace.
From S2P Require Import PatchedText MiniX86 Patching Trampoline Intercept.
Import Util.Util Disasm InterceptDesc Patcher PatchLayout PatchPlace PatchedText Patching.
Import MiniX86 Trampoline Intercept.

#[local] Open Scope Z_scope.

Module InterceptSpec.

(** ** How much space wrappers take *)

Section space.
Variable T : template.
Variable patch_ptr : nat -> Z.

Definition advances (f : mem -> Z -> option (Z * mem)) (c : list byte) : Prop :=
  forall m dst dst' m', f m dst = Some (dst', m') -> dst' = dst + zlength c.

Lemma advances_seq f g c1 c2 :
  advances f c1 -> advances g c2 -> advances (and_then f g) (c1 ++ c2).
Proof.
  intros F G m dst dst' m'. unfold and_then. destruct (f m dst) as [[d1 m1]|] eqn:E1; [|done].
  cbn. intros E2. apply F in E1. apply G in E2. rewrite length_app. lia.
Qed.

Lemma advances_pick (b : bool) f c :
  (b = true -> advances f c) -> advances (pick b f) (if b then c else []).
Proof. destruct b; [by auto|]. intros _ m dst dst' m'. cbn. intros [= <- <-]. lia. Qed.

Lemma advances_reloc desc m0 ins :
  ins_ok desc ins -> advances (relocated ins) (reloc_code m0 ins).
Proof.
  intros (Hl & _) m dst dst' m'. unfold relocated, relocate_instruction, reloc_code.
  destruct (d_is_lea_rip ins).
  - unfold create_movabs, assert_. destruct (_ <? _); [|done]. by intros [= <- <-].
  - intros [= <- <-]. by rewrite zlength_mem_read.
Qed.

Lemma advances_template i :
  template_wf T -> advances (copy_template T patch_ptr i) (template_code T patch_ptr i).
Proof.
  intros TW m dst dst' m'. rewrite zlength_template_code by done. by intros [= <- <-].
Qed.

Lemma advances_wrapper desc m0 i p :
  template_wf T -> moves_ok desc p ->
  advances (wrapper_pieces T patch_ptr i p) (wrapper_code T patch_ptr m0 i p).
Proof.
  intros TW (H1 & H2 & H3). unfold wrapper_pieces, wrapper_code.
  apply advances_seq; [apply advances_pick; intros; apply advances_seq|
    apply advances_seq; [by apply advances_template|apply advances_seq]];
    eauto using advances_reloc, advances_pick. by intros m dst dst' m' [= <- <-].
Qed.

(** A run of the loop makes the decisions of [place_all], and advances by the
    length of the code. *)
Lemma wrappers_loop_places todo : forall i n desc m dst items desc' m' dst',
  wrappers_loop T patch_ptr todo i n desc m dst = Some (items, desc', m', dst') ->
  exists ps, place_all todo n desc = Some (ps, desc') /\
    forall m0, template_wf T -> Forall (moves_ok desc) ps ->
      dst' = dst + zlength (wrappers_code T patch_ptr m0 i ps).
Proof.
  induction todo as [|p todo IH]; intros i n desc m dst items desc' m' dst'; cbn [wrappers_loop].
  { intros [= <- <- <- <-]. exists []. split; [done|]. cbn. lia. }
  destruct (place_patch desc p n) as [[[p1 d1] n1]|] eqn:E1; [|done]. cbn [mbind option_bind].
  rewrite create_wrapper_pieces.
  destruct (wrapper_pieces T patch_ptr i p1 m dst) as [[dst1 m1]|] eqn:E2; [|done].
  cbn [mbind option_bind].
  destruct (wrappers_loop _ _ todo _ _ _ _ _) as [[[[its d2] m2] dst2]|] eqn:E3; [|done].
  intros [= <- <- <- <-]. destruct (IH _ _ _ _ _ _ _ _ _ E3) as (ps & E4 & Hlen).
  exists (p1 :: ps). cbn [place_all]. rewrite E1. cbn [mbind option_bind]. rewrite E4.
  split; [done|]. intros m0 TW [M1 M2]%Forall_cons. cbn [wrappers_code]. rewrite length_app.
  pose proof (advances_wrapper desc m0 i p1 TW M1 _ _ _ _ E2) as ->.
  rewrite (Hlen m0 TW); [lia|]. eapply Forall_impl; [exact M2|]. intros q.
  assert (forall x, in_text d1 x = in_text desc x) as Hin.
  { intros x. by eapply place_patch_text. }
  unfold moves_ok, ins_ok. by setoid_rewrite Hin.
Qed.

End space.

Lemma place_all_length todo : forall n desc ps desc',
  place_all todo n desc = Some (ps, desc') -> length ps = length todo.
Proof.
  induction todo as [|p todo IH]; intros n desc ps desc'; cbn [place_all]; [by intros [= <- <-]|].
  destruct (place_patch desc p n) as [[[p1 d1] n1]|]; [|done]. cbn [mbind option_bind].
  destruct (place_all todo n1 d1) as [[ps1 d2]|] eqn:E; [|done]. intros [= <- <-].
  cbn. by rewrite (IH _ _ _ _ E).
Qed.

(** ** One object *)

Section objects.
Context {cs : Capstone} `{PL : ProcessLaws VM}.
Variables (env : process_env) (T : template) (patch_ptr : nat -> nat -> Z) (space : Z).
(** The memory before patching. *)
Variable m0 : mem.
Hypothesis TW : template_wf T.
Hypothesis wants : wants_table (pe_no_trampoline env) = true.
Hypothesis space_range : 0 <= space /\ space + ASM_WRAPPER_SPACE < 2 ^ 64.

(** What is required of an object found: the sweep over its text has no gaps, no
    instruction that computes an address from [rip] stands between two close system
    calls ([lea_apart]), the text lies away from the space for wrappers, and it has not
    more system calls than the table of jumps has entries. *)
Record object_fit (desc : intercept_desc) : Prop := {
  of_decodes : decodes m0 desc;
  of_apart : lea_apart (text_listing m0 desc);
  of_space : away desc space ASM_WRAPPER_SPACE;
  of_offset : 0 <= i_text_offset desc;
  of_addr : i_text_end desc + 1 < 2 ^ 64;
  of_count : TRAMPOLINE_SIZE * length (i_items desc) < TRAMPOLINE_TABLE_SIZE
}.

(** Such an object after [find_syscalls], with what that found. *)
Record object_ok (desc : intercept_desc) (ks js : list nat) : Prop := {
  oo_layout : layout (text_listing m0 desc) desc ks js;
  oo_apart : lea_apart (text_listing m0 desc);
  oo_space : away desc space ASM_WRAPPER_SPACE;
  oo_addr : i_text_end desc + 1 < 2 ^ 64;
  oo_count : TRAMPOLINE_SIZE * length (i_items desc) < TRAMPOLINE_TABLE_SIZE
}.

Lemma layout_with_table l desc ks js table :
  layout l desc ks js -> layout l (with_table desc table) ks js.
Proof. by intros []. Qed.

Definition code_of (k : nat) (ps : list patch_desc) : list byte :=
  wrappers_code T (patch_ptr k) m0 0 ps.

(** The object [desc] with the number [k] after its wrappers were generated in [m1]. *)
Record installed (m1 : mem) (k : nat) (desc d1 : intercept_desc) (ks js : list nat)
    (table : Z) (ps : list patch_desc) (dst : Z) (t : list Z) : Prop := {
  in_ok : object_ok desc ks js;
  in_place : place_all (i_items desc) 0 (with_table desc table) =
    Some (ps, with_table desc table <| i_jump_table := t |>);
  in_room : room (with_table desc table) dst (zlength (code_of k ps)) (length ps);
  in_dst : space <= dst /\ dst + zlength (code_of k ps) <= space + ASM_WRAPPER_SPACE;
  in_desc : d1 = with_table desc table <| i_jump_table := t |>
      <| i_items := set_wrappers T (patch_ptr k) m0 0 dst ps |>;
  in_code : forall i q, i_items d1 !! i = Some q ->
    let code := wrapper_code T (patch_ptr k) m0 i q in
    mem_read m1 (p_asm_wrapper q) (zlength code) = code
}.

Lemma installed_placing m1 k desc d1 ks js table ps dst t :
  installed m1 k desc d1 ks js table ps dst t ->
  placing (text_listing m0 desc) ks 0 (with_table desc table) ps
    (with_table desc table <| i_jump_table := t |>).
Proof.
  intros I. eapply place_all_placing; [|done|apply I].
  apply (ly_sites _ _ _ _ (oo_layout _ _ _ (in_ok _ _ _ _ _ _ _ _ _ _ I))).
Qed.

Lemma install_object k desc ks js (vm : VM) d0 vm1 m dst d1 m1 dst1 :
  object_ok desc ks js -> text_mapped (maps_of vm) (pe_min_addr env) desc ->
  covered (maps_of vm) space ASM_WRAPPER_SPACE ->
  text_eq desc m0 m -> space <= dst -> dst1 <= space + ASM_WRAPPER_SPACE ->
  allocate_trampoline_table (pe_no_trampoline env) (pe_min_addr env) vm desc = Some (d0, vm1) ->
  create_patch_wrappers T (patch_ptr k) d0 m dst = Some (d1, m1, dst1) ->
  exists table ps t, installed m1 k desc d1 ks js table ps dst t /\
    emits m dst (code_of k ps) m1 dst1 /\
    unmapped (maps_of vm) table TRAMPOLINE_TABLE_SIZE /\
    covered (maps_of vm1) table TRAMPOLINE_TABLE_SIZE /\
    (forall b n, covered (maps_of vm) b n -> covered (maps_of vm1) b n).
Proof.
  intros O TM CS Ht Hd Hd1 Ea Ec.
  destruct (allocate_trampoline_table_spec _ _ _ _ _ _ TM wants Ea)
    as (table & -> & Hun & Hco & Hk & Hlo & Hhi).
  pose proof O as [L A Hsp Had Hct]. pose proof (layout_with_table _ _ _ _ table L) as L'.
  unfold create_patch_wrappers in Ec.
  destruct (wrappers_loop _ _ _ _ _ _ _ _) as [[[[its d2] m2] dst2]|] eqn:Ew; [|done].
  cbn in Ec. simplify_eq.
  destruct (wrappers_loop_places _ _ _ _ _ _ _ _ _ _ _ _ Ew) as (ps & Ep & Hlen).
  destruct (place_all_desc _ _ _ _ _ Ep) as [t ->].
  assert (placing (text_listing m0 desc) ks 0 (with_table desc table) ps
    (with_table desc table <| i_jump_table := t |>)) as PS.
  { eapply place_all_placing; [apply (ly_sites _ _ _ _ L)|done|exact Ep]. }
  pose proof (placing_moves _ _ _ _ L' _ _ _ PS) as M.
  rewrite (Hlen m0 TW M) in *. fold (code_of k ps) in *.
  assert (length ps = length (i_items desc)) as El by (by apply (place_all_length _ _ _ _ _ Ep)).
  assert (room (with_table desc table) dst (zlength (code_of k ps)) (length ps)) as R.
  { split.
    - intros x Hx Hr. apply (Hsp x Hx). lia.
    - lia.
    - cbn. destruct TM as [_ ? _]. lia.
    - intros _. eapply allocated_room; [done|exact CS|done..| | |lia|]; rewrite ?El; lia.
    - done. }
  destruct (wrappers_created _ _ _ _ L' ps _ PS T (patch_ptr k) m0 dst TW R m Ep Ht)
    as (m1' & Ec' & Em). unfold create_patch_wrappers in Ec'. rewrite Ew in Ec'.
  cbn in Ec'. simplify_eq.
  exists table, ps, t. split_and!; try done. split; try done.
  intros i q Hq. by eapply wrapper_read.
Qed.

(** ** The first loop *)

Lemma allocate_layout l desc ks js (vm : VM) d0 vm1 no min_line :
  layout l desc ks js ->
  allocate_trampoline_table no min_line vm desc = Some (d0, vm1) -> layout l d0 ks js.
Proof.
  intros L. unfold allocate_trampoline_table. destruct (wants_table no); cbn.
  - destruct (proc_maps vm) as [maps|]; [|done]. cbn. destruct (find_gap _ _ _ _) as [g|]; [|done].
    cbn. destruct (proc_mmap _ _ _) as [[tb vm']|]; [|done]. cbn. intros [= <- _].
    by destruct L.
  - intros [= <- _]. by destruct L.
Qed.

Lemma create_le l d0 ks js k m dst d1 m1 dst1 :
  layout l d0 ks js -> create_patch_wrappers T (patch_ptr k) d0 m dst = Some (d1, m1, dst1) ->
  dst <= dst1.
Proof.
  intros L. unfold create_patch_wrappers.
  destruct (wrappers_loop _ _ _ _ _ _ _ _) as [[[[its d2] m2] dst2]|] eqn:Ew; [|done].
  intros [= <- <- <-].
  destruct (wrappers_loop_places _ _ _ _ _ _ _ _ _ _ _ _ Ew) as (ps & Ep & Hlen).
  assert (placing l ks 0 d0 ps d2) as PS.
  { eapply place_all_placing; [apply (ly_sites _ _ _ _ L)|done|exact Ep]. }
  rewrite (Hlen m0 TW (placing_moves _ _ _ _ L _ _ _ PS)). lia.
Qed.

Definition analysed (desc : intercept_desc) : Prop := exists ks js, object_ok desc ks js.

Lemma wrappers_of_objects_le objs : forall k (vm : VM) m next objs1 vm1 m1 next1,
  Forall analysed objs ->
  wrappers_of_objects env T patch_ptr space k objs vm m next = Some (objs1, vm1, m1, next1) ->
  next <= next1.
Proof.
  induction objs as [|desc objs IH]; intros k vm m next objs1 vm1 m1 next1; cbn [wrappers_of_objects].
  { by intros _ [= <- <- <- <-]. }
  intros [(ks & js & O) HF]%Forall_cons. destruct (_ && _); [done|].
  destruct (allocate_trampoline_table _ _ _ _) as [[d0 vm2]|] eqn:Ea; [|done].
  cbn [mbind option_bind].
  destruct (create_patch_wrappers _ _ _ _ _) as [[[d1 m2] next2]|] eqn:Ec; [|done].
  cbn [mbind option_bind].
  destruct (wrappers_of_objects _ _ _ _ _ _ _ _ _) as [[[[os vm3] m3] next3]|] eqn:Ew; [|done].
  intros [= <- <- <- <-]. apply IH in Ew; [|done].
  pose proof (allocate_layout _ _ _ _ _ _ _ _ _ (oo_layout _ _ _ O) Ea) as L.
  pose proof (create_le _ _ _ _ _ _ _ _ _ _ L Ec). lia.
Qed.

Definition range_apart (a n : Z) (r : Z * Z) : Prop := a + n <= r.1 \/ r.1 + r.2 <= a.

(** Objects with their wrappers in [m1] and tables away from the ranges [C] and
    from each other. *)
Inductive installs (m1 : mem) : nat -> list (Z * Z) -> list intercept_desc ->
    list intercept_desc -> Prop :=
| installs_nil k C : installs m1 k C [] []
| installs_cons k C desc d1 ks js table ps dst t objs objs1 :
    installed m1 k desc d1 ks js table ps dst t ->
    Forall (range_apart table TRAMPOLINE_TABLE_SIZE) C ->
    installs m1 (S k) ((table, TRAMPOLINE_TABLE_SIZE) :: C) objs objs1 ->
    installs m1 k C (desc :: objs) (d1 :: objs1).

(** What was installed stays when nothing below the next free address changes. *)
Lemma installed_mono m1 m2 k desc d1 ks js table ps dst t :
  installed m1 k desc d1 ks js table ps dst t ->
  (forall x, x < dst + zlength (code_of k ps) -> m2 x = m1 x) ->
  installed m2 k desc d1 ks js table ps dst t.
Proof.
  intros I Hm. pose proof I as [? ? ? ? Ed Hc]. split; try done. intros i q Hq code.
  transitivity (mem_read m1 (p_asm_wrapper q) (zlength code)); [|by apply Hc].
  rewrite Ed in Hq. cbn in Hq.
  destruct (wrapper_of _ _ _ _ _ _ _ Hq) as (p & _ & _ & Hd & Hl & _).
  apply mem_read_ext. intros x Hx. apply Hm. unfold code in Hx. unfold code_of. lia.
Qed.

Lemma covered_apart maps C a n :
  Forall (fun r => covered maps r.1 r.2) C -> unmapped maps a n ->
  Forall (range_apart a n) C.
Proof.
  intros HC Hu. eapply Forall_impl; [exact HC|]. intros [b k] Hb. unfold range_apart.
  by apply (covered_unmapped maps).
Qed.

Lemma text_mapped_mono maps maps' min_line desc :
  (forall b n, covered maps b n -> covered maps' b n) ->
  text_mapped maps min_line desc -> text_mapped maps' min_line desc.
Proof. intros Hm []. split; auto. Qed.

Lemma install_objects objs : forall k (vm : VM) m next objs1 vm1 m1 next1 C,
  Forall analysed objs -> Forall (text_mapped (maps_of vm) (pe_min_addr env)) objs ->
  Forall (fun desc => text_eq desc m0 m) objs ->
  covered (maps_of vm) space ASM_WRAPPER_SPACE ->
  Forall (fun r => covered (maps_of vm) r.1 r.2) C ->
  space <= next -> next1 <= space + ASM_WRAPPER_SPACE ->
  wrappers_of_objects env T patch_ptr space k objs vm m next = Some (objs1, vm1, m1, next1) ->
  installs m1 k C objs objs1 /\ exists code, emits m next code m1 next1.
Proof.
  induction objs as [|desc objs IH]; intros k vm m next objs1 vm1 m1 next1 C HA HM HT CS HC Hn Hn1;
    cbn [wrappers_of_objects].
  { intros [= <- <- <- <-]. split; [constructor|]. exists []. apply emits_nil. }
  apply Forall_cons in HA as [(ks & js & O) HA], HM as [M HM], HT as [Ht HT].
  destruct (_ && _); [done|].
  destruct (allocate_trampoline_table _ _ _ _) as [[d0 vm2]|] eqn:Ea; [|done].
  cbn [mbind option_bind].
  destruct (create_patch_wrappers _ _ _ _ _) as [[[d1 m2] next2]|] eqn:Ec; [|done].
  cbn [mbind option_bind].
  destruct (wrappers_of_objects _ _ _ _ _ _ _ _ _) as [[[[os vm3] m3] next3]|] eqn:Ew; [|done].
  intros [= <- <- <- <-]. pose proof (wrappers_of_objects_le _ _ _ _ _ _ _ _ _ HA Ew) as Hle.
  pose proof (allocate_layout _ _ _ _ _ _ _ _ _ (oo_layout _ _ _ O) Ea) as L0.
  pose proof (create_le _ _ _ _ _ _ _ _ _ _ L0 Ec) as Hle2.
  destruct (install_object k desc ks js vm d0 vm2 m next d1 m2 next2 O M CS Ht Hn ltac:(lia) Ea Ec)
    as (table & ps & t & I & Em & Hun & Hco & Hk).
  destruct (IH (S k) vm2 m2 next2 os vm3 m3 next3 ((table, TRAMPOLINE_TABLE_SIZE) :: C))
    as [IS (code & Em')]; try done.
  - eapply Forall_impl; [exact HM|]. intros d. by apply text_mapped_mono.
  - rewrite Forall_forall in HT, HA |- *. intros d Hd. eapply emits_text; [by apply HT|done|].
    destruct (HA d Hd) as (ks' & js' & O'). intros x Hx Hr.
    apply (oo_space _ _ _ O' x Hx). lia.
  - by apply Hk.
  - constructor; [done|]. eapply Forall_impl; [exact HC|]. intros r. apply Hk.
  - lia.
  - split; [|exists (code_of k ps ++ code); by eapply emits_app].
    econstructor; [|by eapply covered_apart|exact IS].
    eapply installed_mono; [exact I|]. intros x Hx. eapply emits_outside; [exact Em'|].
    destruct Em as [-> _]. lia.
Qed.

(** ** The second loop *)

Definition object_stores (d1 : intercept_desc) : list store :=
  all_stores true (i_next_trampoline d1) (i_items d1).

Section installed.
Context {m1 : mem} {k : nat} {desc d1 : intercept_desc} {ks js : list nat} {table : Z}.
Context {ps : list patch_desc} {dst : Z} {t : list Z}.
Hypothesis I : installed m1 k desc d1 ks js table ps dst t.

Let L : layout (text_listing m0 desc) (with_table desc table) ks js :=
  layout_with_table _ _ _ _ _ (oo_layout _ _ _ (in_ok _ _ _ _ _ _ _ _ _ _ I)).
Let A : lea_apart (text_listing m0 desc) := oo_apart _ _ _ (in_ok _ _ _ _ _ _ _ _ _ _ I).
Let R : room (with_table desc table) dst (zlength (code_of k ps)) (length ps) :=
  in_room _ _ _ _ _ _ _ _ _ _ I.
Let PS := installed_placing _ _ _ _ _ _ _ _ _ _ I.

Lemma installed_items : i_items d1 = set_wrappers T (patch_ptr k) m0 0 dst ps.
Proof. by rewrite (in_desc _ _ _ _ _ _ _ _ _ _ I). Qed.

Lemma installed_stores :
  object_stores d1 = all_stores true table (set_wrappers T (patch_ptr k) m0 0 dst ps).
Proof. unfold object_stores. by rewrite (in_desc _ _ _ _ _ _ _ _ _ _ I). Qed.

Lemma activate_installed m :
  exists d2 m2, activate_patches d1 m = Some (d2, m2) /\ i_items d2 = i_items d1 /\
    meq m2 (apply_stores m (object_stores d1)).
Proof.
  rewrite installed_items, installed_stores, (in_desc _ _ _ _ _ _ _ _ _ _ I).
  by apply (patches_activated _ _ _ _ L ps _ PS T (patch_ptr k) m0 dst R m t).
Qed.

Lemma stores_separate : separate (object_stores d1).
Proof.
  rewrite installed_stores. apply all_stores_separate.
  by apply (placing_disjoint_patches _ _ _ _ L ps _ PS T (patch_ptr k) m0 dst A R).
Qed.

(** Stores hit what patches own or the table. *)
Lemma stores_place s x :
  s ∈ object_stores d1 -> in_store s x ->
  (exists i q, i_items d1 !! i = Some q /\ owned q x) \/
  table <= x < table + TRAMPOLINE_TABLE_SIZE.
Proof.
  rewrite installed_stores, installed_items. intros Hs Hx.
  destruct (placing_disjoint_patches _ _ _ _ L ps _ PS T (patch_ptr k) m0 dst A R) as [C _ _].
  destruct (all_stores_place _ _ _ _ _ C Hs Hx) as (i & q & Hq & [H1|[_ H1]]); [left; eauto|right].
  destruct (rm_table _ _ _ _ R eq_refl) as [_ Hz _ _ _ _]. cbn in Hz.
  apply lookup_lt_Some in Hq. rewrite set_wrappers_length in Hq.
  unfold TRAMPOLINE_SIZE in *. nia.
Qed.

Lemma installed_owned_text i q x :
  i_items d1 !! i = Some q -> owned q x -> in_text desc x = true.
Proof.
  rewrite installed_items. intros Hq Ho.
  by apply (owned_text _ _ _ _ L ps _ PS T (patch_ptr k) m0 dst i q x).
Qed.

Lemma stores_region s x :
  s ∈ object_stores d1 -> in_store s x ->
  in_text desc x = true \/ table <= x < table + TRAMPOLINE_TABLE_SIZE.
Proof.
  intros Hs Hx. destruct (stores_place s x Hs Hx) as [(i & q & Hq & Ho)|?]; [left|by right].
  by eapply installed_owned_text.
Qed.

(** A memory that has the stores and the wrappers has the patches. *)
Lemma installed_patched m2 i q :
  i_items d1 !! i = Some q ->
  (forall s, s ∈ object_stores d1 -> mem_read m2 s.1 (zlength s.2) = s.2) ->
  (forall x, space <= x < space + ASM_WRAPPER_SPACE -> m2 x = m1 x) ->
  patched T (patch_ptr k) m0 m2 i q.
Proof.
  intros Hq Hs Hm. pose proof Hq as Hq'. rewrite installed_items in Hq'.
  apply (reads_patched _ _ _ _ L ps _ PS T (patch_ptr k) m0 dst R m2 i q Hq').
  - intros s Hin. apply Hs. rewrite installed_stores. by eapply all_stores_elem.
  - intros code. transitivity (mem_read m1 (p_asm_wrapper q) (zlength code)).
    + destruct (wrapper_of _ _ _ _ _ _ _ Hq') as (p & _ & _ & Hd & Hl & _).
      destruct (in_dst _ _ _ _ _ _ _ _ _ _ I) as [D1 D2]. unfold code_of in D2.
      apply mem_read_ext. intros x Hx. apply Hm. unfold code in Hx. lia.
    + by apply (in_code _ _ _ _ _ _ _ _ _ _ I).
Qed.

Lemma installed_sites : Forall2 (site (text_listing m0 desc)) ks (i_items d1).
Proof.
  rewrite installed_items. apply Forall2_same_length_lookup. rewrite set_wrappers_length.
  split; [by rewrite (placing_length _ _ _ _ _ _ PS)|]. intros i j q Hk Hq.
  destruct (wrapper_of _ _ _ _ _ _ _ Hq) as (p & Hp & -> & _).
  destruct (placing_lookup _ _ _ _ _ _ PS i j p Hk Hp) as (d & n1 & n2 & P & _).
  by eapply site_fields; [..|apply P].
Qed.

End installed.

Lemma installs_lookup m1 k C objs objs1 :
  installs m1 k C objs objs1 -> forall j desc d1, objs !! j = Some desc -> objs1 !! j = Some d1 ->
  exists ks js table ps dst t, installed m1 (k + j) desc d1 ks js table ps dst t /\
    Forall (range_apart table TRAMPOLINE_TABLE_SIZE) C.
Proof.
  induction 1 as [|k C desc0 d0 ks js table ps dst t objs objs1 I HC IS IH]; intros j desc d1; [done|].
  destruct j as [|j]; cbn.
  - intros [= ->] [= ->]. rewrite Nat.add_0_r. by eauto 10.
  - intros Hd H1. destruct (IH j desc d1 Hd H1) as (ks' & js' & tb & ps' & dst' & t' & I' & HC').
    replace (k + S j)%nat with (S k + j)%nat by lia. apply Forall_cons in HC' as [_ ?].
    by eauto 10.
Qed.

Lemma installs_length m1 k C objs objs1 :
  installs m1 k C objs objs1 -> length objs1 = length objs.
Proof. induction 1; cbn; congruence. Qed.

Lemma activate_installs m1 k C objs objs1 :
  installs m1 k C objs objs1 -> forall m, exists objs2 m2,
    activate_objects objs1 m = Some (objs2, m2) /\
    Forall2 (fun d1 d2 => i_items d2 = i_items d1) objs1 objs2 /\
    meq m2 (apply_stores m (objs1 ≫= object_stores)).
Proof.
  induction 1 as [|k C desc d1 ks js table ps dst t objs objs1 I HC IS IH]; intros m;
    cbn [activate_objects mbind list_bind].
  { exists [], m. by repeat split. }
  destruct (activate_installed I m) as (d2 & m2 & -> & Ei & Em). cbn [mbind option_bind].
  destruct (IH m2) as (objs2 & m3 & -> & HF & Em3). cbn [mbind option_bind].
  exists (d2 :: objs2), m3. split; [done|]. split; [by constructor|].
  unfold apply_stores. rewrite foldl_app. rewrite Em3. by apply apply_stores_proper.
Qed.

(** ** Texts that do not overlap *)

Definition text_range (desc : intercept_desc) : Z * Z := (i_text_start desc, text_bytes desc).

Lemma in_text_range desc x :
  in_text desc x = true <-> i_text_start desc <= x < i_text_start desc + text_bytes desc.
Proof. unfold in_text, text_bytes. rewrite andb_true_iff, !Z.leb_le. lia. Qed.

(** No address is in two texts. *)
Definition texts_apart (objs : list intercept_desc) : Prop :=
  forall i j d d' x, (i < j)%nat -> objs !! i = Some d -> objs !! j = Some d' ->
    in_text d x = true -> in_text d' x = true -> False.

Lemma apart_text table C desc x :
  Forall (range_apart table TRAMPOLINE_TABLE_SIZE) C -> text_range desc ∈ C ->
  in_text desc x = true -> ~ (table <= x < table + TRAMPOLINE_TABLE_SIZE).
Proof.
  intros HC Hin Hx%in_text_range Ht. rewrite Forall_forall in HC.
  pose proof (HC _ Hin) as HC'. unfold range_apart, text_range in HC'. cbn in HC'. lia.
Qed.

Lemma installs_separate m1 k C objs objs1 :
  installs m1 k C objs objs1 -> texts_apart objs ->
  (forall desc, desc ∈ objs -> text_range desc ∈ C) ->
  separate (objs1 ≫= object_stores).
Proof.
  induction 1 as [|k C desc d1 ks js table ps dst t objs objs1 I HC IS IH]; intros HT HR;
    cbn [mbind list_bind]; [done|].
  apply separate_app. split; [by eapply stores_separate|]. split.
  { apply IH.
    - intros i j d d' x Hij. apply (HT (S i) (S j)). lia.
    - intros d Hd. right. apply HR. by right. }
  intros s s' Hs (d' & Hs' & Hd')%list_elem_of_bind x Hx Hx'.
  apply list_elem_of_lookup in Hd' as [j Hj].
  destruct (lookup_lt_is_Some_2 objs j) as [desc' Hdesc'].
  { rewrite <-(installs_length _ _ _ _ _ IS). by eapply lookup_lt_Some. }
  destruct (installs_lookup _ _ _ _ _ IS j desc' d' Hdesc' Hj)
    as (ks' & js' & table' & ps' & dst' & t' & I' & HC').
  assert (text_range desc ∈ C) as R1 by (apply HR; by left).
  assert (text_range desc' ∈ C) as R2 by (apply HR; right; by eapply list_elem_of_lookup_2).
  destruct (stores_region I s x Hs Hx) as [X|X], (stores_region I' s' x Hs' Hx') as [X'|X'].
  - by apply (HT 0%nat (S j) desc desc' x ltac:(lia) eq_refl Hdesc').
  - eapply apart_text; [exact HC'|right; exact R1|done|done].
  - eapply apart_text; [exact HC|exact R2|done|done].
  - apply Forall_cons in HC' as [H1 _]. unfold range_apart in H1. cbn in H1. lia.
Qed.

(** ** Both loops *)

(** The objects found, as they are mapped in the process. *)
Record loaded (vm : VM) (objs : list intercept_desc) : Prop := {
  ld_fit : Forall object_fit objs;
  ld_mapped : Forall (text_mapped (maps_of vm) (pe_min_addr env)) objs;
  ld_apart : texts_apart objs;
  ld_space : covered (maps_of vm) space ASM_WRAPPER_SPACE
}.

(** The text of [desc] with the patches of [d2] in the memory [m2]: every system
    call that is followed by an instruction has its patch, and the rest of the text
    is as before. *)
Record text_patched (m2 : mem) (k : nat) (desc d2 : intercept_desc) : Prop := {
  tp_sites : exists ks, Forall2 (site (text_listing m0 desc)) ks (i_items d2) /\
    forall i s f, text_listing m0 desc !! i = Some s -> d_is_syscall s = true ->
      text_listing m0 desc !! S i = Some f -> i ∈ ks;
  tp_patched : forall i p, i_items d2 !! i = Some p ->
    patched T (patch_ptr k) m0 m2 i p;
  tp_rest : forall x, in_text desc x = true ->
    (forall i p, i_items d2 !! i = Some p -> ~ owned p x) -> m2 x = m0 x
}.

Section patched.
Variables (objs objs1 objs2 : list intercept_desc) (m1 m2 : mem) (code : list byte) (next : Z).
Let C : list (Z * Z) := (space, ASM_WRAPPER_SPACE) :: (text_range <$> objs).
Hypothesis IS : installs m1 0 C objs objs1.
Hypothesis apart : texts_apart objs.
Hypothesis Em : emits m0 (space + PAGE_SIZE) code m1 next.
Hypothesis Hnext : next <= space + ASM_WRAPPER_SPACE.
Hypothesis Em2 : meq m2 (apply_stores m1 (objs1 ≫= object_stores)).

Lemma text_in_C desc : desc ∈ objs -> text_range desc ∈ C.
Proof. intros Hd. right. apply list_elem_of_fmap. eauto. Qed.

(** A store belongs to an object. *)
Lemma store_object s x :
  s ∈ objs1 ≫= object_stores -> in_store s x -> exists j desc d1 ks js table ps dst t,
    objs !! j = Some desc /\ objs1 !! j = Some d1 /\
    installed m1 j desc d1 ks js table ps dst t /\ s ∈ object_stores d1 /\
    Forall (range_apart table TRAMPOLINE_TABLE_SIZE) C.
Proof.
  intros (d1 & Hs & Hd)%list_elem_of_bind Hx. apply list_elem_of_lookup in Hd as [j Hj].
  destruct (lookup_lt_is_Some_2 objs j) as [desc Hdesc].
  { rewrite <-(installs_length _ _ _ _ _ IS). by eapply lookup_lt_Some. }
  destruct (installs_lookup _ _ _ _ _ IS j desc d1 Hdesc Hj)
    as (ks & js & table & ps & dst & t & I & HC).
  by exists j, desc, d1, ks, js, table, ps, dst, t.
Qed.

(** Stores do not reach the wrappers. *)
Lemma space_unchanged x : space <= x < space + ASM_WRAPPER_SPACE -> m2 x = m1 x.
Proof.
  intros Hx. rewrite (Em2 x). apply apply_stores_outside. apply Forall_forall. intros s Hs Hin.
  destruct (store_object s x Hs Hin) as (j & desc & d1 & ks & js & table & ps & dst & t &
    Hj & _ & I & Hs' & HC).
  destruct (stores_region I s x Hs' Hin) as [Ht|Ht].
  - apply (oo_space _ _ _ (in_ok _ _ _ _ _ _ _ _ _ _ I) x Ht Hx).
  - apply Forall_cons in HC as [H1 _]. unfold range_apart in H1. cbn in H1. lia.
Qed.

Lemma object_patched k desc d1 d2 :
  objs !! k = Some desc -> objs1 !! k = Some d1 -> i_items d2 = i_items d1 ->
  text_patched m2 k desc d2.
Proof.
  intros Hk Hk1 Ei. destruct (installs_lookup _ _ _ _ _ IS k desc d1 Hk Hk1)
    as (ks & js & table & ps & dst & t & I & HC). cbn [Nat.add] in I.
  pose proof (in_ok _ _ _ _ _ _ _ _ _ _ I) as O.
  split; rewrite ?Ei.
  - exists ks. split; [by apply (installed_sites I)|].
    apply (ly_complete _ _ _ _ (oo_layout _ _ _ O)).
  - intros i p Hp. apply (installed_patched I); [done| |apply space_unchanged].
    intros s Hs. rewrite Em2. apply apply_stores_inside.
    + eapply installs_separate; [exact IS|exact apart|apply text_in_C].
    + apply list_elem_of_bind. exists d1. split; [done|]. by eapply list_elem_of_lookup_2.
  - intros x Hx Ho. rewrite (Em2 x). transitivity (m1 x).
    2: { apply (emits_outside _ _ _ _ _ _ Em). intros Hr.
         apply (oo_space _ _ _ O x Hx). unfold PAGE_SIZE in *. lia. }
    apply apply_stores_outside. apply Forall_forall. intros s Hs Hin.
    destruct (store_object s x Hs Hin) as (j & desc' & d1' & ks' & js' & table' & ps' & dst' & t' &
      Hj & Hj1 & I' & Hs' & HC').
    destruct (stores_place I' s x Hs' Hin) as [(i & q & Hq & Hoq)|Ht].
    + pose proof (installed_owned_text I' i q x Hq Hoq) as Ht.
      destruct (lt_eq_lt_dec j k) as [[Hjk|Hjk]|Hjk].
      * by apply (apart j k desc' desc x).
      * subst j. assert (d1' = d1) as -> by congruence. by apply (Ho i q).
      * by apply (apart k j desc desc' x).
    + apply (apart_text table' _ desc x HC'); [apply text_in_C; by eapply list_elem_of_lookup_2|done..].
Qed.

End patched.

(** Patching the objects found. *)
Lemma objects_patched (vm : VM) objs objs1 vm1 m1 next :
  Forall analysed objs -> loaded vm objs ->
  wrappers_of_objects env T patch_ptr space 0 objs vm m0 (space + PAGE_SIZE) =
    Some (objs1, vm1, m1, next) ->
  next <= space + ASM_WRAPPER_SPACE ->
  exists objs2 m2, activate_objects objs1 m1 = Some (objs2, m2) /\
    length objs2 = length objs /\
    forall k desc d2, objs !! k = Some desc -> objs2 !! k = Some d2 ->
      text_patched m2 k desc d2.
Proof.
  intros HA [_ HM HT HS] Hw Hn.
  destruct (install_objects objs 0 vm m0 (space + PAGE_SIZE) objs1 vm1 m1 next
    ((space, ASM_WRAPPER_SPACE) :: (text_range <$> objs))) as [IS (code & Em)]; try done.
  - by apply Forall_forall.
  - constructor; [done|]. apply Forall_fmap. eapply Forall_impl; [exact HM|].
    intros d []. done.
  - unfold PAGE_SIZE. lia.
  - destruct (activate_installs _ _ _ _ _ IS m1) as (objs2 & m2 & Ea & HF & Em2).
    exists objs2, m2. split; [done|]. split.
    { rewrite <-(Forall2_length _ _ _ HF). by eapply installs_length. }
    intros k desc d2 Hk Hk2.
    destruct (Forall2_lookup_r _ _ _ _ _ HF Hk2) as (d1 & Hk1 & Ei).
    by eapply object_patched.
Qed.

End objects.

(** Every object to patch was searched for its system calls. *)
Lemma analyze_objects_found {cs : Capstone} env m st :
  analyze_objects env m = Some st ->
  Forall (fun d => exists file d0, find_syscalls m file d0 = Some d) (ob_objs st).
Proof.
  unfold analyze_objects. set (g := fun (st : option objects) info => st ← st; _).
  assert (forall infos, foldl g None infos = None) as Hnone by (by induction 0).
  assert (forall infos st0, Forall (fun d => exists file d0, find_syscalls m file d0 = Some d)
      (ob_objs st0) -> foldl g (Some st0) infos = Some st ->
    Forall (fun d => exists file d0, find_syscalls m file d0 = Some d) (ob_objs st)) as Hgen.
  { induction infos as [|info infos IH]; intros st0 H0; cbn [foldl]; [by intros [= <-]|].
    unfold g at 2. cbn [mbind option_bind].
    destruct (analyze_object env m st0 info) as [st1|] eqn:E; [|by rewrite Hnone].
    apply IH. revert E. unfold analyze_object.
    destruct (get_object_path _ _ _) as [[path|] next]; [|by intros [= <-]].
    destruct (pe_self_addr env); [|done]. cbn [mbind option_bind].
    destruct (should_patch_object _ _ _ _ _ _) as [[] found]; cbn [negb];
      [|by intros [= <-]].
    destruct (find_syscalls _ _ _) as [d|] eqn:Ef; [|done]. intros [= <-].
    apply Forall_app. split; [done|]. constructor; [by eauto|done]. }
  apply Hgen. constructor.
Qed.

(** C12: a process is hooked.  Let [intercept] find the objects to patch; let the
    sweep over each of their texts have no gaps, and no text have an instruction that
    computes an address from [rip] right behind a system call and at most two
    instructions before another one ([loaded]; see [lea_between_syscalls_overlap] for
    what happens otherwise).  When the wrappers can be generated and fit their space,
    [intercept] returns with all objects patched: every system call of their texts
    that an instruction follows leads to a wrapper of its own, which holds the
    instructions moved there, the template with the description of this call and a
    jump back; all other bytes of the texts are as before. *)
Theorem intercept_correct {cs : Capstone} {cl : CapstoneLaws} `{PL : ProcessLaws VM} env T patch_ptr space m (vm : VM)
    st objs1 vm1 m1 next :
  template_wf T -> wants_table (pe_no_trampoline env) = true ->
  0 <= space /\ space + ASM_WRAPPER_SPACE < 2 ^ 64 ->
  (syscall_hook_in_process_allowed (pe_argv0 env) (pe_filter env) None).1 = true ->
  analyze_objects env m = Some st -> ob_libc_found st = true ->
  loaded env space m vm (ob_objs st) ->
  wrappers_of_objects env T patch_ptr space 0 (ob_objs st) vm m (space + PAGE_SIZE) =
    Some (objs1, vm1, m1, next) ->
  next <= space + ASM_WRAPPER_SPACE ->
  exists objs2 m2, intercept env T patch_ptr space vm m = Some (objs2, vm1, m2) /\
    length objs2 = length (ob_objs st) /\
    forall k desc d2, ob_objs st !! k = Some desc -> objs2 !! k = Some d2 ->
      text_patched T patch_ptr m m2 k desc d2.
Proof.
  intros TW Hw Hs Ha Han Hl Ld Hwo Hn.
  assert (Forall (analysed space m) (ob_objs st)) as HA.
  { pose proof (analyze_objects_found _ _ _ Han) as HF. pose proof (ld_fit _ _ _ _ _ Ld) as HO.
    rewrite Forall_forall in HF, HO |- *. intros d Hd.
    destruct (HF d Hd) as (file & d0 & Hf), (HO d Hd) as [O1 O2 O3 O4 O5 O6].
    destruct (find_syscalls_layout _ _ _ _ Hf O4 O1) as (ks & js & L).
    by exists ks, js. }
  destruct (objects_patched env T patch_ptr space m TW Hw Hs vm _ objs1 vm1 m1 next HA Ld Hwo Hn)
    as (objs2 & m2 & E2 & Hlen & Hp).
  exists objs2, m2. split; [|done]. unfold intercept. rewrite Ha, Han. cbn [negb mbind option_bind].
  rewrite Hl. cbn [negb]. rewrite Hwo. cbn [mbind option_bind]. by rewrite E2.
Qed.

(** ** An example *)

Definition small_env : process_env :=
  ProcessEnv (Some "./a.out"%string) (Some "a.out"%string) false None None (Some 0x900000) 0
    None (fun _ => Some two_calls_file)
    [DlPhdrInfo 0x400000 (Some "/lib/libc.so.6"%string) [];
     DlPhdrInfo 0x800000 (Some "/lib/libm.so.6"%string) []].

Lemma small_loaded : loaded small_env 0x500000 two_calls_mem Before [two_calls_desc].
Proof.
  split.
  - constructor; [|constructor].
    split; [apply mini_decodes|apply two_calls_apart| |by vm_compute|by vm_compute|by vm_compute].
    intros x Hx. unfold in_text in Hx. change (i_text_end two_calls_desc) with 0x401016 in Hx.
    zbool. unfold ASM_WRAPPER_SPACE. lia.
  - constructor; [|constructor]. split.
    + exists 0x400000, 0x700000. split; [by left|].
      change (i_text_start two_calls_desc) with 0x401000.
      change (text_bytes two_calls_desc) with 23. lia.
    + change (i_text_start two_calls_desc) with 0x401000.
      change (i_text_end two_calls_desc) with 0x401016. lia.
    + by vm_compute.
  - intros i j d d' x Hij _ Hj. destruct j as [|[|j]]; [lia|done..].
  - exists 0x400000, 0x700000. split; [by left|]. unfold ASM_WRAPPER_SPACE. lia.
Qed.

Definition small_ptr (k i : nat) : Z := 0x600000 + 0x10000 * Z.of_nat k + 8 * Z.of_nat i.

Lemma intercept_correct_witness : exists objs2 vm1 m2,
  intercept small_env nop_template small_ptr 0x500000 Before two_calls_mem =
    Some (objs2, vm1, m2) /\ length objs2 = 1%nat /\
  forall d2, objs2 !! 0%nat = Some d2 ->
    text_patched nop_template small_ptr two_calls_mem m2 0 two_calls_desc d2.
Proof.
  assert (match wrappers_of_objects small_env nop_template small_ptr 0x500000 0 [two_calls_desc]
     Before two_calls_mem (0x500000 + PAGE_SIZE) with
   | Some (_, _, _, next) => next <=? 0x500000 + ASM_WRAPPER_SPACE
   | None => false end = true) as Hw by (vm_compute; reflexivity).
  destruct (wrappers_of_objects small_env nop_template small_ptr 0x500000 0 [two_calls_desc]
     Before two_calls_mem (0x500000 + PAGE_SIZE)) as [[[[objs1 vm1] m1] next]|] eqn:E;
    [|discriminate Hw].
  destruct (intercept_correct small_env nop_template small_ptr 0x500000 two_calls_mem Before
    (Objects [two_calls_desc] true 0) objs1 vm1 m1 next) as (objs2 & m2 & E2 & Hlen & Hp).
  - split; cbn; lia.
  - reflexivity.
  - unfold ASM_WRAPPER_SPACE. lia.
  - reflexivity.
  - vm_compute. reflexivity.
  - reflexivity.
  - exact small_loaded.
  - exact E.
  - apply Z.leb_le. exact Hw.
  - exists objs2, vm1, m2. split; [exact E2|]. split; [exact Hlen|].
    intros d2 Hd. by apply (Hp 0%nat).
Defined.

End InterceptSpec.
