(* ===== verification/AsmWrapper.v ===== *)
(** * The assembly code around a system call
      ([polylib/libs/syscall-intercept/src/intercept_wrapper.S],
      [intercept_template.S])

    The template saves the stack pointer and calls [intercept_wrapper], which saves
    the registers in a [struct context], calls a C function and restores them.  The
    instructions are executed on a machine with general registers, vector registers
    and memory.  [None] is a fault: a misaligned [movaps], or [hlt]. *)

From S2P Require Import Prelude Defs Util Intercept.
Import Util.Util Intercept.

#[local] Open Scope Z_scope.

Module AsmWrapper.

(** ** The machine *)

Inductive reg :=
| RAX | RBX | RCX | RDX | RSI | RDI | RBP | RSP
| R8 | R9 | R10 | R11 | R12 | R13 | R14 | R15.

#[export] Instance reg_eq_dec : EqDecision reg.
Proof. solve_decision. Defined.

Definition reg_index (r : reg) : nat :=
  match r with
  | RAX => 0 | RBX => 1 | RCX => 2 | RDX => 3 | RSI => 4 | RDI => 5 | RBP => 6 | RSP => 7
  | R8 => 8 | R9 => 9 | R10 => 10 | R11 => 11 | R12 => 12 | R13 => 13 | R14 => 14 | R15 => 15
  end.

Definition reg_eqb (r r' : reg) : bool := (reg_index r =? reg_index r')%nat.

(** Registers hold 64 bits, vector registers 256; [world] is the rest of the
    system. *)
Record machine (St : Type) := Machine {
  gpr : reg -> Z;
  simd : nat -> Z;
  ram : mem;
  world : St
}.
Arguments Machine {St}.
Arguments gpr {St}.
Arguments simd {St}.
Arguments ram {St}.
Arguments world {St}.

Definition store64 (m : mem) (a v : Z) : mem := mem_write m a (le_split 8 v).

Section machine.
Context {St : Type}.
Implicit Types s : machine St.

Definition set_gpr s (r : reg) (v : Z) : machine St :=
  Machine (fun r' => if reg_eqb r r' then u64 v else gpr s r') (simd s) (ram s) (world s).

Definition set_simd s (n : nat) (v : Z) : machine St :=
  Machine (gpr s) (fun n' => if (n =? n')%nat then v else simd s n') (ram s) (world s).

Definition set_ram s (m : mem) : machine St := Machine (gpr s) (simd s) m (world s).

(** The instructions used, in the order of their operands; an offset is from
    [rsp]. *)
Inductive insn :=
| Mov (src dst : reg)
| MovI (imm : Z) (dst : reg)
| Store (src : reg) (off : Z)
| Load (off : Z) (dst : reg)
| LoadR (base dst : reg)
| Sub (imm : Z) (dst : reg)
| Add (imm : Z) (dst : reg)
| And (imm : Z) (dst : reg)
| Lea (off : Z) (dst : reg)
| MovB (value : Z) (dst : reg)
| StoreX (n : nat) (off : Z)
| LoadX (off : Z) (n : nat)
| StoreY (n : nat) (off : Z)
| LoadY (off : Z) (n : nat).

Definition exec (i : insn) (s : machine St) : option (machine St) :=
  let rsp := gpr s RSP in
  match i with
  | Mov src dst => Some (set_gpr s dst (gpr s src))
  | MovI imm dst => Some (set_gpr s dst imm)
  | Store src off => Some (set_ram s (store64 (ram s) (rsp + off) (gpr s src)))
  | Load off dst => Some (set_gpr s dst (load64 (ram s) (rsp + off)))
  | LoadR base dst => Some (set_gpr s dst (load64 (ram s) (gpr s base)))
  | Sub imm dst => Some (set_gpr s dst (gpr s dst - imm))
  | Add imm dst => Some (set_gpr s dst (gpr s dst + imm))
  | And imm dst => Some (set_gpr s dst (Z.land (gpr s dst) imm))
  | Lea off dst => Some (set_gpr s dst (rsp + off))
  | MovB value dst => Some (set_gpr s dst (gpr s dst / 256 * 256 + u8 value))
  | StoreX n off =>
      if (rsp + off) mod 16 =? 0
      then Some (set_ram s (mem_write (ram s) (rsp + off) (le_split 16 (simd s n)))) else None
  | LoadX off n =>
      if (rsp + off) mod 16 =? 0
      then Some (set_simd s n (simd s n / 2 ^ 128 * 2 ^ 128 +
                               le_combine (mem_read (ram s) (rsp + off) 16))) else None
  | StoreY n off => Some (set_ram s (mem_write (ram s) (rsp + off) (le_split 32 (simd s n))))
  | LoadY off n => Some (set_simd s n (le_combine (mem_read (ram s) (rsp + off) 32)))
  end.

Fixpoint run (code : list insn) (s : machine St) : option (machine St) :=
  match code with
  | [] => Some s
  | i :: code => s ← exec i s; run code s
  end.

(** ** [intercept_wrapper.S] *)

Definition save_gprs : list insn :=
  [Sub 0x448 RSP;
   Store RAX 0x160; Store RDX 0x158; Store RBX 0x150; Store RSI 0x148; Store RDI 0x140;
   Store RBP 0x138;
   Load 0x450 R11; Store R11 0x130;
   Store R8 0x128; Store R9 0x120; Store R10 0x118; Store R12 0x110; Store R13 0x108;
   Store R14 0x100; Store R15 0xf8;
   Load 0x458 R11; Store R11 0xe8; LoadR R11 R11; Store R11 0xf0].

Definition save_ymm : list insn :=
  [StoreY 0 0x3c0; StoreY 1 0x380; StoreY 2 0x340; StoreY 3 0x300;
   StoreY 4 0x2c0; StoreY 5 0x280; StoreY 6 0x240; StoreY 7 0x200].

Definition save_xmm : list insn :=
  [StoreX 0 0x3c0; StoreX 1 0x380; StoreX 2 0x340; StoreX 3 0x300;
   StoreX 4 0x2c0; StoreX 5 0x280; StoreX 6 0x240; StoreX 7 0x200].

Definition restore_ymm : list insn :=
  [LoadY 0x3c0 0; LoadY 0x380 1; LoadY 0x340 2; LoadY 0x300 3;
   LoadY 0x2c0 4; LoadY 0x280 5; LoadY 0x240 6; LoadY 0x200 7].

Definition restore_xmm : list insn :=
  [LoadX 0x3c0 0; LoadX 0x380 1; LoadX 0x340 2; LoadX 0x300 3;
   LoadX 0x2c0 4; LoadX 0x280 5; LoadX 0x240 6; LoadX 0x200 7].

Definition restore_gprs : list insn :=
  [Load 0x158 RDX; Load 0x150 RBX; Load 0x148 RSI; Load 0x140 RDI; Load 0x138 RBP;
   Load 0x128 R8; Load 0x120 R9; Load 0x118 R10; Load 0x110 R12; Load 0x108 R13;
   Load 0x100 R14; Load 0xf8 R15;
   Add 0x448 RSP].

(** The compiled C functions, [true] for [intercept_routine_post_clone]; [None] when
    the process ends. *)
Variable c_call : bool -> machine St -> option (machine St).
(** The byte [intercept_routine_must_save_ymm]. *)
Variable must_save_ymm : Z.

Definition intercept_wrapper (s : machine St) : option (machine St) :=
  let ymm := negb (u8 must_save_ymm =? 0) in
  s ← run save_gprs s;
  s ← exec (MovB must_save_ymm RAX) s;
  s ← run (if ymm then save_ymm else save_xmm) s;
  s ← exec (Lea 0xe8 RDI) s;
  s ← c_call (gpr s RCX =? 1) s;
  s ← exec (Mov RDX R11) s;
  s ← exec (MovB must_save_ymm RDX) s;
  s ← run (if ymm then restore_ymm else restore_xmm) s;
  run restore_gprs s.

(** ** [intercept_template.S] *)

(** The values [create_wrapper] puts into the copy of the template, and the address
    behind the [callq]. *)
Variables patch_desc_addr wrapper_level1_addr return_addr : Z.
(** The [syscall] instruction. *)
Variable syscall : machine St -> machine St.

(** From the label 0 to the [callq], which pushes its return address. *)
Definition push_locals : list insn :=
  [Mov RSP R11; Sub 0x80 RSP; And (2 ^ 64 - 16) RSP; Sub 0x20 RSP; Store R11 0;
   MovI patch_desc_addr R11; Store R11 8; MovI wrapper_level1_addr R11; Sub 8 RSP].

(** The [retq] and the instruction behind the call. *)
Definition pop_locals : list insn := [Add 8 RSP; Load 0 RSP].

Definition call_wrapper (s : machine St) : option (machine St) :=
  s ← run push_locals s;
  let s := set_ram s (store64 (ram s) (gpr s RSP) return_addr) in
  s ← intercept_wrapper s;
  run pop_locals s.

(** The jumps behind it; the code loops once for [clone]. *)
Fixpoint template_loop (fuel : nat) (s : machine St) : option (machine St) :=
  s ← call_wrapper s;
  if gpr s R11 =? 0 then Some (syscall s)
  else if gpr s R11 =? 1 then Some s
  else if gpr s R11 =? 2 then
    let s := set_gpr (syscall s) RCX 1 in
    match fuel with O => None | S fuel => template_loop fuel s end
  else None.

Definition asm_template (fuel : nat) (s : machine St) : option (machine St) :=
  template_loop fuel (set_gpr s RCX 0).

End machine.

End AsmWrapper.
