(* ===== verification/AsmWrapperSpec.v ===== *)
(** * The code around a system call keeps the registers

    Running the template and [intercept_wrapper] hands the registers of the patched
    code to the C function, keeps the red zone and all memory above it, aligns the
    stack for the C function and the vector registers, and leaves all general
    registers but [rax], [rcx] and [r11] as they were. *)

From S2P Require Import Prelude Defs Util PatchedText SyscallFormats InterceptLog Intercept AsmWrapper.
Import Util.Util PatchedText SyscallFormats InterceptLog Intercept AsmWrapper.

#[local] Open Scope Z_scope.

Module AsmWrapperSpec.

Ltac by_decision := apply (bool_decide_unpack _); vm_compute; exact I.

(** ** Words in memory *)

Definition word (x : Z) : Prop := 0 <= x < 2 ^ 64.

Lemma load64_word m a : word (load64 m a).
Proof.
  unfold word, load64. assert (forall l, 0 <= le_combine l < 256 ^ zlength l) as H.
  { induction l as [|b l IH]; [done|]. cbn [le_combine length].
    pose proof (Z_of_byte_range b). rewrite Nat2Z.inj_succ, Z.pow_succ_r by lia. lia. }
  specialize (H (mem_read m a 8)). rewrite zlength_mem_read in H by lia. done.
Qed.

Lemma u64_word x : word x -> u64 x = x.
Proof. apply Z.mod_small. Qed.

Lemma word_u64 x : word (u64 x).
Proof. apply Z.mod_pos_bound. lia. Qed.

Lemma load64_ext m m' a :
  (forall x, a <= x < a + 8 -> m' x = m x) -> load64 m' a = load64 m a.
Proof. intros H. unfold load64. f_equal. by apply mem_read_ext. Qed.

Lemma load64_read m a v : mem_read m a 8 = le_split 8 v -> word v -> load64 m a = v.
Proof.
  intros E Hv. unfold load64. rewrite E, le_combine_split. by apply Z.mod_small.
Qed.

(** ** Stores at offsets that do not overlap *)

Fixpoint offsets_apart (l : list (Z * Z)) : bool :=
  match l with
  | [] => true
  | (o, n) :: l =>
      forallb (fun '(o', n') => (o + n <=? o') || (o' + n' <=? o)) l && offsets_apart l
  end.

Definition at_base (b : Z) (l : list store) : list store := (fun s => (b + s.1, s.2)) <$> l.

Lemma separate_at b (l : list store) :
  offsets_apart ((fun s => (s.1, zlength s.2)) <$> l) = true -> separate (at_base b l).
Proof.
  induction l as [|[o d] l IH]; cbn; [done|]. intros [H1 H2]%andb_true_iff.
  split; [|by apply IH]. rewrite forallb_forall in H1. apply Forall_fmap, Forall_forall.
  intros [o' d'] Hin x. unfold in_store. cbn. intros Hx Hx'.
  specialize (H1 (o', zlength d')). cbn in H1.
  assert (In (o', zlength d') ((fun s : store => (s.1, zlength s.2)) <$> l)) as Hi.
  { apply list_elem_of_In, list_elem_of_fmap. by exists (o', d'). }
  apply H1, orb_true_iff in Hi as [?|?]; zbool; lia.
Qed.

(** All stores lie between [lo] and [hi] from the base. *)
Definition within (lo hi : Z) (l : list (Z * Z)) : bool :=
  forallb (fun '(o, n) => (lo <=? o) && (o + n <=? hi)) l.

Lemma stores_at_outside b lo hi (l : list store) m x :
  within lo hi ((fun s => (s.1, zlength s.2)) <$> l) = true ->
  ~ (b + lo <= x < b + hi) -> apply_stores m (at_base b l) x = m x.
Proof.
  unfold within. rewrite forallb_forall. intros H Hx. apply apply_stores_outside.
  apply Forall_fmap, Forall_forall. intros [o d] Hin. unfold in_store. cbn.
  specialize (H (o, zlength d)). cbn in H.
  assert (In (o, zlength d) ((fun s : store => (s.1, zlength s.2)) <$> l)) as Hi.
  { apply list_elem_of_In, list_elem_of_fmap. by exists (o, d). }
  apply H, andb_true_iff in Hi as [? ?]. zbool. lia.
Qed.

Lemma stores_at_read b (l : list store) m o d :
  offsets_apart ((fun s => (s.1, zlength s.2)) <$> l) = true -> (o, d) ∈ l ->
  mem_read (apply_stores m (at_base b l)) (b + o) (zlength d) = d.
Proof.
  intros H Hin. apply (apply_stores_inside _ _ (b + o, d)); [by apply separate_at|].
  apply list_elem_of_fmap. by exists (o, d).
Qed.

(** ** Sequences of moves *)

Section moves.
Context {St : Type}.
Implicit Types s : machine St.

Lemma run_app c1 c2 s : run (c1 ++ c2) s = (s ← run c1 s; run c2 s).
Proof.
  revert s. induction c1 as [|i c1 IH]; intros s; [done|]. cbn.
  destruct (exec i s); [apply IH|done].
Qed.

Lemma set_ram_id s : set_ram s (ram s) = s.
Proof. by destruct s. Qed.

Definition saved (s : machine St) (l : list (reg * Z)) : list store :=
  (fun '(r, o) => (o, le_split 8 (gpr s r))) <$> l.

Lemma run_stores (l : list (reg * Z)) : forall s,
  run ((fun '(r, o) => Store r o) <$> l) s =
    Some (set_ram s (apply_stores (ram s) (at_base (gpr s RSP) (saved s l)))).
Proof.
  induction l as [|[r o] l IH]; intros s; cbn; [by rewrite set_ram_id|].
  rewrite IH. done.
Qed.

Lemma run_loads (l : list (Z * reg)) : forall s,
  NoDup (snd <$> l) -> RSP ∉ snd <$> l ->
  exists s', run ((fun '(o, r) => Load o r) <$> l) s = Some s' /\
    ram s' = ram s /\ simd s' = simd s /\ world s' = world s /\
    (forall r, r ∉ snd <$> l -> gpr s' r = gpr s r) /\
    (forall o r, (o, r) ∈ l -> gpr s' r = load64 (ram s) (gpr s RSP + o)).
Proof.
  assert (forall r r', reg_eqb r r' = true <-> r = r') as Heq.
  { intros r r'. split; [by destruct r, r'|]. intros ->. by destruct r'. }
  induction l as [|[o r] l IH]; intros s Hnd Hsp; cbn [fmap list_fmap run].
  { exists s. split_and!; try done. by intros ? ? ?%elem_of_nil. }
  cbn in Hnd, Hsp. apply NoDup_cons in Hnd as [Hr Hnd].
  cbn [exec mbind option_bind]. apply not_elem_of_cons in Hsp as [Hne Hsp]. cbn in Hne.
  destruct (IH (set_gpr s r (load64 (ram s) (gpr s RSP + o))) Hnd Hsp)
    as (s' & E & Er & Es & Ew & Hk & Hl).
  assert (gpr (set_gpr s r (load64 (ram s) (gpr s RSP + o))) RSP = gpr s RSP) as Esp.
  { cbn. destruct (reg_eqb r RSP) eqn:E1; [|done]. apply Heq in E1. congruence. }
  exists s'. split_and!; try done.
  - intros r' Hr'. apply not_elem_of_cons in Hr' as [Hn Hr']. cbn in Hn.
    rewrite (Hk r' Hr'). cbn.
    destruct (reg_eqb r r') eqn:E1; [|done]. apply Heq in E1. congruence.
  - intros o' r' [[= -> ->]|Hin]%elem_of_cons.
    + rewrite (Hk r Hr). cbn. rewrite (proj2 (Heq r r) eq_refl).
      by apply u64_word, load64_word.
    + rewrite (Hl o' r' Hin), Esp. done.
Qed.

(** The vector registers, 32 or 16 bytes of each. *)
Definition width (ymm : bool) : nat := if ymm then 32 else 16.

Definition StoreV (ymm : bool) (n : nat) (o : Z) : insn := if ymm then StoreY n o else StoreX n o.
Definition LoadV (ymm : bool) (o : Z) (n : nat) : insn := if ymm then LoadY o n else LoadX o n.

Definition aligned (ymm : bool) (rsp : Z) (os : list Z) : Prop :=
  ymm = false -> Forall (fun o => (rsp + o) mod 16 = 0) os.

Lemma run_vstores ymm (l : list (nat * Z)) : forall s,
  aligned ymm (gpr s RSP) (snd <$> l) ->
  run ((fun '(n, o) => StoreV ymm n o) <$> l) s =
    Some (set_ram s (apply_stores (ram s)
      (at_base (gpr s RSP) ((fun '(n, o) => (o, le_split (width ymm) (simd s n))) <$> l)))).
Proof.
  induction l as [|[n o] l IH]; intros s Ha; [cbn; by rewrite set_ram_id|].
  cbn [fmap list_fmap run].
  assert (exec (StoreV ymm n o) s = Some (set_ram s (mem_write (ram s) (gpr s RSP + o)
    (le_split (width ymm) (simd s n))))) as ->.
  { destruct ymm; [done|]. cbn. specialize (Ha eq_refl). apply Forall_cons in Ha as [Ha _].
    cbn in Ha. by rewrite (proj2 (Z.eqb_eq _ _) Ha). }
  cbn [mbind option_bind]. rewrite IH; [done|].
  intros E. specialize (Ha E). by apply Forall_cons in Ha as [_ Ha].
Qed.

(** What loading the [n]-th vector register gives. *)
Definition reloaded (ymm : bool) (s : machine St) (o : Z) (n : nat) : Z :=
  let v := le_combine (mem_read (ram s) (gpr s RSP + o) (width ymm)) in
  if ymm then v else simd s n / 2 ^ 128 * 2 ^ 128 + v.

Lemma run_vloads ymm (l : list (Z * nat)) : forall s,
  aligned ymm (gpr s RSP) (fst <$> l) -> NoDup (snd <$> l) ->
  exists s', run ((fun '(o, n) => LoadV ymm o n) <$> l) s = Some s' /\
    ram s' = ram s /\ gpr s' = gpr s /\ world s' = world s /\
    (forall n, n ∉ snd <$> l -> simd s' n = simd s n) /\
    (forall o n, (o, n) ∈ l -> simd s' n = reloaded ymm s o n).
Proof.
  induction l as [|[o n] l IH]; intros s Ha Hnd; cbn [fmap list_fmap run].
  { exists s. split_and!; try done. by intros ? ? ?%elem_of_nil. }
  cbn in Hnd. apply NoDup_cons in Hnd as [Hn Hnd].
  assert (exec (LoadV ymm o n) s = Some (set_simd s n (reloaded ymm s o n))) as ->.
  { destruct ymm; [done|]. cbn -[Z.pow]. specialize (Ha eq_refl). apply Forall_cons in Ha as [Ha _].
    cbn in Ha. by rewrite (proj2 (Z.eqb_eq _ _) Ha). }
  cbn [mbind option_bind].
  destruct (IH (set_simd s n (reloaded ymm s o n))) as (s' & E & Er & Eg & Ew & Hk & Hl).
  { intros E. specialize (Ha E). by apply Forall_cons in Ha as [_ Ha]. }
  { done. }
  exists s'. split_and!; try done.
  - intros n' [Hne Hn']%not_elem_of_cons. rewrite (Hk n' Hn'). cbn.
    cbn in Hne. by rewrite (proj2 (Nat.eqb_neq _ _)) by congruence.
  - intros o' n' [[= -> ->]|Hin]%elem_of_cons.
    + rewrite (Hk n Hn). cbn. by rewrite Nat.eqb_refl.
    + rewrite (Hl o' n' Hin). unfold reloaded. cbn. destruct ymm; [done|].
      rewrite (proj2 (Nat.eqb_neq n n')); [done|]. intros ->. apply Hn.
      apply list_elem_of_fmap. by exists (o', n').
Qed.

End moves.

(** ** Saving and restoring *)

Definition saves_1 : list (reg * Z) :=
  [(RAX, 0x160); (RDX, 0x158); (RBX, 0x150); (RSI, 0x148); (RDI, 0x140); (RBP, 0x138)].
Definition saves_2 : list (reg * Z) :=
  [(R8, 0x128); (R9, 0x120); (R10, 0x118); (R12, 0x110); (R13, 0x108); (R14, 0x100);
   (R15, 0xf8)].

Definition vsaves : list (nat * Z) :=
  [(0%nat, 0x3c0); (1%nat, 0x380); (2%nat, 0x340); (3%nat, 0x300);
   (4%nat, 0x2c0); (5%nat, 0x280); (6%nat, 0x240); (7%nat, 0x200)].

Section wrapper.
Context {St : Type}.
Implicit Types s : machine St.

Definition gprs_ok s : Prop := forall r, word (gpr s r).

Lemma set_gpr_ok s r v : gprs_ok s -> gprs_ok (set_gpr s r v).
Proof. intros Hg r'. cbn. destruct (reg_eqb r r'); [apply word_u64|apply Hg]. Qed.

Record saved_frame (s s1 : machine St) (b : Z) : Prop := {
  sf_rsp : gpr s1 RSP = b;
  sf_gpr : forall r, r <> RSP -> r <> R11 -> gpr s1 r = gpr s r;
  sf_words : gprs_ok s1;
  sf_simd : simd s1 = simd s;
  sf_world : world s1 = world s;
  sf_ram : forall x, ~ (b + 0xe8 <= x < b + 0x168) -> ram s1 x = ram s x;
  sf_saved : forall r o, (r, o) ∈ saves_1 ++ saves_2 -> load64 (ram s1) (b + o) = gpr s r;
  sf_rsp0 : load64 (ram s1) (b + 0x130) = load64 (ram s) (b + 0x450);
  sf_desc : load64 (ram s1) (b + 0xe8) = load64 (ram s) (b + 0x458);
  sf_rip : load64 (ram s1) (b + 0xf0) = load64 (ram s) (load64 (ram s) (b + 0x458))
}.

(** All words of the frame. *)
Definition frame (s : machine St) (rsp0 desc rip : Z) : list store :=
  saved s saves_1 ++ [(0x130, le_split 8 rsp0)] ++ saved s saves_2 ++
  [(0xe8, le_split 8 desc); (0xf0, le_split 8 rip)].

Lemma save_gprs_run s b :
  gpr s RSP - 0x448 = b -> word b ->
  (forall x, load64 (ram s) (b + 0x458) <= x < load64 (ram s) (b + 0x458) + 8 ->
     ~ (b + 0xe8 <= x < b + 0x168)) ->
  let rsp0 := load64 (ram s) (b + 0x450) in
  let desc := load64 (ram s) (b + 0x458) in
  let rip := load64 (ram s) desc in
  exists s1, run save_gprs s = Some s1 /\ gpr s1 RSP = b /\
    (forall r, r <> RSP -> r <> R11 -> gpr s1 r = gpr s r) /\
    word (gpr s1 R11) /\ simd s1 = simd s /\ world s1 = world s /\
    ram s1 = apply_stores (ram s) (at_base b (frame s rsp0 desc rip)).
Proof.
  intros Eb Hb Hd rsp0 desc rip.
  assert (save_gprs = [Sub 0x448 RSP] ++ ((fun '(r, o) => Store r o) <$> saves_1) ++
    [Load 0x450 R11] ++ ((fun '(r, o) => Store r o) <$> (R11, 0x130) :: saves_2) ++
    [Load 0x458 R11] ++ ((fun '(r, o) => Store r o) <$> [(R11, 0xe8)]) ++
    [LoadR R11 R11] ++ ((fun '(r, o) => Store r o) <$> [(R11, 0xf0)])) as -> by reflexivity.
  rewrite run_app. set (s0 := set_gpr s RSP (gpr s RSP - 0x448)).
  change (run [Sub 0x448 RSP] s) with (Some s0). cbn [mbind option_bind]. rewrite run_app.
  assert (gpr s0 RSP = b) as E0 by (unfold s0; cbn; rewrite Eb; by apply u64_word).
  set (m1 := apply_stores (ram s) (at_base b (saved s saves_1))).
  assert (run ((fun '(r, o) => Store r o) <$> saves_1) s0 = Some (set_ram s0 m1)) as ->
    by (rewrite run_stores, E0; reflexivity). cbn [mbind option_bind]. rewrite run_app.
  assert (forall o, 0x168 <= o -> load64 m1 (b + o) = load64 (ram s) (b + o)) as H1.
  { intros o Ho. apply load64_ext. intros x Hx.
    apply (stores_at_outside _ 0xe8 0x168); [reflexivity|lia]. }
  set (s2 := set_gpr (set_ram s0 m1) R11 rsp0).
  assert (run [Load 0x450 R11] (set_ram s0 m1) = Some s2) as ->.
  { cbn -[load64 set_gpr]. unfold s2. do 2 f_equal. cbn in E0 |- *. rewrite E0. by apply H1. }
  cbn [mbind option_bind]. rewrite run_app, run_stores. cbn [mbind option_bind].
  rewrite run_app. change (gpr s2 RSP) with (gpr s0 RSP). rewrite E0.
  change (ram s2) with m1.
  assert (u64 rsp0 = rsp0) as Er by (apply u64_word, load64_word).
  assert (saved s2 ((R11, 0x130) :: saves_2) = (0x130, le_split 8 rsp0) :: saved s saves_2) as ->.
  { cbn. by rewrite Er. }
  set (m3 := apply_stores m1 _).
  assert (m3 = apply_stores (ram s) (at_base b (saved s saves_1 ++ (0x130, le_split 8 rsp0) ::
    saved s saves_2))) as E3 by reflexivity.
  assert (forall o, 0x168 <= o -> load64 m3 (b + o) = load64 (ram s) (b + o)) as H3.
  { intros o Ho. rewrite E3. apply load64_ext. intros x Hx.
    apply (stores_at_outside _ 0xe8 0x168); [reflexivity|lia]. }
  set (s4 := set_gpr (set_ram s2 m3) R11 desc).
  assert (run [Load 0x458 R11] (set_ram s2 m3) = Some s4) as ->.
  { cbn -[load64 set_gpr]. unfold s4. do 2 f_equal. cbn in E0 |- *. rewrite E0. by apply H3. }
  cbn [mbind option_bind]. rewrite run_app, run_stores. cbn [mbind option_bind].
  rewrite run_app. change (gpr s4 RSP) with (gpr s0 RSP). rewrite E0. change (ram s4) with m3.
  assert (u64 desc = desc) as Ed by (apply u64_word, load64_word).
  assert (saved s4 [(R11, 0xe8)] = [(0xe8, le_split 8 desc)]) as -> by (cbn; by rewrite Ed).
  set (m5 := apply_stores m3 _).
  assert (m5 = apply_stores (ram s) (at_base b (saved s saves_1 ++ (0x130, le_split 8 rsp0) ::
    saved s saves_2 ++ [(0xe8, le_split 8 desc)]))) as E5 by reflexivity.
  set (s6 := set_gpr (set_ram s4 m5) R11 rip).
  assert (run [LoadR R11 R11] (set_ram s4 m5) = Some s6) as ->.
  { cbn -[load64 set_gpr]. unfold s6. do 2 f_equal. change (load64 m5 (u64 desc) = rip).
    rewrite Ed, E5. apply load64_ext.
    intros x Hx. apply (stores_at_outside _ 0xe8 0x168); [reflexivity|by apply Hd]. }
  cbn [mbind option_bind]. rewrite run_stores. cbn [mbind option_bind].
  change (gpr s6 RSP) with (gpr s0 RSP). rewrite E0. change (ram s6) with m5.
  assert (u64 rip = rip) as Ei by (apply u64_word, load64_word).
  assert (saved s6 [(R11, 0xf0)] = [(0xf0, le_split 8 rip)]) as -> by (cbn; by rewrite Ei).
  eexists. split; [reflexivity|]. split; [exact E0|]. split; [by intros []|].
  split; [apply word_u64|]. by split_and!.
Qed.

Lemma frame_read s b m rsp0 desc rip o v :
  (o, le_split 8 v) ∈ frame s rsp0 desc rip -> word v ->
  load64 (apply_stores m (at_base b (frame s rsp0 desc rip))) (b + o) = v.
Proof.
  intros Hin Hv. apply load64_read; [|done].
  pose proof (stores_at_read b (frame s rsp0 desc rip) m o (le_split 8 v) eq_refl Hin) as H.
  by rewrite length_le_split in H.
Qed.

Lemma save_gprs_spec s b :
  gprs_ok s -> gpr s RSP - 0x448 = b -> word b ->
  (forall x, load64 (ram s) (b + 0x458) <= x < load64 (ram s) (b + 0x458) + 8 ->
     ~ (b + 0xe8 <= x < b + 0x168)) ->
  exists s1, run save_gprs s = Some s1 /\ saved_frame s s1 b.
Proof.
  intros Hg Eb Hb Hd. destruct (save_gprs_run s b Eb Hb Hd) as (s1 & E & Er & Hk & H11 & Es & Ew & Em).
  exists s1. split; [done|].
  assert (forall o v, (o, le_split 8 v) ∈ frame s (load64 (ram s) (b + 0x450))
    (load64 (ram s) (b + 0x458)) (load64 (ram s) (load64 (ram s) (b + 0x458))) ->
    word v -> load64 (ram s1) (b + o) = v) as Hread.
  { intros o v Hin Hv. rewrite Em. by apply frame_read. }
  split; [exact Er|exact Hk| |exact Es|exact Ew|..].
  - intros r. destruct (decide (r = RSP)) as [->|N1]; [by rewrite Er|].
    destruct (decide (r = R11)) as [->|N2]; [exact H11|]. rewrite (Hk r N1 N2). apply Hg.
  - intros x Hx. rewrite Em. by apply (stores_at_outside _ 0xe8 0x168).
  - intros r o Hin. apply Hread; [|apply Hg]. unfold frame, saved.
    rewrite !elem_of_app. apply elem_of_app in Hin as [Hin|Hin]; [left|right; right; left];
      apply list_elem_of_fmap; exists (r, o); (split; [reflexivity|exact Hin]).
  - apply Hread; [|apply load64_word]. unfold frame. apply elem_of_app. right. by left.
  - apply Hread; [|apply load64_word]. unfold frame. rewrite !elem_of_app. right. right. right.
    by left.
  - apply Hread; [|apply load64_word]. unfold frame. rewrite !elem_of_app. right. right. right.
    by right; left.
Qed.

(** What the System V ABI says of a call: the stack pointer is restored, and the
    frame of the caller at [rsp] is its own. *)
Record abi (s s' : machine St) : Prop := {
  abi_rsp : gpr s' RSP = gpr s RSP;
  abi_words : gprs_ok s';
  abi_frame : forall x, gpr s RSP <= x < gpr s RSP + 0x470 -> ram s' x = ram s x
}.

(** The state in which the C function is called. *)
Record calls (s sc : machine St) (b : Z) : Prop := {
  cl_words : gprs_ok sc;
  cl_rsp : gpr sc RSP = b;
  cl_rdi : gpr sc RDI = b + 0xe8;
  cl_rcx : gpr sc RCX = gpr s RCX;
  cl_world : world sc = world s;
  cl_ram : forall x, ~ (b + 0xe8 <= x < b + 0x400) -> ram sc x = ram s x;
  cl_saved : forall r o, (r, o) ∈ saves_1 ++ saves_2 -> load64 (ram sc) (b + o) = gpr s r;
  cl_rsp0 : load64 (ram sc) (b + 0x130) = load64 (ram s) (b + 0x450);
  cl_desc : load64 (ram sc) (b + 0xe8) = load64 (ram s) (b + 0x458);
  cl_rip : load64 (ram sc) (b + 0xf0) = load64 (ram s) (load64 (ram s) (b + 0x458))
}.

(** The low bits of the vector registers that are kept. *)
Definition vectors_kept (ymm : bool) (s s' : machine St) : Prop :=
  forall n, (n < 8)%nat -> simd s' n mod 2 ^ (8 * Z.of_nat (width ymm)) =
    simd s n mod 2 ^ (8 * Z.of_nat (width ymm)).

Definition restores : list (Z * reg) :=
  [(0x158, RDX); (0x150, RBX); (0x148, RSI); (0x140, RDI); (0x138, RBP); (0x128, R8);
   (0x120, R9); (0x118, R10); (0x110, R12); (0x108, R13); (0x100, R14); (0xf8, R15)].

(** The state the wrapper returns in, from the one the C function returned in. *)
Record returns (ymm : bool) (s s3 s4 : machine St) : Prop := {
  rt_gpr : forall r, r <> RAX -> r <> RCX -> r <> R11 -> gpr s4 r = gpr s r;
  rt_rax : gpr s4 RAX = gpr s3 RAX;
  rt_r11 : gpr s4 R11 = gpr s3 RDX;
  rt_ram : ram s4 = ram s3;
  rt_world : world s4 = world s3;
  rt_vectors : vectors_kept ymm s s4;
  rt_words : gprs_ok s4
}.

Definition vrestores : list (Z * nat) := (fun '(n, o) => (o, n)) <$> vsaves.

Lemma save_vectors (ymm : bool) s1 b :
  gpr s1 RSP = b -> b mod 16 = 0 -> exists s2,
    run (if ymm then save_ymm else save_xmm) s1 = Some s2 /\
    gpr s2 = gpr s1 /\ simd s2 = simd s1 /\ world s2 = world s1 /\
    (forall x, ~ (b + 0x200 <= x < b + 0x400) -> ram s2 x = ram s1 x) /\
    (forall n o, (n, o) ∈ vsaves ->
       mem_read (ram s2) (b + o) (width ymm) = le_split (width ymm) (simd s1 n)).
Proof.
  intros Eb Ha. set (l := (fun '(n, o) => (o, le_split (width ymm) (simd s1 n))) <$> vsaves).
  exists (set_ram s1 (apply_stores (ram s1) (at_base b l))). split.
  { transitivity (run ((fun '(n, o) => StoreV ymm n o) <$> vsaves) s1); [by destruct ymm|].
    rewrite run_vstores, Eb; [done|]. intros _. rewrite Eb.
    repeat constructor; cbn; by rewrite Zplus_mod, Ha. }
  split; [done|]. split; [done|]. split; [done|]. split.
  - intros x Hx. apply (stores_at_outside _ 0x200 0x400); [by destruct ymm|done].
  - intros n o Hin.
    assert (zlength (le_split (width ymm) (simd s1 n)) = width ymm) as El
      by (by rewrite length_le_split).
    rewrite <-El at 1. apply stores_at_read; [by destruct ymm|].
    apply list_elem_of_fmap. by exists (n, o).
Qed.

Lemma restore_vectors (ymm : bool) s s3 b :
  gpr s3 RSP = b -> b mod 16 = 0 ->
  (forall n o, (n, o) ∈ vsaves ->
     mem_read (ram s3) (b + o) (width ymm) = le_split (width ymm) (simd s n)) ->
  exists s4, run (if ymm then restore_ymm else restore_xmm) s3 = Some s4 /\
    gpr s4 = gpr s3 /\ ram s4 = ram s3 /\ world s4 = world s3 /\ vectors_kept ymm s s4.
Proof.
  intros Eb Ha Hm. destruct (run_vloads ymm vrestores s3) as (s4 & E & Er & Eg & Ew & _ & Hl).
  - intros _. rewrite Eb. repeat constructor; cbn; by rewrite Zplus_mod, Ha.
  - by_decision.
  - exists s4. split; [|split_and!; try done].
    { rewrite <-E. by destruct ymm. }
    intros n Hn. assert (exists o, (n, o) ∈ vsaves) as [o Ho].
    { do 8 (destruct n as [|n]; [eexists; solve [repeat first [by left|right]]|]). lia. }
    rewrite (Hl o n) by (apply list_elem_of_fmap; by exists (n, o)).
    unfold reloaded. rewrite Eb, (Hm n o Ho), le_combine_split.
    destruct ymm; cbn [width].
    + change (256 ^ Z.of_nat 32) with (2 ^ (8 * Z.of_nat 32)). by rewrite Zmod_mod.
    + change (256 ^ Z.of_nat 16) with (2 ^ 128). change (8 * Z.of_nat 16) with 128.
      rewrite Z.add_comm, Z.mod_add, Zmod_mod by lia. done.
Qed.

(** The registers loaded at the end. *)
Lemma restore_gprs_spec s s4 b :
  gpr s4 RSP = b -> gpr s RSP - 0x448 = b -> gprs_ok s -> gprs_ok s4 ->
  (forall r o, (r, o) ∈ saves_1 ++ saves_2 -> load64 (ram s4) (b + o) = gpr s r) ->
  exists s5, run restore_gprs s4 = Some s5 /\ ram s5 = ram s4 /\ simd s5 = simd s4 /\
    world s5 = world s4 /\ gpr s5 RAX = gpr s4 RAX /\ gpr s5 R11 = gpr s4 R11 /\
    (forall r, r <> RAX -> r <> RCX -> r <> R11 -> gpr s5 r = gpr s r) /\ gprs_ok s5.
Proof.
  intros Er Eb Hg Hg4 Hm.
  assert (restore_gprs = ((fun '(o, r) => Load o r) <$> restores) ++ [Add 0x448 RSP]) as ->
    by reflexivity. rewrite run_app.
  destruct (run_loads restores s4) as (s5 & -> & E1 & E2 & E3 & Hk & Hl).
  { by_decision. }
  { by_decision. }
  cbn [mbind option_bind run exec].
  assert (forall r, r ∉ snd <$> restores -> gpr s5 r = gpr s4 r) as Hk' by done.
  assert (gpr s5 RSP = b) as Esp.
  { rewrite Hk; [done|]. by_decision. }
  assert (gpr s5 RAX = gpr s4 RAX) as Eax.
  { apply Hk. by_decision. }
  assert (gpr s5 R11 = gpr s4 R11) as E11.
  { apply Hk. by_decision. }
  assert (gpr s5 RCX = gpr s4 RCX) as Ecx.
  { apply Hk. by_decision. }
  assert (forall o r, (o, r) ∈ restores -> (r, o) ∈ saves_1 ++ saves_2 ->
    gpr s5 r = gpr s r) as Hr.
  { intros o r H1 H2. rewrite (Hl o r H1), Er. by apply Hm. }
  exists (set_gpr s5 RSP (gpr s5 RSP + 0x448)). split; [done|].
  assert (forall r, r <> RAX -> r <> RCX -> r <> R11 ->
    gpr (set_gpr s5 RSP (gpr s5 RSP + 0x448)) r = gpr s r) as Hall.
  { intros [] ? ? ?; try done; cbn;
      try (eapply Hr; [solve [repeat first [by left|right]]|
                       solve [repeat first [by left|right]]]).
    rewrite Esp. replace (b + 1096) with (gpr s RSP) by lia. apply u64_word, Hg. }
  split; [exact E1|]. split; [exact E2|]. split; [exact E3|]. split; [exact Eax|].
  split; [exact E11|]. split; [exact Hall|]. intros r.
  destruct (decide (reg_index r = 0 \/ reg_index r = 2 \/ reg_index r = 11)%nat) as [Hd|Hd].
  - destruct r; cbn in Hd; try lia; cbn; rewrite ?Eax, ?Ecx, ?E11; apply Hg4.
  - rewrite Hall; [apply Hg|intros ->; apply Hd; cbn; lia..].
Qed.

(** The wrapper before and after the call. *)
Definition enter (must : Z) (s : machine St) : option (machine St) :=
  s ← run save_gprs s;
  s ← exec (MovB must RAX) s;
  s ← run (if negb (u8 must =? 0) then save_ymm else save_xmm) s;
  exec (Lea 0xe8 RDI) s.

Definition leave (must : Z) (s : machine St) : option (machine St) :=
  s ← exec (Mov RDX R11) s;
  s ← exec (MovB must RDX) s;
  s ← run (if negb (u8 must =? 0) then restore_ymm else restore_xmm) s;
  run restore_gprs s.

Lemma wrapper_split c_call must s :
  intercept_wrapper c_call must s =
    (s ← enter must s; s ← c_call (gpr s RCX =? 1) s; leave must s).
Proof.
  unfold intercept_wrapper, enter, leave.
  destruct (run save_gprs s) as [s1|]; [|done]. cbn [mbind option_bind].
  destruct (exec (MovB must RAX) s1) as [s2|]; [|done]. cbn [mbind option_bind].
  destruct (run _ s2) as [s3|]; [|done]. cbn [mbind option_bind].
  destruct (exec _ s3) as [s4|]; [|done]. cbn [mbind option_bind].
  by destruct (c_call _ s4).
Qed.

Definition vectors_saved (ymm : bool) (s sc : machine St) (b : Z) : Prop :=
  forall n o, (n, o) ∈ vsaves ->
    mem_read (ram sc) (b + o) (width ymm) = le_split (width ymm) (simd s n).

Lemma saves_offset r o : (r, o) ∈ saves_1 ++ saves_2 -> 0 <= o < 0x1f8.
Proof.
  intros Hin. repeat (apply elem_of_cons in Hin as [[= -> ->]|Hin]; [lia|]).
  by apply elem_of_nil in Hin.
Qed.

Lemma vsaves_offset n o : (n, o) ∈ vsaves -> 0 <= o < 0x440.
Proof.
  intros Hin. repeat (apply elem_of_cons in Hin as [[= -> ->]|Hin]; [lia|]).
  by apply elem_of_nil in Hin.
Qed.

Lemma enter_spec must s b :
  gprs_ok s -> gpr s RSP - 0x448 = b -> 0 <= b -> b + 0x470 < 2 ^ 64 -> b mod 16 = 0 ->
  (forall x, load64 (ram s) (b + 0x458) <= x < load64 (ram s) (b + 0x458) + 8 ->
     ~ (b + 0xe8 <= x < b + 0x400)) ->
  exists sc, enter must s = Some sc /\ calls s sc b /\
    vectors_saved (negb (u8 must =? 0)) s sc b.
Proof.
  intros Hg Eb Hb Hb' Ha Hd. set (ymm := negb (u8 must =? 0)).
  destruct (save_gprs_spec s b Hg Eb) as (s1 & E1 & SF); [unfold word; lia| |].
  { intros x Hx Hr. apply (Hd x Hx). lia. }
  set (s1' := set_gpr s1 RAX (gpr s1 RAX / 256 * 256 + u8 must)).
  destruct (save_vectors ymm s1' b (sf_rsp _ _ _ SF) Ha) as (s2 & E2 & G2 & X2 & W2 & M2 & V2).
  assert (gpr s2 RSP = b) as Esp2 by (rewrite G2; apply (sf_rsp _ _ _ SF)).
  exists (set_gpr s2 RDI (b + 0xe8)). split; [|split].
  - unfold enter. rewrite E1. cbn [mbind option_bind].
    change (exec (MovB must RAX) s1) with (Some s1'). cbn [mbind option_bind]. fold ymm.
    rewrite E2. cbn [mbind option_bind]. cbn. by rewrite Esp2.
  - assert (forall o, 0 <= o < 0x1f8 -> load64 (ram s2) (b + o) = load64 (ram s1) (b + o)) as Hlo.
    { intros o Ho. apply load64_ext. intros x Hx. rewrite M2 by lia. done. }
    split; [|exact Esp2|..]; cbn [set_gpr gpr ram world reg_eqb reg_index Nat.eqb].
    + intros r. apply set_gpr_ok. intros r'. rewrite G2. apply set_gpr_ok, (sf_words _ _ _ SF).
    + apply u64_word. unfold word. lia.
    + rewrite G2. by apply (sf_gpr _ _ _ SF).
    + rewrite W2. apply (sf_world _ _ _ SF).
    + intros x Hx. rewrite M2 by lia. apply (sf_ram _ _ _ SF). lia.
    + intros r o Hin. rewrite Hlo; [by apply (sf_saved _ _ _ SF)|by eapply saves_offset].
    + rewrite Hlo by lia. apply (sf_rsp0 _ _ _ SF).
    + rewrite Hlo by lia. apply (sf_desc _ _ _ SF).
    + rewrite Hlo by lia. apply (sf_rip _ _ _ SF).
  - intros n o Hin. cbn [set_gpr ram]. rewrite (V2 n o Hin). f_equal.
    change (simd s1') with (simd s1). by rewrite (sf_simd _ _ _ SF).
Qed.

Lemma leave_spec must s sc s3 b :
  gprs_ok s -> gpr s RSP - 0x448 = b -> b mod 16 = 0 ->
  calls s sc b -> vectors_saved (negb (u8 must =? 0)) s sc b -> abi sc s3 ->
  exists s4, leave must s3 = Some s4 /\ returns (negb (u8 must =? 0)) s s3 s4.
Proof.
  intros Hg Eb Ha CL VS AB. set (ymm := negb (u8 must =? 0)) in *.
  assert (forall o n, 0 <= o -> 0 <= n -> o + n <= 0x470 ->
    mem_read (ram s3) (b + o) n = mem_read (ram sc) (b + o) n) as Hfr.
  { intros o n H1 H2 H3. apply mem_read_ext. intros x Hx. apply (abi_frame _ _ AB).
    rewrite (cl_rsp _ _ _ CL). lia. }
  unfold leave. set (s3a := set_gpr s3 R11 (gpr s3 RDX)).
  change (exec (Mov RDX R11) s3) with (Some s3a). cbn [mbind option_bind].
  set (s3b := set_gpr s3a RDX (gpr s3a RDX / 256 * 256 + u8 must)).
  change (exec (MovB must RDX) s3a) with (Some s3b). cbn [mbind option_bind]. fold ymm.
  assert (gpr s3b RSP = b) as Esp3 by (transitivity (gpr s3 RSP); [done|];
    by rewrite (abi_rsp _ _ AB), (cl_rsp _ _ _ CL)).
  destruct (restore_vectors ymm s s3b b Esp3 Ha) as (s4 & E4 & G4 & M4 & W4 & V4).
  { intros n o Hin. change (ram s3b) with (ram s3). pose proof (vsaves_offset n o Hin).
    rewrite Hfr; [by apply VS|lia|lia|]. destruct ymm; cbn; lia. }
  rewrite E4. cbn [mbind option_bind].
  destruct (restore_gprs_spec s s4 b) as (s5 & E5 & M5 & X5 & W5 & A5 & B5 & G5 & K5).
  - by rewrite G4.
  - done.
  - done.
  - intros r. rewrite G4. apply set_gpr_ok, set_gpr_ok, AB.
  - intros r o Hin. rewrite M4. change (ram s3b) with (ram s3).
    pose proof (saves_offset r o Hin).
    rewrite <-(cl_saved _ _ _ CL r o Hin). unfold load64. f_equal. apply Hfr; lia.
  - exists s5. split; [exact E5|]. split; [exact G5|..|exact K5].
    + rewrite A5, G4. done.
    + rewrite B5, G4. cbn. apply u64_word, (abi_words _ _ AB).
    + by rewrite M5, M4.
    + by rewrite W5, W4.
    + intros n Hn. rewrite X5. by apply V4.
Qed.

(** ** The template *)

(** The context the C function sees for the patch at [desc]; its first field is where
    the system call was. *)
Definition context_of (s : machine St) (desc : Z) : context :=
  let g r := s64 (gpr s r) in
  Context_ desc (s64 (load64 (ram s) desc)) (g R15) (g R14) (g R13) (g R12) (g R10) (g R9)
    (g R8) (g RSP) (g RBP) (g RDI) (g RSI) (g RBX) (g RDX) (g RAX).

(** [struct context] in memory. *)
Definition context_at (m : mem) (a : Z) : context :=
  let f o := s64 (load64 m (a + o)) in
  Context_ (load64 m a) (f 0x8) (f 0x10) (f 0x18) (f 0x20) (f 0x28) (f 0x30) (f 0x38)
    (f 0x40) (f 0x48) (f 0x50) (f 0x58) (f 0x60) (f 0x68) (f 0x70) (f 0x78).

Lemma land_align x : word x -> Z.land x (2 ^ 64 - 16) = x / 16 * 16.
Proof.
  intros Hx. replace (2 ^ 64 - 16) with (Z.ldiff (Z.ones 64) (Z.ones 4)) by reflexivity.
  rewrite Z.ldiff_land, Z.land_assoc, Z.land_ones, Z.mod_small by (done || lia).
  rewrite <-Z.ldiff_land, Z.ldiff_ones_r, Z.shiftl_mul_pow2, Z.shiftr_div_pow2 by lia. done.
Qed.

(** Room on the stack below [rsp]; the description of the patch is elsewhere. *)
Record stack_ok (desc : Z) (s : machine St) : Prop := {
  so_words : gprs_ok s;
  so_room : 0x600 <= gpr s RSP;
  so_desc : word desc /\ forall x, desc <= x < desc + 8 ->
    ~ (gpr s RSP - 0x600 <= x < gpr s RSP)
}.

(** Where the frame of the template starts. *)
Definition frame_top (s : machine St) : Z := (gpr s RSP - 0x80) / 16 * 16 - 0x20.

Lemma frame_top_range s :
  gpr s RSP - 0xaf <= frame_top s <= gpr s RSP - 0xa0 /\ frame_top s mod 16 = 0.
Proof.
  unfold frame_top. set (x := gpr s RSP - 0x80).
  pose proof (Z.div_mod x 16 ltac:(lia)). pose proof (Z.mod_pos_bound x 16 ltac:(lia)).
  split; [lia|]. replace (x / 16 * 16 - 0x20) with ((x / 16 - 2) * 16) by lia.
  by apply Z.mod_mul.
Qed.

(** The state in which [intercept_wrapper] is entered. *)
Definition pushed (desc level1 ret : Z) (s : machine St) : machine St :=
  let t := frame_top s in
  Machine (fun r => match r with RSP => t - 8 | R11 => u64 level1 | _ => gpr s r end) (simd s)
    (store64 (store64 (store64 (ram s) t (gpr s RSP)) (t + 8) desc) (t - 8) ret) (world s).

Lemma push_run desc level1 ret s :
  stack_ok desc s ->
  exists s1, run (push_locals desc level1) s = Some s1 /\
    let s2 := set_ram s1 (store64 (ram s1) (gpr s1 RSP) ret) in
    (forall r, gpr s2 r = gpr (pushed desc level1 ret s) r) /\
    simd s2 = simd s /\ world s2 = world s /\ ram s2 = ram (pushed desc level1 ret s).
Proof.
  intros [Hg Hr [Hd _]]. pose proof (Hg RSP) as Hw. destruct (frame_top_range s) as [Ht _].
  unfold word in *.
  assert (u64 (gpr s RSP) = gpr s RSP) as U1 by (by apply u64_word).
  assert (u64 (gpr s RSP - 0x80) = gpr s RSP - 0x80) as U2 by (apply u64_word; unfold word; lia).
  assert (u64 (Z.land (gpr s RSP - 0x80) (2 ^ 64 - 16)) - 0x20 = frame_top s) as U3.
  { rewrite land_align by (unfold word; lia). unfold frame_top. f_equal. apply u64_word.
    unfold word, frame_top in *. lia. }
  assert (u64 (frame_top s) = frame_top s) as U4 by (apply u64_word; unfold word; lia).
  assert (u64 (frame_top s - 8) = frame_top s - 8) as U5 by (apply u64_word; unfold word; lia).
  eexists. split; [reflexivity|].
  cbn -[Z.pow Z.land Z.sub frame_top store64].
  rewrite U1, U2, U3, U4, U5, Z.add_0_r, (u64_word desc Hd).
  split; [|done]. by intros [].
Qed.

(** The words pushed, and the rest of the memory. *)
Lemma pushed_ram desc level1 ret s :
  stack_ok desc s ->
  let m := ram (pushed desc level1 ret s) in
  let t := frame_top s in
  load64 m t = gpr s RSP /\ load64 m (t + 8) = desc /\
  forall x, ~ (t - 8 <= x < t + 16) -> m x = ram s x.
Proof.
  intros [Hg Hr [Hd _]] m t.
  assert (forall m a v x, ~ (a <= x < a + 8) -> store64 m a v x = m x) as Hout.
  { intros m' a v x Hx. apply mem_write_outside. by rewrite length_le_split. }
  assert (forall m a v, word v -> load64 (store64 m a v) a = v) as Hin.
  { intros m' a v Hv. apply load64_read; [|done]. unfold store64.
    pose proof (mem_read_write m' a (le_split 8 v)) as H. by rewrite length_le_split in H. }
  unfold m. cbn [pushed ram]. fold t. split; [|split].
  - rewrite (load64_ext (store64 (ram s) t (gpr s RSP))); [apply Hin, Hg|].
    intros x Hx. rewrite !Hout by lia. done.
  - rewrite (load64_ext (store64 (store64 (ram s) t (gpr s RSP)) (t + 8) desc)); [by apply Hin|].
    intros x Hx. rewrite Hout by lia. done.
  - intros x Hx. rewrite !Hout by lia. done.
Qed.

(** The C function is called with the registers of the patched code. *)
Record enters (desc : Z) (s sc : machine St) : Prop := {
  en_context : context_at (ram sc) (gpr sc RDI) = context_of s desc;
  en_words : gprs_ok sc;
  en_rcx : gpr sc RCX = gpr s RCX;
  en_world : world sc = world s;
  en_rsp : gpr s RSP - 0x600 <= gpr sc RSP /\ gpr sc RSP + 0x470 <= gpr s RSP - 0x80;
  en_align : gpr sc RSP mod 16 = 0;
  en_ram : forall x, ~ (gpr s RSP - 0x600 <= x < gpr s RSP - 0x80) -> ram sc x = ram s x
}.

Lemma calls_enters desc level1 ret s s' sc :
  stack_ok desc s ->
  (forall r, gpr s' r = gpr (pushed desc level1 ret s) r) ->
  world s' = world s -> ram s' = ram (pushed desc level1 ret s) ->
  calls s' sc (frame_top s - 0x450) -> enters desc s sc.
Proof.
  intros SO G W M CL. set (b := frame_top s - 0x450) in *.
  destruct (frame_top_range s) as [Ht Ha]. destruct (pushed_ram desc level1 ret s SO) as (L1 & L2 & L3).
  rewrite <-M in L1, L2, L3.
  split.
  - pose proof (cl_saved _ _ _ CL) as Hs. rewrite (cl_rdi _ _ _ CL).
    assert (forall r o, (r, o + 0xe8) ∈ saves_1 ++ saves_2 ->
      load64 (ram sc) (b + 0xe8 + o) = gpr (pushed desc level1 ret s) r) as Hs'.
    { intros r o Hin. rewrite <-G, <-(Hs r _ Hin). f_equal. lia. }
    assert (load64 (ram sc) (b + 0xe8 + 0x48) = gpr s RSP) as Hsp.
    { rewrite <-Z.add_assoc. cbn [Z.add Pos.add]. change (0xe8 + 0x48) with 0x130.
      rewrite (cl_rsp0 _ _ _ CL). rewrite <-L1. f_equal. unfold b. lia. }
    assert (load64 (ram sc) (b + 0xe8 + 0x8) = load64 (ram s) desc) as Hip.
    { rewrite <-Z.add_assoc. change (0xe8 + 0x8) with 0xf0.
      rewrite (cl_rip _ _ _ CL). replace (b + 0x458) with (frame_top s + 8) by (unfold b; lia).
      rewrite L2. apply load64_ext. intros x Hx. apply L3.
      pose proof (proj2 (so_desc _ _ SO) x Hx). lia. }
    assert (load64 (ram sc) (b + 0xe8) = desc) as Hde.
    { rewrite (cl_desc _ _ _ CL), <-L2. f_equal. unfold b. lia. }
    unfold context_at, context_of. rewrite Hsp, Hip, Hde.
    rewrite (Hs' R15 0x10), (Hs' R14 0x18), (Hs' R13 0x20), (Hs' R12 0x28), (Hs' R10 0x30),
      (Hs' R9 0x38), (Hs' R8 0x40), (Hs' RBP 0x50), (Hs' RDI 0x58), (Hs' RSI 0x60),
      (Hs' RBX 0x68), (Hs' RDX 0x70), (Hs' RAX 0x78);
      [reflexivity|solve [cbn; repeat first [by left|right]]..].
  - apply (cl_words _ _ _ CL).
  - rewrite (cl_rcx _ _ _ CL). by rewrite G.
  - by rewrite (cl_world _ _ _ CL).
  - rewrite (cl_rsp _ _ _ CL). unfold b. lia.
  - rewrite (cl_rsp _ _ _ CL). unfold b. rewrite Zminus_mod, Ha. done.
  - intros x Hx. rewrite (cl_ram _ _ _ CL) by (unfold b; lia). apply L3. lia.
Qed.

(** What is kept by a call of the wrapper, which returned from the C function in
    [s3]: all but [rax], [rcx] and [r11]. *)
Record kept (ymm : bool) (s s3 s5 : machine St) : Prop := {
  kp_gpr : forall r, r <> RAX -> r <> RCX -> r <> R11 -> gpr s5 r = gpr s r;
  kp_rax : gpr s5 RAX = gpr s3 RAX;
  kp_r11 : gpr s5 R11 = gpr s3 RDX;
  kp_ram : ram s5 = ram s3;
  kp_world : world s5 = world s3;
  kp_vectors : vectors_kept ymm s s5;
  kp_words : gprs_ok s5
}.

Lemma pop_run s4 t :
  gpr s4 RSP = t - 8 -> word t ->
  run pop_locals s4 =
    Some (set_gpr (set_gpr s4 RSP t) RSP (load64 (ram s4) t)).
Proof.
  intros E Ht. cbn -[load64]. rewrite E, Z.sub_add, (u64_word t Ht), Z.add_0_r. done.
Qed.

#[local] Opaque run enter leave.

Lemma bind_Some {A B} (a : A) (f : A -> option B) : (Some a ≫= f) = f a.
Proof. reflexivity. Qed.

(** The parts of [call_wrapper]. *)
Lemma call_wrapper_split c_call must desc level1 ret s s1 sc :
  run (push_locals desc level1) s = Some s1 ->
  enter must (set_ram s1 (store64 (ram s1) (gpr s1 RSP) ret)) = Some sc ->
  call_wrapper c_call must desc level1 ret s =
    (s3 ← c_call (gpr sc RCX =? 1) sc; s4 ← leave must s3; run pop_locals s4).
Proof.
  unfold call_wrapper. destruct (run _ s) as [s'|]; [|intros [=]]. intros [= ->].
  rewrite bind_Some. rewrite wrapper_split.
  destruct (enter must _) as [sc'|]; [|intros [=]]. intros [= ->]. rewrite bind_Some.
  destruct (c_call (gpr sc RCX =? 1) sc); reflexivity.
Qed.

Lemma call_wrapper_spec c_call must desc level1 ret s :
  stack_ok desc s ->
  exists sc, enters desc s sc /\
    match c_call (gpr s RCX =? 1) sc with
    | None => call_wrapper c_call must desc level1 ret s = None
    | Some s3 => abi sc s3 ->
        exists s5, call_wrapper c_call must desc level1 ret s = Some s5 /\
          kept (negb (u8 must =? 0)) s s3 s5
    end.
Proof.
  intros SO. destruct (push_run desc level1 ret s SO) as (s1 & E1 & G & X & W & M).
  set (s2 := set_ram s1 (store64 (ram s1) (gpr s1 RSP) ret)) in *.
  destruct (pushed_ram desc level1 ret s SO) as (L1 & L2 & L3). rewrite <-M in L1, L2, L3.
  destruct (frame_top_range s) as [Ht Ha]. pose proof SO as [Hg Hr [Hdw Hdx]].
  set (b := frame_top s - 0x450). pose proof (Hg RSP) as Hw. unfold word in Hw.
  assert (gprs_ok s2) as Hg2.
  { intros r. rewrite G. destruct r; cbn; try apply Hg; [unfold word; lia|apply word_u64]. }
  assert (gpr s2 RSP - 0x448 = b) as Eb by (rewrite G; cbn; unfold b; lia).
  assert (b mod 16 = 0) as Hb by (unfold b; by rewrite Zminus_mod, Ha).
  assert (load64 (ram s2) (b + 0x458) = desc) as Ed.
  { rewrite <-L2. f_equal. unfold b. lia. }
  destruct (enter_spec must s2 b Hg2 Eb) as (sc & En & CL & VS);
    [unfold b; lia|unfold b; lia|done| |].
  { rewrite Ed. intros x Hx Hx'. apply (Hdx x Hx). unfold b in Hx'. lia. }
  pose proof (calls_enters desc level1 ret s s2 sc SO G W M CL) as EN.
  exists sc. split; [done|]. rewrite (call_wrapper_split _ _ _ _ _ _ _ _ E1 En).
  rewrite (en_rcx _ _ _ EN).
  destruct (c_call (gpr s RCX =? 1) sc) as [s3|]; [|done]. intros AB. rewrite bind_Some.
  destruct (leave_spec must s2 sc s3 b Hg2 Eb Hb CL VS AB) as (s4 & -> & RT).
  rewrite bind_Some.
  assert (gpr s4 RSP = frame_top s - 8) as Esp
    by (rewrite (rt_gpr _ _ _ _ RT) by done; by rewrite G).
  rewrite (pop_run s4 _ Esp) by (unfold word; lia).
  assert (load64 (ram s4) (frame_top s) = gpr s RSP) as ->.
  { rewrite (rt_ram _ _ _ _ RT), <-L1. apply load64_ext. intros x Hx.
    rewrite (abi_frame _ _ AB).
    - apply (cl_ram _ _ _ CL). unfold b. lia.
    - rewrite (cl_rsp _ _ _ CL). unfold b. lia. }
  eexists. split; [reflexivity|].
  split; cbn [set_gpr gpr ram world simd reg_eqb reg_index Nat.eqb]; try apply RT.
  - intros r N1 N2 N3. destruct (decide (r = RSP)) as [->|Nr]; [apply u64_word, Hg|].
    transitivity (gpr s4 r); [destruct r; (reflexivity || congruence)|].
    rewrite (rt_gpr _ _ _ _ RT r N1 N2 N3), G. destruct r; (reflexivity || congruence).
  - intros n Hn. cbn. rewrite (rt_vectors _ _ _ _ RT n Hn). by rewrite X.
  - by apply set_gpr_ok, set_gpr_ok, RT.
Qed.

End wrapper.

(** ** The C functions *)

Section template.
Context `{Kernel W}.
Variable hk : @hooks W.

(** The compiled functions: they follow the ABI, and compute what [Intercept]
    says; [old] and [garbage] are what their stack holds. *)
Record compiled (c_call : bool -> machine (@state W) -> option (machine (@state W))) : Prop := {
  cp_routine s : gprs_ok s -> exists old garbage,
    match intercept_routine hk old garbage (context_at (ram s) (gpr s RDI)) (world s) with
    | None => c_call false s = None
    | Some (ret, w) => exists s', c_call false s = Some s' /\ abi s s' /\
        gpr s' RAX = u64 (w_rax ret) /\ gpr s' RDX = u64 (w_rdx ret) /\ world s' = w
    end;
  cp_post_clone s : gprs_ok s -> let '(ret, w) := intercept_routine_post_clone hk
      (context_at (ram s) (gpr s RDI)) (world s) in
    exists s', c_call true s = Some s' /\ abi s s' /\
      gpr s' RAX = u64 (w_rax ret) /\ gpr s' RDX = u64 (w_rdx ret) /\ world s' = w
}.

Variables (c_call : bool -> machine (@state W) -> option (machine (@state W))) (must : Z).
Variables (desc level1 ret_addr : Z) (syscall : machine (@state W) -> machine (@state W)).
Hypothesis C : compiled c_call.

(** One call of the wrapper with the function for system calls. *)
Lemma call_routine s :
  stack_ok desc s -> gpr s RCX = 0 -> exists old garbage,
  match intercept_routine hk old garbage (context_of s desc) (world s) with
  | None => call_wrapper c_call must desc level1 ret_addr s = None
  | Some (ret, w) => exists sc s3 s5,
      enters desc s sc /\ c_call false sc = Some s3 /\
      call_wrapper c_call must desc level1 ret_addr s = Some s5 /\
      kept (negb (u8 must =? 0)) s s3 s5 /\
      gpr s5 RAX = u64 (w_rax ret) /\ gpr s5 R11 = u64 (w_rdx ret) /\ world s5 = w
  end.
Proof.
  intros SO Hc. destruct (call_wrapper_spec c_call must desc level1 ret_addr s SO) as (sc & EN & HM).
  rewrite Hc in HM. cbn [Z.eqb] in HM.
  destruct (cp_routine _ C sc (en_words _ _ _ EN)) as (old & garbage & HC).
  rewrite (en_context _ _ _ EN), (en_world _ _ _ EN) in HC.
  exists old, garbage.
  destruct (intercept_routine hk old garbage _ _) as [[ret w]|]; [|by rewrite HC in HM].
  destruct HC as (s3 & E & AB & Ea & Ed & Ew). rewrite E in HM.
  destruct (HM AB) as (s5 & E5 & K).
  exists sc, s3, s5. rewrite (kp_rax _ _ _ _ K), (kp_r11 _ _ _ _ K), (kp_world _ _ _ _ K).
  repeat (split; [eassumption|]). exact Ew.
Qed.

Lemma call_post_clone s :
  stack_ok desc s -> gpr s RCX = 1 ->
  let '(ret, w) := intercept_routine_post_clone hk (context_of s desc) (world s) in
  exists s3 s5, call_wrapper c_call must desc level1 ret_addr s = Some s5 /\
    kept (negb (u8 must =? 0)) s s3 s5 /\
    gpr s5 RAX = u64 (w_rax ret) /\ gpr s5 R11 = u64 (w_rdx ret) /\ world s5 = w.
Proof.
  intros SO Hc. destruct (call_wrapper_spec c_call must desc level1 ret_addr s SO) as (sc & EN & HM).
  rewrite Hc in HM. cbn [Z.eqb Pos.eqb] in HM.
  pose proof (cp_post_clone _ C sc (en_words _ _ _ EN)) as HC.
  rewrite (en_context _ _ _ EN), (en_world _ _ _ EN) in HC.
  destruct (intercept_routine_post_clone hk _ _) as [ret w].
  destruct HC as (s3 & E & AB & Ea & Ed & Ew). rewrite E in HM.
  destruct (HM AB) as (s5 & E5 & K).
  exists s3, s5. rewrite (kp_rax _ _ _ _ K), (kp_r11 _ _ _ _ K), (kp_world _ _ _ _ K).
  repeat (split; [eassumption|]). exact Ew.
Qed.

(** All registers but [rax], [rcx] and [r11] are the same. *)
Record same_registers (s s' : machine (@state W)) : Prop := {
  sr_gpr : forall r, r <> RAX -> r <> RCX -> r <> R11 -> gpr s' r = gpr s r;
  sr_vectors : vectors_kept (negb (u8 must =? 0)) s s';
  sr_words : gprs_ok s'
}.

Lemma kept_same s s3 s5 v :
  kept (negb (u8 must =? 0)) (set_gpr s RCX v) s3 s5 -> same_registers s s5.
Proof.
  intros [K _ _ _ _ V G]. split; [|exact V|exact G].
  intros r N1 N2 N3. rewrite (K r N1 N2 N3). destruct r; (reflexivity || congruence).
Qed.

Lemma stack_ok_rcx (s : machine (@state W)) v : stack_ok desc s -> stack_ok desc (set_gpr s RCX v).
Proof. intros [G R D]. split; [by apply set_gpr_ok|exact R|exact D]. Qed.

(** The codes the template knows. *)
Lemma routine_code old garbage c w ret w' :
  intercept_routine hk old garbage c w = Some (ret, w') ->
  w_rdx ret = 0 \/ w_rdx ret = 1 \/ w_rdx ret = 2.
Proof.
  unfold intercept_routine. destruct (handle_magic_syscalls _ _ _) as [[[r|] s]|]; [| |done]; cbn.
  - intros [= <- _]. cbn. auto.
  - destruct (intercept_log_syscall _ _ UNKNOWN 0 s) as [s1|]; [|done]. cbn [mbind option_bind].
    destruct (match intercept_hook_point hk with Some _ => _ | None => _ end)
      as [[[f r] s2]|]; [|done]. cbn [mbind option_bind].
    destruct (_ || _); [intros [= <- _]; cbn; auto|].
    destruct (_ && _); [intros [= <- _]; cbn; auto|].
    destruct (if negb _ then _ else _) as [r' s3].
    destruct (intercept_log_syscall _ _ KNOWN r' s3) as [s4|]; [|done].
    intros [= <- _]. cbn. auto.
Qed.

Lemma word_u64_s64 x : word x -> u64 (s64 x) = x.
Proof.
  intros Hx. unfold u64, s64. rewrite Zminus_mod_idemp_l. rewrite Z.add_simpl_r.
  by apply Z.mod_small.
Qed.

(** The three ways on from the call. *)
Lemma template_step (fuel : nat) s s1 :
  call_wrapper c_call must desc level1 ret_addr s = Some s1 ->
  (gpr s1 R11 = 0 -> template_loop c_call must desc level1 ret_addr syscall (S fuel) s =
     Some (syscall s1)) /\
  (gpr s1 R11 = 1 -> template_loop c_call must desc level1 ret_addr syscall (S fuel) s =
     Some s1) /\
  (gpr s1 R11 = 2 -> template_loop c_call must desc level1 ret_addr syscall (S fuel) s =
     template_loop c_call must desc level1 ret_addr syscall fuel (set_gpr (syscall s1) RCX 1)).
Proof.
  intros E. cbn [template_loop]. rewrite E, bind_Some.
  split; [|split]; intros Ev; rewrite Ev; reflexivity.
Qed.

(** The template after the C function decided to run [clone] in the patched code. *)
Lemma template_clone s1 fuel :
  stack_ok desc (syscall s1) -> exists s2,
    template_loop c_call must desc level1 ret_addr syscall fuel
      (set_gpr (syscall s1) RCX 1) = Some s2 /\
    same_registers (syscall s1) s2 /\ gpr s2 RAX = gpr (syscall s1) RAX /\
    world s2 = (intercept_routine_post_clone hk
      (context_of (syscall s1) desc) (world (syscall s1))).2.
Proof.
  intros SO. pose proof (call_post_clone (set_gpr (syscall s1) RCX 1) (stack_ok_rcx _ 1 SO)
    eq_refl) as HC.
  change (context_of (set_gpr (syscall s1) RCX 1) desc)
    with (context_of (syscall s1) desc) in HC.
  change (world (set_gpr (syscall s1) RCX 1)) with (world (syscall s1)) in HC.
  unfold intercept_routine_post_clone in *. cbn [snd w_rax w_rdx] in HC.
  destruct HC as (s3 & s5 & E & K & Ea & Eb & Ew).
  exists s5. split.
  - destruct fuel; cbn [template_loop]; rewrite E, bind_Some, Eb; reflexivity.
  - split; [by eapply kept_same|]. split; [|exact Ew].
    rewrite Ea. cbn. apply word_u64_s64, (so_words _ _ SO).
Qed.

End template.

(** C13: the code a patched system call runs through.  The C function is called, on
    an aligned stack, with exactly the registers of the patched code, and memory from
    the red zone upwards is left alone.  What comes back in [rax] is what
    [intercept_routine] returned, or the result of the system call executed in the
    original context when it asked for that; after [clone] the hook for new threads
    runs in parent and child.  All general registers but [rax], [rcx] and [r11], and
    the first eight vector registers, are as before. *)
Theorem asm_template_transparent `{Kernel W} (hk : @hooks W) c_call must desc level1 ret_addr
    syscall s :
  compiled hk c_call -> stack_ok desc s ->
  (forall s1, same_registers must s s1 -> stack_ok desc (syscall s1)) ->
  exists old garbage,
  match intercept_routine hk old garbage (context_of s desc) (world s) with
  | None => asm_template c_call must desc level1 ret_addr syscall 1 s = None
  | Some (ret, w) =>
      exists sc s3 s1, enters desc (set_gpr s RCX 0) sc /\ c_call false sc = Some s3 /\
        same_registers must s s1 /\ ram s1 = ram s3 /\ world s1 = w /\
        gpr s1 RAX = u64 (w_rax ret) /\
        (w_rdx ret = 1 ->
           asm_template c_call must desc level1 ret_addr syscall 1 s = Some s1) /\
        (w_rdx ret = 0 ->
           asm_template c_call must desc level1 ret_addr syscall 1 s = Some (syscall s1)) /\
        (w_rdx ret = 2 -> exists s2,
           asm_template c_call must desc level1 ret_addr syscall 1 s = Some s2 /\
           same_registers must (syscall s1) s2 /\ gpr s2 RAX = gpr (syscall s1) RAX /\
           world s2 = (intercept_routine_post_clone hk
             (context_of (syscall s1) desc)
             (world (syscall s1))).2) /\
        (w_rdx ret = 0 \/ w_rdx ret = 1 \/ w_rdx ret = 2)
  end.
Proof.
  intros C SO HS. destruct (call_routine hk c_call must desc level1 ret_addr C (set_gpr s RCX 0)
    (stack_ok_rcx _ _ 0 SO) eq_refl) as (old & garbage & HC).
  change (context_of (set_gpr s RCX 0) desc)
    with (context_of s desc) in HC.
  change (world (set_gpr s RCX 0)) with (world s) in HC.
  exists old, garbage. unfold asm_template.
  destruct (intercept_routine hk old garbage _ _) as [[ret w]|] eqn:ER;
    [|cbn [template_loop]; rewrite HC; reflexivity].
  destruct HC as (sc & s3 & s1 & EN & Ec & E1 & K & Ea & Eb & Ew).
  pose proof (kept_same must _ _ _ _ K) as SR.
  exists sc, s3, s1. split; [exact EN|]. split; [exact Ec|]. split; [exact SR|].
  split; [exact (kp_ram _ _ _ _ K)|]. split; [exact Ew|]. split; [exact Ea|].
  destruct (template_step c_call must desc level1 ret_addr syscall 0 _ s1 E1) as (T0 & T1 & T2).
  rewrite Eb in T0, T1, T2.
  split; [intros Ed; apply T1; by rewrite Ed|]. split; [intros Ed; apply T0; by rewrite Ed|].
  split; [|by eapply routine_code]. intros Ed. rewrite T2 by (by rewrite Ed).
  apply (template_clone hk c_call must desc level1 ret_addr syscall C s1 0). by apply HS.
Qed.

(** ** An example *)

(** A kernel that answers every call with 7. *)
#[export] Instance small_kernel : Kernel unit := {
  k_syscall _ _ w := (7, w);
  k_getpid w := (1, w);
  k_open _ _ _ w := (3, w);
  k_write _ _ w := w;
  k_close _ w := w;
  k_mem _ := fun _ => x00
}.

(** A hook that answers calls with an even number by 42. *)
Definition small_hooks : @hooks unit :=
  Hooks (Some (fun sd result w => Some (if Z.even (sd_nr sd) then (0, 42, w) else (1, result, w))))
    None None.

Definition small_call (post : bool) (s : machine (@state unit))
    : option (machine (@state unit)) :=
  let c := context_at (ram s) (gpr s RDI) in
  '(ret, w) ← (if post then Some (intercept_routine_post_clone small_hooks c (world s))
               else intercept_routine small_hooks EmptyString 0 c (world s));
  Some (Machine (fun r => match r with
                          | RAX => u64 (w_rax ret)
                          | RDX => u64 (w_rdx ret)
                          | RSP => gpr s RSP
                          | _ => 0
                          end) (fun _ => 0) (ram s) w).

Lemma small_compiled : compiled small_hooks small_call.
Proof.
  assert (forall s ret (w : @state unit), gprs_ok s ->
    abi s (Machine (fun r => match r with
      | RAX => u64 (w_rax ret) | RDX => u64 (w_rdx ret) | RSP => gpr s RSP | _ => 0 end)
      (fun _ => 0) (ram s) w)) as HA.
  { intros s ret w Hg. split; [reflexivity| |reflexivity].
    intros r. destruct r; cbn; try apply word_u64; try apply Hg; unfold word; lia. }
  split; intros s Hg.
  - exists EmptyString, 0. unfold small_call.
    destruct (intercept_routine small_hooks EmptyString 0 _ _) as [[ret w]|]; [|reflexivity].
    eexists. split; [reflexivity|]. split; [by apply HA|]. by split_and!.
  - unfold small_call. destruct (intercept_routine_post_clone small_hooks _ _) as [ret w].
    eexists. split; [reflexivity|]. split; [by apply HA|]. by split_and!.
Qed.

(** A call with number [nr], with the log closed. *)
Definition small_machine (nr : Z) : machine (@state unit) :=
  Machine (fun r => match r with RAX => nr | RSP => 0x7000 | _ => 0x1111 end) (fun _ => 5)
    (fun _ => x00) (State (- 1) tt).

Lemma asm_template_transparent_witness : exists s1,
  asm_template small_call 1 0x9000 0x8000 0x5000 (fun s => s) 1 (small_machine 38) = Some s1 /\
  gpr s1 RAX = 42 /\ gpr s1 RBX = 0x1111 /\ gpr s1 RSP = 0x7000.
Proof.
  assert (forall s, same_registers 1 (small_machine 38) s -> stack_ok 0x9000 s) as HS.
  { intros s [K _ G]. split; [exact G|..]; rewrite (K RSP) by done; cbn; [lia|].
    split; [unfold word; lia|]. intros x Hx Hx'. lia. }
  destruct (asm_template_transparent small_hooks small_call 1 0x9000 0x8000 0x5000 (fun s => s)
    (small_machine 38) small_compiled) as (old & garbage & HM).
  - split; [|cbn; lia|split; [unfold word; lia|intros x Hx Hx'; cbn in Hx'; lia]].
    intros r. destruct r; cbn; unfold word; lia.
  - exact HS.
  - assert (intercept_routine small_hooks old garbage
      (context_of (small_machine 38) 0x9000)
      (world (small_machine 38)) = Some (WrapperRet 42 1, State (- 1) tt)) as ER
      by reflexivity.
    rewrite ER in HM. destruct HM as (sc & s3 & s1 & _ & _ & SR & _ & _ & Ea & H1 & _).
    exists s1. split; [exact (H1 eq_refl)|]. split; [exact Ea|].
    split; [apply (sr_gpr _ _ _ SR RBX); discriminate|apply (sr_gpr _ _ _ SR RSP); discriminate].
Defined.

End AsmWrapperSpec.
