(* ===== verification/Posix.v ===== *)
(** * The file system calls PolyStore relies on

    PolyStore stores the bytes of its files in ordinary files of the two
    mounted file systems and reaches them through POSIX calls.  The calls are
    the operations of the class [PosixFS]; their documented behaviour is the
    class [PosixFSLaws]; [ReliableFS] adds that no call fails or transfers less
    than it could.  [MemFS] is an in-memory implementation of all three, so the
    assumptions are satisfiable and the witnesses can run. *)

From S2P Require Import Prelude Defs.

#[local] Open Scope Z_scope.

(** [struct stat]: the size, and one value for all its other fields. *)
Record stat := Stat { st_size : Z; st_rest : Z }.

(** File descriptors and file identities are [Z]; a call returns the value of
    the C call and the new state. *)
Class PosixFS (Fs : Type) := {
  (** the file an open descriptor refers to *)
  fs_object : Fs -> Z -> option Z;
  (** the bytes of a file, zero from its size on *)
  fs_content : Fs -> Z -> Z -> byte;
  fs_size : Fs -> Z -> Z;
  (** [pread(fd, buf, count, offset)]: return value and bytes stored in [buf] *)
  fs_pread : Fs -> Z -> Z -> Z -> Z * list byte;
  (** [pwrite(fd, buf, count, offset)] with the [count] bytes of [buf] *)
  fs_pwrite : Fs -> Z -> list byte -> Z -> Z * Fs;
  (** [lseek(fd, 0, SEEK_END)] *)
  fs_lseek_end : Fs -> Z -> Z * Fs;
  (** [ftruncate(fd, length)] *)
  fs_ftruncate : Fs -> Z -> Z -> Z * Fs;
  (** [read(fd, buf, count)] *)
  fs_read : Fs -> Z -> Z -> Z * list byte * Fs;
  (** [write(fd, buf, count)] *)
  fs_write : Fs -> Z -> list byte -> Z * Fs;
  (** [fallocate(fd, mode, offset, len)] *)
  fs_fallocate : Fs -> Z -> Z -> Z -> Z -> Z * Fs;
  (** [fstat(fd, buf)] *)
  fs_fstat : Fs -> Z -> Z * stat;
  (** [fcntl(fd, cmd, arg)] *)
  fs_fcntl : Fs -> Z -> Z -> Z -> Z * Fs;
  (** [fsync(fd)] *)
  fs_fsync : Fs -> Z -> Z * Fs
}.

(** The calls on names.  Opening a file is split as in the kernel module, into
    the choice of a descriptor and the opening of the path on it. *)
Class PosixNS (Fs : Type) := {
  (** [get_unused_fd_flags(flags)]: a descriptor or a negative error *)
  ns_get_unused_fd : Fs -> Z -> Z;
  (** [filp_open(path, flags, mode)] and [fd_install(fd, _)]: 0 or a negative
      error *)
  ns_filp_open : Fs -> string -> Z -> Z -> Z -> Z * Fs;
  (** [close_fd(fd)] *)
  ns_close : Fs -> Z -> Z * Fs;
  ns_unlink : Fs -> string -> Z * Fs;
  ns_rename : Fs -> string -> string -> Z * Fs;
  ns_mkdir : Fs -> string -> Z -> Z * Fs;
  ns_rmdir : Fs -> string -> Z * Fs;
  ns_stat : Fs -> string -> Z * stat;
  ns_access : Fs -> string -> Z -> Z
}.

(** [same_fds fs fs']: no descriptor was opened, closed or redirected. *)
Definition same_fds `{PosixFS Fs} (fs fs' : Fs) : Prop :=
  forall fd, fs_object fs' fd = fs_object fs fd.

(** The files other than [o] are unchanged. *)
Definition same_others `{PosixFS Fs} (o : Z) (fs fs' : Fs) : Prop :=
  forall o', o' <> o ->
    fs_size fs' o' = fs_size fs o' /\
    forall p, fs_content fs' o' p = fs_content fs o' p.

Definition same_contents `{PosixFS Fs} (fs fs' : Fs) : Prop :=
  forall o, fs_size fs' o = fs_size fs o /\
    forall p, fs_content fs' o p = fs_content fs o p.

(** The effect of writing [d] at offset [off] of the file [o]. *)
Definition written `{PosixFS Fs} (o off : Z) (d : list byte) (fs fs' : Fs)
    : Prop :=
  fs_size fs' o =
    (if decide (d = []) then fs_size fs o
     else Z.max (fs_size fs o) (off + zlength d)) /\
  (forall p, fs_content fs' o p =
     if decide (off <= p < off + zlength d)
     then default x00 (d !! Z.to_nat (p - off)) else fs_content fs o p) /\
  same_others o fs fs' /\ same_fds fs fs'.

Class PosixFSLaws (Fs : Type) `{PosixFS Fs} : Prop := {
  fs_size_nonneg : forall fs o, 0 <= fs_size fs o;
  fs_content_beyond : forall fs o p,
    fs_size fs o <= p -> fs_content fs o p = x00;
  (** a read returns an error, or the bytes found from the offset on, no more
      than asked for and none from the end of the file on *)
  fs_pread_spec : forall fs fd n off ret d,
    fs_pread fs fd n off = (ret, d) ->
    (ret < 0 /\ d = []) \/
    exists o, fs_object fs fd = Some o /\ 0 <= ret <= n /\ zlength d = ret /\
      (0 < ret -> off + ret <= fs_size fs o) /\
      d = tabulate (fun i => fs_content fs o (off + i)) ret;
  (** a write returns an error and changes nothing, or writes a prefix *)
  fs_pwrite_spec : forall fs fd d off ret fs',
    fs_pwrite fs fd d off = (ret, fs') ->
    (ret < 0 /\ same_contents fs fs' /\ same_fds fs fs') \/
    exists o, fs_object fs fd = Some o /\ 0 <= ret <= zlength d /\
      written o off (ztake ret d) fs fs';
  (** seeking changes no file *)
  fs_lseek_end_spec : forall fs fd ret fs',
    fs_lseek_end fs fd = (ret, fs') ->
    same_contents fs fs' /\ same_fds fs fs' /\
    (ret < 0 \/ exists o, fs_object fs fd = Some o /\ ret = fs_size fs o);
  (** the attributes of an open file contain its size *)
  fs_fstat_spec : forall fs fd ret st,
    fs_fstat fs fd = (ret, st) ->
    ret < 0 \/
    exists o, fs_object fs fd = Some o /\ ret = 0 /\ st_size st = fs_size fs o;
  (** flushing to the device changes no file *)
  fs_fsync_spec : forall fs fd,
    same_contents fs (snd (fs_fsync fs fd)) /\ same_fds fs (snd (fs_fsync fs fd))
}.

(** On an open descriptor and a non-negative offset, calls succeed, and
    transfer everything up to the end of the file. *)
Class ReliableFS (Fs : Type) `{PosixFS Fs} : Prop := {
  fs_pread_full : forall fs fd n off o,
    fs_object fs fd = Some o -> 0 <= off -> 0 <= n ->
    fst (fs_pread fs fd n off) = Z.min n (Z.max 0 (fs_size fs o - off));
  fs_pwrite_full : forall fs fd d off o,
    fs_object fs fd = Some o -> 0 <= off ->
    fst (fs_pwrite fs fd d off) = zlength d;
  fs_lseek_end_ok : forall fs fd o,
    fs_object fs fd = Some o -> 0 <= fst (fs_lseek_end fs fd);
  fs_fstat_ok : forall fs fd o,
    fs_object fs fd = Some o -> 0 <= fst (fs_fstat fs fd)
}.

(** Opening existing files by name, while descriptors are available: [ns_resolve]
    is the file a path names.  The open file gets a descriptor that was not in
    use; nothing else changes.  Writing to a file changes no name.  Closing a
    descriptor affects no other one, no contents and no name. *)
Class ReliableNS (Fs : Type) `{PosixFS Fs, PosixNS Fs} := {
  ns_resolve : Fs -> string -> option Z;
  ns_unused_fd : forall fs flags,
    0 <= ns_get_unused_fd fs flags /\
    fs_object fs (ns_get_unused_fd fs flags) = None;
  ns_open_existing : forall fs path flags mode fd o,
    ns_resolve fs path = Some o -> Z.land flags O_TRUNC = 0 ->
    exists fs', ns_filp_open fs path flags mode fd = (0, fs') /\
      fs_object fs' fd = Some o /\ same_contents fs fs' /\
      (forall fd', fd' <> fd -> fs_object fs' fd' = fs_object fs fd') /\
      forall path', ns_resolve fs' path' = ns_resolve fs path';
  ns_pwrite_resolve : forall fs fd d off path,
    ns_resolve (snd (fs_pwrite fs fd d off)) path = ns_resolve fs path;
  ns_close_others : forall fs fd,
    let fs' := snd (ns_close fs fd) in
    same_contents fs fs' /\
    (forall fd', fd' <> fd -> fs_object fs' fd' = fs_object fs fd') /\
    forall path, ns_resolve fs' path = ns_resolve fs path
}.

Section reliable.
Context `{PosixFSLaws Fs, !ReliableFS Fs}.

Lemma pread_reliable fs fd n off o :
  fs_object fs fd = Some o -> 0 <= off -> 0 <= n ->
  let k := Z.min n (Z.max 0 (fs_size fs o - off)) in
  fs_pread fs fd n off =
    (k, tabulate (fun i => fs_content fs o (off + i)) k).
Proof.
  intros Ho Hoff Hn k. pose proof (fs_pread_full fs fd n off o Ho Hoff Hn) as Hf.
  destruct (fs_pread fs fd n off) as [ret d] eqn:E. cbn in Hf.
  destruct (fs_pread_spec _ _ _ _ _ _ E) as [[? _]|(o' & Ho' & ? & ? & ? & ->)];
    [lia|].
  rewrite Ho in Ho'. injection Ho' as <-. by subst ret k.
Qed.

Lemma pwrite_reliable fs fd d off o :
  fs_object fs fd = Some o -> 0 <= off ->
  exists fs', fs_pwrite fs fd d off = (zlength d, fs') /\
    written o off d fs fs'.
Proof.
  intros Ho Hoff. pose proof (fs_pwrite_full fs fd d off o Ho Hoff) as Hf.
  destruct (fs_pwrite fs fd d off) as [ret fs'] eqn:E. cbn in Hf. subst ret.
  destruct (fs_pwrite_spec _ _ _ _ _ _ E) as [[? _]|(o' & Ho' & ? & W)]; [lia|].
  rewrite Ho in Ho'. injection Ho' as <-. exists fs'. split; [done|].
  unfold ztake in W. by rewrite take_ge in W by lia.
Qed.

Lemma lseek_end_reliable fs fd o :
  fs_object fs fd = Some o ->
  exists fs', fs_lseek_end fs fd = (fs_size fs o, fs') /\
    same_contents fs fs' /\ same_fds fs fs'.
Proof.
  intros Ho. pose proof (fs_lseek_end_ok fs fd o Ho) as Hf.
  destruct (fs_lseek_end fs fd) as [ret fs'] eqn:E. cbn in Hf.
  destruct (fs_lseek_end_spec _ _ _ _ E) as (? & ? & [?|(o' & Ho' & ->)]); [lia|].
  rewrite Ho in Ho'. injection Ho' as <-. eauto.
Qed.

Lemma fstat_reliable fs fd o :
  fs_object fs fd = Some o ->
  exists rest, fs_fstat fs fd = (0, Stat (fs_size fs o) rest).
Proof.
  intros Ho. pose proof (fs_fstat_ok fs fd o Ho) as Hf.
  destruct (fs_fstat fs fd) as [ret [sz rest]] eqn:E. cbn in Hf.
  destruct (fs_fstat_spec _ _ _ _ E) as [?|(o' & Ho' & -> & Hsz)]; [lia|].
  rewrite Ho in Ho'. injection Ho' as <-. cbn in Hsz. subst sz. eauto.
Qed.
End reliable.

(** ** An in-memory file system *)

Module MemFS.

Record memfile := MemFile { mf_size : Z; mf_data : Z -> byte }.

Record memfs := Mem {
  m_fds : gmap Z Z;          (* descriptor to file *)
  m_pos : gmap Z Z;          (* descriptor to file offset *)
  m_files : gmap Z memfile;
  m_names : gmap string Z;   (* path to file *)
  m_dirs : gset string
}.

Definition m_file (fs : memfs) (o : Z) : memfile :=
  default (MemFile 0 (fun _ => x00)) (m_files fs !! o).

Definition m_size (fs : memfs) (o : Z) : Z := Z.max 0 (mf_size (m_file fs o)).

Definition m_content (fs : memfs) (o p : Z) : byte :=
  if p <? m_size fs o then mf_data (m_file fs o) p else x00.

Definition m_set (fs : memfs) (o : Z) (f : memfile) : memfs :=
  Mem (m_fds fs) (m_pos fs) (<[o := f]> (m_files fs)) (m_names fs) (m_dirs fs).

Definition m_pread (fs : memfs) (fd n off : Z) : Z * list byte :=
  match m_fds fs !! fd with
  | Some o =>
      if (off <? 0) || (n <? 0) then (-1, [])
      else
        let k := Z.min n (Z.max 0 (m_size fs o - off)) in
        (k, tabulate (fun i => m_content fs o (off + i)) k)
  | None => (-1, [])
  end.

Definition m_write_at (fs : memfs) (o off : Z) (d : list byte) : memfs :=
  if decide (d = []) then fs
  else m_set fs o
    (MemFile (Z.max (m_size fs o) (off + zlength d))
       (fun p => if (off <=? p) && (p <? off + zlength d)
                 then default x00 (d !! Z.to_nat (p - off))
                 else m_content fs o p)).

Definition m_pwrite (fs : memfs) (fd : Z) (d : list byte) (off : Z) : Z * memfs :=
  match m_fds fs !! fd with
  | Some o => if off <? 0 then (-1, fs) else (zlength d, m_write_at fs o off d)
  | None => (-1, fs)
  end.

Definition m_seek (fs : memfs) (fd pos : Z) : memfs :=
  Mem (m_fds fs) (<[fd := pos]> (m_pos fs)) (m_files fs) (m_names fs) (m_dirs fs).

Definition m_lseek_end (fs : memfs) (fd : Z) : Z * memfs :=
  match m_fds fs !! fd with
  | Some o => (m_size fs o, m_seek fs fd (m_size fs o))
  | None => (-1, fs)
  end.

Definition m_ftruncate (fs : memfs) (fd len : Z) : Z * memfs :=
  match m_fds fs !! fd with
  | Some o =>
      if len <? 0 then (-1, fs)
      else (0, m_set fs o (MemFile len (fun p => m_content fs o p)))
  | None => (-1, fs)
  end.

Definition m_read (fs : memfs) (fd n : Z) : Z * list byte * memfs :=
  let pos := default 0 (m_pos fs !! fd) in
  let '(ret, d) := m_pread fs fd n pos in
  (ret, d, if ret <? 0 then fs else m_seek fs fd (pos + ret)).

Definition m_write (fs : memfs) (fd : Z) (d : list byte) : Z * memfs :=
  let pos := default 0 (m_pos fs !! fd) in
  let '(ret, fs) := m_pwrite fs fd d pos in
  (ret, if ret <? 0 then fs else m_seek fs fd (pos + ret)).

Definition m_fallocate (fs : memfs) (fd mode off len : Z) : Z * memfs :=
  match m_fds fs !! fd with
  | Some o =>
      if (off <? 0) || (len <=? 0) || negb (mode =? 0) then (-1, fs)
      else (0, m_set fs o (MemFile (Z.max (m_size fs o) (off + len))
                             (fun p => m_content fs o p)))
  | None => (-1, fs)
  end.

Definition m_fstat (fs : memfs) (fd : Z) : Z * stat :=
  match m_fds fs !! fd with
  | Some o => (0, Stat (m_size fs o) o)
  | None => (-1, Stat 0 0)
  end.

Definition m_fcntl (fs : memfs) (fd _ _ : Z) : Z * memfs :=
  if decide (is_Some (m_fds fs !! fd)) then (0, fs) else (-1, fs).

Definition m_fsync (fs : memfs) (fd : Z) : Z * memfs :=
  if decide (is_Some (m_fds fs !! fd)) then (0, fs) else (-1, fs).

#[global] Instance memfs_posix : PosixFS memfs := {|
  fs_object := fun fs fd => m_fds fs !! fd;
  fs_content := m_content;
  fs_size := m_size;
  fs_pread := m_pread;
  fs_pwrite := m_pwrite;
  fs_lseek_end := m_lseek_end;
  fs_ftruncate := m_ftruncate;
  fs_read := m_read;
  fs_write := m_write;
  fs_fallocate := m_fallocate;
  fs_fstat := m_fstat;
  fs_fcntl := m_fcntl;
  fs_fsync := m_fsync
|}.

Lemma m_file_set_eq fs o f : m_file (m_set fs o f) o = f.
Proof. unfold m_file, m_set. cbn. by rewrite lookup_insert_eq. Qed.

Lemma m_file_set_ne fs o o' f : o' <> o -> m_file (m_set fs o f) o' = m_file fs o'.
Proof. intros. unfold m_file, m_set. cbn. by rewrite lookup_insert_ne by done. Qed.

Lemma m_size_nonneg fs o : 0 <= m_size fs o.
Proof. unfold m_size. lia. Qed.

Lemma m_write_at_written fs o off d :
  0 <= off -> written o off d fs (m_write_at fs o off d).
Proof.
  intros Hoff. unfold written, m_write_at.
  pose proof (m_size_nonneg fs o) as Hsz.
  destruct (decide (d = [])) as [->|Hd].
  - split_and!; [done| |done|done].
    intros p. rewrite decide_False by (cbn; lia). done.
  - assert (0 < zlength d) by (destruct d; [done|cbn; lia]).
    split_and!.
    + cbn. unfold m_size at 1. rewrite m_file_set_eq. cbn. lia.
    + intros p. cbn. unfold m_content at 1, m_size at 1.
      rewrite m_file_set_eq. cbn. repeat case_decide; repeat zif; try lia; try done.
      all: try (apply andb_false_iff in E0; lia).
      unfold m_content. rewrite (proj2 (Z.ltb_ge _ _)) by lia. done.
    + intros o' Ho. cbn. unfold m_content, m_size.
      by rewrite m_file_set_ne by done.
    + done.
Qed.

#[global] Instance memfs_laws : PosixFSLaws memfs.
Proof.
  split; cbn.
  - apply m_size_nonneg.
  - intros fs o p Hp. unfold m_content. zif; [lia|done].
  - intros fs fd n off ret d. unfold m_pread.
    destruct (m_fds fs !! fd) as [o|]; [|intros [= <- <-]; left; split; [lia|done]].
    destruct (_ || _) eqn:E; [intros [= <- <-]; left; split; [lia|done]|].
    zbool. intros [= <- <-]. right. exists o.
    pose proof (m_size_nonneg fs o).
    split_and!; [done|lia|lia| |lia|done].
    rewrite zlength_tabulate; lia.
  - intros fs fd d off ret fs'. unfold m_pwrite.
    destruct (m_fds fs !! fd) as [o|] eqn:Eo; [|intros [= <- <-]; left; done].
    zif; intros [= <- <-]; [left; done|]. right. exists o.
    split_and!; [done|lia|lia|]. unfold ztake. rewrite take_ge by lia.
    by apply m_write_at_written.
  - intros fs fd ret fs'. unfold m_lseek_end.
    destruct (m_fds fs !! fd) as [o|]; intros [= <- <-]; split_and!; try done.
    + right. eauto.
    + left. lia.
  - intros fs fd ret st. unfold m_fstat.
    destruct (m_fds fs !! fd) as [o|]; intros [= <- <-]; [right; eauto|left; lia].
  - intros fs fd. unfold m_fsync. by case_decide.
Qed.

#[global] Instance memfs_reliable : ReliableFS memfs.
Proof.
  split; cbn.
  - intros fs fd n off o Ho ? ?. unfold m_pread. rewrite Ho.
    rewrite (proj2 (Z.ltb_ge off 0)), (proj2 (Z.ltb_ge n 0)) by lia. done.
  - intros fs fd d off o Ho ?. unfold m_pwrite. rewrite Ho.
    by rewrite (proj2 (Z.ltb_ge off 0)) by lia.
  - intros fs fd o Ho. unfold m_lseek_end. rewrite Ho. apply m_size_nonneg.
  - intros fs fd o Ho. unfold m_fstat. by rewrite Ho.
Qed.

(** Two open, empty files: file 0 behind the fast and file 1 behind the slow
    descriptor. *)
Definition empty_pair (fastfd slowfd : Z) : memfs :=
  Mem (<[fastfd := 0]> {[slowfd := 1]}) ∅ ∅ ∅ ∅.

(** *** Names *)

Definition m_empty : memfs := Mem ∅ ∅ ∅ ∅ ∅.

(** The least key from [k] on that is not in a map, found among the next
    [n] candidates. *)
Fixpoint m_unused {A} (n : nat) (k : Z) (m : gmap Z A) : Z :=
  match n with
  | O => k
  | S n => match m !! k with Some _ => m_unused n (k + 1) m | None => k end
  end.

Definition m_get_unused_fd (fs : memfs) (_ : Z) : Z :=
  m_unused (size (m_fds fs)) 3 (m_fds fs).

Definition m_filp_open (fs : memfs) (path : string) (flags _ fd : Z) : Z * memfs :=
  match m_names fs !! path with
  | Some o =>
      let files := if Z.land flags O_TRUNC =? 0 then m_files fs
                   else <[o := MemFile 0 (fun _ => x00)]> (m_files fs) in
      (0, Mem (<[fd := o]> (m_fds fs)) (<[fd := 0]> (m_pos fs)) files
            (m_names fs) (m_dirs fs))
  | None =>
      if Z.land flags O_CREAT =? 0 then (- ENOENT, fs)
      else
        let o := m_unused (size (m_files fs)) 0 (m_files fs) in
        (0, Mem (<[fd := o]> (m_fds fs)) (<[fd := 0]> (m_pos fs))
              (<[o := MemFile 0 (fun _ => x00)]> (m_files fs))
              (<[path := o]> (m_names fs)) (m_dirs fs))
  end.

Definition m_close (fs : memfs) (fd : Z) : Z * memfs :=
  match m_fds fs !! fd with
  | Some _ => (0, Mem (delete fd (m_fds fs)) (delete fd (m_pos fs)) (m_files fs)
                    (m_names fs) (m_dirs fs))
  | None => (- EBADF, fs)
  end.

Definition m_unlink (fs : memfs) (path : string) : Z * memfs :=
  match m_names fs !! path with
  | Some _ => (0, Mem (m_fds fs) (m_pos fs) (m_files fs)
                    (delete path (m_names fs)) (m_dirs fs))
  | None => (-1, fs)
  end.

Definition m_rename (fs : memfs) (old new : string) : Z * memfs :=
  match m_names fs !! old with
  | Some o => (0, Mem (m_fds fs) (m_pos fs) (m_files fs)
                    (<[new := o]> (delete old (m_names fs))) (m_dirs fs))
  | None => (-1, fs)
  end.

Definition m_mkdir (fs : memfs) (path : string) (_ : Z) : Z * memfs :=
  if decide (path ∈ m_dirs fs) then (-1, fs)
  else (0, Mem (m_fds fs) (m_pos fs) (m_files fs) (m_names fs)
             ({[path]} ∪ m_dirs fs)).

Definition m_rmdir (fs : memfs) (path : string) : Z * memfs :=
  if decide (path ∈ m_dirs fs)
  then (0, Mem (m_fds fs) (m_pos fs) (m_files fs) (m_names fs)
             (m_dirs fs ∖ {[path]}))
  else (-1, fs).

Definition m_stat (fs : memfs) (path : string) : Z * stat :=
  match m_names fs !! path with
  | Some o => (0, Stat (m_size fs o) o)
  | None => (-1, Stat 0 0)
  end.

Definition m_access (fs : memfs) (path : string) (_ : Z) : Z :=
  if decide (is_Some (m_names fs !! path)) then 0 else -1.

#[global] Instance memfs_ns : PosixNS memfs := {|
  ns_get_unused_fd := m_get_unused_fd;
  ns_filp_open := m_filp_open;
  ns_close := m_close;
  ns_unlink := m_unlink;
  ns_rename := m_rename;
  ns_mkdir := m_mkdir;
  ns_rmdir := m_rmdir;
  ns_stat := m_stat;
  ns_access := m_access
|}.

(** A search among as many candidates as the map has keys finds a free one. *)
Lemma m_unused_spec {A} (n : nat) : forall (k : Z) (m : gmap Z A),
  Z.of_nat (size (filter (fun '(i, _) => k <= i) m)) <= n -> m !! m_unused n k m = None.
Proof.
  induction n as [|n IH]; intros k m Hn; cbn.
  - assert (filter (fun '(i, _) => k <= i) m = ∅) as E
      by (apply map_size_empty_iff; lia).
    destruct (m !! k) as [x|] eqn:Ek; [|done].
    assert (filter (fun '(i, _) => k <= i) m !! k = Some x) as F
      by (apply map_lookup_filter_Some; split; [done|lia]).
    by rewrite E in F.
  - destruct (m !! k) as [x|] eqn:Ek; [|done]. apply IH.
    assert (filter (fun '(i, _) => k + 1 <= i) m =
      delete k (filter (fun '(i, _) => k <= i) m)) as ->.
    { apply map_eq. intros i. destruct (decide (i = k)) as [->|].
      - rewrite lookup_delete_eq. apply map_lookup_filter_None. right.
        intros y _. lia.
      - rewrite lookup_delete_ne by done. rewrite !map_lookup_filter.
        destruct (m !! i) as [y|]; [|done]. cbn.
        repeat case_guard; done || lia. }
    rewrite map_size_delete_Some; [lia|].
    exists x. apply map_lookup_filter_Some. split; [done|lia].
Qed.

Lemma m_unused_ge {A} (n : nat) : forall (k : Z) (m : gmap Z A), k <= m_unused n k m.
Proof.
  induction n as [|n IH]; intros k m; cbn; [lia|].
  destruct (m !! k); [|lia]. specialize (IH (k + 1) m). lia.
Qed.

#[global] Instance memfs_ns_reliable : ReliableNS memfs.
Proof.
  refine {| ns_resolve := fun fs path => m_names fs !! path |}; cbn.
  - intros fs flags. unfold m_get_unused_fd. split.
    + pose proof (m_unused_ge (size (m_fds fs)) 3 (m_fds fs)). lia.
    + apply m_unused_spec.
      pose proof (map_subseteq_size _ _
        (map_filter_subseteq (fun '(i, _) => 3 <= i) (m_fds fs))). lia.
  - intros fs path flags mode fd o Hp Hf. unfold m_filp_open.
    rewrite Hp, Hf. cbn. eexists. split_and!; [done|apply lookup_insert_eq|done| |done].
    intros fd' Hne. cbn. by rewrite lookup_insert_ne by congruence.
  - intros fs fd d off path. unfold m_pwrite. destruct (m_fds fs !! fd); [|done].
    destruct (off <? 0); [done|]. cbn. unfold m_write_at. by case_decide.
  - intros fs fd. unfold m_close. destruct (m_fds fs !! fd); [|done].
    split_and!; [done| |done]. intros fd' Hne. cbn. by rewrite lookup_delete_ne by congruence.
Defined.

End MemFS.
