(* ===== verification/Indexing.v ===== *)
(** * Poly-inodes, Poly-files and the Poly-index
      ([polylib/src/polystore.h], [polylib/src/indexing.c])

    The structures the data path works on, and the operations of the
    Poly-index: the interval tree of a file whose nodes say on which device,
    and at which offset of the physical file, a 2 MiB piece of the logical file
    is stored.  The memory region of the index is a map from slots of 256 bytes
    to entries; a pointer to an entry is its slot number. *)

From S2P Require Import Prelude Defs IntervalTree IntervalTreeErase.
Export IntervalTree.IntervalTree.

#[local] Open Scope Z_scope.

(** ** Data *)

(** [struct it_node_entry], without its lock and LRU links. *)
Record it_node_entry := Entry {
  e_idx_no : Z;                   (* int *)
  e_placement : Z;                (* int *)
  e_size : Z;                     (* size_t *)
  e_offset : Z;                   (* loff_t *)
  e_ref_count : Z;                (* int *)
  e_it : interval_tree_node;
  e_inode : Z;                    (* back pointer, the inode number *)
  e_buf_addr : Z;                 (* void *, 0 is NULL *)
  e_cache_size : Z;               (* size_t *)
  e_dirty : Z;
  e_present : Z;
  e_removed : Z
}.

#[export] Instance entry_copy : Copy it_node_entry := fun e =>
  Entry (e_idx_no e) (e_placement e) (e_size e) (e_offset e) (e_ref_count e)
    (e_it e) (e_inode e) (e_buf_addr e) (e_cache_size e) (e_dirty e)
    (e_present e) (e_removed e).

(** The entry found in zeroed index memory. *)
Definition zero_entry : it_node_entry :=
  Entry 0 0 0 0 0 (ITNode 0 0 0) 0 0 0 0 0 0.

(** [struct poly_inode], without locks, list links and reserved fields;
    [i_entries] is the index memory [index] points to, a region with room for
    [i_index_slots] entries; what lies behind it belongs to another inode. *)
Record poly_inode := Inode {
  i_path_hash : Z;                (* int *)
  i_ino : Z;                      (* int *)
  i_type : Z;                     (* mode_t *)
  i_placement : Z;                (* int *)
  i_size : Z;                     (* size_t *)
  i_refcount : Z;                 (* int *)
  i_reclaim : Z;                  (* int *)
  i_it_tree : tree;
  i_next_avail_it_node_no : Z;    (* int *)
  i_index : Z;                    (* void *, 0 is NULL *)
  i_index_slots : Z;              (* size of the region [index] points to *)
  i_entries : gmap Z it_node_entry;
  i_cache_policy : Z;
  i_cache_rwfd_fast : Z;
  i_cache_rwfd_slow : Z;
  i_cache_mmapfd : Z;
  i_cache_fast_offset : Z;
  i_cache_slow_offset : Z;
  i_pathname : string
}.

#[export] Instance inode_copy : Copy poly_inode := fun i =>
  Inode (i_path_hash i) (i_ino i) (i_type i) (i_placement i) (i_size i)
    (i_refcount i) (i_reclaim i) (i_it_tree i) (i_next_avail_it_node_no i)
    (i_index i) (i_index_slots i) (i_entries i) (i_cache_policy i) (i_cache_rwfd_fast i)
    (i_cache_rwfd_slow i) (i_cache_mmapfd i) (i_cache_fast_offset i)
    (i_cache_slow_offset i) (i_pathname i).

(** [struct poly_file]; [f_inode] is the inode number, [None] for NULL. *)
Record poly_file := File {
  f_polyfd : Z;
  f_flags : Z;
  f_off : Z;                      (* loff_t *)
  f_inode : option Z
}.

#[export] Instance file_copy : Copy poly_file := fun f =>
  File (f_polyfd f) (f_flags f) (f_off f) (f_inode f).

(** [struct g_task_ctx] *)
Record g_task_ctx := Task {
  t_task_id : Z;                  (* uint32_t *)
  t_epoch_tic : Z;                (* uint32_t *)
  t_throughput : Z;               (* uint64_t *)
  t_throughput_read : Z;          (* uint64_t *)
  t_throughput_write : Z;         (* uint64_t *)
  t_last_throughput : Z;          (* uint64_t *)
  t_low_throughput_tic : Z;       (* uint32_t *)
  t_placement : Z                 (* placement_t *)
}.

#[export] Instance task_copy : Copy g_task_ctx := fun t =>
  Task (t_task_id t) (t_epoch_tic t) (t_throughput t) (t_throughput_read t)
    (t_throughput_write t) (t_last_throughput t) (t_low_throughput_tic t)
    (t_placement t).

(** The fields of the inode no data operation touches. *)
Definition inode_meta (i : poly_inode) :=
  (i_path_hash i, i_ino i, i_type i, i_placement i, i_size i, i_refcount i,
   i_reclaim i, i_index i, i_index_slots i, i_pathname i).

(** ** Entries in index memory *)

Definition entry_at (inode : poly_inode) (slot : Z) : it_node_entry :=
  default zero_entry (i_entries inode !! slot).

Definition set_entry (inode : poly_inode) (slot : Z) (e : it_node_entry)
    : poly_inode :=
  inode <| i_entries := <[slot := e]> (i_entries inode) |>.

(** The address of a slot, as computed by [polystore_index_entry_allocate]
    from the address of the index region. *)
Definition entry_addr (index slot : Z) : Z :=
  u64 (index + u64 (s32 (Z.shiftl slot POLY_INDEX_STRUCT_SIZE_SHIFT))).

(** The slots that fit the index region of one inode. *)
Definition index_slots (large : bool) : Z :=
  POLY_INDEX_MAX_MEM_SIZE large / POLY_INDEX_STRUCT_SIZE.

Lemma index_slots_bound large : index_slots large <= MAX_POLY_INDEX_NODE_NR.
Proof. by destruct large. Qed.

(** The inode [alloc_poly_inode] sets up in a zeroed page, before its index
    region is attached. *)
Definition init_poly_inode (path_hash ino type : Z) : poly_inode :=
  Inode path_hash ino type BLK_PLACEMENT_TBD 0 0 0 Leaf 1 0 0 ∅ 0 0 0 0 0 0 "".

(** ** Operations *)

(** [polystore_index_entry_allocate]: the slot number is taken from the
    counter, which advances even when the allocation is refused.  The number is
    stored in the new entry at once; [None] is this store outside the region of the
    inode, which the bound [MAX_POLY_INDEX_NODE_NR] does not exclude. *)
Definition polystore_index_entry_allocate (inode : poly_inode)
    : option (option Z * poly_inode) :=
  let it_no := i_next_avail_it_node_no inode in
  let inode := inode <| i_next_avail_it_node_no := s32 (it_no + 1) |> in
  if i_index inode =? 0 then Some (None, inode)
  else if MAX_POLY_INDEX_NODE_NR <? it_no then Some (None, inode)
  else if (0 <=? it_no) && (it_no <? i_index_slots inode) then
    Some (Some it_no,
          set_entry inode it_no (entry_at inode it_no <| e_idx_no := it_no |>))
  else None.

(** [polystore_index_insert]; [None] is a NULL dereference in the tree code. *)
Definition polystore_index_insert (inode : poly_inode) (entry : Z)
    : option poly_inode :=
  t ← interval_tree_insert (e_it (entry_at inode entry)) (i_it_tree inode);
  Some (inode <| i_it_tree := t |>).

(** [polystore_index_remove] *)
Definition polystore_index_remove (inode : poly_inode) (entry : Z)
    : option poly_inode :=
  t ← IntervalTreeErase.interval_tree_remove entry (i_it_tree inode);
  Some (inode <| i_it_tree := t |>).

(** [polystore_index_lookup]: [container_of] maps the tree node to the entry
    it is embedded in. *)
Definition polystore_index_lookup (inode : poly_inode) (start last : Z)
    : option Z :=
  it_idx <$> interval_tree_iter_first (i_it_tree inode) start last.

(** [polystore_index_lookup_next] *)
Definition polystore_index_lookup_next (inode : poly_inode) (entry : Z)
    (start last : Z) : option Z :=
  it_idx <$> interval_tree_iter_next (i_it_tree inode) entry start last.

(** [polystore_index_load] and [polystore_index_sync] are stubs of the source. *)
Definition polystore_index_load (inode : poly_inode) (start last : Z) : Z := 0.
Definition polystore_index_sync (inode : poly_inode) (start last : Z) : Z := 0.

(** ** The dense index of a file written without holes

    [es] lists, for each 2 MiB piece of the file in order, the slot of its
    entry, the device and the offset in the physical file. *)

Abbreviation NODE := POLY_INDEX_NODE_SIZE.

Record piece := Piece { pc_slot : Z; pc_place : Z; pc_off : Z }.

(** The tree node of the [i]-th piece. *)
Definition piece_node (i : nat) (p : piece) : interval_tree_node :=
  ITNode (pc_slot p) (i * NODE) (i * NODE + NODE - 1).

Definition piece_nodes (es : list piece) : list interval_tree_node :=
  imap piece_node es.

(** The index of [inode] consists of the pieces [es]. *)
Record index_ok (inode : poly_inode) (es : list piece) : Prop := {
  ok_wf : wf_tree (i_it_tree inode);
  ok_nodes : inorder (i_it_tree inode) = piece_nodes es;
  ok_slots : NoDup (pc_slot <$> es);
  ok_fresh : forall p, p ∈ es -> 0 <= pc_slot p < i_next_avail_it_node_no inode;
  ok_next : 0 <= i_next_avail_it_node_no inode;
  ok_index : i_index inode <> 0;
  ok_region : i_index_slots inode <= MAX_POLY_INDEX_NODE_NR;
  ok_inside : forall p, p ∈ es -> pc_slot p < i_index_slots inode;
  ok_entry : forall (i : nat) p, es !! i = Some p ->
    let e := entry_at inode (pc_slot p) in
    e_it e = piece_node i p /\ e_placement e = pc_place p /\
    e_offset e = pc_off p
}.

Lemma node_pos : 0 < NODE.
Proof. rewrite node_size_val. lia. Qed.

Lemma piece_nodes_app es p :
  piece_nodes (es ++ [p]) = piece_nodes es ++ [piece_node (length es) p].
Proof. unfold piece_nodes. by rewrite imap_app, imap_cons, Nat.add_0_r. Qed.

Lemma lookup_piece_nodes es (i : nat) :
  piece_nodes es !! i = piece_node i <$> es !! i.
Proof. apply list_lookup_imap. Qed.

Lemma map_idx_piece_nodes es : map it_idx (piece_nodes es) = pc_slot <$> es.
Proof.
  apply list_eq. intros i. change (map it_idx) with (fmap (M:=list) it_idx).
  rewrite !list_lookup_fmap, lookup_piece_nodes.
  by destruct (es !! i).
Qed.

Lemma index_unique inode es :
  index_ok inode es -> unique_idx (inorder (i_it_tree inode)).
Proof.
  intros H. unfold unique_idx. rewrite (ok_nodes _ _ H), map_idx_piece_nodes.
  apply (ok_slots _ _ H).
Qed.

(** The first piece from position [k] on that meets [start, last]. *)
Lemma first_overlap_pieces es (k : nat) start last :
  k * NODE <= start -> start <= last ->
  first_overlap start last (drop k (piece_nodes es)) =
    (fun p => piece_node (Z.to_nat (start / NODE)) p) <$>
      es !! Z.to_nat (start / NODE).
Proof.
  pose proof node_pos as HN. intros Hk Hl.
  assert (k <= start / NODE) as Hk' by (apply Z.div_le_lower_bound; lia).
  set (j := Z.to_nat (start / NODE)).
  pose proof (Z.div_mod start NODE) as Hdm.
  pose proof (Z.mod_pos_bound start NODE HN) as Hmod.
  assert (Z.of_nat j = start / NODE) as Hj by lia.
  destruct (es !! j) as [p|] eqn:E; cbn.
  - assert (drop k (piece_nodes es) =
      (take (j - k) (drop k (piece_nodes es))) ++
        piece_node j p :: drop (S j) (piece_nodes es)) as ->.
    { rewrite <-(take_drop (j - k) (drop k (piece_nodes es))) at 1. f_equal.
      rewrite drop_drop. replace (k + (j - k))%nat with j by lia.
      apply drop_S. by rewrite lookup_piece_nodes, E. }
    rewrite first_overlap_app, first_overlap_none.
    + cbn. unfold first_overlap. cbn.
      unfold overlaps. cbn. repeat zif; try done; try lia.
      all: exfalso; rewrite Hj in *; nia.
    + intros x Hx. apply elem_of_take in Hx as (i & Hx & Hi).
      rewrite lookup_drop, lookup_piece_nodes in Hx.
      destruct (es !! (k + i)%nat) as [q|] eqn:Eq; [|done].
      injection Hx as <-. apply overlaps_false. right. cbn. nia.
  - apply first_overlap_none. intros x Hx.
    apply list_elem_of_lookup in Hx as (i & Hx).
    rewrite lookup_drop, lookup_piece_nodes in Hx.
    destruct (es !! (k + i)%nat) as [q|] eqn:Eq; [|done].
    injection Hx as <-. apply overlaps_false. right. cbn.
    apply lookup_lt_Some in Eq. apply lookup_ge_None in E. nia.
Qed.

Lemma lookup_pieces inode es start last :
  index_ok inode es -> 0 <= start <= last ->
  polystore_index_lookup inode start last =
    pc_slot <$> es !! Z.to_nat (start / NODE).
Proof.
  intros H ?. unfold polystore_index_lookup.
  destruct (ok_wf _ _ H) as (Hs & Ha & _).
  rewrite iter_first_spec, (ok_nodes _ _ H) by done.
  pose proof (first_overlap_pieces es 0 start last) as E.
  rewrite drop_0 in E. rewrite E by lia. by destruct (es !! _).
Qed.

Lemma lookup_next_first_overlap inode es (i : nat) p start last :
  index_ok inode es -> es !! i = Some p ->
  polystore_index_lookup_next inode (pc_slot p) start last =
    it_idx <$> first_overlap start last (drop (S i) (piece_nodes es)).
Proof.
  intros H Hp. unfold polystore_index_lookup_next.
  destruct (ok_wf _ _ H) as (Hs & Ha & _). f_equal.
  apply (iter_next_spec _ (take i (piece_nodes es)) (piece_node i p)); [|
    by eapply index_unique|done|done].
  rewrite (ok_nodes _ _ H). symmetry. apply take_drop_middle.
  by rewrite lookup_piece_nodes, Hp.
Qed.

Lemma lookup_next_pieces inode es (i : nat) p start last :
  index_ok inode es -> es !! i = Some p ->
  (S i) * NODE <= start <= last ->
  polystore_index_lookup_next inode (pc_slot p) start last =
    pc_slot <$> es !! Z.to_nat (start / NODE).
Proof.
  intros H Hp ?. rewrite (lookup_next_first_overlap _ es i) by done.
  rewrite first_overlap_pieces by lia.
  by destruct (es !! Z.to_nat (start / NODE)).
Qed.

(** Nothing follows once the range ends in the current piece. *)
Lemma lookup_next_done inode es (i : nat) p start last :
  index_ok inode es -> es !! i = Some p -> last < (S i) * NODE ->
  polystore_index_lookup_next inode (pc_slot p) start last = None.
Proof.
  intros H Hp ?. rewrite (lookup_next_first_overlap _ es i) by done.
  rewrite first_overlap_none; [done|]. intros x Hx.
  apply list_elem_of_lookup in Hx as (j & Hx).
  rewrite lookup_drop, lookup_piece_nodes in Hx.
  destruct (es !! (S i + j)%nat) as [q|] eqn:Eq; [|done].
  injection Hx as <-. apply overlaps_false. left. cbn.
  pose proof node_pos. nia.
Qed.

(** Going through all pieces, as the traversals of a whole file do. *)
Lemma lookup_next_scan inode es (i : nat) p last :
  index_ok inode es -> es !! i = Some p -> (length es - 1) * NODE <= last ->
  polystore_index_lookup_next inode (pc_slot p) 0 last = pc_slot <$> es !! S i.
Proof.
  intros H Hp Hl. rewrite (lookup_next_first_overlap _ es i) by done.
  pose proof node_pos. destruct (es !! S i) as [q|] eqn:Eq.
  - rewrite (drop_S _ (piece_node (S i) q)) by (by rewrite lookup_piece_nodes, Eq).
    unfold first_overlap. cbn [List.find]. unfold overlaps. cbn [it_start it_last piece_node].
    apply lookup_lt_Some in Eq.
    rewrite !(proj2 (Z.leb_le _ _)) by nia. done.
  - rewrite drop_ge; [done|]. apply lookup_ge_None in Eq. unfold piece_nodes.
    by rewrite length_imap.
Qed.

(** ** Preservation *)

Lemma entry_at_set_eq inode slot e : entry_at (set_entry inode slot e) slot = e.
Proof. unfold entry_at, set_entry. cbn. by rewrite lookup_insert_eq. Qed.

Lemma entry_at_set_ne inode slot slot' e :
  slot' <> slot -> entry_at (set_entry inode slot e) slot' = entry_at inode slot'.
Proof. intros. unfold entry_at, set_entry. cbn. by rewrite lookup_insert_ne by done. Qed.

Lemma set_entry_twice inode slot e e' :
  set_entry (set_entry inode slot e) slot e' = set_entry inode slot e'.
Proof. unfold set_entry, update. cbn. by rewrite insert_insert_eq. Qed.

Lemma entry_at_tree inode t slot :
  entry_at (inode <| i_it_tree := t |>) slot = entry_at inode slot.
Proof. done. Qed.

(** What [index_ok] depends on. *)
Lemma index_ok_ext inode inode' es :
  index_ok inode es ->
  i_it_tree inode' = i_it_tree inode ->
  i_next_avail_it_node_no inode' = i_next_avail_it_node_no inode ->
  i_index inode' = i_index inode ->
  i_index_slots inode' = i_index_slots inode ->
  (forall p, p ∈ es ->
     let e := entry_at inode (pc_slot p) in
     let e' := entry_at inode' (pc_slot p) in
     e_it e' = e_it e /\ e_placement e' = e_placement e /\
     e_offset e' = e_offset e) ->
  index_ok inode' es.
Proof.
  intros [] Ht Hn Hi Hs He. split; rewrite ?Ht, ?Hn, ?Hi, ?Hs; try done.
  intros i p Hp e. destruct (ok_entry0 i p Hp) as (?&?&?).
  destruct (He p) as (E1&E2&E3); [by eapply list_elem_of_lookup_2|].
  subst e. rewrite E1, E2, E3. done.
Qed.

(** Changing fields of an entry other than its interval, device and offset. *)
Lemma index_ok_set_entry inode es slot e' :
  index_ok inode es ->
  e_it e' = e_it (entry_at inode slot) ->
  e_placement e' = e_placement (entry_at inode slot) ->
  e_offset e' = e_offset (entry_at inode slot) ->
  index_ok (set_entry inode slot e') es.
Proof.
  intros H H1 H2 H3. eapply index_ok_ext; [done..|]. intros p _. cbn zeta.
  destruct (decide (pc_slot p = slot)) as [->|].
  - by rewrite entry_at_set_eq.
  - by rewrite entry_at_set_ne.
Qed.

Lemma insert_sorted_last n l :
  (forall x, x ∈ l -> it_start x <= it_start n) ->
  insert_sorted n l = l ++ [n].
Proof.
  intros H. rewrite <-(app_nil_r l) at 1. apply insert_sorted_split; [done|].
  set_solver.
Qed.

Lemma piece_start_le es x :
  x ∈ piece_nodes es -> it_start x <= length es * NODE.
Proof.
  intros Hx. apply list_elem_of_lookup in Hx as (i & Hx).
  rewrite lookup_piece_nodes in Hx.
  destruct (es !! i) as [q|] eqn:Eq; [|done]. injection Hx as <-. cbn.
  apply lookup_lt_Some in Eq. pose proof node_pos. nia.
Qed.

Lemma index_ok_snoc inode inode' es p :
  index_ok inode es -> wf_tree (i_it_tree inode') ->
  inorder (i_it_tree inode') = piece_nodes (es ++ [p]) ->
  pc_slot p = i_next_avail_it_node_no inode ->
  i_next_avail_it_node_no inode' = i_next_avail_it_node_no inode + 1 ->
  i_index inode' = i_index inode ->
  i_index_slots inode' = i_index_slots inode ->
  pc_slot p < i_index_slots inode ->
  (forall slot, slot <> pc_slot p -> entry_at inode' slot = entry_at inode slot) ->
  e_it (entry_at inode' (pc_slot p)) = piece_node (length es) p ->
  e_placement (entry_at inode' (pc_slot p)) = pc_place p ->
  e_offset (entry_at inode' (pc_slot p)) = pc_off p ->
  index_ok inode' (es ++ [p]).
Proof.
  intros H Hwf Hin Hslot Hnext Hidx Hslots Hroom Hne H1 H2 H3.
  pose proof (ok_next _ _ H) as Hn.
  assert (forall q, q ∈ es -> pc_slot q <> pc_slot p) as Hfresh.
  { intros q Hq. pose proof (ok_fresh _ _ H q Hq). lia. }
  split; try done.
  - rewrite fmap_app. apply NoDup_app. split_and!.
    + apply (ok_slots _ _ H).
    + intros s Hs [->|Hs']%elem_of_cons; [|by apply elem_of_nil in Hs'].
      apply list_elem_of_fmap in Hs as (q & Hq & Hin'). by eapply Hfresh.
    + apply NoDup_singleton.
  - intros q [Hq|Hq]%elem_of_app.
    + pose proof (ok_fresh _ _ H q Hq). lia.
    + apply list_elem_of_singleton in Hq as ->. lia.
  - lia.
  - rewrite Hidx. apply (ok_index _ _ H).
  - rewrite Hslots. apply (ok_region _ _ H).
  - intros q [Hq|Hq]%elem_of_app; rewrite Hslots.
    + apply (ok_inside _ _ H q Hq).
    + by apply list_elem_of_singleton in Hq as ->.
  - intros i q [Hq|[Hi Hq]]%lookup_app_Some.
    + cbn. rewrite Hne by (eapply Hfresh, list_elem_of_lookup_2, Hq).
      apply (ok_entry _ _ H i q Hq).
    + apply list_lookup_singleton_Some in Hq as [Hi' <-].
      replace i with (length es) by lia. done.
Qed.

(** Inserting a filled-in entry for the piece behind the last one. *)
Lemma index_insert_snoc inode inode1 es p :
  index_ok inode es ->
  pc_slot p = i_next_avail_it_node_no inode ->
  i_it_tree inode1 = i_it_tree inode ->
  i_next_avail_it_node_no inode1 = i_next_avail_it_node_no inode + 1 ->
  i_index inode1 = i_index inode ->
  i_index_slots inode1 = i_index_slots inode ->
  pc_slot p < i_index_slots inode ->
  (forall slot, slot <> pc_slot p -> entry_at inode1 slot = entry_at inode slot) ->
  e_it (entry_at inode1 (pc_slot p)) = piece_node (length es) p ->
  e_placement (entry_at inode1 (pc_slot p)) = pc_place p ->
  e_offset (entry_at inode1 (pc_slot p)) = pc_off p ->
  exists t, polystore_index_insert inode1 (pc_slot p) =
      Some (inode1 <| i_it_tree := t |>) /\
    index_ok (inode1 <| i_it_tree := t |>) (es ++ [p]).
Proof.
  intros H Hslot Htree Hnext Hidx Hslots Hroom Hne Hit Hpl Hoff.
  destruct (insert_spec (e_it (entry_at inode1 (pc_slot p))) (i_it_tree inode)
    (ok_wf _ _ H)) as (t & Ht & Hwf & Hin).
  rewrite (ok_nodes _ _ H), Hit, insert_sorted_last, <-piece_nodes_app in Hin
    by (intros x Hx; apply piece_start_le in Hx; cbn; lia).
  exists t. unfold polystore_index_insert. rewrite Htree, Ht. split; [done|].
  by apply index_ok_snoc with inode.
Qed.

(** A new slot: the counter's value, as long as it is within the region. *)
Lemma index_allocate inode es :
  index_ok inode es ->
  let slot := i_next_avail_it_node_no inode in
  slot < i_index_slots inode ->
  polystore_index_entry_allocate inode =
    Some (Some slot,
     set_entry (inode <| i_next_avail_it_node_no := slot + 1 |>) slot
       (entry_at inode slot <| e_idx_no := slot |>)).
Proof.
  intros H slot Hroom. pose proof (ok_next _ _ H) as Hnext. fold slot in Hnext.
  pose proof (ok_region _ _ H) as Hreg.
  assert (slot <= MAX_POLY_INDEX_NODE_NR) as Hmax by lia.
  assert (slot < 2 ^ 31 - 1) by (unfold MAX_POLY_INDEX_NODE_NR in Hmax; lia).
  unfold polystore_index_entry_allocate. fold slot.
  assert ((i_index inode =? 0) = false) as Hz
    by (apply Z.eqb_neq, (ok_index _ _ H)).
  cbn [i_index i_index_slots update].
  rewrite Hz, (proj2 (Z.ltb_ge _ _) Hmax), (proj2 (Z.leb_le _ _) Hnext),
    (proj2 (Z.ltb_lt _ _) Hroom). cbn [andb]. by rewrite s32_id by lia.
Qed.

(** Allocating an entry, filling it in for the piece behind the last one, and
    inserting it. *)
Lemma index_append inode es :
  index_ok inode es ->
  let slot := i_next_avail_it_node_no inode in
  slot < i_index_slots inode ->
  exists inode1,
    polystore_index_entry_allocate inode = Some (Some slot, inode1) /\
    inode_meta inode1 = inode_meta inode /\
    forall pl off e,
      e_it e = piece_node (length es) (Piece slot pl off) ->
      e_placement e = pl -> e_offset e = off ->
      exists inode2,
        polystore_index_insert (set_entry inode1 slot e) slot = Some inode2 /\
        index_ok inode2 (es ++ [Piece slot pl off]) /\
        i_next_avail_it_node_no inode2 = slot + 1 /\
        inode_meta inode2 = inode_meta inode.
Proof.
  intros H slot Hmax. eexists. split_and!; [by apply (index_allocate _ es)|done|].
  intros pl off e Hit Hpl Hoff.
  match goal with |- context [polystore_index_insert ?i _] =>
    destruct (index_insert_snoc inode i es (Piece slot pl off) H)
      as (t & Et & Hok); cbn [pc_slot pc_place pc_off]; try done end.
  2-4: by rewrite entry_at_set_eq.
  - intros s Hs. by rewrite !entry_at_set_ne by done.
  - eexists. split_and!; [exact Et|exact Hok|done|done].
Qed.
