(* ===== verification/IoDirect.v ===== *)
(** * Direct I/O ([polylib/src/io_direct.c])

    Reads and writes that go straight to the physical files: the iteration over
    the Poly-index, the allocation of new index nodes, and the update of file
    offset, inode size and statistics.

    Conversions between signed and unsigned types and unsigned arithmetic are
    written out; signed arithmetic is exact (C leaves its overflow undefined).
    Locks have no effect in this sequential model.  A result [None] is an
    access through NULL or outside the index region, or exhausted fuel;
    [IoDirectTotal] shows that neither happens while the region has room. *)

From S2P Require Import Prelude Defs Posix IntervalTree Indexing.

#[local] Open Scope Z_scope.

Module IoDirect.

Section model.
Context {Fs : Type} `{!PosixFS Fs}.

(** What one call works on: the file systems, the Poly-file and its inode, and
    the context of the calling task. *)
Record io_state := IOState {
  io_fs : Fs;
  io_file : poly_file;
  io_inode : poly_inode;
  io_task : g_task_ctx
}.

#[export] Instance io_copy : Copy io_state := fun s =>
  IOState (io_fs s) (io_file s) (io_inode s) (io_task s).

(** [polystore_io_set_range]: the first and last position of the operation;
    [count] is unsigned, so the sum is computed in 64 bits and converted back. *)
Definition polystore_io_set_range (file : poly_file) (offset count : Z)
    : Z * Z :=
  let start := if offset <? 0 then f_off file else offset in
  (start, s64 (start + count - 1)).

(** [if (offset < 0) file->off += n] *)
Definition advance_off (offset n : Z) (st : io_state) : io_state :=
  if offset <? 0
  then st <| io_file := io_file st <| f_off := f_off (io_file st) + n |> |>
  else st.

(** The number of bytes of [start, end] in a node that ends at [node_end]. *)
Definition node_count (node_end start end_ : Z) : Z :=
  u64 (if node_end <? end_ then node_end - start + 1 else end_ - start + 1).

Definition node_next (node_end end_ : Z) : Z :=
  if node_end <? end_ then node_end + 1 else end_ + 1.

(** The descriptor of the device an existing entry names, if it names one. *)
Definition entry_fd (fastfd slowfd placement : Z) : option Z :=
  if placement =? BLK_PLACEMENT_FAST then Some fastfd
  else if placement =? BLK_PLACEMENT_SLOW then Some slowfd
  else None.

(** The loop of [polystore_read_iter]; [buf] is the caller's buffer. *)
Fixpoint read_nodes (fuel : nat) (fastfd slowfd : Z) (st : io_state)
    (buf : list byte) (it_entry : option Z) (start end_ copied offset : Z)
    : option (Z * list byte * io_state) :=
  match it_entry with
  | None => Some (copied, buf, st)
  | Some entry =>
      match fuel with
      | O => None
      | S fuel =>
          let e := entry_at (io_inode st) entry in
          let node_start := s64 (it_start (e_it e)) in
          let node_end := s64 (it_last (e_it e)) in
          let it_buf_start := start - node_start in
          let it_buf_count := node_count node_end start end_ in
          match entry_fd fastfd slowfd (e_placement e) with
          | None => Some (copied, buf, st)
          | Some fd =>
              let '(ret, d) := fs_pread (io_fs st) fd it_buf_count
                                 (e_offset e + it_buf_start) in
              if ret <? 0 then Some (copied, buf, st)
              else
                let start := node_next node_end end_ in
                read_nodes fuel fastfd slowfd (advance_off offset ret st)
                  (overwrite copied d buf)
                  (polystore_index_lookup_next (io_inode st) entry
                     (u64 start) (u64 end_))
                  start end_ (copied + ret) offset
          end
      end
  end.

(** One iteration per node of the tree is enough. *)
Definition node_fuel (inode : poly_inode) : nat :=
  length (inorder (i_it_tree inode)).

Definition polystore_read_iter (st : io_state) (buf : list byte)
    (count offset : Z) : option (Z * list byte * io_state) :=
  let fastfd := POLYSTORE_FAST_FD (f_polyfd (io_file st)) in
  let slowfd := POLYSTORE_SLOW_FD (f_polyfd (io_file st)) in
  let '(start, end_) := polystore_io_set_range (io_file st) offset count in
  '(copied, buf, st) ← read_nodes (node_fuel (io_inode st)) fastfd slowfd st buf
     (polystore_index_lookup (io_inode st) (u64 start) (u64 end_))
     start end_ 0 offset;
  let task := io_task st in
  Some (copied, buf,
    st <| io_task := task
            <| t_throughput := u64 (t_throughput task + copied) |>
            <| t_throughput_read := u64 (t_throughput_read task + copied) |> |>).

(** [if (end <= node_end && end - node_start > it_entry->size)
       it_entry->size = end + 1;] with an unsigned comparison. *)
Definition update_node_size (node_start node_end end_ : Z) (e : it_node_entry)
    : it_node_entry :=
  if (end_ <=? node_end) && (e_size e <? u64 (end_ - node_start))
  then e <| e_size := u64 (end_ + 1) |> else e.

(** The first loop of the write iterators: overwrite existing nodes. *)
Fixpoint write_nodes (fuel : nat) (fastfd slowfd : Z) (st : io_state)
    (buf : list byte) (it_entry : option Z) (start end_ copied offset : Z)
    : option (Z * Z * io_state) :=
  match it_entry with
  | None => Some (start, copied, st)
  | Some entry =>
      match fuel with
      | O => None
      | S fuel =>
          let e := entry_at (io_inode st) entry in
          let node_start := s64 (it_start (e_it e)) in
          let node_end := s64 (it_last (e_it e)) in
          let it_buf_start := start - node_start in
          let it_buf_count := node_count node_end start end_ in
          match entry_fd fastfd slowfd (e_placement e) with
          | None => Some (start, copied, st)
          | Some fd =>
              let '(ret, fs) := fs_pwrite (io_fs st) fd
                                  (slice copied it_buf_count buf)
                                  (e_offset e + it_buf_start) in
              let st := st <| io_fs := fs |> in
              if negb (u64 ret =? it_buf_count) then Some (start, copied, st)
              else
                let inode := set_entry (io_inode st) entry
                               (update_node_size node_start node_end end_ e) in
                let st := advance_off offset ret (st <| io_inode := inode |>) in
                let start := node_next node_end end_ in
                write_nodes fuel fastfd slowfd st buf
                  (polystore_index_lookup_next inode entry (u64 start) (u64 end_))
                  start end_ (copied + ret) offset
          end
      end
  end.

(** The offset of a new node in its physical file: the end of the file, rounded
    up to a multiple of the node size. *)
Definition new_node_offset (real_pos : Z) : Z :=
  if Z.land real_pos (POLY_INDEX_NODE_SIZE - 1) =? 0 then real_pos
  else Z.shiftl (Z.shiftr real_pos POLY_INDEX_NODE_SIZE_SHIFT + 1)
         POLY_INDEX_NODE_SIZE_SHIFT.

(** The fields set on a newly allocated entry. *)
Definition new_entry (slot start end_ placement offset ino : Z)
    (e : it_node_entry) : it_node_entry :=
  let it_start := u64 (Z.land start POLY_INDEX_NODE_SIZE_MASK) in
  e <| e_it := ITNode slot it_start (u64 (it_start + POLY_INDEX_NODE_SIZE - 1)) |>
    <| e_size := u64 (if end_ <? start + POLY_INDEX_NODE_SIZE
                      then end_ + 1 else POLY_INDEX_NODE_SIZE) |>
    <| e_inode := ino |>
    <| e_ref_count := 1 |>
    <| e_placement := placement |>
    <| e_offset := offset |>.

(** The second loop of the write iterators: new nodes for the rest of the
    range.  A failed write of a new node is reported but not acted upon. *)
Fixpoint write_new_nodes (fuel : nat) (fastfd slowfd : Z) (st : io_state)
    (buf : list byte) (start end_ copied offset : Z)
    : option (Z * io_state) :=
  if start <? end_ then
    match fuel with
    | O => None
    | S fuel =>
        let it_buf_count := u64 (end_ - start + 1) in
        let it_buf_count := if POLY_INDEX_NODE_SIZE <? it_buf_count
                            then POLY_INDEX_NODE_SIZE else it_buf_count in
        alloc ← polystore_index_entry_allocate (io_inode st);
        match alloc with
        | (None, inode) => Some (copied, st <| io_inode := inode |>)
        | (Some slot, inode) =>
            let placement := t_placement (io_task st) in
            let fd := if placement =? BLK_PLACEMENT_FAST
                      then fastfd else slowfd in
            let '(real_pos, fs) := fs_lseek_end (io_fs st) fd in
            let off := new_node_offset real_pos in
            let '(_, fs) := fs_pwrite fs fd (slice copied it_buf_count buf) off in
            inode ← polystore_index_insert
                      (set_entry inode slot
                         (new_entry slot start end_ placement off (i_ino inode)
                            (entry_at inode slot))) slot;
            let st := st <| io_fs := fs |> <| io_inode := inode |> in
            write_new_nodes fuel fastfd slowfd (advance_off offset it_buf_count st)
              buf (s64 (start + it_buf_count)) end_ (s64 (copied + it_buf_count))
              offset
        end
    end
  else Some (copied, st).

Definition new_fuel (start end_ : Z) : nat :=
  Z.to_nat ((end_ - start) / POLY_INDEX_NODE_SIZE + 1).

(** [inode->size = (end+1) > inode->size ? end+1 : inode->size] *)
Definition grow_size (end_ : Z) (inode : poly_inode) : poly_inode :=
  inode <| i_size := if i_size inode <? u64 (end_ + 1)
                     then u64 (end_ + 1) else i_size inode |>.

(** Writing the range [start, end], shared by the two write iterators, whose
    bodies differ only in the range and in the extent of the lock. *)
Definition write_range (st : io_state) (buf : list byte)
    (start end_ offset : Z) : option (Z * io_state) :=
  let fastfd := POLYSTORE_FAST_FD (f_polyfd (io_file st)) in
  let slowfd := POLYSTORE_SLOW_FD (f_polyfd (io_file st)) in
  '(start, copied, st) ← write_nodes (node_fuel (io_inode st)) fastfd slowfd st
     buf (polystore_index_lookup (io_inode st) (u64 start) (u64 end_))
     start end_ 0 offset;
  '(copied, st) ← write_new_nodes (new_fuel start end_) fastfd slowfd st buf
     start end_ copied offset;
  let task := io_task st in
  Some (copied,
    st <| io_inode := grow_size end_ (io_inode st) |>
       <| io_task := task
            <| t_throughput := u64 (t_throughput task + copied) |>
            <| t_throughput_write := u64 (t_throughput_write task + copied) |> |>).

Definition polystore_append_iter (st : io_state) (buf : list byte)
    (count offset : Z) : option (Z * io_state) :=
  let '(start, end_) :=
    polystore_io_set_range (io_file st) (s64 (i_size (io_inode st))) count in
  write_range st buf start end_ offset.

Definition polystore_write_iter (st : io_state) (buf : list byte)
    (count offset : Z) : option (Z * io_state) :=
  let '(start, end_) := polystore_io_set_range (io_file st) offset count in
  write_range st buf start end_ offset.

End model.

Arguments io_state Fs : clear implicits.

(** A new, empty file opened with the descriptors 5 and 6, for examples. *)
Definition example_io (placement : Z) : io_state MemFS.memfs :=
  IOState (MemFS.empty_pair 5 6) (File (POLYSTORE_GEN_FD 5 6) 0 0 (Some 0))
    (init_poly_inode 7 0 0 <| i_index := GET_POLY_INDEX_VADDR false 0 |>
                           <| i_index_slots := index_slots false |>)
    (Task 1 0 0 0 0 0 0 placement).

End IoDirect.
