(* ===== verification/IoDirectSpec.v ===== *)
(** * Direct I/O refines a byte array

    [represents st data]: the inode, its Poly-index and the two physical files
    together hold the byte sequence [data].  On such a state the read iterator
    returns the bytes of [data], and the write iterators overwrite and extend
    [data], whatever mix of devices the pieces of the file are placed on. *)

From S2P Require Import Prelude Defs Posix IntervalTree Indexing IoDirect.
Import IoDirect.

#[local] Open Scope Z_scope.

Module IoDirectSpec.

(** ** Layout of the pieces in the two physical files *)

Section layout.
Context {Fs : Type} `{!PosixFS Fs, !PosixFSLaws Fs}.
(** The files behind the fast and the slow descriptor. *)
Variables fast_obj slow_obj : Z.
Hypothesis distinct : fast_obj <> slow_obj.

Definition dev (placement : Z) : Z :=
  if placement =? BLK_PLACEMENT_FAST then fast_obj else slow_obj.

Record layout (fs : Fs) (es : list piece) (data : list byte) : Prop := {
  lay_size : (length es - 1) * NODE < zlength data <= length es * NODE;
  lay_place : forall p, p ∈ es ->
    (pc_place p = BLK_PLACEMENT_FAST \/ pc_place p = BLK_PLACEMENT_SLOW) /\
    0 <= pc_off p /\ pc_off p mod NODE = 0;
  lay_incr : forall (i j : nat) p q,
    es !! i = Some p -> es !! j = Some q -> (i < j)%nat ->
    pc_place p = pc_place q -> pc_off p < pc_off q;
  lay_extent : forall (i : nat) p, es !! i = Some p ->
    pc_off p + Z.min NODE (zlength data - i * NODE) <=
      fs_size fs (dev (pc_place p));
  lay_last : forall (i : nat) p, es !! i = Some p -> length es = S i ->
    fs_size fs (dev (pc_place p)) = pc_off p + (zlength data - i * NODE);
  lay_data : forall (i : nat) p k, es !! i = Some p ->
    i * NODE <= k < zlength data -> k < i * NODE + NODE ->
    data !! Z.to_nat k =
      Some (fs_content fs (dev (pc_place p)) (pc_off p + (k - i * NODE)));
  (** nothing is wasted: the two files together have the size of the data, and
      the device that does not hold the last piece ends with a full one *)
  lay_sum : fs_size fs fast_obj + fs_size fs slow_obj = zlength data;
  lay_aligned : forall pl, pl = BLK_PLACEMENT_FAST \/ pl = BLK_PLACEMENT_SLOW ->
    (forall p, last es = Some p -> pc_place p <> pl) ->
    fs_size fs (dev pl) mod NODE = 0
}.

Lemma layout_nil fs :
  fs_size fs fast_obj = 0 -> fs_size fs slow_obj = 0 -> layout fs [] [].
Proof.
  intros Hf Hs. pose proof node_pos. split; try done; cbn; try lia.
  - intros p Hp. by apply elem_of_nil in Hp.
  - intros pl _ _. unfold dev. destruct (pl =? _); by rewrite ?Hf, ?Hs.
Qed.

Lemma layout_same fs fs' es data :
  layout fs es data -> same_contents fs fs' -> layout fs' es data.
Proof.
  intros [] Hsame. split; try done.
  - intros i p Hp. destruct (Hsame (dev (pc_place p))) as [-> _]. eauto.
  - intros i p Hp Hi. destruct (Hsame (dev (pc_place p))) as [-> _]. eauto.
  - intros i p k Hp H1 H2. destruct (Hsame (dev (pc_place p))) as [_ ->]. eauto.
  - destruct (Hsame fast_obj) as [-> _], (Hsame slow_obj) as [-> _]. done.
  - intros pl Hpl Hl. destruct (Hsame (dev pl)) as [-> _]. eauto.
Qed.

Lemma dev_inj_place a b :
  (a = BLK_PLACEMENT_FAST \/ a = BLK_PLACEMENT_SLOW) ->
  (b = BLK_PLACEMENT_FAST \/ b = BLK_PLACEMENT_SLOW) ->
  dev b = dev a -> a = b.
Proof.
  unfold dev. intros [->| ->] [->| ->]; cbn; congruence.
Qed.

Lemma dev_inj p q :
  (pc_place p = BLK_PLACEMENT_FAST \/ pc_place p = BLK_PLACEMENT_SLOW) ->
  (pc_place q = BLK_PLACEMENT_FAST \/ pc_place q = BLK_PLACEMENT_SLOW) ->
  dev (pc_place p) = dev (pc_place q) -> pc_place p = pc_place q.
Proof. intros. by apply dev_inj_place. Qed.

(** Multiples of the node size that differ are a node apart. *)
Lemma aligned_apart a b :
  a mod NODE = 0 -> b mod NODE = 0 -> a < b -> a + NODE <= b.
Proof.
  intros Ha Hb Hlt. pose proof node_pos.
  apply Z.div_exact in Ha; [|lia]. apply Z.div_exact in Hb; [|lia].
  rewrite Ha, Hb in *. assert (a / NODE < b / NODE) by nia. nia.
Qed.

Lemma piece_unique (i j : nat) k :
  i * NODE <= k < i * NODE + NODE -> j * NODE <= k < j * NODE + NODE -> i = j.
Proof. pose proof node_pos. nia. Qed.

Lemma pieces_apart fs es data (i j : nat) p q :
  layout fs es data -> es !! i = Some p -> es !! j = Some q -> i <> j ->
  dev (pc_place p) = dev (pc_place q) ->
  pc_off p + NODE <= pc_off q \/ pc_off q + NODE <= pc_off p.
Proof.
  intros L Hp Hq Hij Hd.
  destruct (lay_place _ _ _ L p) as (Pp & ? & ?); [by eapply list_elem_of_lookup_2|].
  destruct (lay_place _ _ _ L q) as (Pq & ? & ?); [by eapply list_elem_of_lookup_2|].
  apply dev_inj in Hd; [|done..].
  destruct (decide (i < j)%nat).
  - left. apply aligned_apart; [done..|]. by eapply (lay_incr _ _ _ L i j).
  - right. apply aligned_apart; [done..|].
    apply (lay_incr _ _ _ L j i); [done|done|lia|done].
Qed.

(** All pieces but the last are full. *)
Lemma piece_full fs es data (i : nat) :
  layout fs es data -> (S i < length es)%nat -> (S i) * NODE <= zlength data.
Proof. intros L Hi. pose proof node_pos. destruct (lay_size _ _ _ L). nia. Qed.

Lemma written_size_le d o off fs fs' o' :
  written o off d fs fs' -> fs_size fs o' <= fs_size fs' o'.
Proof.
  intros (Wsz & _ & Wo & _). destruct (decide (o' = o)) as [->|Hne].
  - rewrite Wsz. case_decide; lia.
  - destruct (Wo o' Hne) as [-> _]. lia.
Qed.

(** Writing to one device changes the sum of the sizes by what that file grows. *)
Lemma written_sum pl off d fs fs' :
  written (dev pl) off d fs fs' ->
  fs_size fs' fast_obj + fs_size fs' slow_obj =
    fs_size fs fast_obj + fs_size fs slow_obj +
    (fs_size fs' (dev pl) - fs_size fs (dev pl)).
Proof.
  intros (_ & _ & Wo & _). unfold dev in *. destruct (pl =? _).
  - destruct (Wo slow_obj) as [-> _]; [congruence|]. lia.
  - destruct (Wo fast_obj) as [-> _]; [done|]. lia.
Qed.

(** The device of a full last piece ends on a node boundary, like the other. *)
Lemma full_aligned fs es data pl :
  layout fs es data -> zlength data = length es * NODE ->
  pl = BLK_PLACEMENT_FAST \/ pl = BLK_PLACEMENT_SLOW ->
  fs_size fs (dev pl) mod NODE = 0.
Proof.
  intros L Hfull Hpl. destruct (last es) as [p|] eqn:El; cycle 1.
  { apply (lay_aligned _ _ _ L); [done|]. intros p Hp. congruence. }
  destruct (decide (pc_place p = pl)) as [<-|]; cycle 1.
  { apply (lay_aligned _ _ _ L); [done|]. congruence. }
  rewrite last_lookup in El. pose proof (lookup_lt_Some _ _ _ El) as Hlt.
  rewrite (lay_last _ _ _ L _ p El) by lia. pose proof node_pos.
  replace (zlength data - pred (length es) * NODE) with (1 * NODE) by nia.
  rewrite Z.mod_add by lia. eapply (lay_place _ _ _ L), list_elem_of_lookup_2, El.
Qed.

(** Overwriting inside one piece, possibly growing the last one. *)
Lemma layout_write fs fs' es data (i : nat) p pos d :
  layout fs es data -> es !! i = Some p -> d <> [] ->
  i * NODE <= pos <= zlength data -> pos + zlength d <= i * NODE + NODE ->
  written (dev (pc_place p)) (pc_off p + (pos - i * NODE)) d fs fs' ->
  layout fs' es (overwrite pos d data).
Proof.
  intros L Hp Hd Hpos Hend W.
  pose proof W as (Wsz & Wc & Wo & _). pose proof node_pos as HN. rewrite decide_False in Wsz by done.
  assert (0 < zlength d) as Hd0 by (destruct d; [done|cbn; lia]).
  pose proof (lookup_lt_Some _ _ _ Hp) as Hi.
  destruct (lay_size _ _ _ L) as [Hs1 Hs2].
  assert (zlength (overwrite pos d data) = zlength data `max` (pos + zlength d))
    as Hlen by (apply zlength_overwrite; nia).
  assert (zlength data < pos + zlength d -> length es = S i) as Hgrow by nia.
  assert (forall j : nat, j <> i -> (j < length es)%nat ->
    Z.min NODE (zlength data `max` (pos + zlength d) - j * NODE) =
    Z.min NODE (zlength data - j * NODE)) as Hmin.
  { intros j ? ?. destruct (decide (zlength data < pos + zlength d)) as [Hg|];
      [|lia]. specialize (Hgrow Hg). nia. }
  split; rewrite ?Hlen.
  - destruct (decide (zlength data < pos + zlength d)) as [Hg|]; [|lia].
    specialize (Hgrow Hg). nia.
  - apply (lay_place _ _ _ L).
  - apply (lay_incr _ _ _ L).
  - intros j q Hq. pose proof (lay_extent _ _ _ L j q Hq) as Hx.
    pose proof (lookup_lt_Some _ _ _ Hq) as Hj.
    destruct (decide (j = i)) as [->|Hji].
    { rewrite Hq in Hp. injection Hp as <-. rewrite Wsz. lia. }
    rewrite Hmin by done. etrans; [exact Hx|]. by eapply written_size_le.
  - intros j q Hq Hj. destruct (decide (j = i)) as [->|Hji].
    { rewrite Hq in Hp. injection Hp as <-. rewrite Wsz.
      rewrite (lay_last _ _ _ L i q) by done. lia. }
    pose proof (lay_last _ _ _ L j q Hq Hj) as Hl.
    replace (zlength data `max` (pos + zlength d)) with (zlength data) by nia.
    destruct (decide (dev (pc_place q) = dev (pc_place p))) as [He|Hne].
    + rewrite <-Hl, He, Wsz. rewrite He in Hl.
      destruct (pieces_apart _ _ _ i j p q L) as [Ha|Ha]; [done..| |];
        [nia|]. exfalso.
      assert (pc_off p < pc_off q); [|lia].
      apply (lay_incr _ _ _ L i j); [done|done|lia|].
      apply dev_inj; [eapply (lay_place _ _ _ L), list_elem_of_lookup_2..|];
        done.
    + destruct (Wo (dev (pc_place q))) as [-> _]; done.
  - intros j q k Hq Hk1 Hk2. rewrite lookup_overwrite by nia.
    rewrite Z2Nat.id by nia. case_decide as Hin.
    + assert (j = i) as -> by (apply (piece_unique j i k); lia). rewrite Hq in Hp. injection Hp as <-.
      rewrite Wc, decide_True by lia.
      destruct (lookup_lt_is_Some_2 d (Z.to_nat (k - pos))) as [x Hx]; [lia|].
      replace (pc_off q + (k - i * NODE) - (pc_off q + (pos - i * NODE)))
        with (k - pos) by lia. by rewrite Hx.
    + rewrite (lay_data _ _ _ L j q k) by (done || nia). f_equal.
      destruct (decide (dev (pc_place q) = dev (pc_place p))) as [He|Hne];
        [|by destruct (Wo (dev (pc_place q))) as [_ ->]].
      rewrite He, Wc, decide_False; [done|]. destruct (decide (j = i)) as [->|].
      * rewrite Hq in Hp. injection Hp as <-. lia.
      * destruct (pieces_apart _ _ _ i j p q L); [done..| |]; lia.
  - rewrite (written_sum _ _ _ _ _ W), (lay_sum _ _ _ L), Wsz.
    destruct (decide (length es = S i)) as [Hlast|Hmid].
    + rewrite (lay_last _ _ _ L i p Hp Hlast). lia.
    + pose proof (lay_extent _ _ _ L i p Hp). nia.
  - intros pl Hpl Hl. destruct (decide (dev pl = dev (pc_place p))) as [He|Hne].
    + rewrite He, Wsz. pose proof (lay_extent _ _ _ L i p Hp) as Hx.
      assert (length es <> S i) as Hmid.
      { intros Hlast. apply (Hl p); [by rewrite last_lookup, Hlast|].
        apply dev_inj_place; [|done|done]. eapply (lay_place _ _ _ L), list_elem_of_lookup_2, Hp. }
      rewrite Z.max_l by nia. rewrite <-He. by apply (lay_aligned _ _ _ L).
    + destruct (Wo (dev pl) Hne) as [-> _]. by apply (lay_aligned _ _ _ L).
Qed.
(** The place of a new node: aligned and behind everything in the file. *)
Lemma new_node_offset_spec x :
  0 <= x ->
  x <= new_node_offset x < x + NODE /\ new_node_offset x mod NODE = 0.
Proof.
  intros Hx. unfold new_node_offset. rewrite node_offset_mod.
  pose proof node_pos. pose proof (Z.div_mod x NODE).
  pose proof (Z.mod_pos_bound x NODE). zif; [lia|].
  rewrite Z.shiftl_mul_pow2, Z.shiftr_div_pow2 by done.
  change (2 ^ POLY_INDEX_NODE_SIZE_SHIFT) with NODE. split; [lia|].
  apply Z.mod_mul. lia.
Qed.

(** Adding a piece behind full ones. *)
Lemma layout_new fs fs' es data slot pl d :
  layout fs es data -> zlength data = length es * NODE ->
  pl = BLK_PLACEMENT_FAST \/ pl = BLK_PLACEMENT_SLOW ->
  d <> [] -> zlength d <= NODE ->
  let off := new_node_offset (fs_size fs (dev pl)) in
  written (dev pl) off d fs fs' ->
  layout fs' (es ++ [Piece slot pl off]) (data ++ d).
Proof.
  intros L Hfull Hpl Hd Hdl off W. pose proof W as (Wsz & Wc & Wo & _).
  pose proof node_pos as HN. rewrite decide_False in Wsz by done.
  assert (0 < zlength d) as Hd0 by (destruct d; [done|cbn; lia]).
  destruct (new_node_offset_spec (fs_size fs (dev pl))) as [Ho1 Ho2];
    [apply fs_size_nonneg|]. fold off in Ho1, Ho2.
  pose proof (fs_size_nonneg fs (dev pl)) as Hnn.
  assert (forall (i : nat) p, es !! i = Some p ->
    pc_off p + NODE <= fs_size fs (dev (pc_place p))) as Hext.
  { intros i p Hp. pose proof (lay_extent _ _ _ L i p Hp).
    apply lookup_lt_Some in Hp. nia. }
  assert (length (es ++ [Piece slot pl off]) = S (length es)) as Hlen
    by (rewrite length_app; cbn; lia).
  split; rewrite ?Hlen, ?length_app.
  - lia.
  - intros p [Hp|Hp]%elem_of_app; [by apply (lay_place _ _ _ L)|].
    apply list_elem_of_singleton in Hp as ->. cbn. lia.
  - intros i j p q Hp Hq Hij He.
    apply lookup_app_Some in Hq as [Hq|[Hj Hq]].
    + rewrite lookup_app_l in Hp by (apply lookup_lt_Some in Hq; lia).
      by apply (lay_incr _ _ _ L i j).
    + apply list_lookup_singleton_Some in Hq as [Hj' <-]. cbn in He |- *.
      rewrite lookup_app_l in Hp by lia. specialize (Hext i p Hp).
      rewrite He in Hext. lia.
  - intros i p [Hp|[Hi Hp]]%lookup_app_Some.
    + etrans; [|by eapply written_size_le]. specialize (Hext i p Hp). lia.
    + apply list_lookup_singleton_Some in Hp as [Hi' <-]. cbn.
      replace i with (length es) by lia. rewrite Wsz. lia.
  - intros i p [Hp|[Hi Hp]]%lookup_app_Some Hi'.
    + apply lookup_lt_Some in Hp. lia.
    + apply list_lookup_singleton_Some in Hp as [_ <-]. cbn.
      replace i with (length es) by lia. rewrite Wsz. lia.
  - intros i p k [Hp|[Hi Hp]]%lookup_app_Some Hk1 Hk2.
    + pose proof (lookup_lt_Some _ _ _ Hp) as Hi.
      assert (k < zlength data) by nia.
      rewrite lookup_app_l, (lay_data _ _ _ L i p k) by (done || nia). f_equal.
      destruct (decide (dev (pc_place p) = dev pl)) as [He|Hne];
        [|by destruct (Wo (dev (pc_place p))) as [_ ->]].
      specialize (Hext i p Hp). rewrite He in Hext |- *.
      rewrite Wc, decide_False by lia. done.
    + apply list_lookup_singleton_Some in Hp as [Hi' <-]. cbn.
      replace i with (length es) in * by lia. rewrite Wc, decide_True by lia.
      rewrite lookup_app_r by lia.
      destruct (lookup_lt_is_Some_2 d (Z.to_nat (k - zlength data)))
        as [x Hx]; [lia|].
      replace (off + (k - length es * NODE) - off) with (k - zlength data) by lia.
      rewrite Hx. cbn. rewrite <-Hx. f_equal. lia.
  - rewrite (written_sum _ _ _ _ _ W), (lay_sum _ _ _ L), Wsz.
    assert (off = fs_size fs (dev pl)) as ->.
    { unfold off, new_node_offset. rewrite node_offset_mod.
      by rewrite (full_aligned _ _ _ _ L Hfull Hpl). }
    lia.
  - intros pl' Hpl' Hl. rewrite last_snoc in Hl. specialize (Hl _ eq_refl). cbn in Hl.
    destruct (Wo (dev pl')) as [-> _]; [intros He; apply Hl; by apply dev_inj_place|].
    by apply (full_aligned _ _ _ _ L).
Qed.

End layout.
(** ** The loops *)

Section loops.
Context {Fs : Type} `{!PosixFS Fs, !PosixFSLaws Fs, !ReliableFS Fs}.
Variables fast_obj slow_obj fastfd slowfd : Z.
Hypothesis distinct : fast_obj <> slow_obj.

Local Abbreviation dev := (dev fast_obj slow_obj).
Local Abbreviation layout := (layout fast_obj slow_obj).

Record io_ok (st : io_state Fs) (es : list piece) (data : list byte) : Prop := {
  io_index : index_ok (io_inode st) es;
  io_layout : layout (io_fs st) es data;
  io_fast : fs_object (io_fs st) fastfd = Some fast_obj;
  io_slow : fs_object (io_fs st) slowfd = Some slow_obj
}.

Lemma advance_off_0 offset st : advance_off offset 0 st = st :> io_state Fs.
Proof.
  unfold advance_off. zif; [|done]. destruct st as [? [] ? ?].
  unfold update. cbn. by rewrite Z.add_0_r.
Qed.

Lemma advance_off_add offset a b st :
  advance_off offset b (advance_off offset a st) =
    advance_off offset (a + b) st :> io_state Fs.
Proof.
  unfold advance_off. destruct (offset <? 0); [|done]. cbn.
  unfold update. cbn. by rewrite Z.add_assoc.
Qed.

Lemma advance_off_fields offset n (st : io_state Fs) :
  io_fs (advance_off offset n st) = io_fs st /\
  io_inode (advance_off offset n st) = io_inode st /\
  io_task (advance_off offset n st) = io_task st.
Proof. unfold advance_off. by destruct (offset <? 0). Qed.

Lemma io_ok_advance st es data offset n :
  io_ok st es data -> io_ok (advance_off offset n st) es data.
Proof.
  intros []. destruct (advance_off_fields offset n st) as (E1 & E2 & E3).
  split; rewrite ?E1, ?E2; done.
Qed.

(** What the loops find in the entry of a piece. *)
Lemma piece_entry st es data (i : nat) p :
  io_ok st es data -> es !! i = Some p -> length es * NODE < 2 ^ 62 ->
  let e := entry_at (io_inode st) (pc_slot p) in
  s64 (it_start (e_it e)) = i * NODE /\
  s64 (it_last (e_it e)) = i * NODE + NODE - 1 /\
  e_offset e = pc_off p /\ 0 <= pc_off p /\
  exists fd, entry_fd fastfd slowfd (e_placement e) = Some fd /\
    fs_object (io_fs st) fd = Some (dev (pc_place p)).
Proof.
  intros [Hi L Hf Hs] Hp Hb e. pose proof node_pos.
  destruct (ok_entry _ _ Hi i p Hp) as (He1 & He2 & He3). fold e in He1, He2, He3.
  pose proof (lookup_lt_Some _ _ _ Hp).
  destruct (lay_place _ _ _ _ _ L p) as (Hpl & ? & ?);
    [by eapply list_elem_of_lookup_2|].
  rewrite He1, He2, He3. cbn. rewrite !s64_id by nia.
  split_and!; [done..|]. unfold entry_fd, IoDirectSpec.dev.
  destruct Hpl as [->| ->]; cbn; eauto.
Qed.

(** Reading inside one piece returns the bytes of [data] there. *)
Lemma piece_read fs es data (i : nat) p fd start cnt :
  layout fs es data -> es !! i = Some p ->
  fs_object fs fd = Some (dev (pc_place p)) -> 0 <= pc_off p ->
  i * NODE <= start -> 0 <= cnt -> start + cnt <= i * NODE + NODE ->
  fs_pread fs fd cnt (pc_off p + (start - i * NODE)) =
    (zlength (slice start cnt data), slice start cnt data).
Proof.
  intros L Hp Hfd Hoff Hs Hc He. pose proof node_pos.
  pose proof (lookup_lt_Some _ _ _ Hp) as Hi.
  destruct (lay_size _ _ _ _ _ L) as [Hs1 Hs2].
  erewrite pread_reliable by (done || lia).
  assert (Z.min cnt (Z.max 0 (fs_size fs (dev (pc_place p)) -
      (pc_off p + (start - i * NODE)))) = zlength (slice start cnt data)) as Hk.
  { rewrite zlength_slice by nia.
    destruct (decide (length es = S i)) as [Hl|Hl].
    - rewrite (lay_last _ _ _ _ _ L i p) by done. lia.
    - pose proof (lay_extent _ _ _ _ _ L i p Hp). nia. }
  rewrite Hk. f_equal. apply list_eq. intros j. rewrite lookup_tabulate.
  case_decide as Hj.
  - rewrite lookup_slice by (rewrite zlength_slice in Hj by nia; nia).
    rewrite zlength_slice in Hj by nia.
    rewrite (lay_data _ _ _ _ _ L i p (start + j)) by (done || lia).
    do 2 f_equal. lia.
  - symmetry. apply lookup_ge_None_2. lia.
Qed.

Lemma read_nodes_spec fuel : forall st es data buf (i : nat) p start end_ copied offset,
  io_ok st es data -> length es * NODE < 2 ^ 62 -> es !! i = Some p ->
  (length es <= fuel + i)%nat ->
  i * NODE <= start < i * NODE + NODE -> start <= end_ < 2 ^ 62 ->
  0 <= copied <= zlength buf ->
  let d := slice start (end_ - start + 1) data in
  read_nodes fuel fastfd slowfd st buf (Some (pc_slot p)) start end_ copied offset =
    Some (copied + zlength d, overwrite copied d buf,
          advance_off offset (zlength d) st).
Proof.
  induction fuel as [|fuel IH];
    intros st es data buf i p start end_ copied offset Hok Hb Hp Hfuel Hs He Hc d;
    pose proof (lookup_lt_Some _ _ _ Hp) as Hi; [lia|].
  pose proof node_pos as HN.
  destruct (piece_entry st es data i p Hok Hp Hb) as (E1 & E2 & E3 & Hoff & fd & E4 & Hfd).
  cbn [read_nodes]. rewrite E1, E2, E3, E4.
  set (cnt := node_count (i * NODE + NODE - 1) start end_).
  assert (cnt = Z.min (i * NODE + NODE - start) (end_ - start + 1)) as Hcnt.
  { unfold cnt, node_count. zif; rewrite u64_id by lia; lia. }
  rewrite (piece_read _ es data i) by (done || apply Hok || lia).
  rewrite (proj2 (Z.ltb_ge _ _)) by lia.
  unfold node_next. zif.
  - rewrite !u64_id by nia.
    rewrite (lookup_next_pieces _ es i) by (apply Hok || done || lia).
    replace (i * NODE + NODE - 1 + 1) with ((S i) * NODE) by lia.
    rewrite Z.div_mul, Nat2Z.id by lia.
    assert (cnt = (S i) * NODE - start) as -> by lia.
    assert (d = slice start ((S i) * NODE - start) data ++
                slice ((S i) * NODE) (end_ - (S i) * NODE + 1) data) as Hd.
    { unfold d. replace (end_ - start + 1) with
        ((S i * NODE - start) + (end_ - S i * NODE + 1)) by lia.
      rewrite slice_app by nia. do 2 f_equal. lia. }
    set (c := slice start (S i * NODE - start) data) in *.
    destruct (es !! S i) as [q|] eqn:Eq; cbn.
    + rewrite (IH _ es data _ (S i) q);
        [|by apply io_ok_advance|done|done|lia|lia|lia|].
      * rewrite <-overwrite_app, advance_off_add, <-Hd by lia.
        rewrite Hd, length_app. do 3 f_equal; [lia|]. f_equal. lia.
      * rewrite zlength_overwrite by lia. lia.
    + assert (d = c) as ->; [|by destruct fuel].
      rewrite Hd, (slice_nil_r ((S i) * NODE)), app_nil_r; [done|].
      apply lookup_ge_None in Eq.
      pose proof (lay_size _ _ _ _ _ (io_layout _ _ _ Hok)). nia.
  - rewrite (lookup_next_done _ es i) by (apply Hok || done || words; lia).
    assert (cnt = end_ - start + 1) as -> by lia. by destruct fuel.
Qed.

(** *** Writing *)

(** What [n] bytes of progress of a write loop leave alone. *)
Record progress (offset n : Z) (st st' : io_state Fs) : Prop := {
  pr_meta : inode_meta (io_inode st') = inode_meta (io_inode st);
  pr_task : io_task st' = io_task st;
  pr_file : io_file st' = io_file (advance_off offset n st);
  pr_others : forall o, o <> fast_obj -> o <> slow_obj ->
    fs_size (io_fs st') o = fs_size (io_fs st) o /\
    forall k, fs_content (io_fs st') o k = fs_content (io_fs st) o k
}.

Lemma progress_slots offset n st st' :
  progress offset n st st' ->
  i_index_slots (io_inode st') = i_index_slots (io_inode st).
Proof. intros [E _ _ _]. unfold inode_meta in E. congruence. Qed.

Lemma progress_0 offset st : progress offset 0 st st.
Proof. split; try done. by rewrite advance_off_0. Qed.

Lemma progress_add offset a b st1 st2 st3 :
  progress offset a st1 st2 -> progress offset b st2 st3 ->
  progress offset (a + b) st1 st3.
Proof.
  intros [M1 T1 F1 O1] [M2 T2 F2 O2]. split; try congruence.
  - rewrite F2, <-advance_off_add. unfold advance_off in *.
    destruct (offset <? 0); cbn in *; by rewrite F1.
  - intros o H1 H2. destruct (O1 o H1 H2) as [Hs1 Hc1].
    destruct (O2 o H1 H2) as [-> Hc2]. split; [done|]. intros k. by rewrite Hc2.
Qed.

(** The state after writing to a device and updating the index. *)
Lemma progress_write offset n pl d off fs fs' inode st :
  written (dev pl) off d fs fs' ->
  same_contents (io_fs st) fs ->
  inode_meta inode = inode_meta (io_inode st) ->
  progress offset n st
    (advance_off offset n (st <| io_fs := fs' |> <| io_inode := inode |>)).
Proof.
  intros (_ & _ & Wo & _) Hsame Hmeta.
  destruct (advance_off_fields offset n (st <| io_fs := fs' |> <| io_inode := inode |>))
    as (E1 & E2 & E3).
  split; rewrite ?E1, ?E2, ?E3; try done.
  - unfold advance_off. by destruct (offset <? 0).
  - intros o H1 H2. cbn. destruct (Hsame o) as [<- Hc].
    destruct (Wo o) as [-> Hc']; [unfold IoDirectSpec.dev; by zif|].
    split; [done|]. intros k. by rewrite Hc'.
Qed.

(** Writing inside one piece. *)
Lemma piece_write st es data (i : nat) p fd pos d :
  io_ok st es data -> es !! i = Some p ->
  fs_object (io_fs st) fd = Some (dev (pc_place p)) -> 0 <= pc_off p ->
  d <> [] -> i * NODE <= pos <= zlength data ->
  pos + zlength d <= i * NODE + NODE ->
  exists fs',
    fs_pwrite (io_fs st) fd d (pc_off p + (pos - i * NODE)) = (zlength d, fs') /\
    written (dev (pc_place p)) (pc_off p + (pos - i * NODE)) d (io_fs st) fs' /\
    forall inode n offset, index_ok inode es ->
      io_ok (advance_off offset n (st <| io_fs := fs' |> <| io_inode := inode |>))
        es (overwrite pos d data).
Proof.
  intros [Hi L Hf Hs] Hp Hfd Hoff Hd Hpos Hend.
  destruct (pwrite_reliable (io_fs st) fd d (pc_off p + (pos - i * NODE)) _ Hfd)
    as (fs' & E & W); [lia|].
  exists fs'. split_and!; [done|done|]. intros inode n offset Hi'.
  apply io_ok_advance. pose proof W as (_ & _ & _ & Wfd).
  split; cbn; [done| |by rewrite Wfd..].
  by eapply layout_write.
Qed.

Lemma update_node_size_fields a b c e :
  e_it (update_node_size a b c e) = e_it e /\
  e_placement (update_node_size a b c e) = e_placement e /\
  e_offset (update_node_size a b c e) = e_offset e.
Proof. unfold update_node_size. by destruct (_ && _). Qed.

Lemma slice_not_nil {A} off n (l : list A) :
  0 <= off < zlength l -> 0 < n -> slice off n l <> [].
Proof.
  intros ? ? E. pose proof (zlength_slice off n l) as Hl. rewrite E in Hl.
  cbn in Hl. lia.
Qed.

(** One iteration of the first loop writes the part of the range that lies in
    one piece. *)
Lemma write_step fuel st es data buf (i : nat) p start end_ copied offset :
  io_ok st es data -> length es * NODE < 2 ^ 62 -> es !! i = Some p ->
  i * NODE <= start < i * NODE + NODE -> start <= zlength data ->
  start <= end_ < 2 ^ 62 ->
  0 <= copied -> copied + (end_ - start + 1) <= zlength buf ->
  let stop := Z.min (end_ + 1) (i * NODE + NODE) in
  let cnt := stop - start in
  exists st',
    write_nodes (S fuel) fastfd slowfd st buf (Some (pc_slot p)) start end_ copied
      offset =
    write_nodes fuel fastfd slowfd st' buf
      (if i * NODE + NODE <=? end_ then pc_slot <$> es !! S i else None)
      stop end_ (copied + cnt) offset /\
    io_ok st' es (overwrite start (slice copied cnt buf) data) /\
    i_next_avail_it_node_no (io_inode st') =
      i_next_avail_it_node_no (io_inode st) /\
    progress offset cnt st st'.
Proof.
  intros Hok Hb Hp Hs Hsd He Hc Hbuf stop cnt.
  pose proof (lookup_lt_Some _ _ _ Hp) as Hi. pose proof node_pos as HN.
  destruct (piece_entry st es data i p Hok Hp Hb)
    as (E1 & E2 & E3 & Hoff & fd & E4 & Hfd).
  cbn [write_nodes]. rewrite E1, E2, E3, E4.
  assert (node_count (i * NODE + NODE - 1) start end_ = cnt) as ->
    by (unfold node_count; zif; rewrite u64_id by lia; lia).
  assert (zlength (slice copied cnt buf) = cnt) as Hd
    by (rewrite zlength_slice by lia; lia).
  destruct (piece_write st es data i p fd start (slice copied cnt buf))
    as (fs' & E & W & Hok'); [done..|apply slice_not_nil; lia|lia|lia|].
  rewrite E, Hd, u64_id, Z.eqb_refl by lia. cbn [negb].
  set (inode' := set_entry _ _ _).
  assert (index_ok inode' es) as Hidx'.
  { destruct (update_node_size_fields (i * NODE) (i * NODE + NODE - 1) end_
      (entry_at (io_inode st) (pc_slot p))) as (?&?&?).
    apply index_ok_set_entry; [apply Hok|done..]. }
  eexists. split_and!; [|by apply Hok'| |by eapply progress_write].
  - unfold node_next. f_equal; [|zif; lia].
    destruct (i * NODE + NODE - 1 <? end_) eqn:En; zbool.
    + rewrite (proj2 (Z.leb_le _ _)), !u64_id by nia.
      rewrite (lookup_next_pieces _ es i) by (done || lia).
      replace (i * NODE + NODE - 1 + 1) with ((S i) * NODE) by lia.
      by rewrite Z.div_mul, Nat2Z.id by lia.
    + rewrite (proj2 (Z.leb_gt _ _)) by lia.
      by rewrite (lookup_next_done _ es i) by (done || words; lia).
  - by rewrite (proj1 (proj2 (advance_off_fields _ _ _))).
Qed.

Lemma write_nodes_spec fuel : forall st es data buf (i : nat) p start end_ copied offset,
  io_ok st es data -> length es * NODE < 2 ^ 62 -> es !! i = Some p ->
  (length es <= fuel + i)%nat ->
  i * NODE <= start < i * NODE + NODE -> start <= zlength data ->
  start <= end_ < 2 ^ 62 ->
  0 <= copied -> copied + (end_ - start + 1) <= zlength buf ->
  let stop := Z.min (end_ + 1) (length es * NODE) in
  exists st',
    write_nodes fuel fastfd slowfd st buf (Some (pc_slot p)) start end_ copied
      offset = Some (stop, copied + (stop - start), st') /\
    io_ok st' es (overwrite start (slice copied (stop - start) buf) data) /\
    i_next_avail_it_node_no (io_inode st') =
      i_next_avail_it_node_no (io_inode st) /\
    progress offset (stop - start) st st'.
Proof.
  induction fuel as [|fuel IH];
    intros st es data buf i p start end_ copied offset Hok Hb Hp Hfuel Hs Hsd
      He Hc Hbuf stop;
    pose proof (lookup_lt_Some _ _ _ Hp) as Hi; [lia|].
  pose proof node_pos as HN.
  destruct (write_step fuel st es data buf i p start end_ copied offset)
    as (st1 & E & Hok1 & Hn1 & Hpr1); [done..|].
  set (stop1 := Z.min (end_ + 1) (i * NODE + NODE)) in *.
  set (cnt := stop1 - start) in *. rewrite E.
  assert (zlength (slice copied cnt buf) = cnt) as Hd
    by (rewrite zlength_slice by lia; lia).
  destruct (decide (i * NODE + NODE <= end_ /\ (S i < length es)%nat))
    as [[Hmore Hi']|Hlast].
  - rewrite (proj2 (Z.leb_le _ _)) by lia.
    destruct (lookup_lt_is_Some_2 es (S i) Hi') as [q Eq]. rewrite Eq.
    cbn [fmap option_fmap option_map].
    pose proof (piece_full _ _ _ _ _ i (io_layout _ _ _ Hok) Hi') as Hfull.
    assert (zlength (overwrite start (slice copied cnt buf) data) =
      zlength data) as Hlen by (rewrite zlength_overwrite by lia; lia).
    destruct (IH st1 es _ buf (S i) q stop1 end_ (copied + cnt) offset Hok1)
      as (st' & Hst' & Hok' & Hn' & Hpr'); [done|done|lia..|].
    fold stop in Hst', Hok', Hpr'.
    exists st'. replace (stop - start) with (cnt + (stop - stop1)) by lia.
    split_and!; [rewrite Hst'; do 3 f_equal; lia| |congruence|
      by eapply progress_add].
    assert (i * NODE + NODE <= length es * NODE) by nia.
    rewrite slice_app, overwrite_app, Hd by lia.
    by replace (start + cnt) with stop1 by lia.
  - exists st1. assert (stop = stop1) as -> by nia. split_and!; [|done..].
    assert ((if i * NODE + NODE <=? end_ then pc_slot <$> es !! S i else None) =
      None) as ->; [|by destruct fuel].
    zif; [|done]. by rewrite (lookup_ge_None_2 es) by lia.
Qed.

(** The fields of the entry allocated for the piece behind the last one. *)
Lemma new_entry_fields slot (k : nat) end_ pl off ino e :
  k * NODE < 2 ^ 62 ->
  let e' := new_entry slot (k * NODE) end_ pl off ino e in
  e_it e' = piece_node k (Piece slot pl off) /\
  e_placement e' = pl /\ e_offset e' = off.
Proof.
  intros Hk. pose proof node_pos. unfold new_entry, piece_node. cbn.
  rewrite node_mask_floor, Z.mod_mul, Z.sub_0_r by lia.
  rewrite node_size_val in *. rewrite !u64_id by (rewrite ?u64_id; lia). done.
Qed.

(** One iteration of the second loop adds one piece. *)
Lemma write_new_step (fuel : nat) st es data buf end_ copied offset :
  io_ok st es data -> zlength data = length es * NODE ->
  t_placement (io_task st) = BLK_PLACEMENT_FAST \/
    t_placement (io_task st) = BLK_PLACEMENT_SLOW ->
  let start := zlength data in
  let cnt := Z.min NODE (end_ - start + 1) in
  let slot := i_next_avail_it_node_no (io_inode st) in
  start < end_ < 2 ^ 62 ->
  0 <= copied -> copied + cnt <= zlength buf < 2 ^ 62 ->
  slot < i_index_slots (io_inode st) ->
  exists st' p,
    write_new_nodes (S fuel) fastfd slowfd st buf start end_ copied offset =
      write_new_nodes fuel fastfd slowfd st' buf (start + cnt) end_
        (copied + cnt) offset /\
    io_ok st' (es ++ [p]) (data ++ slice copied cnt buf) /\
    i_next_avail_it_node_no (io_inode st') = slot + 1 /\
    progress offset cnt st st'.
Proof.
  intros Hok Hfull Hpl start cnt slot He Hc Hbuf Hroom.
  pose proof node_pos as HN.
  assert (zlength (slice copied cnt buf) = cnt) as Hd
    by (rewrite zlength_slice by lia; lia).
  cbn [write_new_nodes]. rewrite (proj2 (Z.ltb_lt start end_)) by lia.
  assert ((if NODE <? u64 (end_ - start + 1) then NODE
           else u64 (end_ - start + 1)) = cnt) as ->
    by (rewrite u64_id by lia; zif; lia).
  set (pl := t_placement (io_task st)) in *.
  set (fd := if pl =? BLK_PLACEMENT_FAST then fastfd else slowfd).
  assert (fs_object (io_fs st) fd = Some (dev pl)) as Hfd.
  { unfold fd, IoDirectSpec.dev. destruct (pl =? BLK_PLACEMENT_FAST); apply Hok. }
  destruct (lseek_end_reliable (io_fs st) fd _ Hfd) as (fs1 & El & Hsame & Hfds).
  pose proof (fs_size_nonneg (io_fs st) (dev pl)) as Hnn.
  destruct (new_node_offset_spec _ Hnn) as [Ho _].
  set (off := new_node_offset (fs_size (io_fs st) (dev pl))) in *.
  destruct (pwrite_reliable fs1 fd (slice copied cnt buf) off (dev pl))
    as (fs2 & Ew & W); [by rewrite Hfds|lia|].
  destruct (index_append (io_inode st) es (io_index _ _ _ Hok))
    as (inode1 & Ea & Hmeta1 & Hins); [done|]. fold slot in Ea, Hins.
  destruct (new_entry_fields slot (length es) end_ pl off (i_ino inode1)
    (entry_at inode1 slot)) as (F1 & F2 & F3); [lia|].
  destruct (Hins _ _ _ F1 F2 F3) as (inode2 & Ei & Hidx2 & Hnext2 & Hmeta2).
  rewrite <-Hfull in Ei. fold start in Ei. rewrite Ea. cbn [mbind option_bind].
  rewrite El. fold off.
  rewrite Ew, Ei. cbn [mbind option_bind]. rewrite !s64_id by lia.
  do 2 eexists. split_and!; [done| | |by eapply progress_write].
  - apply io_ok_advance. pose proof W as (_ & _ & _ & Wfd).
    split; cbn; [done| |rewrite Wfd, Hfds; apply Hok..].
    destruct (Hsame (dev pl)) as [Hsz _]. unfold off. rewrite <-Hsz.
    eapply layout_new; [done| |done|done|apply slice_not_nil; lia|lia|].
    + by eapply layout_same, Hsame; apply Hok.
    + rewrite Hsz. exact W.
  - by rewrite (proj1 (proj2 (advance_off_fields _ _ _))).
Qed.

Lemma write_new_nodes_spec (fuel : nat) : forall st es data buf end_ copied offset,
  io_ok st es data -> zlength data = length es * NODE ->
  t_placement (io_task st) = BLK_PLACEMENT_FAST \/
    t_placement (io_task st) = BLK_PLACEMENT_SLOW ->
  let start := zlength data in
  let m := end_ - start + 1 in
  0 <= m <= fuel * NODE -> m mod NODE <> 1 -> end_ < 2 ^ 62 ->
  0 <= copied -> copied + m <= zlength buf -> zlength buf < 2 ^ 62 ->
  i_next_avail_it_node_no (io_inode st) + fuel <= i_index_slots (io_inode st) ->
  exists st' es',
    write_new_nodes fuel fastfd slowfd st buf start end_ copied offset =
      Some (copied + m, st') /\
    io_ok st' es' (data ++ slice copied m buf) /\
    i_next_avail_it_node_no (io_inode st') - length es' =
      i_next_avail_it_node_no (io_inode st) - length es /\
    progress offset m st st'.
Proof.
  induction fuel as [|fuel IH];
    intros st es data buf end_ copied offset Hok Hfull Hpl start m Hm Hm1 He
      Hc Hbuf Hbl Hroom; pose proof node_pos as HN;
    (destruct (decide (m = 0)) as [Hm0|];
      [exists st, es; cbn [write_new_nodes]; rewrite Hm0;
       rewrite (proj2 (Z.ltb_ge start end_)), Z.add_0_r, slice_0_len, app_nil_r
         by lia; split_and!; [done..|apply progress_0]|]); [lia|].
  assert (m <> 1) by (intros Hm'; destruct Hm1; by rewrite Hm').
  destruct (write_new_step fuel st es data buf end_ copied offset)
    as (st2 & p & E & Hok2 & Hn2 & Hpr2); [done..|lia|lia|lia|lia|].
  fold start in E, Hok2, Hpr2. fold m in E, Hok2, Hpr2.
  set (cnt := Z.min NODE m) in *. rewrite E.
  assert (zlength (slice copied cnt buf) = cnt) as Hd
    by (rewrite zlength_slice by lia; lia).
  assert (zlength (data ++ slice copied cnt buf) = start + cnt) as Hlen
    by (rewrite length_app; lia).
  destruct (decide (m <= NODE)) as [Hlast|Hmore].
  - exists st2, (es ++ [p]). assert (m = cnt) as Hmc by lia. rewrite Hmc.
    split_and!; [|done| |done].
    + destruct fuel; cbn; by rewrite (proj2 (Z.ltb_ge _ _)) by lia.
    + rewrite length_app. cbn. lia.
  - pose proof (progress_slots _ _ _ _ Hpr2) as Hsl2.
    destruct (IH st2 _ _ buf end_ (copied + cnt) offset Hok2)
      as (st' & es' & E' & Hok' & Hn' & Hpr');
      [rewrite Hlen, length_app; cbn; lia|rewrite (pr_task _ _ _ _ Hpr2); done|
       lia| |lia..|].
    { rewrite Hlen. replace (end_ - (start + cnt) + 1) with (m + (-1) * NODE)
        by lia. by rewrite Z.mod_add by lia. }
    rewrite Hlen in *.
    replace (end_ - (start + cnt) + 1) with (m - cnt) in * by lia.
    exists st', es'. replace m with (cnt + (m - cnt)) by lia. split_and!.
    + rewrite E'. do 2 f_equal. lia.
    + by rewrite slice_app, app_assoc by lia.
    + rewrite Hn', length_app. cbn. lia.
    + by eapply progress_add.
Qed.

(** *** Whole operations *)

Lemma node_fuel_length inode es :
  index_ok inode es -> node_fuel inode = length es.
Proof.
  intros H. unfold node_fuel, piece_nodes. rewrite (ok_nodes _ _ H).
  apply length_imap.
Qed.

(** The first loop, from the lookup on: everything that lies in existing
    pieces is written. *)
Lemma write_existing st es data buf start end_ offset :
  io_ok st es data -> length es * NODE < 2 ^ 62 ->
  0 <= start <= zlength data -> start <= end_ < 2 ^ 62 ->
  end_ - start + 1 <= zlength buf ->
  let stop := Z.min (end_ + 1) (length es * NODE) in
  exists st',
    write_nodes (node_fuel (io_inode st)) fastfd slowfd st buf
      (polystore_index_lookup (io_inode st) (u64 start) (u64 end_))
      start end_ 0 offset = Some (stop, stop - start, st') /\
    io_ok st' es (overwrite start (slice 0 (stop - start) buf) data) /\
    i_next_avail_it_node_no (io_inode st') =
      i_next_avail_it_node_no (io_inode st) /\
    progress offset (stop - start) st st'.
Proof.
  intros Hok Hb Hs He Hbuf stop. pose proof node_pos as HN.
  rewrite (node_fuel_length _ es), !u64_id by (apply Hok || lia).
  rewrite (lookup_pieces _ es) by (apply Hok || lia).
  pose proof (Z.div_mod start NODE) as Hdm.
  pose proof (Z.mod_pos_bound start NODE HN) as Hmod.
  assert (0 <= start / NODE) by (apply Z.div_pos; lia).
  destruct (lay_size _ _ _ _ _ (io_layout _ _ _ Hok)) as [_ Hsz].
  destruct (es !! Z.to_nat (start / NODE)) as [p|] eqn:Ep.
  - edestruct (write_nodes_spec (length es) st es data buf
      (Z.to_nat (start / NODE)) p start end_ 0 offset) as (st' & E & R);
      [done..|lia|lia|lia|lia|lia|lia|]. by exists st'.
  - exists st. apply lookup_ge_None in Ep.
    assert (length es * NODE <= start) by nia. assert (stop = start) as -> by lia.
    rewrite Z.sub_diag, slice_0_len, overwrite_nil by lia.
    split_and!; [|done|done|apply progress_0]. by destruct (length es).
Qed.

Lemma overwrite_split start a (d l : list byte) :
  0 <= start <= zlength l -> 0 <= a <= zlength d -> zlength l <= start + a ->
  overwrite start d l =
    overwrite start (slice 0 a d) l ++ slice a (zlength d - a) d.
Proof.
  intros Hs Ha Hl.
  assert (zlength (slice 0 a d) = a) as Hla by (rewrite zlength_slice by lia; lia).
  rewrite <-overwrite_end, zlength_overwrite by lia.
  replace (zlength l `max` (start + zlength (slice 0 a d)))
    with (start + zlength (slice 0 a d)) by lia.
  rewrite <-overwrite_app by lia. f_equal.
  replace a with (0 + a) at 2 by lia. rewrite <-slice_app by lia.
  symmetry. apply slice_0_all. lia.
Qed.

(** Writing a range that starts inside or at the end of the file.  The only
    ranges excluded are those whose last byte would be the first of a fresh
    piece. *)
Lemma write_range_ok st es data buf n start offset :
  POLYSTORE_FAST_FD (f_polyfd (io_file st)) = fastfd ->
  POLYSTORE_SLOW_FD (f_polyfd (io_file st)) = slowfd ->
  io_ok st es data -> length es * NODE < 2 ^ 61 -> zlength buf < 2 ^ 61 ->
  t_placement (io_task st) = BLK_PLACEMENT_FAST \/
    t_placement (io_task st) = BLK_PLACEMENT_SLOW ->
  0 <= start <= zlength data -> 0 < n <= zlength buf ->
  let stop := start + n in
  stop <= length es * NODE \/ stop mod NODE <> 1 ->
  i_next_avail_it_node_no (io_inode st) +
    Z.max 0 ((stop - length es * NODE - 1) / NODE + 1) <=
    i_index_slots (io_inode st) ->
  exists st0 st' es',
    write_range st buf start (stop - 1) offset = Some (n, st') /\
    progress offset (n) st st0 /\
    st' = st0 <| io_inode := grow_size (stop - 1) (io_inode st0) |>
              <| io_task := io_task st
                   <| t_throughput :=
                        u64 (t_throughput (io_task st) + n) |>
                   <| t_throughput_write :=
                        u64 (t_throughput_write (io_task st) + n) |> |> /\
    io_ok st0 es' (overwrite start (ztake n buf) data) /\
    i_next_avail_it_node_no (io_inode st0) - length es' =
      i_next_avail_it_node_no (io_inode st) - length es.
Proof.
  intros Hff Hsf Hok Hb Hbl Hpl Hs Hn stop Htail Hroom.
  pose proof node_pos as HN.
  destruct (lay_size _ _ _ _ _ (io_layout _ _ _ Hok)) as [_ Hsz].
  unfold write_range. rewrite Hff, Hsf.
  destruct (write_existing st es data buf start (stop - 1) offset Hok)
    as (st1 & E1 & Hok1 & Hn1 & Hpr1); [lia..|].
  replace (stop - 1 + 1) with stop in * by lia.
  set (mid := Z.min stop (length es * NODE)) in *. rewrite E1. cbn [mbind option_bind].
  destruct (decide (stop <= length es * NODE)) as [Hin|Hout].
  - assert (mid = stop) as Hmid by lia. rewrite Hmid in *.
    replace (stop - start) with (n) in * by lia.
    rewrite slice_0_ztake in Hok1.
    assert (write_new_nodes (new_fuel stop (stop - 1)) fastfd slowfd st1 buf stop
      (stop - 1) (n) offset = Some (n, st1)) as ->.
    { destruct (new_fuel stop (stop - 1)); cbn [write_new_nodes];
        by rewrite (proj2 (Z.ltb_ge _ _)) by lia. }
    cbn [mbind option_bind]. rewrite (pr_task _ _ _ _ Hpr1).
    do 3 eexists. split_and!; [done|done|done|done|lia].
  - assert (mid = length es * NODE) as Hmid by lia.
    assert (zlength (overwrite start (slice 0 (mid - start) buf) data) = mid)
      as Hlen.
    { rewrite zlength_overwrite, zlength_slice by lia. lia. }
    assert ((stop - 1 - mid + 1) mod NODE <> 1) as Htail'.
    { destruct Htail as [|Htail]; [lia|].
      replace (stop - 1 - mid + 1) with (stop + (- length es) * NODE) by lia.
      by rewrite Z.mod_add by lia. }
    assert (Z.of_nat (new_fuel mid (stop - 1)) = (stop - 1 - mid) / NODE + 1) as Hfuel.
    { unfold new_fuel. assert (0 <= (stop - 1 - mid) / NODE)
        by (apply Z.div_pos; lia). lia. }
    pose proof (Z.div_mod (stop - 1 - mid) NODE).
    pose proof (Z.mod_pos_bound (stop - 1 - mid) NODE HN).
    replace (stop - length es * NODE - 1) with (stop - 1 - mid) in Hroom by lia.
    pose proof (progress_slots _ _ _ _ Hpr1) as Hsl1.
    destruct (write_new_nodes_spec (new_fuel mid (stop - 1)) st1 es _ buf (stop - 1)
      (mid - start) offset Hok1) as (st2 & es2 & E2 & Hok2 & Hn2 & Hpr2);
      rewrite ?Hlen in *; [done|by rewrite (pr_task _ _ _ _ Hpr1)|nia|done|lia..|].
    rewrite E2. cbn [mbind option_bind]. rewrite (pr_task _ _ _ _ Hpr2),
      (pr_task _ _ _ _ Hpr1).
    replace (mid - start + (stop - 1 - mid + 1)) with (n) by lia.
    do 3 eexists. split_and!; [done| |done| |by rewrite Hn2, Hn1].
    + replace (n) with ((mid - start) + (stop - 1 - mid + 1)) by lia.
      by eapply progress_add.
    + rewrite (overwrite_split start (mid - start)) by (rewrite ?zlength_ztake by lia; lia).
      rewrite zlength_ztake, !slice_ztake by lia.
      by replace (n - (mid - start)) with (stop - 1 - mid + 1) by lia.
Qed.

End loops.
(** ** The interface: a PolyStore file is a byte array *)

Section interface.
Context {Fs : Type} `{!PosixFS Fs, !PosixFSLaws Fs, !ReliableFS Fs}.
Implicit Types st : io_state Fs.

Definition fastfd_of st : Z := POLYSTORE_FAST_FD (f_polyfd (io_file st)).
Definition slowfd_of st : Z := POLYSTORE_SLOW_FD (f_polyfd (io_file st)).

(** The pieces needed for [n] bytes. *)
Definition pieces_of (n : Z) : Z := (n + NODE - 1) / NODE.

(** The pieces a file of [n] bytes gains when it is written up to [stop]. *)
Definition new_pieces (n stop : Z) : Z := Z.max 0 (pieces_of stop - pieces_of n).

Definition placed (t : g_task_ctx) : Prop :=
  t_placement t = BLK_PLACEMENT_FAST \/ t_placement t = BLK_PLACEMENT_SLOW.

Definition represents st (data : list byte) : Prop :=
  exists fast_obj slow_obj es, fast_obj <> slow_obj /\
    io_ok fast_obj slow_obj (fastfd_of st) (slowfd_of st) st es data /\
    i_size (io_inode st) = zlength data /\
    length es <= i_next_avail_it_node_no (io_inode st) /\
    length es <= MAX_POLY_INDEX_NODE_NR + 1.

(** Files behind other descriptors do not change. *)
Definition untouched st st' : Prop :=
  forall o, fs_object (io_fs st) (fastfd_of st) <> Some o ->
    fs_object (io_fs st) (slowfd_of st) <> Some o ->
    fs_size (io_fs st') o = fs_size (io_fs st) o /\
    forall k, fs_content (io_fs st') o k = fs_content (io_fs st) o k.

(** The book-keeping of a write of [n] bytes. *)
Definition write_accounted (offset n : Z) st st' : Prop :=
  io_file st' = io_file (advance_off offset n st) /\
  io_task st' = io_task st
    <| t_throughput := u64 (t_throughput (io_task st) + n) |>
    <| t_throughput_write := u64 (t_throughput_write (io_task st) + n) |> /\
  inode_meta (io_inode st') =
    inode_meta (io_inode st <| i_size := i_size (io_inode st') |>) /\
  untouched st st'.

Lemma layout_pieces fast_obj slow_obj fs es data :
  layout (Fs:=Fs) fast_obj slow_obj fs es data ->
  Z.of_nat (length es) = pieces_of (zlength data).
Proof.
  intros L. pose proof node_pos. destruct (lay_size _ _ _ _ _ L).
  unfold pieces_of. apply Z.div_unique with (zlength data + NODE - 1 - length es * NODE);
    lia.
Qed.

Lemma pieces_of_bound n : (pieces_of n - 1) * NODE < n <= pieces_of n * NODE.
Proof.
  pose proof node_pos as HN. unfold pieces_of.
  pose proof (Z.div_mod (n + NODE - 1) NODE).
  pose proof (Z.mod_pos_bound (n + NODE - 1) NODE HN). lia.
Qed.

Lemma pieces_of_mono a b : a <= b -> pieces_of a <= pieces_of b.
Proof. intros. pose proof node_pos. apply Z.div_le_mono; lia. Qed.

Lemma pieces_of_max n stop :
  pieces_of (Z.max n stop) = pieces_of n + new_pieces n stop.
Proof.
  unfold new_pieces. destruct (decide (n <= stop)) as [Hle|Hlt].
  - rewrite Z.max_r by lia. pose proof (pieces_of_mono _ _ Hle). lia.
  - rewrite Z.max_l by lia. pose proof (pieces_of_mono stop n). lia.
Qed.

Lemma new_pieces_div k n :
  pieces_of n - k = (n - k * NODE - 1) / NODE + 1.
Proof.
  pose proof node_pos. unfold pieces_of.
  replace (n + NODE - 1) with ((n - k * NODE - 1) + (k + 1) * NODE) by lia.
  rewrite Z.div_add by lia. lia.
Qed.

Lemma write_range_refines st data buf n start offset :
  represents st data -> placed (io_task st) ->
  0 <= start <= zlength data -> 0 < n <= zlength buf -> zlength buf < 2 ^ 61 ->
  let stop := start + n in
  stop <= pieces_of (zlength data) * NODE \/ stop mod NODE <> 1 ->
  i_next_avail_it_node_no (io_inode st) + new_pieces (zlength data) stop <=
    i_index_slots (io_inode st) ->
  exists st', write_range st buf start (s64 (stop - 1)) offset =
      Some (n, st') /\
    represents st' (overwrite start (ztake n buf) data) /\
    write_accounted offset (n) st st' /\
    i_next_avail_it_node_no (io_inode st') =
      i_next_avail_it_node_no (io_inode st) + new_pieces (zlength data) stop.
Proof.
  intros (fo & so & es & Hd & Hok & Hsz & Hk & Hmax) Hpl Hs Hn Hbl stop Htail Hroom.
  pose proof node_pos as HN.
  pose proof (ok_region _ _ (io_index _ _ _ _ _ _ _ Hok)) as Hsl.
  pose proof (layout_pieces _ _ _ _ _ (io_layout _ _ _ _ _ _ _ Hok)) as HK.
  destruct (lay_size _ _ _ _ _ (io_layout _ _ _ _ _ _ _ Hok)) as [_ Hlen].
  destruct (pieces_of_bound stop) as [Hp1 Hp2].
  assert (0 <= length es <= 65536 /\ pieces_of stop <= 65536) as [Hk1 Hk2].
  { unfold new_pieces, MAX_POLY_INDEX_NODE_NR in *. lia. }
  assert (length es * NODE <= 2 ^ 37 /\ stop <= 2 ^ 37) as [Hb1 Hb2]
    by (rewrite node_size_val in *; lia).
  rewrite s64_id by lia.
  destruct (write_range_ok fo so _ _ Hd st es data buf n start offset eq_refl eq_refl
    Hok) as (st0 & st' & es' & E & Hpr & -> & Hok' & Hnx);
    [lia|lia|done|done|done|by rewrite HK|..].
  { fold stop. rewrite <-new_pieces_div, HK by lia.
    unfold new_pieces, MAX_POLY_INDEX_NODE_NR in *. lia. }
  pose proof (layout_pieces _ _ _ _ _ (io_layout _ _ _ _ _ _ _ Hok')) as HK'.
  rewrite zlength_overwrite, zlength_ztake in HK' by lia. fold stop in HK', E |- *.
  assert (Z.of_nat (length es') = length es + new_pieces (zlength data) stop) as Hes.
  { rewrite HK', HK. unfold new_pieces.
    destruct (decide (zlength data <= stop)) as [Hle|].
    - rewrite Z.max_r by lia. pose proof (pieces_of_mono _ _ Hle). lia.
    - rewrite Z.max_l by lia.
      pose proof (pieces_of_mono stop (zlength data)). lia. }
  pose proof (pr_meta _ _ _ _ _ _ Hpr) as Hmeta.
  pose proof (pr_file _ _ _ _ _ _ Hpr) as Hfile.
  assert (f_polyfd (io_file st0) = f_polyfd (io_file st)) as Hfd.
  { rewrite Hfile. unfold advance_off. by destruct (offset <? 0). }
  unfold inode_meta in Hmeta. simplify_eq Hmeta.
  eexists. split_and!; [exact E| | |].
  - exists fo, so, es'. unfold fastfd_of, slowfd_of. cbn. rewrite Hfd.
    split_and!; [done| | |lia|lia].
    + destruct Hok'. split; cbn; try done.
      by eapply index_ok_ext.
    + rewrite zlength_overwrite, zlength_ztake by lia. rewrite u64_id by lia.
      zif; lia.
  - split_and!; [done|done| |].
    + unfold inode_meta. cbn. congruence.
    + intros o Hf Hs'. apply (pr_others _ _ _ _ _ _ Hpr).
      * intros ->. apply Hf, Hok.
      * intros ->. apply Hs', Hok.
  - cbn. lia.
Qed.
(** The position an operation starts at. *)
Definition io_start st (offset : Z) : Z :=
  if offset <? 0 then f_off (io_file st) else offset.

Lemma write_iter_prefix st data buf n offset :
  represents st data -> placed (io_task st) ->
  0 < n <= zlength buf -> zlength buf < 2 ^ 61 ->
  let start := io_start st offset in
  let stop := start + n in
  0 <= start <= zlength data ->
  stop <= pieces_of (zlength data) * NODE \/ stop mod NODE <> 1 ->
  i_next_avail_it_node_no (io_inode st) + new_pieces (zlength data) stop <=
    i_index_slots (io_inode st) ->
  exists st', polystore_write_iter st buf n offset = Some (n, st') /\
    represents st' (overwrite start (ztake n buf) data) /\
    write_accounted offset n st st' /\
    i_next_avail_it_node_no (io_inode st') =
      i_next_avail_it_node_no (io_inode st) + new_pieces (zlength data) stop.
Proof.
  intros Hr Hp Hn Hbl start stop Hs Ht Hroom.
  by apply (write_range_refines).
Qed.

Lemma represents_small st data :
  represents st data -> zlength data <= 2 ^ 38 /\ i_size (io_inode st) = zlength data.
Proof.
  intros (fo & so & es & Hd & Hok & Hsz & Hk & Hmax). split; [|done].
  destruct (lay_size _ _ _ _ _ (io_layout _ _ _ _ _ _ _ Hok)) as [_ Hlen].
  rewrite node_size_val in Hlen. unfold MAX_POLY_INDEX_NODE_NR in Hmax. lia.
Qed.

Lemma stop_small st data stop :
  represents st data ->
  i_next_avail_it_node_no (io_inode st) + new_pieces (zlength data) stop <=
    i_index_slots (io_inode st) -> stop < 2 ^ 39.
Proof.
  intros Hr Hroom. destruct (represents_small _ _ Hr) as [Hn _].
  destruct Hr as (fo & so & es & _ & Hok & _ & Hnext & _).
  destruct (pieces_of_bound stop) as [_ Hs].
  destruct (pieces_of_bound (zlength data)) as [Hp _].
  pose proof (ok_region _ _ (io_index _ _ _ _ _ _ _ Hok)).
  unfold new_pieces, MAX_POLY_INDEX_NODE_NR in *.
  rewrite node_size_val in *. lia.
Qed.

Lemma write_iter_refines st data buf offset :
  represents st data -> placed (io_task st) -> buf <> [] ->
  let start := io_start st offset in
  let stop := start + zlength buf in
  0 <= start <= zlength data ->
  stop <= pieces_of (zlength data) * NODE \/ stop mod NODE <> 1 ->
  i_next_avail_it_node_no (io_inode st) + new_pieces (zlength data) stop <=
    i_index_slots (io_inode st) ->
  exists st', polystore_write_iter st buf (zlength buf) offset =
      Some (zlength buf, st') /\
    represents st' (overwrite start buf data) /\
    write_accounted offset (zlength buf) st st' /\
    i_next_avail_it_node_no (io_inode st') =
      i_next_avail_it_node_no (io_inode st) + new_pieces (zlength data) stop.
Proof.
  intros Hr Hp Hbuf start stop Hs Ht Hroom.
  pose proof (stop_small st data stop Hr Hroom).
  assert (0 < zlength buf) by (destruct buf; [done|cbn; lia]).
  pose proof (write_iter_prefix st data buf (zlength buf) offset) as Hw.
  rewrite ztake_all in Hw by lia. apply Hw; done || lia.
Qed.

Lemma append_iter_refines st data buf offset :
  represents st data -> placed (io_task st) -> buf <> [] ->
  let stop := zlength data + zlength buf in
  stop <= pieces_of (zlength data) * NODE \/ stop mod NODE <> 1 ->
  i_next_avail_it_node_no (io_inode st) + new_pieces (zlength data) stop <=
    i_index_slots (io_inode st) ->
  exists st', polystore_append_iter st buf (zlength buf) offset =
      Some (zlength buf, st') /\
    represents st' (data ++ buf) /\
    write_accounted offset (zlength buf) st st' /\
    i_next_avail_it_node_no (io_inode st') =
      i_next_avail_it_node_no (io_inode st) + new_pieces (zlength data) stop.
Proof.
  intros Hr Hp Hbuf stop Ht Hroom.
  destruct (represents_small _ _ Hr) as [Hsm Hsz].
  unfold polystore_append_iter, polystore_io_set_range.
  rewrite Hsz, s64_id, (proj2 (Z.ltb_ge _ _)) by lia. rewrite <-overwrite_end.
  pose proof (stop_small st data stop Hr Hroom).
  assert (0 < zlength buf) by (destruct buf; [done|cbn; lia]).
  pose proof (write_range_refines st data buf (zlength buf) (zlength data) offset)
    as Hw.
  rewrite ztake_all in Hw by lia. apply Hw; done || lia.
Qed.

Lemma read_iter_refines st data buf count offset :
  represents st data ->
  let start := io_start st offset in
  let d := slice start count data in
  let task := io_task st in
  0 <= start -> 0 < count -> start + count < 2 ^ 62 ->
  polystore_read_iter st buf count offset =
    Some (zlength d, overwrite 0 d buf,
      advance_off offset (zlength d) st <| io_task := task
        <| t_throughput := u64 (t_throughput task + zlength d) |>
        <| t_throughput_read := u64 (t_throughput_read task + zlength d) |> |>).
Proof.
  intros (fo & so & es & Hd & Hok & Hsz & Hk & Hmax) start d task Hs Hc Hb.
  pose proof node_pos as HN. unfold polystore_read_iter, polystore_io_set_range.
  fold (io_start st offset). fold start (fastfd_of st) (slowfd_of st).
  assert (length es * NODE < 2 ^ 62) as Hes.
  { rewrite node_size_val. unfold MAX_POLY_INDEX_NODE_NR in Hmax. lia. }
  assert (0 <= start / NODE) by (apply Z.div_pos; lia).
  pose proof (Z.div_mod start NODE). pose proof (Z.mod_pos_bound start NODE HN).
  rewrite s64_id, !u64_id, (node_fuel_length _ es) by (apply Hok || lia).
  rewrite (lookup_pieces _ es) by (apply Hok || lia).
  assert (read_nodes (length es) (fastfd_of st) (slowfd_of st) st buf
    (pc_slot <$> es !! Z.to_nat (start / NODE)) start (start + count - 1) 0 offset =
    Some (zlength d, overwrite 0 d buf, advance_off offset (zlength d) st)) as ->.
  { destruct (es !! Z.to_nat (start / NODE)) as [p|] eqn:Ep.
    - cbn [fmap option_fmap option_map].
      erewrite read_nodes_spec; [|done..|lia|lia|lia|lia].
      by replace (start + count - 1 - start + 1) with count by lia.
    - assert (d = []) as ->; [|].
      { apply slice_nil_r. apply lookup_ge_None in Ep.
        assert (length es * NODE <= start) by nia.
        destruct (lay_size _ _ _ _ _ (io_layout _ _ _ _ _ _ _ Hok)). lia. }
      rewrite overwrite_nil, advance_off_0 by lia. by destruct (length es). }
  cbn [mbind option_bind].
  by rewrite (proj2 (proj2 (advance_off_fields offset (zlength d) st))).
Qed.

(** A file that was just created represents the empty byte array. *)
Lemma represents_fresh st fast_obj slow_obj :
  fast_obj <> slow_obj ->
  fs_object (io_fs st) (fastfd_of st) = Some fast_obj ->
  fs_object (io_fs st) (slowfd_of st) = Some slow_obj ->
  fs_size (io_fs st) fast_obj = 0 -> fs_size (io_fs st) slow_obj = 0 ->
  i_it_tree (io_inode st) = Leaf -> i_size (io_inode st) = 0 ->
  0 <= i_next_avail_it_node_no (io_inode st) -> i_index (io_inode st) <> 0 ->
  i_index_slots (io_inode st) <= MAX_POLY_INDEX_NODE_NR ->
  represents st [].
Proof.
  intros Hd Hf Hs Hf0 Hs0 Ht Hsz Hn Hi Hreg. exists fast_obj, slow_obj, [].
  split_and!; [done| |done|done|by cbn]. split; [|by apply layout_nil|done|done].
  split; rewrite ?Ht; try done.
  - apply wf_tree_empty.
  - constructor.
  - intros p Hp. by apply elem_of_nil in Hp.
  - intros p Hp. by apply elem_of_nil in Hp.
Qed.

End interface.

(** ** Properties *)

(** C5: a read of [count] bytes returns exactly the bytes of the file from the
    start position on, cut at the end of the file, whichever devices hold them;
    it changes neither data nor index, advances the file offset only for
    sequential reads, and accounts the bytes. *)
Theorem polystore_read_iter_correct `{!PosixFS Fs, !PosixFSLaws Fs, !ReliableFS Fs}
    (st : io_state Fs) (data buf : list byte) (count offset : Z) :
  represents st data ->
  let start := io_start st offset in
  let d := slice start count data in
  let task := io_task st in
  0 <= start -> 0 < count -> start + count < 2 ^ 62 ->
  polystore_read_iter st buf count offset =
    Some (zlength d, overwrite 0 d buf,
      advance_off offset (zlength d) st <| io_task := task
        <| t_throughput := u64 (t_throughput task + zlength d) |>
        <| t_throughput_read := u64 (t_throughput_read task + zlength d) |> |>).
Proof. apply read_iter_refines. Qed.

(** C4: a write that starts inside or at the end of the file, and does not end
    one byte into a fresh piece, writes everything: the file's bytes become the
    old ones with the buffer written over them (growing the file where the range
    passes its end), all invariants are kept, no other file changes, and offset,
    size and statistics are updated. *)
Theorem polystore_write_iter_correct `{!PosixFS Fs, !PosixFSLaws Fs, !ReliableFS Fs}
    (st : io_state Fs) (data buf : list byte) (offset : Z) :
  represents st data -> placed (io_task st) -> buf <> [] ->
  let start := io_start st offset in
  let stop := start + zlength buf in
  0 <= start <= zlength data ->
  stop <= pieces_of (zlength data) * NODE \/ stop mod NODE <> 1 ->
  i_next_avail_it_node_no (io_inode st) + new_pieces (zlength data) stop <=
    i_index_slots (io_inode st) ->
  exists st', polystore_write_iter st buf (zlength buf) offset =
      Some (zlength buf, st') /\
    represents st' (overwrite start buf data) /\
    write_accounted offset (zlength buf) st st'.
Proof.
  intros Hr Hp Hb start stop Hs Ht Hroom.
  destruct (write_iter_refines st data buf offset) as (st' & ?&?&?&?);
    [done..|]. eauto.
Qed.

(** C6: an append of a non-empty buffer extends the file by the buffer, wherever the
    file offset is, as long as the index region has room for the new pieces and the
    end does not lie one byte into a new piece, that is, unless
    [stop mod NODE = 1] and this byte is beyond the last existing piece: that byte
    is lost, as [single_byte_tail_lost] shows.  The physical file systems serve
    their requests. *)
Theorem polystore_append_iter_correct `{!PosixFS Fs, !PosixFSLaws Fs, !ReliableFS Fs}
    (st : io_state Fs) (data buf : list byte) (offset : Z) :
  represents st data -> placed (io_task st) -> buf <> [] ->
  let stop := zlength data + zlength buf in
  stop <= pieces_of (zlength data) * NODE \/ stop mod NODE <> 1 ->
  i_next_avail_it_node_no (io_inode st) + new_pieces (zlength data) stop <=
    i_index_slots (io_inode st) ->
  exists st', polystore_append_iter st buf (zlength buf) offset =
      Some (zlength buf, st') /\
    represents st' (data ++ buf) /\
    write_accounted offset (zlength buf) st st'.
Proof.
  intros Hr Hp Hb stop Ht Hroom.
  destruct (append_iter_refines st data buf offset) as (st' & ?&?&?&?);
    [done..|]. eauto.
Qed.

(** The one-byte tail of a fresh piece is lost: a write of a single byte at
    the end of a file whose pieces are full stores nothing and returns 0, yet the
    inode grows by one byte. *)
Theorem single_byte_tail_lost `{!PosixFS Fs, !PosixFSLaws Fs, !ReliableFS Fs}
    (st : io_state Fs) (data : list byte) (b : byte) :
  represents st data -> zlength data = pieces_of (zlength data) * NODE ->
  exists st', polystore_write_iter st [b] 1 (zlength data) = Some (0, st') /\
    io_fs st' = io_fs st /\ i_it_tree (io_inode st') = i_it_tree (io_inode st) /\
    i_size (io_inode st') = zlength data + 1.
Proof.
  intros Hr Hfull. destruct (represents_small _ _ Hr) as [Hsm Hsz].
  destruct Hr as (fo & so & es & Hd & Hok & _ & Hk & Hmax).
  pose proof node_pos as HN.
  rewrite <-(layout_pieces _ _ _ _ _ (io_layout _ _ _ _ _ _ _ Hok)) in Hfull.
  unfold polystore_write_iter, polystore_io_set_range.
  rewrite (proj2 (Z.ltb_ge _ _)) by lia. unfold write_range.
  rewrite s64_id, Z.add_simpl_r, u64_id by lia.
  rewrite (lookup_pieces _ es) by (apply Hok || lia).
  rewrite Hfull, Z.div_mul, Nat2Z.id, lookup_ge_None_2 by lia.
  rewrite <-Hfull. cbn [fmap option_fmap option_map].
  assert (forall n, write_nodes n (POLYSTORE_FAST_FD (f_polyfd (io_file st)))
    (POLYSTORE_SLOW_FD (f_polyfd (io_file st))) st [b] None (zlength data)
    (zlength data) 0 (zlength data) = Some (zlength data, 0, st)) as ->
    by (by intros []).
  cbn [mbind option_bind].
  assert (forall n, write_new_nodes n (POLYSTORE_FAST_FD (f_polyfd (io_file st)))
    (POLYSTORE_SLOW_FD (f_polyfd (io_file st))) st [b] (zlength data)
    (zlength data) 0 (zlength data) = Some (0, st)) as ->
    by (intros []; cbn; by rewrite Z.ltb_irrefl).
  cbn [mbind option_bind]. eexists. split_and!; [done..|]. cbn.
  rewrite u64_id, Hsz by lia. zif; lia.
Qed.

(** ** Witnesses *)

Lemma represents_example placement : represents (example_io placement) [].
Proof. by apply represents_fresh with 0 1. Qed.

Lemma polystore_write_iter_correct_witness :
  exists st', polystore_write_iter (example_io BLK_PLACEMENT_FAST) [x41; x42; x43]
      3 0 = Some (3, st') /\ represents st' [x41; x42; x43].
Proof.
  destruct (polystore_write_iter_correct (example_io BLK_PLACEMENT_FAST) []
    [x41; x42; x43] 0) as (st' & H1 & H2 & _).
  - apply represents_example.
  - by left.
  - done.
  - cbn. lia.
  - right. by vm_compute.
  - by vm_compute.
  - exists st'. split; [exact H1|exact H2].
Defined.

Lemma polystore_append_iter_correct_witness :
  exists st', polystore_append_iter (example_io BLK_PLACEMENT_SLOW) [x41; x42; x43]
      3 (-1) = Some (3, st') /\ represents st' [x41; x42; x43].
Proof.
  destruct (polystore_append_iter_correct (example_io BLK_PLACEMENT_SLOW) []
    [x41; x42; x43] (-1)) as (st' & H1 & H2 & _).
  - apply represents_example.
  - by right.
  - done.
  - right. by vm_compute.
  - by vm_compute.
  - exists st'. split; [exact H1|exact H2].
Defined.

Lemma polystore_read_iter_correct_witness :
  exists st st', represents st [x41; x42; x43] /\
    polystore_read_iter st [x00; x00; x00; x00] 4 1 =
      Some (2, [x42; x43; x00; x00], st').
Proof.
  destruct (write_iter_refines (example_io BLK_PLACEMENT_FAST) []
    [x41; x42; x43] 0) as (st & _ & Hr & _);
    [apply represents_example|by left|done|cbn; lia|right; by vm_compute|
     by vm_compute|].
  exists st. eexists. split; [exact Hr|].
  exact (polystore_read_iter_correct st _ [x00; x00; x00; x00] 4 1 Hr
    ltac:(cbn; lia) ltac:(lia) ltac:(cbn; lia)).
Defined.

Lemma single_byte_tail_lost_witness :
  exists st', polystore_write_iter (example_io BLK_PLACEMENT_FAST) [x41] 1 0 =
      Some (0, st') /\ i_size (io_inode st') = 1.
Proof.
  destruct (single_byte_tail_lost (example_io BLK_PLACEMENT_FAST) [] x41)
    as (st' & H1 & _ & _ & H2); [apply represents_example|by vm_compute|].
  exists st'. split; [exact H1|exact H2].
Defined.

End IoDirectSpec.
