(* ===== verification/IoDirectTotal.v ===== *)
(** * Direct I/O under arbitrary device behaviour

    The laws of the devices are not used here: whatever the calls return, short
    transfers and errors included, the iterators terminate within the fuel the
    model gives them, never follow a NULL tree link, never touch an entry outside
    the index region of the inode while it has room for the new nodes, and keep the
    Poly-index well formed. *)

From S2P Require Import Prelude Defs Posix IntervalTree Indexing IoDirect.
Import IoDirect.

#[local] Open Scope Z_scope.

Module IoDirectTotal.

(** ** The invariant of the Poly-index *)

Record index_inv (inode : poly_inode) : Prop := {
  inv_wf : wf_tree (i_it_tree inode);
  inv_unique : unique_idx (inorder (i_it_tree inode));
  inv_fresh : forall n, n ∈ inorder (i_it_tree inode) ->
    0 <= it_idx n < i_next_avail_it_node_no inode;
  inv_region : forall n, n ∈ inorder (i_it_tree inode) ->
    it_idx n < i_index_slots inode;
  inv_range : forall n, n ∈ inorder (i_it_tree inode) -> 0 <= it_last n < 2 ^ 63;
  inv_entry : forall n, n ∈ inorder (i_it_tree inode) ->
    e_it (entry_at inode (it_idx n)) = n;
  inv_next : 0 <= i_next_avail_it_node_no inode
}.

Lemma unique_idx_insert_sorted n l :
  unique_idx l -> (forall x, x ∈ l -> it_idx x <> it_idx n) ->
  unique_idx (insert_sorted n l).
Proof.
  unfold unique_idx. change (map it_idx) with (fmap (M:=list) it_idx).
  induction l as [|x l IH]; intros Hu Hn; cbn [insert_sorted].
  - apply NoDup_singleton.
  - zif; rewrite !fmap_cons in *.
    + constructor; [|done]. rewrite <-fmap_cons. intros Hin.
      apply list_elem_of_fmap in Hin as (y & Hy & Hin). by apply (Hn y).
    + apply NoDup_cons in Hu as [Hx Hu]. constructor.
      * intros Hin. apply list_elem_of_fmap in Hin as (y & Hy & Hin).
        apply elem_of_insert_sorted in Hin as [->|Hin].
        -- apply (Hn x); [left|done].
        -- apply Hx. rewrite Hy. by apply list_elem_of_fmap_2.
      * apply IH; [done|]. intros y Hy. apply Hn. by right.
Qed.

(** Changing an entry without touching its interval. *)
Lemma index_inv_set_entry inode slot e :
  index_inv inode -> e_it e = e_it (entry_at inode slot) ->
  index_inv (set_entry inode slot e).
Proof.
  intros [] He. split; try done. intros n Hn. rewrite <-(inv_entry0 n Hn) at 2.
  destruct (decide (it_idx n = slot)) as [->|].
  - by rewrite entry_at_set_eq.
  - by rewrite entry_at_set_ne.
Qed.

(** Allocating, filling in and inserting an entry. *)
Lemma index_inv_insert inode slot inode1 e :
  index_inv inode -> i_next_avail_it_node_no inode < 2 ^ 31 - 1 ->
  polystore_index_entry_allocate inode = Some (Some slot, inode1) ->
  it_idx (e_it e) = slot -> 0 <= it_last (e_it e) < 2 ^ 63 ->
  exists inode2,
    polystore_index_insert (set_entry inode1 slot e) slot = Some inode2 /\
    index_inv inode2 /\
    i_index_slots inode2 = i_index_slots inode /\
    i_next_avail_it_node_no inode2 = i_next_avail_it_node_no inode + 1.
Proof.
  intros [Hwf Hu Hf Hreg Hrng He Hn] Hlt. unfold polystore_index_entry_allocate.
  rewrite s32_id by lia. cbn [i_index i_index_slots update].
  destruct (i_index inode =? 0); [done|].
  destruct (MAX_POLY_INDEX_NODE_NR <? i_next_avail_it_node_no inode); [done|].
  destruct (_ && _) eqn:Em; [|done]. zbool.
  intros [= <- <-] Hit Hlast. set (slot := i_next_avail_it_node_no inode) in *.
  destruct (insert_spec (e_it e) (i_it_tree inode) Hwf) as (t & Ht & Hwf' & Hin).
  unfold polystore_index_insert. rewrite entry_at_set_eq.
  match goal with |- context [interval_tree_insert _ (i_it_tree ?i)] =>
    change (i_it_tree i) with (i_it_tree inode) end.
  rewrite Ht. eexists. split; [done|]. split; [|done].
  split; [done|..]; cbn [i_it_tree i_next_avail_it_node_no update]; try rewrite Hin.
  - apply unique_idx_insert_sorted; [done|]. intros x Hx.
    specialize (Hf x Hx). lia.
  - intros n [->|Hx]%elem_of_insert_sorted; cbn; [lia|].
    specialize (Hf n Hx). lia.
  - intros n [->|Hx]%elem_of_insert_sorted; cbn; [lia|]. by apply Hreg.
  - intros n [->|Hx]%elem_of_insert_sorted; [done|]. by apply Hrng.
  - intros n [->|Hx]%elem_of_insert_sorted.
    + rewrite Hit. by rewrite entry_at_tree, entry_at_set_eq.
    + rewrite entry_at_tree, !entry_at_set_ne by (specialize (Hf n Hx); lia).
      by apply He.
  - cbn. lia.
Qed.

Lemma index_inv_refused inode inode1 :
  index_inv inode -> i_next_avail_it_node_no inode < 2 ^ 31 - 1 ->
  polystore_index_entry_allocate inode = Some (None, inode1) ->
  index_inv inode1 /\ i_index_slots inode1 = i_index_slots inode.
Proof.
  intros [Hwf Hu Hf Hreg Hrng He Hn] Hlt. unfold polystore_index_entry_allocate.
  rewrite s32_id by lia. cbn [i_index i_index_slots update].
  destruct (i_index inode =? 0), 
    (MAX_POLY_INDEX_NODE_NR <? i_next_avail_it_node_no inode);
    try (by destruct (_ && _)); intros [= <-]; (split; [|done]); split; cbn; try done; try lia;
    intros n Hx; specialize (Hf n Hx); lia.
Qed.

(** The allocation stays inside the region while that has room. *)
Lemma allocate_inside inode :
  index_inv inode -> i_next_avail_it_node_no inode < i_index_slots inode ->
  is_Some (polystore_index_entry_allocate inode).
Proof.
  intros H Hroom. pose proof (inv_next _ H).
  unfold polystore_index_entry_allocate. cbn [i_index i_index_slots update].
  rewrite (proj2 (Z.leb_le _ _)), (proj2 (Z.ltb_lt _ _) Hroom) by lia.
  destruct (_ =? 0); [eauto|]. destruct (_ <? _); eauto.
Qed.

(** ** Iteration *)

(** The node returned by a lookup, as a split of the list of nodes. *)
Lemma first_overlap_split start last l n :
  first_overlap start last l = Some n ->
  (exists pre post, l = pre ++ n :: post) /\ start <= it_last n.
Proof.
  unfold first_overlap. induction l as [|x l IH]; cbn; [done|].
  destruct (overlaps start last x) eqn:E.
  - intros [= ->]. unfold overlaps in E. zbool. split; [by exists [], l|lia].
  - intros [(pre & post & ->) Hl]%IH. split; [by exists (x :: pre), post|done].
Qed.

Lemma lookup_split inode start last slot :
  index_inv inode -> polystore_index_lookup inode start last = Some slot ->
  exists pre n post, inorder (i_it_tree inode) = pre ++ n :: post /\
    slot = it_idx n /\ start <= it_last n.
Proof.
  intros H. unfold polystore_index_lookup. destruct (inv_wf _ H) as (Hs & Ha & _).
  rewrite iter_first_spec by done. intros (n & Hn & ->)%fmap_Some.
  destruct (first_overlap_split _ _ _ _ Hn) as [(pre & post & ->) Hl]. eauto 10.
Qed.

Lemma lookup_next_split inode pre n post start last slot :
  index_inv inode -> inorder (i_it_tree inode) = pre ++ n :: post ->
  polystore_index_lookup_next inode (it_idx n) start last = Some slot ->
  exists pre' n' post', inorder (i_it_tree inode) = pre' ++ n' :: post' /\
    slot = it_idx n' /\ start <= it_last n' /\ (length post' < length post)%nat.
Proof.
  intros H E. unfold polystore_index_lookup_next.
  destruct (inv_wf _ H) as (Hs & Ha & _).
  rewrite (iter_next_spec _ pre n post) by (done || apply (inv_unique _ H)).
  intros (n' & Hn & ->)%fmap_Some.
  destruct (first_overlap_split _ _ _ _ Hn) as [(pre' & post' & Hp) Hl].
  exists (pre ++ n :: pre'), n', post'. split_and!; [|done|done|].
  - rewrite E, Hp. by rewrite <-app_assoc.
  - rewrite Hp, length_app. cbn. lia.
Qed.

Section loops.
Context {Fs : Type} `{!PosixFS Fs}.
Implicit Types st : io_state Fs.

Lemma advance_off_inode offset n st :
  io_inode (advance_off offset n st) = io_inode st.
Proof. unfold advance_off. by destruct (offset <? 0). Qed.

Lemma read_nodes_total fuel : forall fastfd slowfd st buf pre n post start end_ copied offset,
  index_inv (io_inode st) ->
  inorder (i_it_tree (io_inode st)) = pre ++ n :: post ->
  (length post < fuel)%nat ->
  exists ret buf' st',
    read_nodes fuel fastfd slowfd st buf (Some (it_idx n)) start end_ copied offset
      = Some (ret, buf', st') /\ io_inode st' = io_inode st.
Proof.
  induction fuel as [|fuel IH]; intros fastfd slowfd st buf pre n post start end_
    copied offset Hinv E Hf; [lia|]. cbn [read_nodes].
  destruct (entry_fd _ _ _) as [fd|]; [|eauto].
  destruct (fs_pread _ _ _ _) as [ret d]. destruct (ret <? 0); [eauto|].
  destruct (polystore_index_lookup_next _ _ _ _) as [slot|] eqn:El.
  - destruct (lookup_next_split _ _ _ _ _ _ _ Hinv E El)
      as (pre' & n' & post' & E' & -> & _ & Hl).
    edestruct (IH fastfd slowfd (advance_off offset ret st)) as (r & b & st' & -> & Hi);
      rewrite ?advance_off_inode in *; [done|exact E'|lia|]. eauto.
  - destruct fuel; cbn; rewrite <-(advance_off_inode offset ret st); eauto.
Qed.

Lemma write_nodes_total fuel : forall fastfd slowfd st buf pre n post start end_ copied offset,
  index_inv (io_inode st) ->
  inorder (i_it_tree (io_inode st)) = pre ++ n :: post ->
  (length post < fuel)%nat -> start <= it_last n ->
  0 <= start <= end_ + 1 -> end_ < 2 ^ 62 ->
  exists start' copied' st',
    write_nodes fuel fastfd slowfd st buf (Some (it_idx n)) start end_ copied offset
      = Some (start', copied', st') /\
    index_inv (io_inode st') /\ start <= start' <= end_ + 1 /\
    i_index_slots (io_inode st') = i_index_slots (io_inode st) /\
    i_next_avail_it_node_no (io_inode st') =
      i_next_avail_it_node_no (io_inode st).
Proof.
  induction fuel as [|fuel IH]; intros fastfd slowfd st buf pre n post start end_
    copied offset Hinv E Hf Hl Hs He; [lia|]. cbn [write_nodes].
  set (e := entry_at (io_inode st) (it_idx n)).
  assert (n ∈ inorder (i_it_tree (io_inode st))) as Hin by (rewrite E; set_solver).
  assert (e_it e = n) as Hen by apply (inv_entry _ Hinv n Hin).
  pose proof (inv_range _ Hinv n Hin) as Hrng.
  assert (start <= start <= end_ + 1) by lia.
  destruct (entry_fd _ _ _) as [fd|]; [|by eauto 10].
  destruct (fs_pwrite _ _ _ _) as [ret fs']. destruct (negb _); [by eauto 10|].
  set (inode' := set_entry _ _ _).
  assert (index_inv inode') as Hinv'.
  { apply index_inv_set_entry; [done|]. unfold update_node_size.
    by destruct (_ && _). }
  set (st1 := advance_off _ _ _).
  assert (io_inode st1 = inode') as Hst1 by apply advance_off_inode.
  rewrite Hen, (s64_id (it_last n)) by lia. set (start1 := node_next (it_last n) end_).
  assert (start <= start1 <= end_ + 1) as Hs1 by (unfold start1, node_next; zif; lia).
  destruct (polystore_index_lookup_next _ _ _ _) as [slot|] eqn:El.
  - destruct (lookup_next_split inode' pre n post _ _ _ Hinv' E El)
      as (pre' & n' & post' & E' & -> & Hl' & Hlen). rewrite u64_id in Hl' by lia.
    rewrite <-Hst1 in Hinv', E'.
    destruct (IH fastfd slowfd st1 buf pre' n' post' start1 end_ (copied + ret) offset)
      as (r & b & st' & -> & Hi & Hss & Hsl & Hn); [done..|lia|done|lia|done|].
    exists r, b, st'. rewrite Hsl, Hn, Hst1. split_and!; done || lia.
  - rewrite <-Hst1 in Hinv'.
    destruct fuel; cbn; do 3 eexists; (split_and!; [done|done|lia|lia|..]);
      by rewrite Hst1.
Qed.

Lemma write_new_nodes_total (fuel : nat) : forall fastfd slowfd st buf start end_ copied offset,
  index_inv (io_inode st) -> i_index_slots (io_inode st) < 2 ^ 31 ->
  0 <= start -> end_ < 2 ^ 62 -> end_ - start <= fuel * NODE ->
  i_next_avail_it_node_no (io_inode st) + fuel <= i_index_slots (io_inode st) ->
  exists copied' st',
    write_new_nodes fuel fastfd slowfd st buf start end_ copied offset
      = Some (copied', st') /\
    index_inv (io_inode st') /\
    i_index_slots (io_inode st') = i_index_slots (io_inode st).
Proof.
  induction fuel as [|fuel IH]; intros fastfd slowfd st buf start end_ copied offset
    Hinv Hsl Hs He Hf Hroom; cbn [write_new_nodes];
    (destruct (start <? end_) eqn:Ese; zbool; [|by eauto 10]); [lia|].
  set (cnt := if NODE <? _ then _ else _).
  assert (cnt = Z.min NODE (end_ - start + 1)) as Hcnt.
  { unfold cnt. rewrite u64_id by lia. zif; lia. }
  destruct (allocate_inside (io_inode st) Hinv) as [[[slot|] inode1] Ea]; [lia|..];
    rewrite Ea; cbn [mbind option_bind].
  2: { destruct (index_inv_refused _ inode1 Hinv) as [Hi Hsl1]; [lia|done|].
       by exists copied, (st <| io_inode := inode1 |>). }
  destruct (fs_lseek_end _ _) as [real_pos fs1].
  destruct (fs_pwrite _ _ _ _) as [ret fs2].
  set (e := new_entry _ _ _ _ _ _ _). rewrite node_size_val in *.
  assert (0 <= it_last (e_it e) < 2 ^ 63) as Hlast.
  { cbn. rewrite node_mask_floor, node_size_val.
    pose proof (Z.mod_pos_bound start (2 ^ 21) ltac:(lia)).
    pose proof (Z.mod_le start (2 ^ 21) ltac:(lia) ltac:(lia)).
    rewrite (u64_id (start - _)), u64_id by (rewrite ?u64_id; lia). lia. }
  destruct (index_inv_insert _ slot inode1 e Hinv) as (inode2 & -> & Hi & Hsl2 & Hnx);
    [lia|done|done|done|]. cbn [mbind option_bind].
  set (st1 := advance_off _ _ _).
  assert (io_inode st1 = inode2) as Hst1 by apply advance_off_inode.
  rewrite s64_id by lia.
  destruct (IH fastfd slowfd st1 buf (start + cnt) end_ (s64 (copied + cnt)) offset)
    as (c & st' & -> & Hi' & Hsl'); rewrite ?Hst1 in *; [done|lia..|].
  exists c, st'. split_and!; [done..|lia].
Qed.

(** Any write range, on any index that satisfies the invariant. *)
Lemma write_range_total st buf start end_ offset :
  index_inv (io_inode st) -> i_index_slots (io_inode st) < 2 ^ 31 ->
  0 <= start <= end_ + 1 -> end_ < 2 ^ 62 ->
  i_next_avail_it_node_no (io_inode st) + ((end_ - start + 1) / NODE + 1) <=
    i_index_slots (io_inode st) ->
  exists ret st', write_range st buf start end_ offset = Some (ret, st') /\
    index_inv (io_inode st') /\
    i_index_slots (io_inode st') = i_index_slots (io_inode st).
Proof.
  intros Hinv Hsl Hs He Hroom. unfold write_range. pose proof node_pos as HN.
  set (fastfd := POLYSTORE_FAST_FD _). set (slowfd := POLYSTORE_SLOW_FD _).
  assert (exists start' copied st1,
    write_nodes (node_fuel (io_inode st)) fastfd slowfd st buf
      (polystore_index_lookup (io_inode st) (u64 start) (u64 end_))
      start end_ 0 offset = Some (start', copied, st1) /\
    index_inv (io_inode st1) /\ start <= start' <= end_ + 1 /\
    i_index_slots (io_inode st1) = i_index_slots (io_inode st) /\
    i_next_avail_it_node_no (io_inode st1) =
      i_next_avail_it_node_no (io_inode st))
    as (start' & copied & st1 & -> & Hinv1 & Hs1 & Hsl1 & Hn1).
  { destruct (polystore_index_lookup _ _ _) as [slot|] eqn:El.
    - destruct (lookup_split _ _ _ _ Hinv El) as (pre & n & post & E & -> & Hl).
      rewrite u64_id in Hl by lia.
      eapply write_nodes_total; [done..| |done|lia|lia].
      unfold node_fuel. rewrite E, length_app. cbn. lia.
    - destruct (node_fuel _); cbn; do 3 eexists; split_and!; done || lia. }
  cbn [mbind option_bind].
  assert (new_fuel start' end_ <= (end_ - start + 1) / NODE + 1) as Hfuel.
  { unfold new_fuel. pose proof (Z.div_le_mono (end_ - start') (end_ - start + 1) NODE).
    pose proof (Z.div_pos (end_ - start + 1) NODE). lia. }
  destruct (write_new_nodes_total (new_fuel start' end_) fastfd slowfd st1 buf start'
    end_ copied offset) as (ret & st2 & -> & Hinv2 & Hsl2); [done|lia..| |lia|].
  { unfold new_fuel.
    pose proof (Z.div_mod (end_ - start') NODE).
    pose proof (Z.mod_pos_bound (end_ - start') NODE HN). nia. }
  cbn [mbind option_bind]. do 2 eexists. split_and!; [done| |cbn; lia].
  by destruct Hinv2.
Qed.

Lemma read_iter_total st buf count offset :
  index_inv (io_inode st) ->
  exists ret buf' st', polystore_read_iter st buf count offset =
    Some (ret, buf', st') /\ io_inode st' = io_inode st.
Proof.
  intros Hinv. unfold polystore_read_iter, polystore_io_set_range.
  set (start := if offset <? 0 then _ else _). set (end_ := s64 _).
  destruct (polystore_index_lookup _ _ _) as [slot|] eqn:El.
  - destruct (lookup_split _ _ _ _ Hinv El) as (pre & n & post & E & -> & _).
    edestruct (read_nodes_total (node_fuel (io_inode st))) as (r & b & st' & -> & Hi);
      [done..| |].
    { unfold node_fuel. rewrite E, length_app. cbn. lia. }
    cbn [mbind option_bind]. do 3 eexists. by split.
  - destruct (node_fuel _); cbn; do 3 eexists; by split.
Qed.

(** C7: termination and memory safety of direct I/O.  For every behaviour of the
    devices (errors, short transfers, arbitrary seek results), on every inode with a
    well-formed index, the read iterator returns; the write and append iterators return
    as long as the index region has room for one new node per 2 MiB of the buffer and
    one more.  They only follow valid links of the tree and only touch entries
    inside the region of the inode, and leave the Poly-index well formed: an ordered,
    augmented, balanced tree whose nodes are distinct allocated entries of the region. *)
Theorem io_direct_total st buf count offset :
  index_inv (io_inode st) -> i_index_slots (io_inode st) < 2 ^ 31 ->
  0 <= count -> 0 <= f_off (io_file st) -> 0 <= i_size (io_inode st) ->
  offset + count < 2 ^ 62 -> f_off (io_file st) + count < 2 ^ 62 ->
  i_size (io_inode st) + count < 2 ^ 62 ->
  (exists ret buf' st', polystore_read_iter st buf count offset =
     Some (ret, buf', st') /\ io_inode st' = io_inode st) /\
  (i_next_avail_it_node_no (io_inode st) + (count / NODE + 1) <=
     i_index_slots (io_inode st) ->
   (exists ret st', polystore_write_iter st buf count offset = Some (ret, st') /\
      index_inv (io_inode st')) /\
   (exists ret st', polystore_append_iter st buf count offset = Some (ret, st') /\
      index_inv (io_inode st'))).
Proof.
  intros Hinv Hsl Hc Hoff Hsz H1 H2 H3. split; [by apply read_iter_total|].
  intros Hroom. split.
  - unfold polystore_write_iter, polystore_io_set_range.
    edestruct write_range_total as (ret & st' & -> & Hi & _); [done|done|..|eauto];
      rewrite s64_id by (zif; lia); [zif; lia..|].
    by replace (_ - 1 - _ + 1) with count by lia.
  - unfold polystore_append_iter, polystore_io_set_range.
    rewrite s64_id, (proj2 (Z.ltb_ge _ _)) by lia.
    edestruct write_range_total as (ret & st' & -> & Hi & _); [done|done|..|eauto];
      rewrite s64_id by lia; [lia..|].
    by replace (_ - 1 - _ + 1) with count by lia.
Qed.

End loops.

Lemma index_inv_fresh placement : index_inv (io_inode (example_io placement)).
Proof.
  split; cbn; try done; try (intros n Hn; by apply elem_of_nil in Hn).
  - apply wf_tree_empty.
  - constructor.
Qed.

Lemma io_direct_total_witness :
  exists ret st', polystore_write_iter (example_io BLK_PLACEMENT_FAST)
    [x41; x42] 2 (-1) = Some (ret, st') /\ index_inv (io_inode st').
Proof.
  apply (io_direct_total (example_io BLK_PLACEMENT_FAST) [x41; x42] 2 (-1));
    [apply index_inv_fresh|by vm_compute|cbn; lia..|by vm_compute].
Defined.

End IoDirectTotal.
