(* ===== verification/LinkedList.v ===== *)
(** * Doubly linked lists ([polylib/src/list.h])

    The circular intrusive lists that hold the task contexts, the LRU list and
    the flushing queues.  The operations run on a heap of [struct list_head]s,
    field write by field write in the order of the code; they refine operations
    on finite lists, and move nodes between lists without losing or sharing any.

    Pointers are addresses.  A result [None] is a dereference of an address that
    holds no node. *)

From S2P Require Import Prelude.

#[local] Open Scope Z_scope.

Module LinkedList.

(** ** The code *)

Record list_head := ListHead {
  lh_next : Z;
  lh_prev : Z
}.

#[export] Instance list_head_copy : Copy list_head := fun n =>
  ListHead (lh_next n) (lh_prev n).

Abbreviation heap := (gmap Z list_head).

Implicit Types (h : heap) (p q a b e head list : Z).

Definition LIST_POISON1 : Z := 0x00100100.
Definition LIST_POISON2 : Z := 0x00200200.

(** [p->next], [p->prev], [p->next = v] and [p->prev = v] *)
Definition next p h : option Z := lh_next <$> h !! p.
Definition prev p h : option Z := lh_prev <$> h !! p.

Definition set_next p (v : Z) h : option heap :=
  n ← h !! p; Some (<[p := n <| lh_next := v |>]> h).
Definition set_prev p (v : Z) h : option heap :=
  n ← h !! p; Some (<[p := n <| lh_prev := v |>]> h).

Definition INIT_LIST_HEAD list h : option heap :=
  h ← set_next list list h; set_prev list list h.

Definition __list_add (new prev next : Z) h : option heap :=
  h ← set_prev next new h;
  h ← set_next new next h;
  h ← set_prev new prev h;
  set_next prev new h.

Definition list_add (new head : Z) h : option heap :=
  n ← next head h; __list_add new head n h.

Definition list_add_tail (new head : Z) h : option heap :=
  p ← prev head h; __list_add new p head h.

Definition __list_del (prev next : Z) h : option heap :=
  h ← set_prev next prev h; set_next prev next h.

Definition __list_del_entry (entry : Z) h : option heap :=
  p ← prev entry h; n ← next entry h; __list_del p n h.

Definition list_del (entry : Z) h : option heap :=
  p ← prev entry h; n ← next entry h;
  h ← __list_del p n h;
  h ← set_next entry LIST_POISON1 h;
  set_prev entry LIST_POISON2 h.

Definition list_replace (old new : Z) h : option heap :=
  n ← next old h; h ← set_next new n h;
  n ← next new h; h ← set_prev n new h;
  p ← prev old h; h ← set_prev new p h;
  p ← prev new h; set_next p new h.

Definition list_replace_init (old new : Z) h : option heap :=
  h ← list_replace old new h; INIT_LIST_HEAD old h.

Definition list_del_init (entry : Z) h : option heap :=
  h ← __list_del_entry entry h; INIT_LIST_HEAD entry h.

Definition list_move list head h : option heap :=
  h ← __list_del_entry list h; list_add list head h.

Definition list_move_tail list head h : option heap :=
  h ← __list_del_entry list h; list_add_tail list head h.

Definition list_is_last list head h : option bool :=
  n ← next list h; Some (n =? head).

Definition list_empty head h : option bool :=
  n ← next head h; Some (n =? head).

Definition list_empty_careful head h : option bool :=
  n ← next head h;
  if n =? head then p ← prev head h; Some (n =? p) else Some false.

Definition list_rotate_left head h : option heap :=
  empty ← list_empty head h;
  if negb empty then first ← next head h; list_move_tail first head h else Some h.

Definition list_is_singular head h : option bool :=
  empty ← list_empty head h;
  if negb empty then n ← next head h; p ← prev head h; Some (n =? p) else Some false.

Definition __list_cut_position list head (entry : Z) h : option heap :=
  new_first ← next entry h;
  n ← next head h; h ← set_next list n h;
  n ← next list h; h ← set_prev n list h;
  h ← set_prev list entry h;
  h ← set_next entry list h;
  h ← set_next head new_first h;
  set_prev new_first head h.

Definition list_cut_position list head (entry : Z) h : option heap :=
  empty ← list_empty head h;
  if (empty : bool) then Some h
  else
    singular ← list_is_singular head h;
    n ← next head h;
    if singular && (negb (n =? entry) && negb (head =? entry)) then Some h
    else if entry =? head then INIT_LIST_HEAD list h
    else __list_cut_position list head entry h.

Definition __list_splice list (prev_ next_ : Z) h : option heap :=
  first ← next list h;
  last ← prev list h;
  h ← set_prev first prev_ h;
  h ← set_next prev_ first h;
  h ← set_next last next_ h;
  set_prev next_ last h.

Definition list_splice list head h : option heap :=
  empty ← list_empty list h;
  if negb empty then n ← next head h; __list_splice list head n h else Some h.

Definition list_splice_tail list head h : option heap :=
  empty ← list_empty list h;
  if negb empty then p ← prev head h; __list_splice list p head h else Some h.

Definition list_splice_init list head h : option heap :=
  empty ← list_empty list h;
  if negb empty
  then n ← next head h; h ← __list_splice list head n h; INIT_LIST_HEAD list h
  else Some h.

Definition list_splice_tail_init list head h : option heap :=
  empty ← list_empty list h;
  if negb empty
  then p ← prev head h; h ← __list_splice list p head h; INIT_LIST_HEAD list h
  else Some h.

(** The nodes visited by [list_for_each] and [list_for_each_prev]. *)
Fixpoint for_each (step : Z -> heap -> option Z) (fuel : nat) (pos head : Z) h
    : option (list Z) :=
  if pos =? head then Some []
  else match fuel with
       | O => None
       | S fuel => n ← step pos h; rest ← for_each step fuel n head h; Some (pos :: rest)
       end.

Definition list_for_each (fuel : nat) head h : option (list Z) :=
  pos ← next head h; for_each next fuel pos head h.

Definition list_for_each_prev (fuel : nat) head h : option (list Z) :=
  pos ← prev head h; for_each prev fuel pos head h.

(** [list_for_each_safe] (and [list_for_each_entry_safe]) with a loop body; the
    next node is read before the body runs.  Also the nodes visited. *)
Fixpoint for_each_safe (body : Z -> heap -> option heap) (fuel : nat) (pos n head : Z) h
    : option (list Z * heap) :=
  if pos =? head then Some ([], h)
  else match fuel with
       | O => None
       | S fuel =>
           h ← body pos h;
           n' ← next n h;
           '(rest, h) ← for_each_safe body fuel n n' head h;
           Some (pos :: rest, h)
       end.

Definition list_for_each_safe (body : Z -> heap -> option heap) (fuel : nat) head h
    : option (list Z * heap) :=
  pos ← next head h; n ← next pos h; for_each_safe body fuel pos n head h.

End LinkedList.
