(* ===== verification/LinkedListSpec.v ===== *)
(** * Circular lists on the heap

    The links of a list with its head, as segments between two nodes, and what the
    writes of each operation of [list.h] do to them. *)

From S2P Require Import Prelude LinkedList.
Import LinkedList.

#[local] Open Scope Z_scope.

Module LinkedListSpec.

Implicit Types (h : heap) (p q a b e x v hd : Z) (xs ys l r : list Z).

(** ** Writing fields *)

Abbreviation mapped h a := (is_Some (h !! a)).

Definition upd_next p v h : heap := alter (fun n => n <| lh_next := v |>) p h.
Definition upd_prev p v h : heap := alter (fun n => n <| lh_prev := v |>) p h.

Lemma set_next_upd p v h : mapped h p -> set_next p v h = Some (upd_next p v h).
Proof.
  intros [n E]. unfold set_next, upd_next. rewrite E. cbn. f_equal.
  symmetry. apply map_eq. intros a. destruct (decide (a = p)) as [->|].
  - by rewrite lookup_alter_eq, lookup_insert_eq, E.
  - by rewrite lookup_alter_ne, lookup_insert_ne.
Qed.

Lemma set_prev_upd p v h : mapped h p -> set_prev p v h = Some (upd_prev p v h).
Proof.
  intros [n E]. unfold set_prev, upd_prev. rewrite E. cbn. f_equal.
  symmetry. apply map_eq. intros a. destruct (decide (a = p)) as [->|].
  - by rewrite lookup_alter_eq, lookup_insert_eq, E.
  - by rewrite lookup_alter_ne, lookup_insert_ne.
Qed.

Lemma upd_next_other p v h a : a <> p -> upd_next p v h !! a = h !! a.
Proof. intros. by apply lookup_alter_ne. Qed.
Lemma upd_prev_other p v h a : a <> p -> upd_prev p v h !! a = h !! a.
Proof. intros. by apply lookup_alter_ne. Qed.

Lemma mapped_upd_next p v h a : mapped (upd_next p v h) a <-> mapped h a.
Proof. apply lookup_alter_is_Some. Qed.
Lemma mapped_upd_prev p v h a : mapped (upd_prev p v h) a <-> mapped h a.
Proof. apply lookup_alter_is_Some. Qed.

Lemma next_upd_next p v h a :
  mapped h p -> next a (upd_next p v h) = if decide (a = p) then Some v else next a h.
Proof.
  intros [n E]. unfold next, upd_next. case_decide as H.
  - subst. by rewrite lookup_alter_eq, E.
  - by rewrite lookup_alter_ne.
Qed.
Lemma prev_upd_prev p v h a :
  mapped h p -> prev a (upd_prev p v h) = if decide (a = p) then Some v else prev a h.
Proof.
  intros [n E]. unfold prev, upd_prev. case_decide as H.
  - subst. by rewrite lookup_alter_eq, E.
  - by rewrite lookup_alter_ne.
Qed.
Lemma prev_upd_next p v h a : prev a (upd_next p v h) = prev a h.
Proof.
  unfold prev, upd_next. destruct (decide (a = p)) as [->|].
  - rewrite lookup_alter_eq. by destruct (h !! p).
  - by rewrite lookup_alter_ne.
Qed.
Lemma next_upd_prev p v h a : next a (upd_prev p v h) = next a h.
Proof.
  unfold next, upd_prev. destruct (decide (a = p)) as [->|].
  - rewrite lookup_alter_eq. by destruct (h !! p).
  - by rewrite lookup_alter_ne.
Qed.

Lemma next_mapped a h b : next a h = Some b -> mapped h a.
Proof. unfold next. destruct (h !! a); [by eexists|done]. Qed.
Lemma prev_mapped a h b : prev a h = Some b -> mapped h a.
Proof. unfold prev. destruct (h !! a); [by eexists|done]. Qed.

#[local] Hint Rewrite mapped_upd_next mapped_upd_prev prev_upd_next next_upd_prev : upd.
#[local] Hint Rewrite next_upd_next prev_upd_prev
  using (autorewrite with upd; eauto using next_mapped, prev_mapped) : upd.
#[local] Hint Rewrite upd_next_other upd_prev_other using congruence : frame.
#[local] Hint Rewrite set_next_upd set_prev_upd
  using (autorewrite with upd; eauto using next_mapped, prev_mapped) : write.

(** Evaluates a sequence of reads and writes. *)
Ltac run := repeat (first
  [ progress autorewrite with write | progress autorewrite with upd
  | progress cbn [mbind option_bind] | rewrite decide_True by done
  | rewrite decide_False by done
  | match goal with H : next ?a ?h = Some _ |- context [next ?a ?h] => rewrite H end
  | match goal with H : prev ?a ?h = Some _ |- context [prev ?a ?h] => rewrite H end ]).

(** ** Circular lists *)

Definition link h a b : Prop := next a h = Some b /\ prev b h = Some a.

(** From [p] through [xs] to [q]. *)
Fixpoint links h p xs q : Prop :=
  match xs with
  | [] => link h p q
  | x :: xs => link h p x /\ links h x xs q
  end.

Fixpoint lastp p xs : Z := match xs with [] => p | x :: xs => lastp x xs end.

Lemma links_app h p l x r q :
  links h p (l ++ x :: r) q <-> links h p l x /\ links h x r q.
Proof.
  revert p. induction l as [|y l IH]; intros p; cbn; [done|]. rewrite IH. tauto.
Qed.

Lemma links_next h p xs q : links h p xs q -> next p h = Some (List.hd q xs).
Proof. destruct xs; cbn; [by intros []|by intros [[] _]]. Qed.

Lemma links_prev h p xs q : links h p xs q -> prev q h = Some (lastp p xs).
Proof.
  revert p. induction xs as [|x xs IH]; intros p; cbn; [by intros []|intros [_ H]; by apply IH].
Qed.

Lemma lastp_in p xs : lastp p xs ∈ p :: xs.
Proof.
  revert p. induction xs as [|x xs IH]; intros p; cbn; [by left|right; apply IH].
Qed.

Lemma hd_in q xs : List.hd q xs ∈ xs ++ [q].
Proof. destruct xs; by left. Qed.

Lemma links_frame h h' p xs q :
  (forall a, a ∈ p :: xs -> next a h' = next a h) ->
  (forall a, a ∈ xs ++ [q] -> prev a h' = prev a h) ->
  links h p xs q -> links h' p xs q.
Proof.
  revert p. induction xs as [|x xs IH]; intros p Hn Hp; cbn.
  - intros []. split; [rewrite Hn by (by left)|rewrite Hp by (by left)]; done.
  - intros [[H1 H2] H]. split; [split; [rewrite Hn by (by left)|rewrite Hp by (by left)]; done|].
    apply IH; [..|done]; intros a Ha; [apply Hn|apply Hp]; by right.
Qed.

(** The last link is replaced. *)
Lemma links_retarget h h' p xs q q' :
  NoDup (p :: xs) ->
  (forall a, a ∈ p :: xs -> a <> lastp p xs -> next a h' = next a h) ->
  (forall a, a ∈ xs -> prev a h' = prev a h) ->
  link h' (lastp p xs) q' -> links h p xs q -> links h' p xs q'.
Proof.
  revert p. induction xs as [|x xs IH]; intros p; cbn; [done|].
  intros [Hp Hnd]%NoDup_cons Hn Hv HL [[H1 H2] H]. split.
  - split; [|by rewrite Hv by (by left)]. rewrite Hn; [done|by left|].
    intros ->. apply Hp. apply lastp_in.
  - apply IH; try done; intros a Ha; [|apply Hv; by right].
    apply Hn. by right.
Qed.

Definition ring h hd xs : Prop := links h hd xs hd /\ NoDup (hd :: xs).

Lemma ring_mapped h hd xs a : ring h hd xs -> a ∈ hd :: xs -> mapped h a.
Proof.
  intros [H _]. revert H. generalize hd at 2 as q. revert hd.
  induction xs as [|x xs IH]; intros p q; cbn.
  - intros [H _] ->%list_elem_of_singleton. by eapply next_mapped.
  - intros [[H _] HL] [->|Hin]%elem_of_cons; [by eapply next_mapped|by eapply IH].
Qed.

Lemma ring_frame h h' hd xs :
  (forall a, a ∈ hd :: xs -> h' !! a = h !! a) -> ring h hd xs -> ring h' hd xs.
Proof.
  intros Hf [HL Hnd]. split; [|done]. revert HL.
  apply links_frame; intros a Ha; unfold next, prev; rewrite Hf; try done. set_solver.
Qed.

(** *** Linking a node between two neighbours *)

Definition added n p q h : heap := upd_next p n (upd_prev n p (upd_next n q (upd_prev q n h))).

Lemma upd_comm a v b w h : upd_prev a v (upd_next b w h) = upd_next b w (upd_prev a v h).
Proof.
  unfold upd_prev, upd_next. apply map_eq. intros c.
  rewrite !lookup_alter. repeat case_decide; subst; try done. by destruct (h !! c).
Qed.

Section added.
Context {n p q : Z} {h : heap} (Hn : mapped h n) (Hp : mapped h p) (Hq : mapped h q).

Lemma __list_add_run : __list_add n p q h = Some (added n p q h).
Proof using Hn Hp Hq. unfold __list_add. run. done. Qed.

Lemma next_added a :
  next a (added n p q h) =
    if decide (a = p) then Some n else if decide (a = n) then Some q else next a h.
Proof using Hn Hp. unfold added. run. done. Qed.

Lemma prev_added a :
  prev a (added n p q h) =
    if decide (a = n) then Some p else if decide (a = q) then Some n else prev a h.
Proof using Hn Hq. unfold added. run. done. Qed.

Lemma added_other a : a <> n -> a <> p -> a <> q -> added n p q h !! a = h !! a.
Proof using. intros. unfold added. by autorewrite with frame. Qed.

Lemma mapped_added a : mapped (added n p q h) a <-> mapped h a.
Proof using. unfold added. by autorewrite with upd. Qed.

Lemma list_replace_run e :
  next e h = Some q -> prev e h = Some p -> e <> n -> q <> e ->
  list_replace e n h = Some (added n p q h).
Proof using Hn Hp Hq.
  intros E1 E2 N1 N2. unfold list_replace. run. unfold added. by rewrite upd_comm.
Qed.

End added.

(** *** Closing the gap of a removed node *)

Definition bridged p q h : heap := upd_next p q (upd_prev q p h).

Section bridged.
Context {p q : Z} {h : heap} (Hp : mapped h p) (Hq : mapped h q).

Lemma __list_del_run : __list_del p q h = Some (bridged p q h).
Proof using Hp Hq. unfold __list_del. run. done. Qed.

Lemma next_bridged a : next a (bridged p q h) = if decide (a = p) then Some q else next a h.
Proof using Hp. unfold bridged. run. done. Qed.

Lemma prev_bridged a : prev a (bridged p q h) = if decide (a = q) then Some p else prev a h.
Proof using Hq. unfold bridged. run. done. Qed.

Lemma bridged_other a : a <> p -> a <> q -> bridged p q h !! a = h !! a.
Proof using. intros. unfold bridged. by autorewrite with frame. Qed.

Lemma mapped_bridged a : mapped (bridged p q h) a <-> mapped h a.
Proof using. unfold bridged. by autorewrite with upd. Qed.

End bridged.

(** *** Adding and removing *)

(** Around a position of a list; the neighbours are in the list. *)
Lemma ring_ends h hd xs :
  ring h hd xs -> next hd h = Some (List.hd hd xs) /\ prev hd h = Some (lastp hd xs) /\
    List.hd hd xs ∈ hd :: xs /\ lastp hd xs ∈ hd :: xs.
Proof.
  intros [HL _]. split_and!.
  - by apply links_next.
  - by apply links_prev.
  - pose proof (hd_in hd xs). set_solver.
  - apply lastp_in.
Qed.

Ltac nodup := repeat match goal with
  | H : NoDup (_ :: _) |- _ => apply NoDup_cons in H as [? ?]
  | H : NoDup (_ ++ _) |- _ => apply NoDup_app in H as (? & ? & ?)
  end.

(** Membership in concrete lists, as equations and memberships of their parts. *)
Ltac mem := repeat match goal with
  | H : _ ∈ _ :: _ |- _ => apply elem_of_cons in H as [H|H]
  | H : _ ∈ _ ++ _ |- _ => apply elem_of_app in H as [H|H]
  | H : _ ∈ [] |- _ => by apply elem_of_nil in H
  | H : _ ∉ _ :: _ |- _ => apply not_elem_of_cons in H as [? H]
  | H : _ ∉ _ ++ _ |- _ => apply not_elem_of_app in H as [? H]
  | H : _ ∉ [] |- _ => clear H
  end.

Ltac cases := repeat case_decide; try done; mem; subst; try done; try congruence;
  try (exfalso; by eauto);
  try (exfalso; match goal with Hd : forall x, x ∈ ?l -> _, Ha : ?x ∈ ?l |- _ =>
         pose proof (Hd x Ha); mem; subst; by eauto end).

Lemma ring_add h hd xs n :
  ring h hd xs -> n ∉ hd :: xs -> mapped h n ->
  ring (added n hd (List.hd hd xs) h) hd (n :: xs).
Proof.
  intros R Hn Hm. pose proof (ring_ends _ _ _ R) as (_ & _ & Hf & _).
  pose proof (ring_mapped _ _ _ _ R Hf) as Mf.
  pose proof (ring_mapped _ _ _ hd R ltac:(by left)) as Mh.
  destruct R as [HL Hnd]. split; [|nodup; set_unfold; repeat constructor; set_solver].
  destruct xs as [|x xs]; cbn in *.
  - split; split; rewrite ?next_added, ?prev_added by done; cases.
  - nodup. destruct HL as [_ HL]. split_and!; [split..|].
    1-4: rewrite ?next_added, ?prev_added by done; cases.
    revert HL. apply links_frame; intros a Ha; rewrite ?next_added, ?prev_added by done; cases.
Qed.

Lemma ring_add_tail h hd xs n :
  ring h hd xs -> n ∉ hd :: xs -> mapped h n ->
  ring (added n (lastp hd xs) hd h) hd (xs ++ [n]).
Proof.
  intros R Hn Hm. pose proof (ring_ends _ _ _ R) as (_ & _ & _ & Hl).
  pose proof (ring_mapped _ _ _ _ R Hl) as Ml.
  pose proof (ring_mapped _ _ _ hd R ltac:(by left)) as Mh.
  destruct R as [HL Hnd]. split.
  - apply links_app. split; [|split; rewrite ?next_added, ?prev_added by done; cases].
    revert HL. apply links_retarget; [done|..|split];
      intros; rewrite ?next_added, ?prev_added by done; nodup; cases.
  - rewrite app_comm_cons. apply NoDup_app. split_and!; [done| |apply NoDup_singleton].
    set_solver.
Qed.

(** The end of a list is unchanged by writes to its first node's [prev]. *)
Lemma links_behind h h' p p' r q :
  link h' p' (List.hd q r) -> NoDup (r ++ [q]) ->
  (forall a, a ∈ r -> next a h' = next a h) ->
  (forall a, a ∈ r ++ [q] -> a <> List.hd q r -> prev a h' = prev a h) ->
  links h p r q -> links h' p' r q.
Proof.
  destruct r as [|b r]; cbn; [done|]. intros HL Hnd Hn Hp [_ H]. split; [done|].
  apply NoDup_cons in Hnd as [Hb Hnd]. revert H. apply links_frame; [done|].
  intros a Ha. apply Hp; [by right|]. by intros ->.
Qed.

Lemma ring_split h hd l e r :
  ring h hd (l ++ e :: r) ->
  next e h = Some (List.hd hd r) /\ prev e h = Some (lastp hd l) /\
  links h hd l e /\ links h e r hd /\
  mapped h (List.hd hd r) /\ mapped h (lastp hd l) /\ mapped h e /\
  NoDup (hd :: l) /\ NoDup (r ++ [hd]) /\ e ∉ hd :: l ++ r /\ (forall a, a ∈ l -> a ∉ r) /\
  NoDup (hd :: l ++ r).
Proof.
  intros R. pose proof R as [[H1 H2]%links_app Hnd].
  pose proof (hd_in hd r). pose proof (lastp_in hd l).
  assert (forall a, a ∈ hd :: l ++ e :: r -> mapped h a) as M
    by (intros; by eapply ring_mapped).
  split_and!; eauto using links_next, links_prev; try (apply M; set_solver).
  - nodup. by apply NoDup_cons; set_solver.
  - nodup. apply NoDup_app. split_and!; [done| |apply NoDup_singleton]. set_solver.
  - nodup. set_solver.
  - nodup. set_solver.
  - rewrite <-Permutation_middle in Hnd. apply NoDup_cons in Hnd as [? [? ?]%NoDup_cons].
    apply NoDup_cons. split; [set_solver|done].
Qed.

Lemma ring_remove h hd l e r :
  ring h hd (l ++ e :: r) -> ring (bridged (lastp hd l) (List.hd hd r) h) hd (l ++ r).
Proof.
  intros (En & Ep & H1 & H2 & Mq & Mp & Me & N1 & N2 & He & Hd & Hnd)%ring_split.
  split; [|done]. pose proof (hd_in hd r) as Iq. pose proof (lastp_in hd l) as Ip.
  assert (hd ∉ l ++ r) as Hh by (by nodup).
  destruct r as [|b r]; cbn in *.
  - rewrite app_nil_r. revert H1. apply links_retarget; [done|..|split];
      intros; rewrite ?next_bridged, ?prev_bridged by done; cases.
  - apply links_app. split.
    + revert H1. apply links_retarget; [done|..|split];
        intros; rewrite ?next_bridged, ?prev_bridged by done; cases.
    + destruct H2 as [_ H2]. nodup. revert H2. apply links_frame; intros a Ha;
        rewrite ?next_bridged, ?prev_bridged by done; cases.
Qed.

Lemma ring_replace h hd l e r n :
  ring h hd (l ++ e :: r) -> n ∉ hd :: l ++ e :: r -> mapped h n ->
  ring (added n (lastp hd l) (List.hd hd r) h) hd (l ++ n :: r).
Proof.
  intros (En & Ep & H1 & H2 & Mq & Mp & Me & N1 & N2 & He & Hd & Hnd)%ring_split Hn Hm.
  pose proof (hd_in hd r) as Iq. pose proof (lastp_in hd l) as Ip.
  assert (hd ∉ l ++ r) as Hh by (by nodup). split.
  - apply links_app. split.
    + revert H1. apply links_retarget; [done|..|split];
        intros; rewrite ?next_added, ?prev_added by done; cases.
    + revert H2. apply links_behind; [split|done|..];
        intros; rewrite ?next_added, ?prev_added by done; cases.
  - rewrite <-Permutation_middle. apply NoDup_cons in Hnd as [? ?].
    apply NoDup_cons. split; [set_solver|]. apply NoDup_cons. split; [set_solver|done].
Qed.

Definition initialised a h : heap := upd_prev a a (upd_next a a h).

Lemma INIT_LIST_HEAD_run a h : mapped h a -> INIT_LIST_HEAD a h = Some (initialised a h).
Proof. intros Ha. unfold INIT_LIST_HEAD. run. done. Qed.

Lemma ring_init a h : mapped h a -> ring (initialised a h) a [].
Proof.
  intros Ha. split; [|apply NoDup_singleton]. unfold initialised.
  split; run; cases.
Qed.

(** *** Joining two lists *)

Definition spliced f z p q h : heap :=
  upd_prev q z (upd_next z q (upd_next p f (upd_prev f p h))).

Section spliced.
Context {f z p q : Z} {h : heap}.
Context (Hf : mapped h f) (Hz : mapped h z) (Hp : mapped h p) (Hq : mapped h q).

Lemma __list_splice_run li :
  next li h = Some f -> prev li h = Some z ->
  __list_splice li p q h = Some (spliced f z p q h).
Proof using Hf Hz Hp Hq. intros. unfold __list_splice. run. done. Qed.

Lemma next_spliced a :
  next a (spliced f z p q h) =
    if decide (a = z) then Some q else if decide (a = p) then Some f else next a h.
Proof using Hz Hp. unfold spliced. run. done. Qed.

Lemma prev_spliced a :
  prev a (spliced f z p q h) =
    if decide (a = q) then Some z else if decide (a = f) then Some p else prev a h.
Proof using Hf Hq. unfold spliced. run. done. Qed.

Lemma spliced_other a : a <> f -> a <> z -> a <> p -> a <> q -> spliced f z p q h !! a = h !! a.
Proof using. intros. unfold spliced. by autorewrite with frame. Qed.

Lemma mapped_spliced a : mapped (spliced f z p q h) a <-> mapped h a.
Proof using. unfold spliced. by autorewrite with upd. Qed.

End spliced.

Lemma NoDup_joined hd li xs ys :
  NoDup (hd :: xs) -> NoDup (li :: ys) -> (forall a, a ∈ li :: ys -> a ∉ hd :: xs) ->
  NoDup (hd :: ys ++ xs).
Proof.
  intros N1 N2 Hd. nodup. apply NoDup_cons. split.
  - intros [H'|H']%elem_of_app; [|done]. apply (Hd hd); [by right|by left].
  - apply NoDup_app. split_and!; [done| |done]. intros a Ha Hx.
    apply (Hd a); by right.
Qed.

Section join.
Context {h : heap} {hd li y : Z} {xs ys : list Z}.
Context (R : ring h hd xs) (R' : ring h li (y :: ys))
  (Hd : forall a, a ∈ li :: y :: ys -> a ∉ hd :: xs).

Lemma ring_splice : ring (spliced y (lastp y ys) hd (List.hd hd xs) h) hd ((y :: ys) ++ xs).
Proof using R R' Hd.
  destruct (ring_ends _ _ _ R) as (_ & _ & If & _).
  pose proof (ring_mapped _ _ _ _ R If) as Mq.
  pose proof (ring_mapped _ _ _ hd R ltac:(by left)) as Mp.
  pose proof (lastp_in y ys) as Iz. pose proof (hd_in hd xs) as Iq.
  pose proof (ring_mapped _ _ _ (lastp y ys) R' ltac:(by right)) as Mz.
  pose proof (ring_mapped _ _ _ y R' ltac:(right; by left)) as My.
  destruct R as [HL N1], R' as [[_ HL'] N2].
  split; [|by eapply NoDup_joined]. cbn [app links].
  pose proof (Hd y ltac:(right; by left)). pose proof (Hd (lastp y ys) ltac:(by right)).
  split; [split; rewrite ?next_spliced, ?prev_spliced by done; cases|].
  assert (forall a, a ∈ ys -> a ∉ hd :: xs) as Hd' by (intros; apply Hd; right; by right).
  assert (NoDup (y :: ys)) as N3 by (by nodup; apply NoDup_cons).
  destruct xs as [|x xs']; cbn [List.hd] in *.
  - rewrite app_nil_r. revert HL'. apply links_retarget; [done|..|split];
      intros; rewrite ?next_spliced, ?prev_spliced by done; nodup; cases.
  - apply links_app. split.
    + revert HL'. apply links_retarget; [done|..|split];
        intros; rewrite ?next_spliced, ?prev_spliced by done; nodup; cases.
    + destruct HL as [_ HL]. revert HL. apply links_frame; intros a Ha;
        rewrite ?next_spliced, ?prev_spliced by done; nodup; cases.
Qed.

Lemma ring_splice_tail : ring (spliced y (lastp y ys) (lastp hd xs) hd h) hd (xs ++ y :: ys).
Proof using R R' Hd.
  destruct (ring_ends _ _ _ R) as (_ & _ & _ & Il).
  pose proof (ring_mapped _ _ _ _ R Il) as Mq.
  pose proof (ring_mapped _ _ _ hd R ltac:(by left)) as Mp.
  pose proof (lastp_in y ys) as Iz.
  pose proof (ring_mapped _ _ _ (lastp y ys) R' ltac:(by right)) as Mz.
  pose proof (ring_mapped _ _ _ y R' ltac:(right; by left)) as My.
  destruct R as [HL N1], R' as [[_ HL'] N2].
  split; [|rewrite (Permutation_app_comm xs); by eapply NoDup_joined].
  pose proof (Hd y ltac:(right; by left)). pose proof (Hd (lastp y ys) ltac:(by right)).
  assert (forall a, a ∈ ys -> a ∉ hd :: xs) as Hd' by (intros; apply Hd; right; by right).
  assert (NoDup (y :: ys)) as N3 by (by nodup; apply NoDup_cons).
  apply links_app. split.
  - revert HL. apply links_retarget; [done|..|split];
      intros; rewrite ?next_spliced, ?prev_spliced by done; nodup; cases.
  - revert HL'. apply links_retarget; [done|..|split];
      intros; rewrite ?next_spliced, ?prev_spliced by done; nodup; cases.
Qed.

End join.

(** *** Cutting a list in two *)

Definition cut li hd e f n h : heap :=
  upd_prev n hd (upd_next hd n (upd_next e li (upd_prev li e (upd_prev f li (upd_next li f h))))).

Section cut.
Context {li hd e f n : Z} {h : heap}.
Context (Ml : mapped h li) (Mh : mapped h hd) (Me : mapped h e)
  (Mf : mapped h f) (Mn : mapped h n).

Lemma __list_cut_position_run :
  next hd h = Some f -> next e h = Some n -> hd <> li ->
  __list_cut_position li hd e h = Some (cut li hd e f n h).
Proof using Ml Mh Me Mf Mn. intros. unfold __list_cut_position. run. done. Qed.

Lemma next_cut a :
  next a (cut li hd e f n h) =
    if decide (a = hd) then Some n else if decide (a = e) then Some li
    else if decide (a = li) then Some f else next a h.
Proof using Ml Mh Me. unfold cut. run. done. Qed.

Lemma prev_cut a :
  prev a (cut li hd e f n h) =
    if decide (a = n) then Some hd else if decide (a = li) then Some e
    else if decide (a = f) then Some li else prev a h.
Proof using Ml Mf Mn. unfold cut. run. done. Qed.

Lemma cut_other a :
  a <> li -> a <> hd -> a <> e -> a <> f -> a <> n -> cut li hd e f n h !! a = h !! a.
Proof using. intros. unfold cut. by autorewrite with frame. Qed.

Lemma mapped_cut a : mapped (cut li hd e f n h) a <-> mapped h a.
Proof using. unfold cut. by autorewrite with upd. Qed.

End cut.

Lemma ring_cut h li hd l e r :
  ring h hd (l ++ e :: r) -> li ∉ hd :: l ++ e :: r -> mapped h li ->
  ring (cut li hd e (List.hd e l) (List.hd hd r) h) li (l ++ [e]) /\
  ring (cut li hd e (List.hd e l) (List.hd hd r) h) hd r.
Proof.
  intros R Hl Ml.
  pose proof (ring_mapped _ _ _ hd R ltac:(by left)) as Mh.
  assert (mapped h (List.hd e l)) as Mf.
  { apply (ring_mapped _ _ _ _ R). right. destruct l; [by left|by left]. }
  destruct (ring_split _ _ _ _ _ R)
    as (En & Ep & H1 & H2 & Mq & Mp & Me & N1 & N2 & He & Hd & Hnd).
  pose proof (hd_in hd r) as Iq. pose proof (hd_in e l) as If.
  assert (hd ∉ l ++ r) as Hh by (by nodup).
  assert (List.hd e l <> List.hd hd r) by (intros E; rewrite E in If; clear E; cases).
  assert (NoDup (l ++ [e])) as N3.
  { apply NoDup_app. split_and!; [by nodup| |apply NoDup_singleton].
    intros a Ha ->%list_elem_of_singleton. cases. }
  split; split.
  - apply links_app. split; [|split; rewrite ?next_cut, ?prev_cut by done; cases].
    revert H1. apply links_behind; [split|done|..];
      intros; rewrite ?next_cut, ?prev_cut by done; cases.
  - apply NoDup_cons. split; [|done]. intros ?. cases.
  - revert H2. apply links_behind; [split|done|..];
      intros; rewrite ?next_cut, ?prev_cut by done; cases.
  - apply NoDup_cons. split; [by intros ?; cases|by nodup].
Qed.

End LinkedListSpec.
