(* ===== verification/LinkedListRefine.v ===== *)
(** * Linked lists refine finite lists

    A heap of nodes represents a collection of lists, each with its head, and of
    loose nodes.  The operations of [list.h] are shown to do on the heap what the
    corresponding list operations do on the collection: no node is lost, none ends
    up in two lists, and lists that are not named are not touched. *)

From S2P Require Import Prelude LinkedList LinkedListSpec.
Import LinkedList LinkedListSpec.

#[local] Open Scope Z_scope.

Module LinkedListRefine.

Implicit Types (h : heap) (p q a b e x v hd : Z) (xs ys l r : list Z).

(** ** Collections of lists *)

(** The lists with their heads, and the nodes that are in no list; neither
    component has an order. *)
Record lists := Lists {
  rings : list (Z * list Z);
  loose : list Z
}.

Implicit Types (R A : list (Z * list Z)) (F B : list Z) (s : lists).

Definition nodes R : list Z := R ≫= (fun c => fst c :: snd c).

Definition cells s : list Z := nodes (rings s) ++ loose s.

Record represents h s : Prop := {
  rep_rings : Forall (fun c => ring h (fst c) (snd c)) (rings s);
  rep_loose : Forall (fun a => mapped h a) (loose s);
  rep_nodup : NoDup (cells s)
}.

Lemma nodes_app A R : nodes (A ++ R) = nodes A ++ nodes R.
Proof. apply bind_app. Qed.

Lemma nodes_cons hd xs R : nodes ((hd, xs) :: R) = (hd :: xs) ++ nodes R.
Proof. done. Qed.

Lemma elem_of_nodes a R : a ∈ nodes R <-> exists c, c ∈ R /\ a ∈ fst c :: snd c.
Proof. unfold nodes. rewrite list_elem_of_bind. naive_solver. Qed.

#[export] Instance nodes_perm : Proper ((≡ₚ) ==> (≡ₚ)) nodes.
Proof. intros R R' H. unfold nodes. by rewrite H. Qed.

Lemma rep_mapped h s a : represents h s -> a ∈ cells s -> mapped h a.
Proof.
  intros [HR HF _]. unfold cells. rewrite elem_of_app, elem_of_nodes.
  rewrite Forall_forall in HR. rewrite Forall_forall in HF. intros [(c & Hc & Ha)|Ha]; [|by apply HF].
  by eapply ring_mapped; [apply HR|].
Qed.

Lemma rep_perm h R R' F F' :
  R ≡ₚ R' -> F ≡ₚ F' -> represents h (Lists R F) -> represents h (Lists R' F').
Proof.
  intros HR HF [H1 H2 H3]. unfold cells in *. cbn in *. split; unfold cells; cbn;
    by rewrite <-?HR, <-?HF.
Qed.

(** Some lists and loose nodes are rebuilt from their own nodes; the rest of the
    collection is untouched. *)
Lemma rep_change A A' B B' h h' R F :
  represents h (Lists (A ++ R) (B ++ F)) ->
  (forall a, mapped h a -> mapped h' a) ->
  (forall a, a ∉ nodes A ++ B -> h' !! a = h !! a) ->
  nodes A' ++ B' ≡ₚ nodes A ++ B ->
  Forall (fun c => ring h' (fst c) (snd c)) A' ->
  represents h' (Lists (A' ++ R) (B' ++ F)).
Proof.
  intros Hr Hm Hf Hp HA. pose proof Hr as [HR HF Hnd].
  assert (cells (Lists (A' ++ R) (B' ++ F)) ≡ₚ cells (Lists (A ++ R) (B ++ F))) as Hc.
  { unfold cells. cbn. rewrite !nodes_app.
    trans ((nodes A' ++ B') ++ nodes R ++ F); [solve_Permutation|].
    rewrite Hp. solve_Permutation. }
  split; cbn in *.
  - apply Forall_app. split; [done|]. apply Forall_app in HR as [_ HR].
    rewrite Forall_forall in HR |- *. intros c Hin. eapply ring_frame; [|by apply HR].
    intros a Ha. apply Hf. intros Hn. unfold cells in Hnd. cbn in Hnd.
    rewrite nodes_app, <-app_assoc in Hnd.
    assert (a ∈ nodes R) as HaR by (apply elem_of_nodes; eauto).
    apply NoDup_app in Hnd as (_ & D1 & (_ & D2 & _)%NoDup_app).
    apply elem_of_app in Hn as [Hn|Hn].
    + apply (D1 a Hn). apply elem_of_app. by left.
    + apply (D2 a HaR). apply elem_of_app. by left.
  - rewrite Forall_forall. intros a Ha. apply Hm. eapply rep_mapped; [done|].
    rewrite <-Hc. unfold cells. cbn. apply elem_of_app. by right.
  - by rewrite Hc.
Qed.

(** What a represented collection says of its first lists and loose nodes. *)
Lemma rep_ring h hd xs R F : represents h (Lists ((hd, xs) :: R) F) -> ring h hd xs.
Proof. intros [H _ _]. by apply Forall_cons in H as [H _]. Qed.

Lemma rep_free h R n F :
  represents h (Lists R (n :: F)) -> mapped h n /\ n ∉ nodes R.
Proof.
  intros [_ H Hnd]. split; [by apply Forall_cons in H as [H _]|]. intros Hn.
  unfold cells in Hnd. cbn in Hnd. apply NoDup_app in Hnd as (_ & D & _).
  apply (D n Hn). by left.
Qed.

Lemma rep_fresh h hd xs R n F :
  represents h (Lists ((hd, xs) :: R) (n :: F)) -> mapped h n /\ n ∉ hd :: xs.
Proof.
  intros [? Hn]%rep_free. split; [done|]. intros ?. apply Hn. rewrite nodes_cons.
  apply elem_of_app. by left.
Qed.

Lemma rep_disjoint h hd xs c R F a :
  represents h (Lists ((hd, xs) :: c :: R) F) -> a ∈ fst c :: snd c -> a ∉ hd :: xs.
Proof.
  intros [_ _ Hnd] Ha Ha'. unfold cells in Hnd. cbn [rings] in Hnd.
  rewrite nodes_cons, <-app_assoc in Hnd. apply NoDup_app in Hnd as (_ & D & _).
  apply (D a Ha'). destruct c. rewrite nodes_cons, !elem_of_app. auto.
Qed.

Lemma rep_swap h c c' R F :
  represents h (Lists (c :: c' :: R) F) -> represents h (Lists (c' :: c :: R) F).
Proof. apply rep_perm; [constructor|done]. Qed.

Lemma ring_empty h hd xs : ring h hd xs -> list_empty hd h = Some (bool_decide (xs = [])).
Proof.
  intros R. destruct (ring_ends _ _ _ R) as (E & _). unfold list_empty. rewrite E. cbn.
  f_equal. destruct xs as [|x xs]; cbn; [by rewrite Z.eqb_refl|].
  apply Z.eqb_neq. intros ->. destruct R as [_ [H _]%NoDup_cons]. apply H. by left.
Qed.

(** *** Simulation of the single steps *)

Lemma sim_init h a R F :
  represents h (Lists R (a :: F)) ->
  exists h', INIT_LIST_HEAD a h = Some h' /\ represents h' (Lists ((a, []) :: R) F).
Proof.
  intros Hr. destruct (rep_free _ _ _ _ Hr) as [Ha _].
  exists (initialised a h). split; [by apply INIT_LIST_HEAD_run|].
  apply (rep_change [] [(a, [])] [a] [] h); [done|..].
  - intros b. unfold initialised. by rewrite mapped_upd_prev, mapped_upd_next.
  - cbn. intros b Hb. unfold initialised. rewrite upd_prev_other, upd_next_other; set_solver.
  - done.
  - apply Forall_singleton. by apply ring_init.
Qed.

(** Linking a loose node between two nodes of a list. *)
Lemma sim_added h hd xs xs' R F n p q :
  represents h (Lists ((hd, xs) :: R) (n :: F)) -> p ∈ hd :: xs -> q ∈ hd :: xs ->
  ring (added n p q h) hd xs' -> n :: xs ≡ₚ xs' ->
  represents (added n p q h) (Lists ((hd, xs') :: R) F).
Proof.
  intros Hr Hp Hq Hring Hxs.
  apply (rep_change [(hd, xs)] [(hd, xs')] [n] [] h); [done|..].
  - intros b. by rewrite mapped_added.
  - rewrite nodes_cons. intros b Hb. apply added_other; set_solver.
  - rewrite !nodes_cons, <-Hxs. cbn. rewrite !app_nil_r. solve_Permutation.
  - by apply Forall_singleton.
Qed.

Lemma sim_add h n hd xs R F :
  represents h (Lists ((hd, xs) :: R) (n :: F)) ->
  exists h', list_add n hd h = Some h' /\ represents h' (Lists ((hd, n :: xs) :: R) F).
Proof.
  intros Hr. destruct (rep_fresh _ _ _ _ _ _ Hr) as [Hm Hn].
  pose proof (rep_ring _ _ _ _ _ Hr) as Hring.
  destruct (ring_ends _ _ _ Hring) as (En & _ & Hf & _).
  unfold list_add. rewrite En. cbn.
  rewrite __list_add_run by eauto using ring_mapped, list_elem_of_here.
  eexists. split; [done|]. eapply sim_added; [done|by left|done|by apply ring_add|done].
Qed.

Lemma sim_add_tail h n hd xs R F :
  represents h (Lists ((hd, xs) :: R) (n :: F)) ->
  exists h', list_add_tail n hd h = Some h' /\ represents h' (Lists ((hd, xs ++ [n]) :: R) F).
Proof.
  intros Hr. destruct (rep_fresh _ _ _ _ _ _ Hr) as [Hm Hn].
  pose proof (rep_ring _ _ _ _ _ Hr) as Hring.
  destruct (ring_ends _ _ _ Hring) as (_ & Ep & _ & Hl).
  unfold list_add_tail. rewrite Ep. cbn.
  rewrite __list_add_run by eauto using ring_mapped, list_elem_of_here.
  eexists. split; [done|].
  eapply sim_added; [done|done|by left|by apply ring_add_tail|apply Permutation_cons_append].
Qed.

(** The neighbours of a node. *)
Lemma neighbours hd l e r :
  lastp hd l ∈ hd :: l ++ e :: r /\ List.hd hd r ∈ hd :: l ++ e :: r.
Proof. pose proof (lastp_in hd l). pose proof (hd_in hd r). set_solver. Qed.

Lemma sim_take h hd l e r R F :
  represents h (Lists ((hd, l ++ e :: r) :: R) F) ->
  exists h', __list_del_entry e h = Some h' /\
    represents h' (Lists ((hd, l ++ r) :: R) (e :: F)).
Proof.
  intros Hr. pose proof (rep_ring _ _ _ _ _ Hr) as Hring.
  destruct (ring_split _ _ _ _ _ Hring) as (En & Ep & _ & _ & Mq & Mp & _).
  destruct (neighbours hd l e r) as [Hp Hq].
  unfold __list_del_entry. rewrite En, Ep. cbn. rewrite __list_del_run by done.
  eexists. split; [done|].
  apply (rep_change [(hd, l ++ e :: r)] [(hd, l ++ r)] [] [e] h); [done|..].
  - intros b. by rewrite mapped_bridged.
  - rewrite nodes_cons. intros b Hb. apply bridged_other; set_solver.
  - rewrite !nodes_cons. cbn. rewrite !app_nil_r. solve_Permutation.
  - apply Forall_singleton. by eapply ring_remove.
Qed.

(** The fields of a loose node do not matter. *)
Lemma sim_loose h h' n R F :
  represents h (Lists R (n :: F)) -> (forall a, a <> n -> h' !! a = h !! a) ->
  (forall a, mapped h a -> mapped h' a) -> represents h' (Lists R (n :: F)).
Proof.
  intros Hr Hf Hm. apply (rep_change [] [] [n] [n] h); [done|done| |done|constructor].
  cbn. intros b Hb. apply Hf. set_solver.
Qed.

Lemma sim_del h hd l e r R F :
  represents h (Lists ((hd, l ++ e :: r) :: R) F) ->
  exists h', list_del e h = Some h' /\ represents h' (Lists ((hd, l ++ r) :: R) (e :: F)).
Proof.
  intros Hr. destruct (sim_take _ _ _ _ _ _ _ Hr) as (h1 & E & Hr1).
  unfold __list_del_entry in E. unfold list_del.
  destruct (prev e h) as [p|]; [|done]. destruct (next e h) as [q|]; [|done].
  cbn in *. rewrite E. cbn. destruct (rep_free _ _ _ _ Hr1) as [He _].
  rewrite set_next_upd by done. cbn. rewrite set_prev_upd by (by rewrite mapped_upd_next).
  eexists. split; [done|]. apply (sim_loose h1); [done|..].
  - intros a Ha. by rewrite upd_prev_other, upd_next_other.
  - intros a. by rewrite mapped_upd_prev, mapped_upd_next.
Qed.

Lemma sim_replace h hd l o r n R F :
  represents h (Lists ((hd, l ++ o :: r) :: R) (n :: F)) ->
  exists h', list_replace o n h = Some h' /\
    represents h' (Lists ((hd, l ++ n :: r) :: R) (o :: F)).
Proof.
  intros Hr. destruct (rep_fresh _ _ _ _ _ _ Hr) as [Hm Hn].
  pose proof (rep_ring _ _ _ _ _ Hr) as Hring.
  destruct (ring_split _ _ _ _ _ Hring) as (En & Ep & _ & _ & Mq & Mp & _ & _ & _ & Ho & _).
  destruct (neighbours hd l o r) as [Hp Hq].
  rewrite (list_replace_run (p:=lastp hd l) (q:=List.hd hd r)); try done.
  2: { intros ->. set_solver. }
  2: { pose proof (hd_in hd r). intros E. rewrite E in *. set_solver. }
  eexists. split; [done|].
  apply (rep_change [(hd, l ++ o :: r)] [(hd, l ++ n :: r)] [n] [o] h); [done|..].
  - intros b. by rewrite mapped_added.
  - rewrite nodes_cons. intros b Hb. apply added_other; set_solver.
  - rewrite !nodes_cons. cbn. rewrite !app_nil_r. solve_Permutation.
  - apply Forall_singleton. by apply (ring_replace h hd l o r n).
Qed.

Lemma sim_cut h li hd l e r R F :
  represents h (Lists ((hd, l ++ e :: r) :: R) (li :: F)) ->
  exists h', __list_cut_position li hd e h = Some h' /\
    represents h' (Lists ((li, l ++ [e]) :: (hd, r) :: R) F).
Proof.
  intros Hr. destruct (rep_fresh _ _ _ _ _ _ Hr) as [Hm Hn].
  pose proof (rep_ring _ _ _ _ _ Hr) as Hring.
  destruct (ring_split _ _ _ _ _ Hring) as (En & _ & Hl & _ & Mq & _ & Me & _).
  pose proof (links_next _ _ _ _ Hl) as Ef.
  pose proof (ring_mapped _ _ _ hd Hring ltac:(by left)) as Mh.
  assert (List.hd e l ∈ hd :: l ++ e :: r) as Hf by (pose proof (hd_in e l); set_solver).
  destruct (neighbours hd l e r) as [_ Hq].
  rewrite (__list_cut_position_run (f:=List.hd e l) (n:=List.hd hd r));
    try done; [|by eapply ring_mapped|set_solver].
  eexists. split; [done|].
  apply (rep_change [(hd, l ++ e :: r)] [(li, l ++ [e]); (hd, r)] [li] [] h); [done|..].
  - intros b. by rewrite mapped_cut.
  - rewrite nodes_cons. intros b Hb. apply cut_other; set_solver.
  - rewrite !nodes_cons. cbn. rewrite !app_nil_r. solve_Permutation.
  - destruct (ring_cut h li hd l e r) as [? ?]; try done.
    apply Forall_cons. split; [done|]. by apply Forall_singleton.
Qed.

Lemma lastp_app p l e r : lastp p (l ++ e :: r) = lastp e r.
Proof. revert p. by induction l as [|x l IH]; intros p; [|apply IH]. Qed.

Lemma sim_cut_position h li hd l e r R F :
  represents h (Lists ((hd, l ++ e :: r) :: R) (li :: F)) ->
  exists h', list_cut_position li hd e h = Some h' /\
    represents h' (Lists ((li, l ++ [e]) :: (hd, r) :: R) F).
Proof.
  intros Hr. destruct (sim_cut _ _ _ _ _ _ _ _ Hr) as (h' & E & Hr').
  exists h'. split; [|done]. pose proof (rep_ring _ _ _ _ _ Hr) as Hring.
  destruct (ring_ends _ _ _ Hring) as (En & Ep & _). unfold list_cut_position, list_is_singular.
  rewrite (ring_empty _ _ _ Hring), bool_decide_eq_false_2 by (by destruct l).
  cbn. rewrite En, Ep. cbn. destruct (_ && _) eqn:Hc.
  - rewrite !andb_true_iff, !negb_true_iff, !Z.eqb_eq, !Z.eqb_neq in Hc.
    destruct Hc as (H1 & H2 & _). destruct l as [|x l]; cbn in *; [done|]. exfalso.
    rewrite lastp_app in H1. destruct Hring as [_ [_ [Hx _]%NoDup_cons]%NoDup_cons].
    apply Hx. rewrite H1. apply elem_of_app. right. apply lastp_in.
  - rewrite (proj2 (Z.eqb_neq _ _)); [done|]. intros ->.
    destruct Hring as [_ [H _]%NoDup_cons]. set_solver.
Qed.

Lemma sim_cut_head h li hd x xs R F :
  represents h (Lists ((hd, x :: xs) :: R) (li :: F)) ->
  exists h', list_cut_position li hd hd h = Some h' /\
    represents h' (Lists ((li, []) :: (hd, x :: xs) :: R) F).
Proof.
  intros Hr. pose proof (rep_ring _ _ _ _ _ Hr) as Hring.
  destruct (ring_ends _ _ _ Hring) as (En & Ep & _). unfold list_cut_position, list_is_singular.
  rewrite (ring_empty _ _ _ Hring), bool_decide_eq_false_2 by done.
  cbn. rewrite En, Ep. cbn. rewrite Z.eqb_refl, !andb_false_r.
  by apply sim_init.
Qed.

(** Joining two lists; the head of the second becomes a loose node. *)
Lemma sim_spliced h hd xs li y ys xs' p q R F :
  represents h (Lists ((hd, xs) :: (li, y :: ys) :: R) F) ->
  p ∈ hd :: xs -> q ∈ hd :: xs -> xs' ≡ₚ xs ++ y :: ys ->
  ring (spliced y (lastp y ys) p q h) hd xs' ->
  exists h', __list_splice li p q h = Some h' /\
    represents h' (Lists ((hd, xs') :: R) (li :: F)).
Proof.
  intros Hr Hp Hq Hxs Hring'. pose proof (rep_ring _ _ _ _ _ Hr) as Hring.
  pose proof (rep_ring _ _ _ _ _ (rep_swap _ _ _ _ _ Hr)) as Hli.
  destruct (ring_ends _ _ _ Hli) as (En & Ep & Hf & Hl). cbn in En, Ep, Hf, Hl.
  rewrite (__list_splice_run (f:=y) (z:=lastp y ys)) by eauto using ring_mapped.
  eexists. split; [done|].
  apply (rep_change [(hd, xs); (li, y :: ys)] [(hd, xs')] [] [li] h); [done|..].
  - intros b. by rewrite mapped_spliced.
  - rewrite !nodes_cons. intros b Hb. apply spliced_other; set_solver.
  - rewrite !nodes_cons, Hxs. cbn. rewrite !app_nil_r. solve_Permutation.
  - by apply Forall_singleton.
Qed.

Section splice.
Context {h : heap} {hd li y : Z} {xs ys F : list Z} {R : list (Z * list Z)}.
Context (Hr : represents h (Lists ((hd, xs) :: (li, y :: ys) :: R) F)).

Lemma splice_rings :
  ring h hd xs /\ ring h li (y :: ys) /\ (forall a, a ∈ li :: y :: ys -> a ∉ hd :: xs).
Proof using Hr.
  split_and!; [by eapply rep_ring|eapply rep_ring; by apply rep_swap|].
  intros a Ha. by eapply (rep_disjoint _ _ _ (li, y :: ys)).
Qed.

Lemma sim_splice :
  exists h', list_splice li hd h = Some h' /\
    represents h' (Lists ((hd, (y :: ys) ++ xs) :: R) (li :: F)).
Proof using Hr.
  destruct splice_rings as (Hring & Hli & Hd).
  destruct (ring_ends _ _ _ Hring) as (En & _ & Hf & _).
  unfold list_splice. rewrite (ring_empty _ _ _ Hli), bool_decide_eq_false_2 by done.
  cbn [mbind option_bind negb]. rewrite En. cbn [mbind option_bind].
  eapply sim_spliced; [done|by left|done|apply Permutation_app_comm|].
  exact (ring_splice Hring Hli Hd).
Qed.

Lemma sim_splice_tail :
  exists h', list_splice_tail li hd h = Some h' /\
    represents h' (Lists ((hd, xs ++ y :: ys) :: R) (li :: F)).
Proof using Hr.
  destruct splice_rings as (Hring & Hli & Hd).
  destruct (ring_ends _ _ _ Hring) as (_ & Ep & _ & Hl).
  unfold list_splice_tail. rewrite (ring_empty _ _ _ Hli), bool_decide_eq_false_2 by done.
  cbn [mbind option_bind negb]. rewrite Ep. cbn [mbind option_bind].
  eapply sim_spliced; [done|done|by left|done|].
  exact (ring_splice_tail Hring Hli Hd).
Qed.

End splice.

(** The variants that initialise the emptied head. *)
Lemma splice_init_eq li hd h :
  list_splice_init li hd h =
    (empty ← list_empty li h; h ← list_splice li hd h;
     if (empty : bool) then Some h else INIT_LIST_HEAD li h).
Proof.
  unfold list_splice_init, list_splice. destruct (list_empty li h) as [[]|]; cbn; try done.
  by destruct (next hd h).
Qed.

Lemma splice_tail_init_eq li hd h :
  list_splice_tail_init li hd h =
    (empty ← list_empty li h; h ← list_splice_tail li hd h;
     if (empty : bool) then Some h else INIT_LIST_HEAD li h).
Proof.
  unfold list_splice_tail_init, list_splice_tail.
  destruct (list_empty li h) as [[]|]; cbn; try done. by destruct (prev hd h).
Qed.

(** *** Reading *)

Lemma for_each_next h p xs q fuel :
  links h p xs q -> q ∉ xs -> (length xs <= fuel)%nat ->
  for_each next fuel (List.hd q xs) q h = Some xs.
Proof.
  revert p fuel. induction xs as [|x xs IH]; intros p fuel HL Hq Hf; cbn.
  - destruct fuel; cbn; by rewrite Z.eqb_refl.
  - apply not_elem_of_cons in Hq as [Hq Hq']. destruct HL as [_ HL].
    destruct fuel as [|fuel]; cbn in *; [lia|]. rewrite (proj2 (Z.eqb_neq _ _)) by done.
    rewrite (links_next _ _ _ _ HL). cbn. rewrite (IH x); [done..|lia].
Qed.

Lemma for_each_prev h p xs q fuel :
  links h p xs q -> p ∉ xs -> (length xs <= fuel)%nat ->
  for_each prev fuel (lastp p xs) p h = Some (reverse xs).
Proof.
  revert q fuel. induction xs as [|x xs IH] using rev_ind; intros q fuel HL Hp Hf.
  - destruct fuel; cbn; by rewrite Z.eqb_refl.
  - apply not_elem_of_app in Hp as [Hp Hx]. apply not_elem_of_cons in Hx as [Hx _].
    apply links_app in HL as [HL _]. rewrite length_app in Hf.
    rewrite lastp_app, reverse_snoc. cbn [lastp].
    destruct fuel as [|fuel]; cbn in *; [lia|]. rewrite (proj2 (Z.eqb_neq _ _)) by done.
    rewrite (links_prev _ _ _ _ HL). cbn. rewrite (IH x); [done..|lia].
Qed.

Lemma ring_for_each h hd xs fuel :
  ring h hd xs -> (length xs <= fuel)%nat ->
  list_for_each fuel hd h = Some xs /\ list_for_each_prev fuel hd h = Some (reverse xs).
Proof.
  intros R Hf. destruct (ring_ends _ _ _ R) as (En & Ep & _). destruct R as [HL [Hh _]%NoDup_cons].
  unfold list_for_each, list_for_each_prev. rewrite En, Ep. cbn.
  split; [by eapply for_each_next|by eapply for_each_prev].
Qed.

(** *** Walking a list while removing from it *)

(** The body removes the nodes that do not satisfy [keep]. *)
Definition prune (keep : Z -> bool) e h : option heap :=
  if keep e then Some h else list_del e h.

Lemma ring_next h hd l e r : ring h hd (l ++ e :: r) -> next e h = Some (List.hd hd r).
Proof. by intros (? & _)%ring_split. Qed.

Lemma sim_prune keep h hd l e r R F :
  represents h (Lists ((hd, l ++ e :: r) :: R) F) ->
  exists h', prune keep e h = Some h' /\ represents h'
    (Lists ((hd, (if keep e then l ++ [e] else l) ++ r) :: R) (if keep e then F else e :: F)).
Proof.
  intros Hr. unfold prune. destruct (keep e); [|by apply sim_del].
  exists h. by rewrite <-app_assoc.
Qed.

(** What is left of a list and of the loose nodes. *)
Fixpoint removed (keep : Z -> bool) xs F : list Z :=
  match xs with [] => F | x :: xs => removed keep xs (if keep x then F else x :: F) end.

Lemma sim_for_each_safe keep h hd l r n R F fuel :
  represents h (Lists ((hd, l ++ r) :: R) F) -> (length r <= fuel)%nat ->
  next (List.hd hd r) h = Some n ->
  exists h', for_each_safe (prune keep) fuel (List.hd hd r) n hd h = Some (r, h') /\
    represents h' (Lists ((hd, l ++ filter (fun x => keep x = true) r) :: R)
                     (removed keep r F)).
Proof.
  revert l n h F fuel. induction r as [|e r IH]; intros l n h F fuel Hr Hf En.
  { exists h. split; [|done]. destruct fuel; cbn; by rewrite Z.eqb_refl. }
  pose proof (rep_ring _ _ _ _ _ Hr) as Hring. cbn [List.hd] in En |- *.
  rewrite (ring_next _ _ _ _ _ Hring) in En. injection En as <-.
  destruct fuel as [|fuel]; cbn in Hf; [lia|]. cbn [for_each_safe].
  rewrite (proj2 (Z.eqb_neq e hd)).
  2: { intros ->. destruct Hring as [_ [H _]%NoDup_cons]. set_solver. }
  destruct (sim_prune keep _ _ _ _ _ _ _ Hr) as (h1 & -> & Hr1). cbn [mbind option_bind].
  assert (exists n', next (List.hd hd r) h1 = Some n') as [n' En'].
  { pose proof (rep_ring _ _ _ _ _ Hr1) as Hring1.
    destruct (ring_mapped _ _ _ (List.hd hd r) Hring1) as [x Hx].
    - pose proof (hd_in hd r). set_solver.
    - unfold next. rewrite Hx. by eexists. }
  rewrite En'. cbn [mbind option_bind].
  destruct (IH _ n' _ _ fuel Hr1 ltac:(lia) En') as (h' & -> & Hr').
  exists h'. split; [done|]. rewrite filter_cons. cbn [removed].
  destruct (keep e); [rewrite decide_True by done|rewrite decide_False by done]; [|done].
  by rewrite <-app_assoc in Hr'.
Qed.

(** The walk sees every element once, in order, whatever it removes. *)
Lemma list_for_each_safe_prunes keep h hd xs R F fuel :
  represents h (Lists ((hd, xs) :: R) F) -> (length xs <= fuel)%nat ->
  exists h', list_for_each_safe (prune keep) fuel hd h = Some (xs, h') /\
    represents h' (Lists ((hd, filter (fun x => keep x = true) xs) :: R)
                     (removed keep xs F)).
Proof.
  intros Hr Hf. pose proof (rep_ring _ _ _ _ _ Hr) as Hring.
  destruct (ring_ends _ _ _ Hring) as (En & _ & Hh & _).
  destruct (ring_mapped _ _ _ _ Hring Hh) as [x Hx].
  unfold list_for_each_safe. rewrite En. cbn [mbind option_bind].
  assert (next (List.hd hd xs) h = Some (lh_next x)) as En' by (unfold next; by rewrite Hx).
  rewrite En'. cbn [mbind option_bind]. by eapply (sim_for_each_safe keep h hd []).
Qed.

(** ** The operations *)

Inductive op :=
  | Init (list : Z) | Add (new head : Z) | AddTail (new head : Z)
  | Del (entry : Z) | DelInit (entry : Z)
  | Replace (old new : Z) | ReplaceInit (old new : Z)
  | Move (list head : Z) | MoveTail (list head : Z) | RotateLeft (head : Z)
  | CutPosition (list head entry : Z)
  | Splice (list head : Z) | SpliceTail (list head : Z)
  | SpliceInit (list head : Z) | SpliceTailInit (list head : Z).

Definition exec (o : op) : heap -> option heap :=
  match o with
  | Init a => INIT_LIST_HEAD a
  | Add n hd => list_add n hd | AddTail n hd => list_add_tail n hd
  | Del e => list_del e | DelInit e => list_del_init e
  | Replace e n => list_replace e n | ReplaceInit e n => list_replace_init e n
  | Move e hd => list_move e hd | MoveTail e hd => list_move_tail e hd
  | RotateLeft hd => list_rotate_left hd
  | CutPosition li hd e => list_cut_position li hd e
  | Splice li hd => list_splice li hd | SpliceTail li hd => list_splice_tail li hd
  | SpliceInit li hd => list_splice_init li hd
  | SpliceTailInit li hd => list_splice_tail_init li hd
  end.

(** What the operations are to do to a collection. *)
Inductive does : op -> lists -> lists -> Prop :=
  | does_init a R F : does (Init a) (Lists R (a :: F)) (Lists ((a, []) :: R) F)
  | does_add n hd xs R F :
      does (Add n hd) (Lists ((hd, xs) :: R) (n :: F)) (Lists ((hd, n :: xs) :: R) F)
  | does_add_tail n hd xs R F :
      does (AddTail n hd) (Lists ((hd, xs) :: R) (n :: F)) (Lists ((hd, xs ++ [n]) :: R) F)
  | does_del e hd l r R F :
      does (Del e) (Lists ((hd, l ++ e :: r) :: R) F) (Lists ((hd, l ++ r) :: R) (e :: F))
  | does_del_init e hd l r R F :
      does (DelInit e) (Lists ((hd, l ++ e :: r) :: R) F)
        (Lists ((e, []) :: (hd, l ++ r) :: R) F)
  | does_replace e n hd l r R F :
      does (Replace e n) (Lists ((hd, l ++ e :: r) :: R) (n :: F))
        (Lists ((hd, l ++ n :: r) :: R) (e :: F))
  | does_replace_init e n hd l r R F :
      does (ReplaceInit e n) (Lists ((hd, l ++ e :: r) :: R) (n :: F))
        (Lists ((e, []) :: (hd, l ++ n :: r) :: R) F)
  | does_move e hd hd' l r xs R F :
      does (Move e hd) (Lists ((hd, xs) :: (hd', l ++ e :: r) :: R) F)
        (Lists ((hd, e :: xs) :: (hd', l ++ r) :: R) F)
  | does_move_front e hd l r R F :
      does (Move e hd) (Lists ((hd, l ++ e :: r) :: R) F) (Lists ((hd, e :: l ++ r) :: R) F)
  | does_move_tail e hd hd' l r xs R F :
      does (MoveTail e hd) (Lists ((hd, xs) :: (hd', l ++ e :: r) :: R) F)
        (Lists ((hd, xs ++ [e]) :: (hd', l ++ r) :: R) F)
  | does_move_back e hd l r R F :
      does (MoveTail e hd) (Lists ((hd, l ++ e :: r) :: R) F)
        (Lists ((hd, (l ++ r) ++ [e]) :: R) F)
  | does_rotate hd x xs R F :
      does (RotateLeft hd) (Lists ((hd, x :: xs) :: R) F) (Lists ((hd, xs ++ [x]) :: R) F)
  | does_rotate_empty hd R F :
      does (RotateLeft hd) (Lists ((hd, []) :: R) F) (Lists ((hd, []) :: R) F)
  | does_cut li hd l e r R F :
      does (CutPosition li hd e) (Lists ((hd, l ++ e :: r) :: R) (li :: F))
        (Lists ((li, l ++ [e]) :: (hd, r) :: R) F)
  | does_cut_head li hd x xs R F :
      does (CutPosition li hd hd) (Lists ((hd, x :: xs) :: R) (li :: F))
        (Lists ((li, []) :: (hd, x :: xs) :: R) F)
  | does_cut_empty li hd e R F :
      does (CutPosition li hd e) (Lists ((hd, []) :: R) F) (Lists ((hd, []) :: R) F)
  | does_splice li hd xs y ys R F :
      does (Splice li hd) (Lists ((hd, xs) :: (li, y :: ys) :: R) F)
        (Lists ((hd, (y :: ys) ++ xs) :: R) (li :: F))
  | does_splice_tail li hd xs y ys R F :
      does (SpliceTail li hd) (Lists ((hd, xs) :: (li, y :: ys) :: R) F)
        (Lists ((hd, xs ++ y :: ys) :: R) (li :: F))
  | does_splice_init li hd xs y ys R F :
      does (SpliceInit li hd) (Lists ((hd, xs) :: (li, y :: ys) :: R) F)
        (Lists ((li, []) :: (hd, (y :: ys) ++ xs) :: R) F)
  | does_splice_tail_init li hd xs y ys R F :
      does (SpliceTailInit li hd) (Lists ((hd, xs) :: (li, y :: ys) :: R) F)
        (Lists ((li, []) :: (hd, xs ++ y :: ys) :: R) F)
  | does_splice_empty o li hd R F :
      o ∈ [Splice li hd; SpliceTail li hd; SpliceInit li hd; SpliceTailInit li hd] ->
      does o (Lists ((li, []) :: R) F) (Lists ((li, []) :: R) F)
  | does_perm o R R' F F' s : R ≡ₚ R' -> F ≡ₚ F' ->
      does o (Lists R' F') s -> does o (Lists R F) s.

Lemma sim_rotate h hd x xs R F :
  represents h (Lists ((hd, x :: xs) :: R) F) ->
  exists h', list_rotate_left hd h = Some h' /\
    represents h' (Lists ((hd, xs ++ [x]) :: R) F).
Proof.
  intros Hr. pose proof (rep_ring _ _ _ _ _ Hr) as Hring.
  destruct (ring_ends _ _ _ Hring) as (En & _). unfold list_rotate_left, list_move_tail.
  rewrite (ring_empty _ _ _ Hring), bool_decide_eq_false_2 by done. cbn. rewrite En. cbn.
  destruct (sim_take h hd [] x xs R F Hr) as (h1 & -> & Hr1). cbn.
  by apply sim_add_tail.
Qed.

Lemma sim_op o s s' h :
  does o s s' -> represents h s -> exists h', exec o h = Some h' /\ represents h' s'.
Proof.
  intros Hd. revert h.
  induction Hd as [| | | |e hd l r R F| |e n hd l r R F|e hd hd' l r xs R F|e hd l r R F
    |e hd hd' l r xs R F|e hd l r R F| |hd R F| | |li hd e R F| | |li hd xs y ys R F
    |li hd xs y ys R F|o li hd R F Ho|o R R' F F' s HR HF _ IH]; intros h Hr; cbn [exec].
  - by apply sim_init.
  - by apply sim_add.
  - by apply sim_add_tail.
  - by apply sim_del.
  - unfold list_del_init. destruct (sim_take _ _ _ _ _ _ _ Hr) as (h1 & -> & Hr1). cbn.
    by apply sim_init.
  - by apply sim_replace.
  - unfold list_replace_init. destruct (sim_replace _ _ _ _ _ _ _ _ Hr) as (h1 & -> & Hr1).
    by apply sim_init.
  - unfold list_move. apply rep_swap in Hr.
    destruct (sim_take _ _ _ _ _ _ _ Hr) as (h1 & -> & Hr1). cbn.
    by apply rep_swap, sim_add in Hr1.
  - unfold list_move. destruct (sim_take _ _ _ _ _ _ _ Hr) as (h1 & -> & Hr1). cbn.
    by apply sim_add.
  - unfold list_move_tail. apply rep_swap in Hr.
    destruct (sim_take _ _ _ _ _ _ _ Hr) as (h1 & -> & Hr1). cbn.
    by apply rep_swap, sim_add_tail in Hr1.
  - unfold list_move_tail. destruct (sim_take _ _ _ _ _ _ _ Hr) as (h1 & -> & Hr1). cbn.
    by apply sim_add_tail.
  - by apply sim_rotate.
  - exists h. split; [|done]. unfold list_rotate_left.
    by rewrite (ring_empty _ _ _ (rep_ring _ _ _ _ _ Hr)).
  - by apply sim_cut_position.
  - by apply sim_cut_head.
  - exists h. split; [|done]. unfold list_cut_position.
    by rewrite (ring_empty _ _ _ (rep_ring _ _ _ _ _ Hr)).
  - by apply sim_splice.
  - by apply sim_splice_tail.
  - rewrite splice_init_eq. destruct (splice_rings Hr) as (_ & Hli & _).
    rewrite (ring_empty _ _ _ Hli), bool_decide_eq_false_2 by done. cbn [mbind option_bind].
    destruct (sim_splice Hr) as (h1 & -> & Hr1). by apply sim_init.
  - rewrite splice_tail_init_eq. destruct (splice_rings Hr) as (_ & Hli & _).
    rewrite (ring_empty _ _ _ Hli), bool_decide_eq_false_2 by done. cbn [mbind option_bind].
    destruct (sim_splice_tail Hr) as (h1 & -> & Hr1). by apply sim_init.
  - exists h. split; [|done]. pose proof (ring_empty _ _ _ (rep_ring _ _ _ _ _ Hr)) as E.
    repeat (apply elem_of_cons in Ho as [->|Ho]; [cbn; unfold list_splice,
      list_splice_tail, list_splice_init, list_splice_tail_init; by rewrite E|]).
    by apply elem_of_nil in Ho.
  - apply IH. by eapply rep_perm.
Qed.

Lemma does_cells o s s' : does o s s' -> cells s' ≡ₚ cells s.
Proof.
  induction 1; unfold cells in *; cbn [rings loose] in *; rewrite ?nodes_cons; try done;
    try solve_Permutation. rewrite IHdoes. by f_equiv; [f_equiv|].
Qed.

Fixpoint runs (os : list op) (s s' : lists) : Prop :=
  match os with [] => s = s' | o :: os => exists s1, does o s s1 /\ runs os s1 s' end.

Fixpoint execs (os : list op) (h : heap) : option heap :=
  match os with [] => Some h | o :: os => h ← exec o h; execs os h end.

(** C23: The circular doubly linked lists implement finite lists.  On a heap that
    represents a collection of lists and loose nodes, any sequence of operations
    of [list.h] allowed on the collection runs without touching an invalid node,
    and the heap then represents the collection these operations lead to, with
    exactly the same nodes; walking a list forwards and backwards visits its
    elements in order and in reverse. *)
Theorem lists_refine (os : list op) (s s' : lists) (h : heap) :
  runs os s s' -> represents h s ->
  exists h', execs os h = Some h' /\ represents h' s' /\ cells s' ≡ₚ cells s /\
    (forall hd xs, (hd, xs) ∈ rings s' ->
       list_for_each (length xs) hd h' = Some xs /\
       list_for_each_prev (length xs) hd h' = Some (reverse xs) /\
       list_empty hd h' = Some (bool_decide (xs = []))).
Proof.
  revert s h. induction os as [|o os IH]; cbn; intros s h Hs Hr.
  - subst s'. exists h. split_and!; [done..|]. intros hd xs Hin.
    destruct Hr as [HR _ _]. rewrite Forall_forall in HR. specialize (HR _ Hin). cbn in HR.
    destruct (ring_for_each h hd xs (length xs)) as [? ?]; [done..|].
    split_and!; [done..|]. by apply ring_empty.
  - destruct Hs as (s1 & Hd & Hs). destruct (sim_op _ _ _ _ Hd Hr) as (h1 & -> & Hr1). cbn.
    destruct (IH s1 h1 Hs Hr1) as (h' & ? & ? & Hc & ?). exists h'. split_and!; [done..| |done].
    rewrite Hc. by eapply does_cells.
Qed.

(** Two loose nodes are queued and one is moved to another list. *)
Lemma lists_refine_witness :
  exists h', execs [Init 1; Init 2; AddTail 3 1; AddTail 4 1; Move 3 2]
      (list_to_map [(1, ListHead 0 0); (2, ListHead 0 0); (3, ListHead 0 0); (4, ListHead 0 0)])
    = Some h' /\ list_for_each 1 1 h' = Some [4] /\ list_for_each 1 2 h' = Some [3].
Proof.
  destruct (lists_refine [Init 1; Init 2; AddTail 3 1; AddTail 4 1; Move 3 2]
    (Lists [] [1; 2; 3; 4]) (Lists [(2, [3]); (1, [4])] [])
    (list_to_map [(1, ListHead 0 0); (2, ListHead 0 0); (3, ListHead 0 0); (4, ListHead 0 0)]))
    as (h' & E & _ & _ & Hf).
  - exists (Lists [(1, [])] [2; 3; 4]). split; [constructor|].
    exists (Lists [(2, []); (1, [])] [3; 4]). split; [constructor|].
    exists (Lists [(1, [3]); (2, [])] [4]).
    split; [eapply does_perm; [constructor|done|apply (does_add_tail 3 1 [])]|].
    exists (Lists [(1, [3; 4]); (2, [])] []). split; [apply (does_add_tail 4 1 [3])|].
    exists (Lists [(2, [3]); (1, [4])] []).
    split; [eapply does_perm; [constructor|done|apply (does_move 3 2 1 [] [4])]|done].
  - split; [constructor| |].
    + repeat constructor; by eexists.
    + repeat constructor; set_solver.
  - exists h'. split; [done|].
    destruct (Hf 1 [4]) as (? & _); [set_solver|]. destruct (Hf 2 [3]) as (? & _); [set_solver|].
    done.
Defined.

End LinkedListRefine.
