(* ===== verification/ThPool.v ===== *)
(** * The thread pool ([polylib/src/thpool.c])

    The job queue is modelled on a heap of job records, as the code links them;
    the pool is a transition system in which every critical section (the code
    between locking and unlocking a mutex) is one step of one thread; the post of
    the semaphore belongs to the critical section of the queue that contains it.
    A job is run and freed in one step.  The caller of [thpool_wait] keeps [thcount_lock] while it looks at the queue and the
    counter, which takes two steps.

    [pthread_cond_signal] wakes at least one sleeping thread; which ones is an
    argument of the step.  [p_added], [p_started] and [p_done] record the jobs
    handed to the pool, taken by a thread and finished. *)

From S2P Require Import Prelude.

#[local] Open Scope Z_scope.

Module ThPool.

Section model.
Context {J : Type}.

(** ** The job queue *)

(** [struct job]; the function and its argument are one value. *)
Record job := Job {
  j_prev : Z;
  j_fn : J
}.

(** [struct jobqueue] with the value of its semaphore; pointers are addresses, 0
    is NULL. *)
Record jobqueue := JobQueue {
  q_front : Z;
  q_rear : Z;
  q_len : Z;            (* int *)
  q_v : Z               (* has_jobs->v *)
}.

#[export] Instance jobqueue_copy : Copy jobqueue := fun q =>
  JobQueue (q_front q) (q_rear q) (q_len q) (q_v q).

Abbreviation heap := (gmap Z job).

Definition jobqueue_init : jobqueue := JobQueue 0 0 0 0.

Definition jobqueue_push (newjob : Z) (h : heap) (q : jobqueue)
    : option (heap * jobqueue) :=
  j ← h !! newjob;
  let h := <[newjob := Job 0 (j_fn j)]> h in
  '(h, q) ← (if q_len q =? 0
             then Some (h, q <| q_front := newjob |> <| q_rear := newjob |>)
             else r ← h !! q_rear q;
                  Some (<[q_rear q := Job newjob (j_fn r)]> h,
                        q <| q_rear := newjob |>));
  Some (h, q <| q_len := s32 (q_len q + 1) |> <| q_v := 1 |>).

(** [jobqueue_pull], with whether it posts the semaphore. *)
Definition jobqueue_pull (h : heap) (q : jobqueue) : option (Z * bool * jobqueue) :=
  let job_p := q_front q in
  if q_len q =? 0 then Some (job_p, false, q)
  else if q_len q =? 1
  then Some (job_p, false, q <| q_front := 0 |> <| q_rear := 0 |> <| q_len := 0 |>)
  else j ← h !! job_p;
       Some (job_p, true, q <| q_front := j_prev j |> <| q_len := s32 (q_len q - 1) |>
                            <| q_v := 1 |>).

(** [jobqueue_clear], one iteration of its loop per waiting job. *)
Fixpoint clear_loop (fuel : nat) (h : heap) (q : jobqueue) : option (heap * jobqueue) :=
  if q_len q =? 0 then Some (h, q)
  else match fuel with
       | O => None
       | S fuel => '(job_p, _, q) ← jobqueue_pull h q; clear_loop fuel (delete job_p h) q
       end.

Definition jobqueue_clear (h : heap) (q : jobqueue) : option (heap * jobqueue) :=
  '(h, q) ← clear_loop (Z.to_nat (q_len q)) h q;
  Some (h, q <| q_front := 0 |> <| q_rear := 0 |> <| q_v := 0 |> <| q_len := 0 |>).

(** ** The pool *)

(** Where a thread is in [thread_do]. *)
Inductive pc :=
  | Starting            (* before it counts itself as alive *)
  | AtLoop              (* at the loop condition *)
  | Trying              (* in bsem_wait, about to look at the value *)
  | Sleeping            (* in bsem_wait, on the condition variable *)
  | Got                 (* past bsem_wait *)
  | Pulling             (* counted as working *)
  | Running (job_p : Z)
  | Finishing           (* job done and freed *)
  | Leaving             (* out of the loop *)
  | Exited.

#[export] Instance pc_eq_dec : EqDecision pc.
Proof. solve_decision. Defined.

(** Where the caller of [thpool_wait] is; [before] are the jobs added when it was
    called. *)
Inductive wpc :=
  | WOut
  | WTry (before : list J)      (* about to lock and look at the queue *)
  | WLocked (before : list J)   (* holding thcount_lock, the queue was empty *)
  | WSleep (before : list J).   (* on the condition variable *)

Record pool := Pool {
  p_heap : heap;
  p_queue : jobqueue;
  p_threads : list pc;
  p_alive : Z;                  (* int num_threads_alive *)
  p_working : Z;                (* int num_threads_working *)
  p_keepalive : bool;
  p_waiter : wpc;
  p_added : list J;
  p_started : list J;
  p_done : list J
}.

#[export] Instance pool_copy : Copy pool := fun s =>
  Pool (p_heap s) (p_queue s) (p_threads s) (p_alive s) (p_working s) (p_keepalive s)
    (p_waiter s) (p_added s) (p_started s) (p_done s).

Definition set_pc (i : nat) (t : pc) (s : pool) : pool :=
  s <| p_threads := <[i := t]> (p_threads s) |>.

(** [pthread_cond_signal] on the semaphore, waking the sleepers among [w]. *)
Definition wake (w : list nat) (ts : list pc) : list pc :=
  imap (fun i t => if bool_decide (t = Sleeping /\ i ∈ w) then Trying else t) ts.

Definition signal_ok (w : list nat) (ts : list pc) : bool :=
  bool_decide (Sleeping ∉ ts) || bool_decide (wake w ts <> ts).

Definition signal (w : list nat) (s : pool) : option pool :=
  if signal_ok w (p_threads s)
  then Some (s <| p_threads := wake w (p_threads s) |>) else None.

(** [thcount_lock] is held across steps by the waiter only. *)
Definition locked (s : pool) : bool :=
  match p_waiter s with WLocked _ => true | _ => false end.

(** [pthread_cond_broadcast(&threads_all_idle)] *)
Definition broadcast_idle (w : wpc) : wpc :=
  match w with WSleep before => WTry before | _ => w end.

(** One step of thread [i] in [thread_do]; [w] are the threads woken in case it
    posts the semaphore.  [None]: the thread cannot move. *)
Definition thread_step (i : nat) (w : list nat) (s : pool) : option pool :=
  t ← p_threads s !! i;
  match t with
  | Starting =>
      if locked s then None
      else Some (set_pc i AtLoop (s <| p_alive := s32 (p_alive s + 1) |>))
  | AtLoop => Some (set_pc i (if p_keepalive s then Trying else Leaving) s)
  | Trying =>
      if q_v (p_queue s) =? 1
      then Some (set_pc i Got (s <| p_queue := p_queue s <| q_v := 0 |> |>))
      else Some (set_pc i Sleeping s)
  | Sleeping => None
  | Got =>
      if p_keepalive s then
        if locked s then None
        else Some (set_pc i Pulling (s <| p_working := s32 (p_working s + 1) |>))
      else Some (set_pc i AtLoop s)
  | Pulling =>
      '(job_p, posted, q) ← jobqueue_pull (p_heap s) (p_queue s);
      let s := s <| p_queue := q |> in
      s ← (if job_p =? 0 then Some (set_pc i Finishing s)
           else j ← p_heap s !! job_p;
                Some (set_pc i (Running job_p)
                        (s <| p_started := p_started s ++ [j_fn j] |>)));
      if (posted : bool) then signal w s else Some s
  | Running job_p =>
      j ← p_heap s !! job_p;
      Some (set_pc i Finishing
              (s <| p_heap := delete job_p (p_heap s) |>
                 <| p_done := p_done s ++ [j_fn j] |>))
  | Finishing =>
      if locked s then None
      else
        let working := s32 (p_working s - 1) in
        Some (set_pc i AtLoop
                (s <| p_working := working |>
                   <| p_waiter := if working =? 0 then broadcast_idle (p_waiter s)
                                  else p_waiter s |>))
  | Leaving =>
      if locked s then None
      else Some (set_pc i Exited (s <| p_alive := s32 (p_alive s - 1) |>))
  | Exited => None
  end.

(** One step of the caller of [thpool_wait]. *)
Definition thpool_wait_step (s : pool) : option pool :=
  match p_waiter s with
  | WTry before =>
      Some (s <| p_waiter := if q_len (p_queue s) =? 0 then WLocked before
                             else WSleep before |>)
  | WLocked before =>
      Some (s <| p_waiter := if p_working s =? 0 then WOut else WSleep before |>)
  | _ => None
  end.

(** [thpool_wait] is called. *)
Definition thpool_wait_call (s : pool) : option pool :=
  match p_waiter s with
  | WOut => Some (s <| p_waiter := WTry (p_added s) |>)
  | _ => None
  end.

(** [thpool_add_work], the new job being allocated at [newjob]; 0 is a failed
    allocation. *)
Definition thpool_add_work (newjob : Z) (fn : J) (w : list nat) (s : pool)
    : option (Z * pool) :=
  if newjob =? 0 then Some (-1, s)
  else
    '(h, q) ← jobqueue_push newjob (<[newjob := Job 0 fn]> (p_heap s)) (p_queue s);
    s ← signal w (s <| p_heap := h |> <| p_queue := q |>
                    <| p_added := p_added s ++ [fn] |>);
    Some (0, s).

(** [thpool_destroy]: the end of the loops is announced, then the semaphore is
    posted to all threads until none is alive. *)
Definition destroy_begin (s : pool) : pool := s <| p_keepalive := false |>.

Definition bsem_post_all (s : pool) : pool :=
  s <| p_queue := p_queue s <| q_v := 1 |> |>
    <| p_threads := (fun t => if bool_decide (t = Sleeping) then Trying else t) <$>
                      p_threads s |>.

(** [thpool_init], before the new threads run. *)
Definition thpool_init (num_threads : Z) : pool :=
  Pool ∅ jobqueue_init (replicate (Z.to_nat num_threads) Starting) 0 0 true WOut [] [] [].

(** ** Histories *)

(** Steps of the pool itself. *)
Inductive istep : pool -> pool -> Prop :=
  | step_thread i w s s' : thread_step i w s = Some s' -> istep s s'
  | step_wait s s' : thpool_wait_step s = Some s' -> istep s s'.

(** Everything that may happen: the pool's own steps, calls of its users, with
    fewer than [2 ^ 31 - 1] jobs waiting, and spurious wake-ups. *)
Inductive step : pool -> pool -> Prop :=
  | step_internal s s' : istep s s' -> step s s'
  | step_add newjob fn w s r s' :
      p_heap s !! newjob = None -> q_len (p_queue s) < 2 ^ 31 - 1 ->
      thpool_add_work newjob fn w s = Some (r, s') -> step s s'
  | step_call s s' : thpool_wait_call s = Some s' -> step s s'
  | step_destroy s : step s (destroy_begin s)
  | step_post_all s : step s (bsem_post_all s)
  | step_spurious w s : step s (s <| p_threads := wake w (p_threads s) |>)
  | step_spurious_idle s : step s (s <| p_waiter := broadcast_idle (p_waiter s) |>).

Definition reachable (num_threads : Z) (s : pool) : Prop :=
  rtc step (thpool_init num_threads) s.

End model.

Arguments job J : clear implicits.
Arguments wpc J : clear implicits.
Arguments pool J : clear implicits.

End ThPool.
