(* ===== verification/ThPoolSpec.v ===== *)
(** * The thread pool runs every job once, and finishes

    The linked job queue refines a first-in-first-out list; in every history the
    jobs taken by threads are the jobs added, in that order, each is run once;
    the pool's own activity ends, and when it ends every job is done; and
    [thpool_wait] returns only when all jobs added before its call are done. *)

From S2P Require Import Prelude ThPool.
Import ThPool.

#[local] Open Scope Z_scope.

Module ThPoolSpec.

Section queue.
Context {J : Type}.
Implicit Types (h : gmap Z (job J)) (xs : list (Z * J)).

(** ** The job queue *)

(** The jobs linked from [p], with their addresses. *)
Fixpoint chain h (p : Z) xs : Prop :=
  match xs with
  | [] => p = 0
  | (a, f) :: xs => p = a /\ a <> 0 /\ exists prev, h !! a = Some (Job prev f) /\
      chain h prev xs
  end.

Record queue_rep h (q : jobqueue) xs : Prop := {
  qr_chain : chain h (q_front q) xs;
  qr_rear : forall x, last xs = Some x -> q_rear q = fst x;
  qr_len : q_len q = length xs;
  qr_small : length xs < 2 ^ 31;
  qr_nodup : NoDup (fst <$> xs)
}.

Lemma chain_in h p xs a f :
  chain h p xs -> (a, f) ∈ xs -> a <> 0 /\ exists prev, h !! a = Some (Job prev f).
Proof.
  revert p. induction xs as [|[b g] xs IH]; intros p; [intros _ []%elem_of_nil|].
  cbn. intros (-> & Hb & prev & E & C) [[= <- <-]|Hin]%elem_of_cons; eauto.
Qed.

Lemma chain_frame h h' p xs :
  (forall a, a ∈ fst <$> xs -> h' !! a = h !! a) -> chain h p xs -> chain h' p xs.
Proof.
  revert p. induction xs as [|[b g] xs IH]; intros p Hf; [done|].
  cbn. intros (-> & Hb & prev & E & C). split_and!; [done..|]. exists prev.
  rewrite Hf by (by left). split; [done|]. apply IH; [|done].
  intros a Ha. apply Hf. by right.
Qed.

(** Linking a new last job. *)
Lemma chain_snoc h p xs a f b g :
  chain h p (xs ++ [(a, f)]) -> NoDup (fst <$> xs ++ [(a, f)]) ->
  b ∉ fst <$> xs ++ [(a, f)] -> b <> 0 -> h !! b = Some (Job 0 g) ->
  chain (<[a := Job b f]> h) p ((xs ++ [(a, f)]) ++ [(b, g)]).
Proof.
  revert p. induction xs as [|[c e] xs IH]; intros p; cbn.
  - intros (-> & Ha & prev & E & _) _ Hb Hb0 Eb. split_and!; [done..|]. exists b.
    rewrite lookup_insert_eq. split; [done|]. split_and!; [done..|]. exists 0.
    split; [|done]. rewrite lookup_insert_ne; [done|]. intros ->. apply Hb. by left.
  - intros (-> & Hc & prev & E & C) [Hn Hnd]%NoDup_cons Hb Hb0 Eb.
    split_and!; [done..|]. exists prev. split.
    + rewrite lookup_insert_ne; [done|]. intros ->. apply Hn. rewrite fmap_app.
      apply elem_of_app. right. by left.
    + apply IH; [done..| |done|done]. intros Hin. apply Hb. by right.
Qed.

Lemma push_refines h q xs a f :
  queue_rep h q xs -> h !! a = None -> a <> 0 -> length xs + 1 < 2 ^ 31 ->
  exists h' q', jobqueue_push a (<[a := Job 0 f]> h) q = Some (h', q') /\
    queue_rep h' q' (xs ++ [(a, f)]) /\ q_v q' = 1 /\
    (forall b, b ∉ fst <$> xs ++ [(a, f)] -> h' !! b = h !! b) /\
    (forall b, b ∈ fst <$> xs -> j_fn <$> h' !! b = j_fn <$> h !! b).
Proof.
  intros [C Hr Hl Hs Hnd] Ha Ha0 Hlen.
  assert (a ∉ fst <$> xs) as Hna.
  { intros ([b g] & -> & Hin)%list_elem_of_fmap.
    destruct (chain_in _ _ _ _ _ C Hin) as (_ & prev & E). cbn in Ha. congruence. }
  unfold jobqueue_push. rewrite lookup_insert_eq. cbn [mbind option_bind j_fn].
  rewrite insert_insert_eq. destruct (last xs) as [[b g]|] eqn:El.
  - apply last_Some in El as [ys ->]. rewrite length_app in Hl. cbn in Hl.
    rewrite (proj2 (Z.eqb_neq _ _)) by lia.
    rewrite (Hr (b, g)) by done. cbn [fst].
    destruct (chain_in _ _ _ b g C) as (Hb0 & prev & Eb); [set_solver|].
    assert (b <> a) by (intros ->; congruence).
    rewrite lookup_insert_ne, Eb by done. cbn [mbind option_bind j_fn].
    eexists _, _. split; [reflexivity|]. split_and!.
    + split; cbn.
      * apply chain_snoc; [|done|done|done|by rewrite lookup_insert_eq].
        apply (chain_frame h); [|done]. intros c Hc. rewrite lookup_insert_ne; [done|].
        by intros ->.
      * intros x. rewrite last_snoc. by intros [= <-].
      * rewrite Hl, !length_app in *. cbn in *. rewrite s32_id by lia. lia.
      * rewrite !length_app in *. cbn in *. lia.
      * rewrite fmap_app. apply NoDup_app. split_and!; [done| |apply NoDup_singleton].
        intros c Hc ->%list_elem_of_singleton. done.
    + done.
    + intros c Hc. rewrite !lookup_insert_ne; [done| |]; intros ->; apply Hc;
        rewrite !fmap_app, !elem_of_app; cbn; set_solver.
    + intros c Hc. destruct (decide (c = b)) as [->|Hne].
      * by rewrite lookup_insert_eq, Eb.
      * rewrite !lookup_insert_ne; [done| |congruence]. by intros ->.
  - apply last_None in El as ->. cbn in Hl. rewrite Hl. cbn [Z.eqb mbind option_bind].
    eexists _, _. split; [reflexivity|]. split_and!.
    + split; cbn; [|by intros x [= <-]|by rewrite Hl|lia|apply NoDup_singleton].
      split_and!; [done..|]. exists 0. by rewrite lookup_insert_eq.
    + done.
    + intros c Hc. rewrite lookup_insert_ne; [done|]. intros ->. apply Hc. by left.
    + intros c []%elem_of_nil.
Qed.

Lemma pull_refines h q xs :
  queue_rep h q xs ->
  match xs with
  | [] => jobqueue_pull h q = Some (0, false, q)
  | (a, f) :: xs' => a <> 0 /\ (exists prev, h !! a = Some (Job prev f)) /\
      exists q', jobqueue_pull h q = Some (a, bool_decide (xs' <> []), q') /\
        queue_rep h q' xs' /\ q_v q' = if decide (xs' = []) then q_v q else 1
  end.
Proof.
  intros [C Hr Hl Hs Hnd]. destruct xs as [|[a f] xs]; cbn in C; unfold jobqueue_pull.
  - rewrite C, Hl. done.
  - destruct C as (-> & Ha & prev & E & C). split; [done|]. split; [by eexists|].
    cbn in Hl. rewrite (proj2 (Z.eqb_neq _ _)) by lia.
    apply NoDup_cons in Hnd as [_ Hnd]. destruct xs as [|x xs].
    + rewrite Hl. eexists. split; [reflexivity|]. split; [|done].
      split; cbn; [done..|lia|constructor].
    + rewrite (proj2 (Z.eqb_neq _ _)) by (cbn in Hl; lia). rewrite E.
      eexists. split; [reflexivity|]. split; [|done]. split; cbn [q_front q_rear q_len update].
      * done.
      * intros y Hy. apply Hr. by rewrite last_cons_cons.
      * cbn in Hl, Hs |- *. rewrite s32_id by lia. lia.
      * cbn in Hs |- *. lia.
      * done.
Qed.

Lemma chain_delete h p xs a : a ∉ fst <$> xs -> chain h p xs -> chain (delete a h) p xs.
Proof.
  intros Ha. apply chain_frame. intros b Hb. rewrite lookup_delete_ne; [done|]. by intros ->.
Qed.

(** Clearing the queue frees exactly the waiting jobs. *)
Lemma clear_refines h q xs :
  queue_rep h q xs ->
  exists h', jobqueue_clear h q = Some (h', jobqueue_init) /\
    (forall a, h' !! a = if decide (a ∈ fst <$> xs) then None else h !! a).
Proof.
  intros Q. unfold jobqueue_clear. rewrite (qr_len _ _ _ Q), Nat2Z.id.
  assert (exists h' q', clear_loop (length xs) h q = Some (h', q') /\
    (forall a, h' !! a = if decide (a ∈ fst <$> xs) then None else h !! a))
    as (h' & q' & -> & Hh'); [|cbn; eauto].
  revert h q Q. induction xs as [|[a f] xs IH]; intros h q Q; cbn;
    rewrite (qr_len _ _ _ Q).
  - exists h, q. split; [done|]. intros a. rewrite decide_False; [done|].
    by intros ?%elem_of_nil.
  - pose proof (pull_refines _ _ _ Q) as (_ & _ & q1 & -> & Q1 & _).
    cbn [mbind option_bind Z.eqb length].
    pose proof (qr_nodup _ _ _ Q) as [Ha Hnd]%NoDup_cons.
    destruct (IH (delete a h) q1) as (h' & q' & E & Hh').
    { destruct Q1. split; try done. by apply chain_delete. }
    exists h', q'. split; [exact E|]. intros b. rewrite Hh'.
    destruct (decide (b = a)) as [->|Hne].
    + rewrite lookup_delete_eq, (decide_True (P:=a ∈ a :: _)) by (by left).
      by case_decide.
    + rewrite lookup_delete_ne by done. do 2 case_decide; set_solver.
Qed.

End queue.

(** ** Lists of threads *)

Implicit Types (ts : list pc) (t x : pc).

Definition is_busy (t : pc) : nat :=
  match t with Pulling | Running _ | Finishing => 1 | _ => 0 end.

Definition is_alive (t : pc) : nat :=
  match t with Starting | Exited => 0 | _ => 1 end.

Definition run_ptr (t : pc) : option Z :=
  match t with Running p => Some p | _ => None end.

Abbreviation total := (sum_list_with (A:=pc)).
Abbreviation running := (omap (M:=list) run_ptr).

Lemma total_insert w ts (i : nat) t t' :
  ts !! i = Some t -> (total w (<[i := t']> ts) + w t = total w ts + w t')%nat.
Proof.
  revert i. induction ts as [|x ts IH]; intros [|i]; cbn; [done..|by intros [= <-]; lia|].
  intros Hi. rewrite <-!Nat.add_assoc. f_equal. by apply IH.
Qed.

Lemma total_le w ts : (forall t, (w t <= 1)%nat) -> (total w ts <= length ts)%nat.
Proof. intros H. induction ts as [|t ts IH]; cbn; [lia|]. specialize (H t). lia. Qed.

Lemma total_room w ts (i : nat) t :
  (forall t, (w t <= 1)%nat) -> ts !! i = Some t -> (total w ts + 1 <= length ts + w t)%nat.
Proof.
  intros H. revert i. induction ts as [|x ts IH]; intros [|i]; cbn; [done..| |].
  - intros [= <-]. pose proof (total_le w ts H). lia.
  - intros Hi. specialize (IH i Hi). pose proof (H x). lia.
Qed.

Lemma total_zero w ts : total w ts = 0%nat -> forall t, t ∈ ts -> w t = 0%nat.
Proof.
  induction ts as [|x ts IH]; cbn; intros H t; [intros []%elem_of_nil|].
  intros [->|Hin]%elem_of_cons; [lia|]. apply IH; [lia|done].
Qed.

Lemma total_elem w ts t : t ∈ ts -> (w t <= total w ts)%nat.
Proof.
  induction ts as [|x ts IH]; [intros []%elem_of_nil|].
  cbn. intros [->|Hin]%elem_of_cons; [lia|]. specialize (IH Hin). lia.
Qed.

Lemma running_insert ts (i : nat) t t' :
  ts !! i = Some t ->
  running (<[i := t']> ts) ++ option_list (run_ptr t) ≡ₚ
    running ts ++ option_list (run_ptr t').
Proof.
  revert i. induction ts as [|x ts IH]; intros [|i]; cbn; [done..| |].
  - intros [= <-]. destruct (run_ptr x), (run_ptr t'); cbn; solve_Permutation.
  - intros Hi. specialize (IH i Hi). destruct (run_ptr x); cbn; by rewrite IH.
Qed.

Lemma running_insert_same ts (i : nat) t t' :
  ts !! i = Some t -> run_ptr t = None -> run_ptr t' = None ->
  running (<[i := t']> ts) = running ts.
Proof.
  revert i. induction ts as [|x ts IH]; intros [|i]; cbn; [done..| |].
  - intros [= <-] -> ->. done.
  - intros Hi H1 H2. specialize (IH i Hi H1 H2). destruct (run_ptr x); [f_equal|]; exact IH.
Qed.

Lemma elem_insert ts (i : nat) t t' x :
  ts !! i = Some t -> x ∈ ts -> x <> t -> x ∈ <[i := t']> ts.
Proof.
  intros Hi (j & Hj)%list_elem_of_lookup Hne. apply list_elem_of_lookup. exists j.
  rewrite list_lookup_insert_ne; [done|]. intros ->. congruence.
Qed.

Lemma elem_insert_new ts (i : nat) (t t' : pc) : ts !! i = Some t -> t' ∈ <[i := t']> ts.
Proof.
  intros Hi. apply list_elem_of_lookup. exists i. apply list_lookup_insert_eq.
  by eapply lookup_lt_Some.
Qed.

Lemma elem_insert_inv ts (i : nat) (t' x : pc) : x ∈ <[i := t']> ts -> x = t' \/ x ∈ ts.
Proof.
  intros (j & Hj)%list_elem_of_lookup.
  apply list_lookup_insert_Some in Hj as [(_ & <- & _)|[_ Hj]]; [by left|right].
  by eapply list_elem_of_lookup_2.
Qed.

(** *** Waking *)

Lemma lookup_wake w ts (i : nat) :
  wake w ts !! i =
    (fun t => if bool_decide (t = Sleeping /\ i ∈ w) then Trying else t) <$> ts !! i.
Proof. unfold wake. by rewrite list_lookup_imap. Qed.

Lemma wake_elem w ts t : t ∈ wake w ts -> t ∈ ts \/ t = Trying /\ Sleeping ∈ ts.
Proof.
  intros (i & Hi)%list_elem_of_lookup. rewrite lookup_wake in Hi.
  destruct (ts !! i) as [x|] eqn:E; [|done]. cbn in Hi. injection Hi as <-.
  pose proof (list_elem_of_lookup_2 _ _ _ E). case_bool_decide as H'; [|by left].
  right. destruct H' as [-> _]. done.
Qed.

Lemma elem_wake w ts t : t ∈ ts -> t <> Sleeping -> t ∈ wake w ts.
Proof.
  intros (i & Hi)%list_elem_of_lookup Ht. apply list_elem_of_lookup. exists i.
  rewrite lookup_wake, Hi. cbn. rewrite bool_decide_eq_false_2; [done|]. naive_solver.
Qed.

Lemma signal_post w ts :
  signal_ok w ts = true -> Trying ∈ wake w ts \/ Sleeping ∉ wake w ts.
Proof.
  unfold signal_ok. intros [H|H]%orb_true_iff.
  - right. apply bool_decide_eq_true in H. intros [?|[? _]]%wake_elem; done.
  - left. apply bool_decide_eq_true in H.
    destruct (decide (Trying ∈ wake w ts)) as [|Hn]; [done|]. destruct H.
    apply list_eq. intros i. rewrite lookup_wake.
    destruct (ts !! i) as [x|] eqn:E; [|done]. cbn. f_equal.
    case_bool_decide as Hw; [|done]. destruct Hn. apply list_elem_of_lookup. exists i.
    rewrite lookup_wake, E. cbn. by rewrite bool_decide_eq_true_2.
Qed.

(** What does not tell sleeping from trying threads. *)
Lemma wake_fmap {B} (f : pc -> B) w ts : f Sleeping = f Trying -> f <$> wake w ts = f <$> ts.
Proof.
  intros Hf. apply list_eq. intros i. rewrite !list_lookup_fmap, lookup_wake.
  destruct (ts !! i) as [x|]; [|done]. cbn. f_equal.
  case_bool_decide as H; [|done]. destruct H as [-> _]. done.
Qed.

Lemma total_wake f w ts : f Sleeping = f Trying -> total f (wake w ts) = total f ts.
Proof.
  intros Hf. assert (forall l, total f l = sum_list_with id (f <$> l)) as H.
  { induction l as [|x l IH]; cbn; [done|]. by rewrite IH. }
  by rewrite !H, wake_fmap.
Qed.

Lemma running_wake w ts : running (wake w ts) = running ts.
Proof.
  assert (forall l, running l = omap id (run_ptr <$> l)) as H.
  { induction l as [|x l IH]; cbn; [done|]. by rewrite IH. }
  by rewrite !H, wake_fmap.
Qed.

Lemma length_wake w ts : length (wake w ts) = length ts.
Proof. apply length_imap. Qed.

(** ** The invariant *)

Section inv.
Context {J : Type}.
Implicit Types (s : pool J) (xs : list (Z * J)) (h : gmap Z (job J)) (l : list J).

(** The jobs at some addresses. *)
Definition jobs_at h (ps : list Z) : list J := omap (fun p => j_fn <$> h !! p) ps.
Arguments jobs_at : simpl never.

(** Where [thpool_wait] is agrees with what was done. *)
Definition wait_ok xs l_added l_started (working : Z) (w : wpc J) : Prop :=
  match w with
  | WOut => True
  | WTry before => before `prefix_of` l_added
  | WLocked before => before `prefix_of` l_started
  | WSleep before => before `prefix_of` l_added /\ (xs <> [] \/ 0 < working)
  end.

Record core xs s : Prop := {
  c_queue : queue_rep (p_heap s) (p_queue s) xs;
  c_added : p_added s = p_started s ++ (snd <$> xs);
  c_ptrs : NoDup ((fst <$> xs) ++ running (p_threads s));
  c_run : forall p, p ∈ running (p_threads s) -> is_Some (p_heap s !! p);
  c_jobs : p_started s ≡ₚ p_done s ++ jobs_at (p_heap s) (running (p_threads s));
  c_small : length (p_threads s) < 2 ^ 31;
  c_working : p_working s = total is_busy (p_threads s);
  c_alive : p_alive s = total is_alive (p_threads s);
  c_value : q_v (p_queue s) = 0 \/ q_v (p_queue s) = 1;
  (** a waiting job is announced, or a thread is on its way to the queue *)
  c_announced : p_keepalive s = true -> xs <> [] ->
    q_v (p_queue s) = 1 \/ Got ∈ p_threads s \/ Pulling ∈ p_threads s;
  c_stay : p_keepalive s = true ->
    (Leaving ∉ p_threads s) /\ (Exited ∉ p_threads s);
  c_wait : wait_ok xs (p_added s) (p_started s) (p_working s) (p_waiter s)
}.

(** A posted semaphore has somebody looking at it, or nobody sleeping on it. *)
Definition heard s : Prop :=
  q_v (p_queue s) = 1 -> Trying ∈ p_threads s \/ Sleeping ∉ p_threads s.

Definition inv xs s : Prop := core xs s /\ heard s.

Lemma inv_init n : 0 <= n < 2 ^ 31 -> inv [] (thpool_init n).
Proof.
  intros Hn.
  assert (forall k, running (replicate k Starting) = []) as Hr by (by intros k; induction k).
  assert (forall f k, f Starting = 0%nat -> total f (replicate k Starting) = 0%nat) as Ht.
  { intros f k Hf. induction k as [|k IH]; [done|]. cbn. rewrite Hf. exact IH. }
  set (ts := replicate (Z.to_nat n) Starting).
  assert (forall t, t ∈ ts -> t = Starting) as Hel
    by (intros t [? _]%elem_of_replicate; done).
  split; [split|]; cbn; rewrite ?Hr, ?Ht by done; fold ts; try done.
  - split; cbn; [done..|lia|constructor].
  - constructor.
  - intros p []%elem_of_nil.
  - unfold ts. rewrite length_replicate. lia.
  - by left.
  - intros _. split; intros H%Hel; done.
Qed.

(** A thread moves without touching jobs. *)
Lemma core_move xs s (i : nat) t t' alive working v w :
  core xs s -> p_threads s !! i = Some t -> run_ptr t = None -> run_ptr t' = None ->
  alive + is_alive t = p_alive s + is_alive t' ->
  working + is_busy t = p_working s + is_busy t' ->
  v = q_v (p_queue s) \/ v = 0 /\ t' = Got ->
  (p_keepalive s = true -> t = Got -> t' = Pulling) ->
  (p_keepalive s = true -> t = Pulling -> xs = []) ->
  (p_keepalive s = true -> t' <> Leaving /\ t' <> Exited) ->
  wait_ok xs (p_added s) (p_started s) working w ->
  core xs (set_pc i t' (s <| p_alive := alive |> <| p_working := working |>
             <| p_queue := p_queue s <| q_v := v |> |> <| p_waiter := w |>)).
Proof.
  intros [C1 C2 C3 C4 C5 C6 C7 C8 C9 C10 C11 C12] Hi R R' Ha Hw Hv HG HP HL Hwait.
  pose proof (total_insert is_alive _ _ _ t' Hi) as Ta.
  pose proof (total_insert is_busy _ _ _ t' Hi) as Tb.
  pose proof (running_insert_same _ _ _ _ Hi R R') as Hr.
  split; cbn; rewrite ?Hr, ?length_insert; try done.
  - destruct C1. by split.
  - lia.
  - lia.
  - destruct Hv as [->|[-> _]]; [done|by left].
  - intros K Hx. destruct Hv as [->|[_ ->]]; cycle 1.
    { right. left. by eapply elem_insert_new. }
    destruct (C10 K Hx) as [?|[H|H]]; [by left|right..].
    + destruct (decide (t = Got)) as [Et|].
      * right. rewrite (HG K Et). by eapply elem_insert_new.
      * left. eapply elem_insert; [exact Hi|done|congruence].
    + destruct (decide (t = Pulling)) as [Et|].
      * by destruct (Hx (HP K Et)).
      * right. eapply elem_insert; [exact Hi|done|congruence].
  - intros K. destruct (C11 K) as [L E], (HL K) as [L' E'].
    split; intros [?|?]%elem_insert_inv; done.
Qed.

Definition moved s (i : nat) t' alive working v w : pool J :=
  set_pc i t' (s <| p_alive := alive |> <| p_working := working |>
    <| p_queue := p_queue s <| q_v := v |> |> <| p_waiter := w |>).

Lemma inv_move xs s (i : nat) t t' alive working v w :
  inv xs s -> p_threads s !! i = Some t -> run_ptr t = None -> run_ptr t' = None ->
  alive + is_alive t = p_alive s + is_alive t' ->
  working + is_busy t = p_working s + is_busy t' ->
  v = q_v (p_queue s) \/ v = 0 /\ t' = Got ->
  (v = 1 -> t <> Trying /\ t' <> Sleeping) ->
  (p_keepalive s = true -> t = Got -> t' = Pulling) ->
  (p_keepalive s = true -> t = Pulling -> xs = []) ->
  (p_keepalive s = true -> t' <> Leaving /\ t' <> Exited) ->
  wait_ok xs (p_added s) (p_started s) working w ->
  inv xs (moved s i t' alive working v w).
Proof.
  intros [C Hh] Hi R R' Ha Hw Hv Hv1 HG HP HL Hwait. split; [by eapply core_move|].
  intros E. cbn in E. subst v. destruct (Hv1 eq_refl) as [N1 N2].
  destruct Hv as [E|[? _]]; [|done]. destruct (Hh (eq_sym E)) as [H|H]; cbn.
  - left. by eapply elem_insert.
  - right. by intros [?|?]%elem_insert_inv.
Qed.

(** The states of the steps, as moves. *)
Lemma moved_eq s (i : nat) :
  (forall t' a, set_pc i t' (s <| p_alive := a |>) =
     moved s i t' a (p_working s) (q_v (p_queue s)) (p_waiter s)) /\
  (forall t', set_pc i t' s =
     moved s i t' (p_alive s) (p_working s) (q_v (p_queue s)) (p_waiter s)) /\
  (forall t' v, set_pc i t' (s <| p_queue := p_queue s <| q_v := v |> |>) =
     moved s i t' (p_alive s) (p_working s) v (p_waiter s)) /\
  (forall t' wk, set_pc i t' (s <| p_working := wk |>) =
     moved s i t' (p_alive s) wk (q_v (p_queue s)) (p_waiter s)) /\
  (forall t', set_pc i t' (s <| p_queue := p_queue s |>) =
     moved s i t' (p_alive s) (p_working s) (q_v (p_queue s)) (p_waiter s)) /\
  (forall t' wk w, set_pc i t' (s <| p_working := wk |> <| p_waiter := w |>) =
     moved s i t' (p_alive s) wk (q_v (p_queue s)) w).
Proof. destruct s as [? [] ? ? ? ? ? ? ? ?]. done. Qed.

Ltac solve_move := try done; cbn; auto; try lia; try (intros; congruence).

(** A step of a thread that neither takes nor finishes a job. *)
Lemma step_moves xs s (i : nat) w s' t :
  inv xs s -> p_threads s !! i = Some t -> run_ptr t = None ->
  (t = Pulling -> xs = []) -> thread_step i w s = Some s' -> inv xs s'.
Proof.
  intros Hinv Hi Hr HP. pose proof Hinv as [C _].
  pose proof (total_elem is_busy _ _ (list_elem_of_lookup_2 _ _ _ Hi)) as Hb.
  pose proof (total_elem is_alive _ _ (list_elem_of_lookup_2 _ _ _ Hi)) as Hal.
  pose proof (total_room is_busy _ _ _ ltac:(by intros []; cbn; lia) Hi) as Hb'.
  pose proof (total_room is_alive _ _ _ ltac:(by intros []; cbn; lia) Hi) as Hal'.
  pose proof (c_small _ _ C). pose proof (c_working _ _ C) as Ew.
  pose proof (c_alive _ _ C) as Ea. pose proof (c_wait _ _ C) as Hwait.
  destruct (moved_eq s i) as (M1 & M2 & M3 & M4 & M5 & M6).
  unfold thread_step. rewrite Hi. cbn [mbind option_bind].
  destruct t; try done; cbn [is_busy is_alive] in *.
  - destruct (locked s); [done|]. rewrite s32_id by lia. intros [= <-]. rewrite M1.
    eapply inv_move; solve_move.
  - intros [= <-]. rewrite M2. destruct (p_keepalive s) eqn:K; eapply inv_move; solve_move.
  - destruct (q_v (p_queue s) =? 1) eqn:Ev; zbool; intros [= <-].
    + rewrite M3. eapply inv_move; solve_move.
    + rewrite M2. eapply inv_move; solve_move.
  - destruct (p_keepalive s) eqn:K.
    + destruct (locked s); [done|]. rewrite s32_id by lia. intros [= <-]. rewrite M4.
      eapply inv_move; solve_move. destruct (p_waiter s); try done. cbn in Hwait |- *.
      destruct Hwait as [? [?|?]]; split; auto; right; lia.
    + intros [= <-]. rewrite M2. eapply inv_move; solve_move.
  - rewrite (HP eq_refl) in *. pose proof (pull_refines _ _ _ (c_queue _ _ C)) as ->.
    cbn [mbind option_bind Z.eqb]. rewrite M5. intros [= <-].
    eapply inv_move; solve_move.
  - destruct (locked s) eqn:L; [done|]. rewrite s32_id by lia. intros [= <-]. rewrite M6.
    eapply inv_move; solve_move.
    destruct (p_waiter s); cbn in Hwait |- *; repeat case_match; zbool; try done; cbn.
    + by destruct Hwait.
    + destruct Hwait as [? [?|?]]; split; auto; right; lia.
  - destruct (locked s); [done|]. rewrite s32_id by lia. intros [= <-]. rewrite M1.
    eapply inv_move; solve_move.
    intros K. destruct (c_stay _ _ C K) as [H1 _]. destruct H1.
    by eapply list_elem_of_lookup_2.
Qed.

(** *** Waking, taking and finishing *)

Lemma core_wake xs s w : core xs s -> core xs (s <| p_threads := wake w (p_threads s) |>).
Proof.
  intros [C1 C2 C3 C4 C5 C6 C7 C8 C9 C10 C11 C12].
  split; cbn; rewrite ?running_wake, ?length_wake, ?total_wake by done; try done.
  - intros K Hx. destruct (C10 K Hx) as [?|[?|?]]; auto using elem_wake.
  - intros K. destruct (C11 K) as [H1 H2].
    split; intros [?|[? _]]%wake_elem; done.
Qed.

Lemma inv_signal xs s w s' : core xs s -> signal w s = Some s' -> inv xs s'.
Proof.
  unfold signal. intros C. destruct (signal_ok w (p_threads s)) eqn:E; [|done].
  intros [= <-]. split; [by apply core_wake|]. intros _. cbn. by apply signal_post.
Qed.

Lemma jobs_at_app h ps qs : jobs_at h (ps ++ qs) = jobs_at h ps ++ jobs_at h qs.
Proof. unfold jobs_at. induction ps as [|p ps IH]; [done|]. cbn. rewrite IH. by case_match. Qed.

Lemma jobs_at_perm h ps qs : ps ≡ₚ qs -> jobs_at h ps ≡ₚ jobs_at h qs.
Proof. intros H. unfold jobs_at. by rewrite H. Qed.

Lemma jobs_at_ext h h' ps :
  (forall p, p ∈ ps -> h' !! p = h !! p) -> jobs_at h' ps = jobs_at h ps.
Proof.
  unfold jobs_at. induction ps as [|p ps IH]; intros H; [done|]. cbn.
  rewrite H by (by left). rewrite IH; [done|]. intros q Hq. apply H. by right.
Qed.

(** A thread takes the first job. *)
Lemma step_takes xs s (i : nat) w s' a f :
  inv ((a, f) :: xs) s -> p_threads s !! i = Some Pulling -> thread_step i w s = Some s' ->
  inv xs s'.
Proof.
  intros [C Hh] Hi. pose proof C as [C1 C2 C3 C4 C5 C6 C7 C8 C9 C10 C11 C12].
  destruct (pull_refines _ _ _ C1) as (Ha & [prev Ea] & q' & E & Hq & Hv).
  unfold thread_step. rewrite Hi. cbn [mbind option_bind]. rewrite E.
  cbn [mbind option_bind]. rewrite (proj2 (Z.eqb_neq _ _) Ha).
  change (p_heap (s <| p_queue := q' |>)) with (p_heap s). rewrite Ea.
  cbn [mbind option_bind j_fn].
  set (s1 := set_pc i (Running a) _).
  pose proof (running_insert _ _ _ (Running a) Hi) as Hr. cbn in Hr. rewrite app_nil_r in Hr.
  assert (core xs s1) as C'.
  { split; cbn.
    - done.
    - rewrite C2, <-app_assoc. done.
    - rewrite Hr, app_assoc. rewrite <-Permutation_cons_append. exact C3.
    - intros p. rewrite Hr, elem_of_app. intros [?|Hp]; [eauto|]. apply list_elem_of_singleton in Hp as ->. eauto.
    - rewrite (jobs_at_perm _ _ _ Hr), jobs_at_app. unfold jobs_at at 2. cbn. rewrite Ea.
      cbn. rewrite app_assoc. by rewrite C5.
    - by rewrite length_insert.
    - pose proof (total_insert is_busy _ _ _ (Running a) Hi). cbn in *. lia.
    - pose proof (total_insert is_alive _ _ _ (Running a) Hi). cbn in *. lia.
    - rewrite Hv. destruct (decide (xs = [])); auto.
    - intros K Hx. left. rewrite Hv. by destruct (decide (xs = [])).
    - intros K. destruct (C11 K). split; intros [?|?]%elem_insert_inv; done.
    - pose proof (total_elem is_busy _ _ (list_elem_of_lookup_2 _ _ _ Hi)). cbn in *.
      destruct (p_waiter s); cbn in *; try done.
      + by apply prefix_app_r.
      + split; [apply C12|]. right. lia. }
  case_bool_decide as Hx; [by apply inv_signal|]. intros [= <-]. split; [done|].
  subst xs.
  intros Hv1. cbn in Hv1 |- *. rewrite Hv, decide_True in Hv1 by done.
  destruct (Hh Hv1) as [H|H]; [left; by eapply elem_insert|right].
  by intros [?|?]%elem_insert_inv.
Qed.

(** A job is run and freed. *)
Lemma step_runs xs s (i : nat) w s' p :
  inv xs s -> p_threads s !! i = Some (Running p) -> thread_step i w s = Some s' ->
  inv xs s'.
Proof.
  intros [C Hh] Hi. pose proof C as [C1 C2 C3 C4 C5 C6 C7 C8 C9 C10 C11 C12].
  pose proof (running_insert _ _ _ Finishing Hi) as Hr. cbn in Hr. rewrite app_nil_r in Hr.
  unfold thread_step. rewrite Hi. cbn [mbind option_bind].
  destruct (p_heap s !! p) as [[prev f]|] eqn:Ep; [|done]. cbn [mbind option_bind j_fn].
  intros [= <-]. apply NoDup_app in C3 as (D1 & D2 & D3). rewrite <-Hr in D3.
  apply NoDup_app in D3 as (D3 & D4 & _).
  assert (p ∉ fst <$> xs) as Hpx.
  { intros Hin. apply (D2 p Hin). rewrite <-Hr. apply elem_of_app. right. by left. }
  assert (p ∉ running (<[i := Finishing]> (p_threads s))) as Hpr.
  { intros Hin. apply (D4 p Hin). by left. }
  split; [split|]; cbn.
  - destruct C1 as [Q1 Q2 Q3 Q4 Q5]. split; try done.
    by apply chain_delete.
  - done.
  - apply NoDup_app. split_and!; [done| |done]. intros a Ha Hin. apply (D2 a Ha).
    rewrite <-Hr. apply elem_of_app. by left.
  - intros a Ha. rewrite lookup_delete_ne by (by intros ->). apply C4. rewrite <-Hr.
    apply elem_of_app. by left.
  - rewrite (jobs_at_ext (p_heap s)).
    + rewrite C5, <-(jobs_at_perm _ _ _ Hr), jobs_at_app. unfold jobs_at at 2. cbn.
      rewrite Ep. cbn. rewrite <-app_assoc. f_equiv. apply Permutation_app_comm.
    + intros a Ha. rewrite lookup_delete_ne; [done|]. by intros ->.
  - by rewrite length_insert.
  - pose proof (total_insert is_busy _ _ _ Finishing Hi). cbn in *. lia.
  - pose proof (total_insert is_alive _ _ _ Finishing Hi). cbn in *. lia.
  - done.
  - intros K Hx. destruct (C10 K Hx) as [?|[?|?]]; [by left|right..].
    + left. by eapply elem_insert.
    + right. by eapply elem_insert.
  - intros K. destruct (C11 K). split; intros [?|?]%elem_insert_inv; done.
  - done.
  - intros Hv. destruct (Hh Hv) as [H|H]; [left; by eapply elem_insert|right].
    by intros [?|?]%elem_insert_inv.
Qed.

Lemma inv_thread xs s (i : nat) w s' :
  inv xs s -> thread_step i w s = Some s' -> exists xs', inv xs' s'.
Proof.
  intros Hinv E. destruct (p_threads s !! i) as [t|] eqn:Hi; cycle 1.
  { unfold thread_step in E. by rewrite Hi in E. }
  destruct t; try (exists xs; by eapply step_moves).
  - destruct xs as [|[a f] xs]; [exists []; by eapply step_moves|].
    exists xs. by eapply step_takes.
  - exists xs. by eapply step_runs.
Qed.

(** *** Users of the pool *)

Lemma inv_waiter xs s w :
  inv xs s -> wait_ok xs (p_added s) (p_started s) (p_working s) w ->
  inv xs (s <| p_waiter := w |>).
Proof. intros [[] ?] Hw. by split; [split|]. Qed.

Lemma inv_wait xs s s' : inv xs s -> thpool_wait_step s = Some s' -> inv xs s'.
Proof.
  intros Hinv. pose proof Hinv as [C _]. pose proof (c_wait _ _ C) as Hw.
  pose proof (c_working _ _ C) as Ew. pose proof (qr_len _ _ _ (c_queue _ _ C)) as El.
  pose proof (c_added _ _ C) as Ea. unfold thpool_wait_step.
  destruct (p_waiter s) as [|b|b|b]; try done; intros [= <-]; apply inv_waiter;
    try done; cbn in Hw; match goal with |- context [?x =? 0] =>
      destruct (Z.eqb_spec x 0) as [H|H] end; cbn.
  - rewrite H in El. destruct xs; [|cbn in El; lia]. cbn in Ea.
    by rewrite app_nil_r in Ea; rewrite <-Ea.
  - split; [done|left]. intros ->. done.
  - done.
  - split; [|right; lia]. rewrite Ea. by apply prefix_app_r.
Qed.

Lemma inv_add xs s newjob fn w r s' :
  inv xs s -> p_heap s !! newjob = None -> q_len (p_queue s) < 2 ^ 31 - 1 ->
  thpool_add_work newjob fn w s = Some (r, s') ->
  (r = -1 /\ newjob = 0 /\ s' = s) \/ (r = 0 /\ inv (xs ++ [(newjob, fn)]) s').
Proof.
  intros [C Hh] Hn Hl. pose proof C as [C1 C2 C3 C4 C5 C6 C7 C8 C9 C10 C11 C12].
  unfold thpool_add_work. destruct (newjob =? 0) eqn:E0; zbool.
  { intros [= <- <-]. by left. }
  destruct (push_refines _ _ _ newjob fn C1 Hn E0) as (h & q & -> & Hq & Hv & Ho & Hf).
  { pose proof (qr_len _ _ _ C1). lia. }
  cbn [mbind option_bind]. destruct (signal w _) as [s2|] eqn:E; [|done].
  cbn. intros [= <- <-]. right. split; [done|]. refine (inv_signal _ _ _ _ _ E).
  assert (newjob ∉ running (p_threads s)) as Hnr.
  { intros [? ?]%C4. congruence. }
  assert (forall p, p ∈ running (p_threads s) -> h !! p = p_heap s !! p) as Hh'.
  { intros p Hp. apply Ho. rewrite fmap_app, elem_of_app. intros [H|H].
    - apply NoDup_app in C3 as (_ & D & _). by apply (D p).
    - apply list_elem_of_singleton in H. cbn in H. by subst p. }
  split; cbn; try done.
  - by rewrite C2, <-app_assoc, fmap_app.
  - rewrite fmap_app, <-app_assoc. cbn. rewrite <-Permutation_middle.
    apply NoDup_cons. split; [|done]. rewrite elem_of_app. intros [H|H]; [|done].
    pose proof (qr_nodup _ _ _ Hq) as Hnd. rewrite fmap_app in Hnd.
    apply NoDup_app in Hnd as (_ & D & _). apply (D _ H). by left.
  - intros p Hp. rewrite Hh' by done. by apply C4.
  - by rewrite (jobs_at_ext (p_heap s)).
  - by right.
  - auto.
  - destruct (p_waiter s); cbn in *; try done.
    + by apply prefix_app_r.
    + split; [apply prefix_app_r, C12|left]. by destruct xs.
Qed.

Lemma inv_post_all xs s : inv xs s -> inv xs (bsem_post_all s).
Proof.
  intros [C Hh]. unfold bsem_post_all.
  assert ((fun t => if bool_decide (t = Sleeping) then Trying else t) <$> p_threads s =
          wake (seq 0 (length (p_threads s))) (p_threads s)) as ->.
  { apply list_eq. intros i. rewrite lookup_wake, list_lookup_fmap.
    destruct (p_threads s !! i) as [t|] eqn:Hi; [|done]. cbn. f_equal.
    pose proof (lookup_lt_Some _ _ _ Hi).
    assert (i ∈ seq 0 (length (p_threads s))) by (apply elem_of_seq; lia).
    repeat case_bool_decide; naive_solver. }
  split.
  - destruct (core_wake _ _ (seq 0 (length (p_threads s))) C) as [[] ? ? ? ? ? ? ? ? ? ? ?].
    split; cbn in *; try done; auto.
  - intros _. right. cbn. intros (i & Hi)%list_elem_of_lookup. rewrite lookup_wake in Hi.
    destruct (p_threads s !! i) as [t|] eqn:E; [|done]. cbn in Hi.
    pose proof (lookup_lt_Some _ _ _ E). case_bool_decide as Hc; [done|].
    destruct Hc. split; [congruence|]. apply elem_of_seq. lia.
Qed.

Lemma inv_step xs s s' : inv xs s -> step s s' -> exists xs', inv xs' s'.
Proof.
  intros Hinv Hs. destruct Hs as [s s' [i w s1 s2 E|s1 s2 E]|a f w s r s' Hn Hl E|s s' E|s|s|w s|s].
  - by eapply inv_thread.
  - exists xs. by eapply inv_wait.
  - destruct (inv_add _ _ _ _ _ _ _ Hinv Hn Hl E) as [(_ & _ & ->)|[_ ?]]; eauto.
  - exists xs. unfold thpool_wait_call in E. destruct (p_waiter s); try done.
    injection E as <-. apply inv_waiter; [done|]. cbn. reflexivity.
  - exists xs. destruct Hinv as [[] ?]. by split; [split|]; cbn.
  - exists xs. by apply inv_post_all.
  - exists xs. destruct Hinv as [C Hh]. split; [by apply core_wake|]. intros Hv.
    destruct (Hh Hv) as [H|H]; [left; by apply elem_wake|right].
    by intros [?|[? _]]%wake_elem.
  - exists xs. apply inv_waiter; [done|]. destruct Hinv as [C _].
    pose proof (c_wait _ _ C) as Hw. by destruct (p_waiter s); cbn in *; destruct_and?.
Qed.

Lemma reachable_inv n s : 0 <= n < 2 ^ 31 -> reachable n s -> exists xs, inv xs s.
Proof.
  intros Hn Hr. assert (exists xs, inv xs (thpool_init (J:=J) n)) as H
    by (eauto using inv_init).
  revert H. induction Hr as [s|s1 s2 s3 Hs _ IH]; [done|]. intros [xs Hinv].
  apply IH. by eapply inv_step.
Qed.

(** ** The pool's own activity ends *)

Definition weight (t : pc) : nat :=
  match t with
  | Sleeping | Exited => 0 | Trying | Leaving => 1 | AtLoop => 2 | Starting => 3
  | Finishing => 5 | Running _ => 6 | Pulling => 7 | Got => 8
  end.

Definition wait_weight (w : wpc J) : nat :=
  match w with WOut | WSleep _ => 0 | WLocked _ => 1 | WTry _ => 2 end.

(** A bound on the number of the pool's own steps. *)
Definition measure s : nat :=
  total weight (p_threads s) + 8 * Z.to_nat (q_v (p_queue s)) +
  (8 + length (p_threads s)) * Z.to_nat (q_len (p_queue s)) + wait_weight (p_waiter s).

Lemma weight_wake w ts : (total weight (wake w ts) <= total weight ts + length ts)%nat.
Proof.
  unfold wake.
  assert (forall k, (total weight (imap (fun i t =>
     if bool_decide (t = Sleeping /\ (k + i)%nat ∈ w) then Trying else t) ts) <=
     total weight ts + length ts)%nat) as H; [|exact (H 0%nat)].
  induction ts as [|t ts IH]; intros k; [done|]. rewrite imap_cons. cbn.
  assert (forall k i, (k + S i = S k + i)%nat) as E by lia.
  specialize (IH (S k)). cbn in IH.
  erewrite imap_ext; [|intros i x _; cbn; rewrite E; reflexivity].
  case_bool_decide as Hc; [destruct Hc as [-> _]|]; cbn in *; lia.
Qed.

Lemma measure_move s (i : nat) t t' alive working v w :
  p_threads s !! i = Some t ->
  (weight t' + 8 * Z.to_nat v + wait_weight w <
     weight t + 8 * Z.to_nat (q_v (p_queue s)) + wait_weight (p_waiter s))%nat ->
  (measure (moved s i t' alive working v w) < measure s)%nat.
Proof.
  intros Hi Hlt. pose proof (total_insert weight _ _ _ t' Hi).
  unfold measure. cbn -[Nat.mul]. rewrite length_insert. lia.
Qed.

Lemma measure_moves xs s (i : nat) w s' t :
  inv xs s -> p_threads s !! i = Some t -> run_ptr t = None ->
  (t = Pulling -> xs = []) -> thread_step i w s = Some s' -> (measure s' < measure s)%nat.
Proof.
  intros [C _] Hi Hr HP. destruct (moved_eq s i) as (M1 & M2 & M3 & M4 & M5 & M6).
  unfold thread_step. rewrite Hi. cbn [mbind option_bind].
  destruct t; try done.
  - destruct (locked s); [done|]. intros [= <-]. rewrite M1.
    eapply measure_move; [done|]. cbn. lia.
  - intros [= <-]. rewrite M2. eapply measure_move; [done|]. destruct (p_keepalive s); cbn; lia.
  - destruct (q_v (p_queue s) =? 1) eqn:Ev; zbool; intros [= <-].
    + rewrite M3. eapply measure_move; [done|]. rewrite Ev. cbn. lia.
    + rewrite M2. eapply measure_move; [done|]. cbn. lia.
  - destruct (p_keepalive s) eqn:K.
    + destruct (locked s); [done|]. intros [= <-]. rewrite M4.
      eapply measure_move; [done|]. cbn. lia.
    + intros [= <-]. rewrite M2. eapply measure_move; [done|]. cbn. lia.
  - rewrite (HP eq_refl) in *. pose proof (pull_refines _ _ _ (c_queue _ _ C)) as ->.
    cbn [mbind option_bind Z.eqb]. rewrite M5. intros [= <-].
    eapply measure_move; [done|]. cbn. lia.
  - destruct (locked s) eqn:L; [done|]. intros [= <-]. rewrite M6.
    eapply measure_move; [done|]. destruct (_ =? 0), (p_waiter s); cbn; lia.
  - destruct (locked s); [done|]. intros [= <-]. rewrite M1.
    eapply measure_move; [done|]. cbn. lia.
Qed.

Lemma measure_takes xs s (i : nat) w s' a f :
  inv ((a, f) :: xs) s -> p_threads s !! i = Some Pulling -> thread_step i w s = Some s' ->
  (measure s' < measure s)%nat.
Proof.
  intros [C _] Hi. pose proof (c_queue _ _ C) as Q. pose proof (qr_len _ _ _ Q) as El.
  destruct (pull_refines _ _ _ Q) as (Ha & [prev Ea] & q' & E & Hq & Hv).
  pose proof (qr_len _ _ _ Hq) as El'.
  unfold thread_step. rewrite Hi. cbn [mbind option_bind]. rewrite E.
  cbn [mbind option_bind]. rewrite (proj2 (Z.eqb_neq _ _) Ha).
  change (p_heap (s <| p_queue := q' |>)) with (p_heap s). rewrite Ea.
  cbn [mbind option_bind j_fn].
  set (s1 := set_pc i (Running a) _).
  assert (measure s1 + length (p_threads s) < measure s)%nat as H1.
  { pose proof (total_insert weight _ _ _ (Running a) Hi) as Ht. cbn in Ht.
    unfold measure. cbn -[Nat.mul]. rewrite length_insert. rewrite El, El'.
    assert (Z.to_nat (q_v q') <= 1)%nat
      by (pose proof (c_value _ _ C); rewrite Hv; destruct (decide (xs = [])); lia).
    rewrite !Nat2Z.id. cbn [length]. lia. }
  assert (length (p_threads s1) = length (p_threads s)) as E1 by (cbn; by rewrite length_insert).
  case_bool_decide; [|intros [= <-]; lia]. clearbody s1.
  unfold signal. destruct (signal_ok _ _); [|done]. intros [= <-].
  pose proof (weight_wake w (p_threads s1)) as Hw.
  unfold measure in *. cbn -[Nat.mul Nat.add]. rewrite length_wake. lia.
Qed.

Lemma measure_step xs s s' : inv xs s -> istep s s' -> (measure s' < measure s)%nat.
Proof.
  intros Hinv Hs. destruct Hs as [i w s1 s2 E|s1 s2 E].
  - destruct (p_threads s1 !! i) as [t|] eqn:Hi; cycle 1.
    { unfold thread_step in E. by rewrite Hi in E. }
    destruct t; try by eapply measure_moves.
    + destruct xs as [|[a f] xs]; [|by eapply measure_takes].
      exact (measure_moves [] _ _ _ _ _ Hinv Hi eq_refl (fun _ => eq_refl) E).
    + unfold thread_step in E. rewrite Hi in E. cbn [mbind option_bind] in E.
      destruct (p_heap s1 !! job_p) as [j|]; [|done]. injection E as <-.
      pose proof (total_insert weight _ _ _ Finishing Hi) as Ht. cbn in Ht.
      unfold measure. cbn -[Nat.mul]. rewrite length_insert. lia.
  - unfold thpool_wait_step in E. unfold measure.
    destruct (p_waiter s1) eqn:Ew; try done; injection E as <-; cbn -[Nat.mul];
      destruct (_ =? 0); cbn -[Nat.mul]; lia.
Qed.

(** What the pool's own steps do not change. *)
Definition wait_before (w : wpc J) : option (list J) :=
  match w with WOut => None | WTry b | WLocked b | WSleep b => Some b end.

Lemma before_broadcast w : wait_before (broadcast_idle w) = wait_before w.
Proof. by destruct w. Qed.

Lemma thread_kept s (i : nat) w s' :
  thread_step i w s = Some s' -> p_added s' = p_added s /\
    p_keepalive s' = p_keepalive s /\ length (p_threads s') = length (p_threads s) /\
    wait_before (p_waiter s') = wait_before (p_waiter s).
Proof.
  intros E. unfold thread_step, signal in E. destruct (p_threads s !! i) as [t|]; [|done].
  cbn [mbind option_bind] in E. destruct t.
  6: { destruct (jobqueue_pull _ _) as [[[p b] q]|]; [|done].
    cbn [mbind option_bind] in E. change (p_heap (s <| p_queue := q |>)) with (p_heap s) in E.
    destruct (p =? 0), (p_heap s !! p), b; cbn [mbind option_bind] in E; try done;
      try (destruct (signal_ok _ _); [|done]); injection E as <-; cbn;
      rewrite ?length_wake, ?length_insert; done. }
  6: destruct (p_heap s !! job_p); [|done].
  all: cbn [mbind option_bind] in E; try done; repeat case_match; try done;
    injection E as <-; cbn; rewrite ?length_insert, ?before_broadcast; done.
Qed.

Lemma istep_kept s s' :
  istep s s' -> p_added s' = p_added s /\ p_keepalive s' = p_keepalive s /\
    length (p_threads s') = length (p_threads s).
Proof.
  intros Hs. destruct Hs as [i w s s' E|s s' E].
  - apply thread_kept in E. naive_solver.
  - unfold thpool_wait_step in E. by repeat case_match; simplify_eq.
Qed.

(** Some signal is always possible. *)
Lemma signal_some s : exists w, is_Some (signal w s).
Proof.
  exists (seq 0 (length (p_threads s))). unfold signal.
  assert (signal_ok (seq 0 (length (p_threads s))) (p_threads s) = true) as ->; [|by eexists].
  unfold signal_ok. rewrite orb_true_iff, !bool_decide_eq_true.
  destruct (decide (Sleeping ∈ p_threads s)) as [Hin|]; [right|by left].
  apply list_elem_of_lookup in Hin as [i Hi]. intros E.
  apply (f_equal (.!! i)) in E. rewrite lookup_wake, Hi in E. cbn in E.
  rewrite bool_decide_eq_true_2 in E; [done|].
  split; [done|]. apply elem_of_seq. pose proof (lookup_lt_Some _ _ _ Hi). lia.
Qed.

Definition drained s : Prop :=
  p_done s ≡ₚ p_added s /\ p_waiter s = WOut /\ Forall (eq Sleeping) (p_threads s).

(** A thread of a live pool that does not sleep can move. *)
Lemma thread_moves xs s (i : nat) t :
  inv xs s -> p_keepalive s = true -> locked s = false ->
  p_threads s !! i = Some t -> t <> Sleeping -> exists w s', thread_step i w s = Some s'.
Proof.
  intros [C _] K L Hi Ht. destruct (c_stay _ _ C K) as [HL HE].
  pose proof (list_elem_of_lookup_2 _ _ _ Hi) as Hin.
  unfold thread_step. rewrite Hi. cbn [mbind option_bind]. rewrite K, L.
  destruct t; try done; try (by exists [], (_ : pool J)); try (by exists []; eexists).
  - destruct (q_v (p_queue s) =? 1); exists []; by eexists.
  - pose proof (pull_refines _ _ _ (c_queue _ _ C)) as Hp. destruct xs as [|[a f] xs].
    + rewrite Hp. exists []. by eexists.
    + destruct Hp as (Ha & [prev Ea] & q' & -> & _). cbn [mbind option_bind].
      rewrite (proj2 (Z.eqb_neq _ _) Ha).
      change (p_heap (s <| p_queue := q' |>)) with (p_heap s). rewrite Ea.
      cbn [mbind option_bind]. case_bool_decide; [|exists []; by eexists].
      match goal with |- context [signal _ ?x] => destruct (signal_some x) as [w [y Hy]] end.
      exists w, y. exact Hy.
  - destruct (c_run _ _ C job_p) as [j ->]; [|exists []; by eexists].
    apply list_elem_of_omap. by exists (Running job_p).
Qed.

Lemma progress xs s :
  inv xs s -> p_keepalive s = true -> p_threads s <> [] ->
  drained s \/ exists s', istep s s'.
Proof.
  intros Hinv K Hne. destruct (thpool_wait_step s) as [s'|] eqn:Ew.
  { right. exists s'. by apply step_wait. }
  assert (locked s = false) as L
    by (unfold thpool_wait_step, locked in *; by destruct (p_waiter s)).
  destruct (decide (Forall (eq Sleeping) (p_threads s))) as [Ha|Ha]; cycle 1.
  { apply not_Forall_Exists, Exists_exists in Ha as (t & Hin & Ht); [|apply _].
    apply list_elem_of_lookup in Hin as [i Hi]. right.
    destruct (thread_moves _ _ _ _ Hinv K L Hi) as (w & s' & E); [congruence|].
    exists s'. by eapply step_thread. }
  left. destruct Hinv as [C Hh]. rewrite Forall_forall in Ha.
  assert (Sleeping ∈ p_threads s) as Hsl.
  { destruct (p_threads s) as [|t ts]; [done|]. rewrite (Ha t) by (by left). by left. }
  assert (xs = []) as ->.
  { destruct xs as [|x xs]; [done|]. exfalso.
    destruct (c_announced _ _ C K) as [Hv|[H|H]]; [done| |by apply Ha in H..].
    destruct (Hh Hv) as [H|H]; [by apply Ha in H|done]. }
  assert (running (p_threads s) = []) as Hr.
  { revert Ha. clear. induction (p_threads s) as [|t ts IH]; intros Ha; [done|]. cbn.
    rewrite <-(Ha t) by (by left). apply IH. intros x Hx. apply Ha. by right. }
  assert (p_working s = 0) as Hw.
  { rewrite (c_working _ _ C). revert Ha. clear. induction (p_threads s) as [|t ts IH];
      intros Ha; [done|]. cbn. rewrite <-(Ha t) by (by left). apply IH.
    intros x Hx. apply Ha. by right. }
  pose proof (c_added _ _ C) as Ead. pose proof (c_jobs _ _ C) as Ej.
  pose proof (c_wait _ _ C) as Hwt. split_and!.
  - rewrite Hr in Ej. cbn in Ej. rewrite app_nil_r in *. by rewrite Ead, Ej.
  - unfold thpool_wait_step in Ew. destruct (p_waiter s); try done.
    cbn in Hwt. destruct Hwt as [_ [?|?]]; [done|lia].
  - by apply Forall_forall.
Qed.

(** ** Histories *)

(** Every step keeps the number of threads and extends the jobs added; a caller
    of [thpool_wait] waits for the jobs added when it called. *)
Lemma step_history s s' :
  step s s' -> length (p_threads s') = length (p_threads s) /\
    p_added s `prefix_of` p_added s' /\
    (wait_before (p_waiter s') = wait_before (p_waiter s) \/ p_waiter s' = WOut \/
     wait_before (p_waiter s') = Some (p_added s')).
Proof.
  intros Hs. destruct Hs as [s s' [i w s1 s2 E|s1 s2 E]|a f w s r s' _ _ E|s s' E|s|s|w s|s].
  - apply thread_kept in E as (-> & _ & -> & ->). auto.
  - unfold thpool_wait_step in E. repeat case_match; simplify_eq; cbn; auto.
  - unfold thpool_add_work, signal in E. destruct (a =? 0); [injection E as <- <-; auto|].
    destruct (jobqueue_push _ _ _) as [[h q]|]; [|done]. cbn [mbind option_bind] in E.
    destruct (signal_ok _ _); [|done]. injection E as <- <-. cbn. rewrite length_wake.
    split_and!; [done|by apply prefix_app_r|auto].
  - unfold thpool_wait_call in E. case_match; simplify_eq; cbn; auto.
  - cbn. auto.
  - cbn. rewrite length_fmap. auto.
  - cbn. rewrite length_wake. auto.
  - cbn. rewrite before_broadcast. auto.
Qed.

Lemma steps_threads s s' : rtc step s s' -> length (p_threads s') = length (p_threads s).
Proof.
  induction 1 as [|s s1 s2 Hs _ IH]; [done|]. apply step_history in Hs as (E & _). congruence.
Qed.

Definition waits_for l s : Prop :=
  l `prefix_of` p_added s /\ forall b, wait_before (p_waiter s) = Some b -> l `prefix_of` b.

Lemma steps_waits_for l s s' : rtc step s s' -> waits_for l s -> waits_for l s'.
Proof.
  induction 1 as [|s s1 s2 Hs _ IH]; [done|]. intros [Ha Hb]. apply IH.
  apply step_history in Hs as (_ & Hp & Hw). assert (l `prefix_of` p_added s1) by (by trans (p_added s)).
  split; [done|]. intros b E. destruct Hw as [Hw|[Hw|Hw]].
  - apply Hb. congruence.
  - by rewrite Hw in E.
  - congruence.
Qed.

Lemma isteps_kept s s' :
  rtc istep s s' -> p_added s' = p_added s /\ p_keepalive s' = p_keepalive s.
Proof.
  induction 1 as [|s s1 s2 Hs _ IH]; [done|]. apply istep_kept in Hs. naive_solver congruence.
Qed.

Lemma isteps_bounded xs s k s' :
  inv xs s -> nsteps istep k s s' -> (k + measure s' <= measure s)%nat.
Proof.
  intros Hinv Hs. revert xs Hinv. induction Hs as [s|k s s1 s2 H1 _ IH]; intros xs Hinv; [lia|].
  pose proof (measure_step _ _ _ Hinv H1).
  destruct (inv_step _ _ _ Hinv (step_internal _ _ H1)) as [xs1 Hinv1].
  specialize (IH xs1 Hinv1). lia.
Qed.

Lemma reachable_steps n s s' : reachable n s -> rtc step s s' -> reachable n s'.
Proof. unfold reachable. intros; by etrans. Qed.

(** C20: The thread pool works off its jobs.  From every reachable state of a pool
    with at least one thread that is not being destroyed, the pool's own steps
    ([thread_do] and [thpool_wait]) can only go on for a bounded number of steps,
    and as long as not every job added is done, every thread sleeps on the
    semaphore and no caller waits, some step is possible: no wake-up is lost. *)
Theorem pool_drains (n : Z) (s : pool J) :
  0 < n < 2 ^ 31 -> reachable n s -> p_keepalive s = true ->
  (forall k s', nsteps istep k s s' -> (k <= measure s)%nat) /\
  (forall s', rtc istep s s' ->
     p_added s' = p_added s /\ (drained s' \/ exists s'', istep s' s'')).
Proof.
  intros Hn Hr K. destruct (reachable_inv n s) as [xs Hinv]; [lia|done|]. split.
  - intros k s' Hs. pose proof (isteps_bounded _ _ _ _ Hinv Hs). lia.
  - intros s' Hs. destruct (isteps_kept _ _ Hs) as [Ea Ek]. split; [done|].
    assert (reachable n s') as Hr'.
    { apply (reachable_steps n s); [done|]. revert Hs. apply rtc_subrel. intros x y. apply step_internal. }
    destruct (reachable_inv n s') as [xs' Hinv']; [lia|done|].
    eapply progress; [done|congruence|]. apply steps_threads in Hr'. cbn in Hr'.
    rewrite length_replicate in Hr'. intros E. rewrite E in Hr'. cbn in Hr'. lia.
Qed.

(** C21: When [thpool_wait] returns, every job added before any earlier call of it
    has been run to its end: looking at the queue and at the counter of working
    threads is enough, because a thread is counted before it takes a job. *)
Theorem thpool_wait_all_done (n : Z) (s0 s1 s s' : pool J) :
  0 <= n < 2 ^ 31 -> reachable n s0 -> thpool_wait_call s0 = Some s1 -> rtc step s1 s ->
  thpool_wait_step s = Some s' -> p_waiter s' = WOut ->
  p_added s0 ⊆+ p_done s' /\ p_working s' = 0.
Proof.
  intros Hn Hr Ec Hs Ew Hout. assert (step s0 s1) as H01 by (by apply step_call).
  unfold thpool_wait_call in Ec. destruct (p_waiter s0) eqn:E0; try done.
  injection Ec as <-.
  destruct (steps_waits_for (p_added s0) _ _ Hs) as [_ Hb].
  { split; [done|]. by intros b [= <-]. }
  destruct (reachable_inv n s) as [xs [C _]]; [lia| |].
  { apply (reachable_steps n s0); [done|]. by eapply rtc_l. }
  pose proof (c_wait _ _ C) as Hw. unfold thpool_wait_step in Ew.
  destruct (p_waiter s) as [|b|b|b] eqn:E; try done; injection Ew as <-; cbn in Hout;
    destruct (_ =? 0) eqn:Ez in Hout; try done. zbool. cbn in Hw |- *. split; [|done].
  assert (running (p_threads s) = []) as Hrun.
  { rewrite (c_working _ _ C) in Ez. assert (total is_busy (p_threads s) = 0%nat) as Z0 by lia.
    apply elem_of_nil_inv. intros p (t & Hin & Ht)%list_elem_of_omap.
    pose proof (total_zero _ _ Z0 _ Hin). by destruct t. }
  pose proof (c_jobs _ _ C) as Ej. rewrite Hrun in Ej. cbn in Ej. rewrite app_nil_r in Ej.
  rewrite <-Ej. assert (p_added s0 `prefix_of` p_started s) as [k ->]
    by (trans b; [by apply Hb|done]).
  by apply submseteq_inserts_r.
Qed.

(** C22: In every history the threads take the jobs in the order in which they
    were added, and run each of them once: the jobs taken are a prefix of the jobs
    added, and they are the jobs done together with those being run, one per
    running thread. *)
Theorem jobs_run_once (n : Z) (s : pool J) :
  0 <= n < 2 ^ 31 -> reachable n s ->
  p_started s `prefix_of` p_added s /\
  (exists now, p_started s ≡ₚ p_done s ++ now /\
     length now = length (filter (fun t => is_Some (run_ptr t)) (p_threads s))) /\
  p_working s = length (filter (fun t => is_busy t = 1%nat) (p_threads s)).
Proof.
  intros Hn Hr. destruct (reachable_inv n s) as [xs [C _]]; [lia|done|]. split_and!.
  - rewrite (c_added _ _ C). by apply prefix_app_r.
  - exists (jobs_at (p_heap s) (running (p_threads s))). split; [apply C|].
    pose proof (c_run _ _ C) as Hrun. revert Hrun. generalize (p_threads s). intros ts.
    induction ts as [|t ts IH]; intros Hrun; [done|]. rewrite filter_cons.
    destruct t; cbn in Hrun |- *; rewrite ?decide_False by (by intros [? ?]); try (by apply IH).
    rewrite decide_True by (by eexists). unfold jobs_at. cbn.
    destruct (Hrun job_p) as [j ->]; [by left|]. cbn. f_equal. apply IH.
    intros p Hp. apply Hrun. by right.
  - rewrite (c_working _ _ C). f_equal. generalize (p_threads s). intros ts.
    induction ts as [|t ts IH]; [done|]. rewrite filter_cons.
    destruct t; cbn; by rewrite IH.
Qed.

End inv.

(** ** Examples *)

(** [k] steps of the first thread. *)
Fixpoint run_first {J} (k : nat) (s : pool J) : option (pool J) :=
  match k with O => Some s | S k => s ← thread_step 0 [] s; run_first k s end.

Lemma run_first_steps {J} k (s s' : pool J) : run_first k s = Some s' -> rtc step s s'.
Proof.
  revert s. induction k as [|k IH]; cbn; intros s E; [by injection E as <-|].
  destruct (thread_step 0 [] s) as [s1|] eqn:E1; [|done].
  eapply rtc_l; [|by apply IH]. by eapply step_internal, step_thread.
Qed.

(** A pool of one thread to which one job was added; the job being run; a caller
    of [thpool_wait] about to return after it. *)
Definition example_added : pool nat := Eval vm_compute in
  default (thpool_init 1) (snd <$> thpool_add_work 8 5%nat [] (thpool_init 1)).

Definition example_running : pool nat := Eval vm_compute in
  default example_added (run_first 5 example_added).

Definition example_called : pool nat := Eval vm_compute in
  default example_added (thpool_wait_call example_added).

Definition example_worked : pool nat := Eval vm_compute in
  default example_called (run_first 7 example_called).

Definition example_returning : pool nat := Eval vm_compute in
  default example_called (thpool_wait_step example_worked).

Lemma example_reachable : reachable 1 example_added.
Proof. eapply rtc_once, (step_add 8 5%nat [] _ 0); vm_compute; reflexivity. Qed.

Lemma example_returning_steps : rtc step example_called example_returning.
Proof.
  eapply rtc_r; [apply (run_first_steps 7 _ example_worked); vm_compute; reflexivity|].
  apply step_internal, step_wait. vm_compute. reflexivity.
Qed.

Lemma pool_drains_witness :
  p_added example_added = [5%nat] /\
  (forall s, rtc istep example_added s ->
     p_added s = [5%nat] /\ (drained s \/ exists s', istep s s')).
Proof.
  split; [reflexivity|].
  exact (proj2 (pool_drains 1 example_added ltac:(lia) example_reachable eq_refl)).
Defined.

Lemma thpool_wait_all_done_witness :
  exists s', thpool_wait_step example_returning = Some s' /\
    [5%nat] ⊆+ p_done s' /\ p_working s' = 0.
Proof.
  eexists. split; [vm_compute; reflexivity|].
  apply (thpool_wait_all_done 1 example_added example_called example_returning _ ltac:(lia)
           example_reachable); [vm_compute; reflexivity|exact example_returning_steps|
           vm_compute; reflexivity|reflexivity].
Defined.

Lemma jobs_run_once_witness :
  p_started example_running = [5%nat] /\
  p_started example_running `prefix_of` p_added example_running.
Proof.
  split; [reflexivity|]. refine (proj1 (jobs_run_once 1 example_running ltac:(lia) _)).
  eapply reachable_steps; [exact example_reachable|].
  apply (run_first_steps 5). vm_compute. reflexivity.
Defined.

End ThPoolSpec.
