(* ===== verification/CacheMm.v ===== *)
(** * Buffers of the Poly cache ([polylib/src/cache_mm.c])

    The allocator of 2 MiB cache buffers.  [CacheAlloc] is what the cache uses
    of it and [CacheAllocLaws] what it relies on: buffers in use never overlap,
    and neither taking nor returning a buffer touches the bytes of another one.
    [Shm] is the allocator of the build with [POLYSTORE_POLYCACHE_SHM]: one
    bitmap per CPU over a shared region, scanned for the first clear bit; it is
    an instance of the interface.  The other build calls [posix_memalign]. *)

From S2P Require Import Prelude Defs Util Indexing.
Import Util.Util.

#[local] Open Scope Z_scope.

(** The bytes of the buffer at [q] are the same in both memories. *)
Definition same_buffer (q : Z) (m m' : mem) : Prop :=
  forall x, q <= x < q + NODE -> m' x = m x.

Definition MAP_FAILED : Z := 2 ^ 64 - 1.

(** A buffer address that can be accessed: neither NULL nor [MAP_FAILED]. *)
Definition valid_buf (addr : Z) : bool :=
  negb (addr =? 0) && negb (addr =? MAP_FAILED).

Definition apart (p q : Z) : Prop := p + NODE <= q \/ q + NODE <= p.

(** ** What the cache uses of the allocator *)

Class CacheAlloc (A : Type) := {
  (** [poly_cache_mm_alloc]: the address, 0 for NULL *)
  mm_alloc : A -> mem -> Z * A * mem;
  (** [poly_cache_mm_free] *)
  mm_free : A -> mem -> Z -> A * mem;
  mm_wf : A -> Prop;
  (** the buffers in use *)
  mm_live : A -> Z -> Prop;
  (** [n] more buffers are available *)
  mm_room : A -> nat -> Prop
}.

Class CacheAllocLaws (A : Type) `{CacheAlloc A} : Prop := {
  mm_alloc_wf : forall a m p a' m',
    mm_wf a -> mm_alloc a m = (p, a', m') -> mm_wf a';
  mm_live_valid : forall a p, mm_wf a -> mm_live a p -> valid_buf p = true;
  mm_live_apart : forall a p q,
    mm_wf a -> mm_live a p -> mm_live a q -> p <> q -> apart p q;
  mm_alloc_live : forall a m p a' m',
    mm_wf a -> mm_alloc a m = (p, a', m') -> p <> 0 ->
    ~ mm_live a p /\ forall q, mm_live a' q <-> q = p \/ mm_live a q;
  mm_alloc_frame : forall a m p a' m' q,
    mm_wf a -> mm_alloc a m = (p, a', m') -> mm_live a q -> same_buffer q m m';
  mm_alloc_room : forall a m n,
    mm_wf a -> mm_room a (S n) ->
    exists p a' m', mm_alloc a m = (p, a', m') /\ p <> 0 /\ mm_room a' n;
  mm_room_le : forall a n, mm_room a (S n) -> mm_room a n;
  mm_free_wf : forall a m p a' m',
    mm_wf a -> mm_live a p -> mm_free a m p = (a', m') -> mm_wf a';
  mm_free_live : forall a m p a' m',
    mm_wf a -> mm_live a p -> mm_free a m p = (a', m') ->
    forall q, mm_live a' q <-> mm_live a q /\ q <> p;
  mm_free_frame : forall a m p a' m' q,
    mm_wf a -> mm_live a p -> mm_free a m p = (a', m') ->
    mm_live a q -> q <> p -> same_buffer q m m'
}.

(** ** The shared memory allocator *)

Module Shm.

Definition CPU_MAX : Z := 64.
Definition POLY_CACHE_PER_CPU_LIST_ENTRY_SZ : Z := 4096.
Definition POLY_CACHE_PER_CPU_LIST_SZ : Z := 512.
Definition POLY_CACHE_PER_CPU_SIZE_SHIFT : Z := 33.

Definition POLY_CACHE_GET_CPU (vaddr : Z) : Z :=
  Z.shiftr (u64 (vaddr - POLY_CACHE_VADDR_BASE)) POLY_CACHE_PER_CPU_SIZE_SHIFT.
Definition POLY_CACHE_GET_FREE_LIST_INDEX (vaddr cpu_id : Z) : Z :=
  Z.shiftr
    (u64 (vaddr - POLY_CACHE_VADDR_BASE -
          u64 (Z.shiftl cpu_id POLY_CACHE_PER_CPU_SIZE_SHIFT)))
    POLY_INDEX_NODE_SIZE_SHIFT.
Definition POLY_CACHE_BUF_VADDR (cpu_id list_id : Z) : Z :=
  u64 (POLY_CACHE_VADDR_BASE +
       u64 (Z.shiftl cpu_id POLY_CACHE_PER_CPU_SIZE_SHIFT) +
       u64 (Z.shiftl list_id POLY_INDEX_NODE_SIZE_SHIFT)).

(** [poly_cache_free_list], and the CPU recorded in the task's context. *)
Record shm := ShmState {
  shm_cpu : Z;                    (* tls_task_ctx.cpu_id *)
  shm_free_list : list (list Z)   (* bitmap_t *[CPU_MAX] *)
}.

(** [poly_cache_mm_init], once the region is mapped: the bitmaps are those of
    the zeroed control variables. *)
Definition poly_cache_mm_init (cpu : Z) : shm :=
  ShmState cpu (replicate (Z.to_nat CPU_MAX)
                  (replicate (Z.to_nat POLY_CACHE_PER_CPU_LIST_SZ) 0)).

(** The loop of [poly_cache_mm_alloc] over the [n] entries from [i] on. *)
Fixpoint take_free (n : nat) (i : Z) (shm_list : list Z) : Z * list Z :=
  match n with
  | O => (i, shm_list)
  | S n => if get_bitmap shm_list i =? 0 then (i, set_bitmap shm_list i)
           else take_free n (i + 1) shm_list
  end.

(** [None]: the CPU number is outside the array of bitmaps. *)
Definition poly_cache_mm_alloc (s : shm) : option (Z * shm) :=
  let cpu_id := shm_cpu s in
  if (cpu_id <? 0) || (CPU_MAX <=? cpu_id) then None
  else
    shm_list ← shm_free_list s !! Z.to_nat cpu_id;
    let '(i, shm_list) :=
      take_free (Z.to_nat POLY_CACHE_PER_CPU_LIST_ENTRY_SZ) 0 shm_list in
    let s := ShmState cpu_id
               (<[Z.to_nat cpu_id := shm_list]> (shm_free_list s)) in
    if i <? POLY_CACHE_PER_CPU_LIST_ENTRY_SZ
    then Some (POLY_CACHE_BUF_VADDR cpu_id i, s) else Some (0, s).

Definition poly_cache_mm_free (s : shm) (buf : Z) : option shm :=
  let cpu_id := s32 (POLY_CACHE_GET_CPU buf) in
  let list_id := s32 (POLY_CACHE_GET_FREE_LIST_INDEX buf (u64 cpu_id)) in
  if (cpu_id <? 0) || (CPU_MAX <=? cpu_id) then None
  else
    shm_list ← shm_free_list s !! Z.to_nat cpu_id;
    Some (ShmState (shm_cpu s)
            (<[Z.to_nat cpu_id := unset_bitmap shm_list list_id]>
               (shm_free_list s))).

(** *** Addresses *)

Definition slot_ok (cpu id : Z) : Prop :=
  0 <= cpu < CPU_MAX /\ 0 <= id < POLY_CACHE_PER_CPU_LIST_ENTRY_SZ.

Lemma vaddr_sum cpu id :
  slot_ok cpu id ->
  POLY_CACHE_BUF_VADDR cpu id =
    POLY_CACHE_VADDR_BASE + cpu * 2 ^ 33 + id * 2 ^ 21.
Proof.
  intros [Hc Hi]. unfold CPU_MAX, POLY_CACHE_PER_CPU_LIST_ENTRY_SZ in *.
  unfold POLY_CACHE_BUF_VADDR, POLY_CACHE_VADDR_BASE.
  change POLY_CACHE_PER_CPU_SIZE_SHIFT with 33.
  change POLY_INDEX_NODE_SIZE_SHIFT with 21.
  rewrite !Z.shiftl_mul_pow2 by lia.
  rewrite (u64_id (cpu * _)), (u64_id (id * _)) by lia. by words.
Qed.

(** The CPU and the position in its list are read back from the address. *)
Lemma vaddr_parts cpu id :
  slot_ok cpu id ->
  let p := POLY_CACHE_BUF_VADDR cpu id in
  POLY_CACHE_GET_CPU p = cpu /\ POLY_CACHE_GET_FREE_LIST_INDEX p cpu = id.
Proof.
  intros H p. unfold p. rewrite (vaddr_sum _ _ H). destruct H as [Hc Hi].
  unfold CPU_MAX, POLY_CACHE_PER_CPU_LIST_ENTRY_SZ in *.
  unfold POLY_CACHE_GET_CPU, POLY_CACHE_GET_FREE_LIST_INDEX, POLY_CACHE_VADDR_BASE.
  change POLY_CACHE_PER_CPU_SIZE_SHIFT with 33.
  change POLY_INDEX_NODE_SIZE_SHIFT with 21.
  rewrite Z.shiftl_mul_pow2 by lia. rewrite (u64_id (cpu * _)) by lia. words.
  rewrite !Z.shiftr_div_pow2 by lia. split; symmetry.
  - apply Z.div_unique with (id * 2 ^ 21); lia.
  - apply Z.div_unique with 0; lia.
Qed.

Lemma vaddr_inj c1 i1 c2 i2 :
  slot_ok c1 i1 -> slot_ok c2 i2 ->
  POLY_CACHE_BUF_VADDR c1 i1 = POLY_CACHE_BUF_VADDR c2 i2 -> c1 = c2 /\ i1 = i2.
Proof.
  intros H1 H2 E. destruct (vaddr_parts _ _ H1) as [A1 B1].
  destruct (vaddr_parts _ _ H2) as [A2 B2]. rewrite E, A2 in A1. subst c2.
  split; [done|]. by rewrite <-B1, E, B2.
Qed.

Lemma vaddr_aligned cpu id :
  slot_ok cpu id ->
  0 < POLY_CACHE_BUF_VADDR cpu id /\ POLY_CACHE_BUF_VADDR cpu id mod NODE = 0.
Proof.
  intros H. rewrite (vaddr_sum _ _ H), node_size_val. destruct H as [? ?].
  unfold POLY_CACHE_VADDR_BASE. split; [lia|].
  replace (_ + _ + _) with ((0x20000 + cpu * 2 ^ 12 + id) * 2 ^ 21) by lia.
  apply Z.mod_mul. lia.
Qed.

Lemma vaddr_range cpu id :
  slot_ok cpu id ->
  POLY_CACHE_VADDR_BASE <= POLY_CACHE_BUF_VADDR cpu id /\
  POLY_CACHE_BUF_VADDR cpu id + NODE <= POLY_CACHE_VADDR_BASE + POLY_CACHE_VADDR_RANGE.
Proof.
  intros H. rewrite (vaddr_sum _ _ H), node_size_val. destruct H as [? ?].
  unfold CPU_MAX, POLY_CACHE_PER_CPU_LIST_ENTRY_SZ, POLY_CACHE_VADDR_RANGE in *. lia.
Qed.

Lemma vaddr_apart c1 i1 c2 i2 :
  slot_ok c1 i1 -> slot_ok c2 i2 -> (c1, i1) <> (c2, i2) ->
  apart (POLY_CACHE_BUF_VADDR c1 i1) (POLY_CACHE_BUF_VADDR c2 i2).
Proof.
  intros H1 H2 Hne. rewrite !vaddr_sum by done. unfold apart.
  rewrite node_size_val. destruct H1, H2.
  unfold CPU_MAX, POLY_CACHE_PER_CPU_LIST_ENTRY_SZ in *.
  destruct (decide (c1 = c2)) as [->|]; [|lia].
  assert (i1 <> i2) by congruence. lia.
Qed.

(** *** Bitmaps *)

Definition list_ok (l : list Z) : Prop :=
  bitmap_wf POLY_CACHE_PER_CPU_LIST_ENTRY_SZ l.

Definition shm_wf (s : shm) : Prop :=
  0 <= shm_cpu s < CPU_MAX /\ zlength (shm_free_list s) = CPU_MAX /\
  Forall list_ok (shm_free_list s).

(** Whether the bit of a buffer is set. *)
Definition taken (s : shm) (cpu id : Z) : bool :=
  bitmap_bit (default [] (shm_free_list s !! Z.to_nat cpu)) id.

(** The entries of a bitmap that are free. *)
Definition free_ids (l : list Z) : list Z :=
  filter (fun i => bitmap_bit l i = false)
    (seqZ 0 POLY_CACHE_PER_CPU_LIST_ENTRY_SZ).

Definition shm_live (s : shm) (q : Z) : Prop :=
  exists cpu id, slot_ok cpu id /\ q = POLY_CACHE_BUF_VADDR cpu id /\
    taken s cpu id = true.

Definition shm_room (s : shm) (n : nat) : Prop :=
  (n <= length (free_ids (default [] (shm_free_list s !! Z.to_nat (shm_cpu s)))))%nat.

Lemma shm_list s cpu :
  shm_wf s -> 0 <= cpu < CPU_MAX ->
  exists l, shm_free_list s !! Z.to_nat cpu = Some l /\ list_ok l.
Proof.
  intros (_ & Hl & Hok) Hc.
  destruct (lookup_lt_is_Some_2 (shm_free_list s) (Z.to_nat cpu)) as [l E]; [lia|].
  exists l. split; [done|]. by eapply Forall_lookup_1.
Qed.

(** The scan stops at the first clear bit, if there is one. *)
Lemma take_free_spec (n : nat) : forall i l,
  let '(j, l') := take_free n i l in
  (forall k, i <= k < j -> bitmap_bit l k = true) /\
  ((j = i + n /\ l' = l) \/
   (i <= j < i + n /\ bitmap_bit l j = false /\ l' = set_bitmap l j)).
Proof.
  induction n as [|n IH]; intros i l; cbn [take_free].
  { split; [lia|]. left. split; [lia|done]. }
  rewrite get_bitmap_bit. destruct (bitmap_bit l i) eqn:E; cbn [Z.b2z].
  - change (1 =? 0) with false. cbv iota. specialize (IH (i + 1) l).
    destruct (take_free n (i + 1) l) as [j l'] eqn:Et. destruct IH as [Ha Hb].
    split; [|destruct Hb as [[? ?]|(? & ? & ?)]; [left|right]; split_and!; done || lia].
    intros k Hk. destruct (decide (k = i)) as [->|]; [done|]. apply Ha. lia.
  - change (0 =? 0) with true. cbv iota. split; [lia|]. right. split_and!; done || lia.
Qed.

Lemma elem_free_ids l i :
  i ∈ free_ids l <->
    bitmap_bit l i = false /\ 0 <= i < POLY_CACHE_PER_CPU_LIST_ENTRY_SZ.
Proof.
  unfold free_ids. rewrite list_elem_of_filter, elem_of_seqZ. by rewrite Z.add_0_l.
Qed.

Lemma free_ids_set l i :
  list_ok l -> i ∈ free_ids l ->
  free_ids l ≡ₚ i :: free_ids (set_bitmap l i).
Proof.
  intros Hl Hi. pose proof Hi as [Hb Hr]%elem_free_ids.
  assert (forall k, 0 <= k < POLY_CACHE_PER_CPU_LIST_ENTRY_SZ ->
    bitmap_bit (set_bitmap l i) k = (i =? k) || bitmap_bit l k) as Hset
    by (intros k Hk; by apply (set_bitmap_bit _ _ _ _ Hl)).
  apply NoDup_Permutation.
  - apply NoDup_filter, NoDup_seqZ.
  - constructor; [|apply NoDup_filter, NoDup_seqZ].
    rewrite elem_free_ids. intros [Hf _]. rewrite Hset, Z.eqb_refl in Hf by done.
    done.
  - intros k. rewrite elem_of_cons, !elem_free_ids. split.
    + intros [Hk Hkr]. destruct (decide (k = i)); [by left|right].
      rewrite Hset by done. rewrite Hk, orb_false_r. split; [|done].
      apply Z.eqb_neq. congruence.
    + intros [->|[Hk Hkr]]; [done|]. rewrite Hset in Hk by done.
      apply orb_false_iff in Hk as [_ Hk]. done.
Qed.

(** *** Allocation and release *)

Lemma set_wf s cpu l :
  shm_wf s -> list_ok l ->
  shm_wf (ShmState (shm_cpu s) (<[Z.to_nat cpu := l]> (shm_free_list s))).
Proof.
  intros (Hc & Hl & Hok) Hlist. split_and!; cbn; [lia..| |].
  - by rewrite length_insert.
  - by apply Forall_insert.
Qed.

Lemma taken_insert s cpu l c id :
  shm_wf s -> 0 <= cpu < CPU_MAX -> 0 <= c < CPU_MAX ->
  taken (ShmState (shm_cpu s) (<[Z.to_nat cpu := l]> (shm_free_list s))) c id =
    if c =? cpu then bitmap_bit l id else taken s c id.
Proof.
  intros (_ & Hl & _) Hc Hc'. unfold taken. cbn. zif.
  - subst c. by rewrite list_lookup_insert_eq by lia.
  - by rewrite list_lookup_insert_ne by lia.
Qed.

(** What an allocation does: it fails only when every buffer of the CPU is
    taken, and otherwise takes one that was free, and no other. *)
Lemma alloc_cases s :
  shm_wf s ->
  (poly_cache_mm_alloc s = Some (0, s) /\
   forall id, slot_ok (shm_cpu s) id -> taken s (shm_cpu s) id = true) \/
  exists id l, slot_ok (shm_cpu s) id /\
    shm_free_list s !! Z.to_nat (shm_cpu s) = Some l /\ list_ok l /\
    bitmap_bit l id = false /\
    (forall id', 0 <= id' < id -> bitmap_bit l id' = true) /\
    poly_cache_mm_alloc s =
      Some (POLY_CACHE_BUF_VADDR (shm_cpu s) id,
            ShmState (shm_cpu s) (<[Z.to_nat (shm_cpu s) := set_bitmap l id]>
                                    (shm_free_list s))).
Proof.
  intros Hwf. pose proof Hwf as (Hcpu & Hlen & _).
  destruct (shm_list s (shm_cpu s) Hwf Hcpu) as (l & El & Hl).
  assert ((shm_cpu s <? 0) || (CPU_MAX <=? shm_cpu s) = false) as Hg
    by (apply orb_false_iff; lia).
  unfold poly_cache_mm_alloc. rewrite Hg, El. cbn [mbind option_bind].
  pose proof (take_free_spec (Z.to_nat POLY_CACHE_PER_CPU_LIST_ENTRY_SZ) 0 l) as Ht.
  destruct (take_free _ 0 l) as [j l']. destruct Ht as [Hfirst Ht].
  unfold taken. rewrite El. cbn [default from_option id].
  rewrite Z2Nat.id in Ht by done.
  destruct Ht as [[-> ->]|(Hj & Hb & ->)]; [left|right].
  - rewrite (proj2 (Z.ltb_ge _ _)) by lia. rewrite list_insert_id by done.
    split; [by destruct s|]. intros id [_ Hid]. by apply Hfirst.
  - rewrite (proj2 (Z.ltb_lt _ _)) by lia. exists j, l.
    split_and!; try done; try lia.
Qed.

(** A buffer in use, and the state after returning it. *)
Lemma free_live s cpu id :
  shm_wf s -> slot_ok cpu id ->
  exists l, shm_free_list s !! Z.to_nat cpu = Some l /\ list_ok l /\
    poly_cache_mm_free s (POLY_CACHE_BUF_VADDR cpu id) =
      Some (ShmState (shm_cpu s) (<[Z.to_nat cpu := unset_bitmap l id]>
                                    (shm_free_list s))).
Proof.
  intros Hwf Hs. pose proof Hs as [Hc Hi].
  destruct (shm_list s cpu Hwf Hc) as (l & El & Hl). exists l.
  split_and!; [done..|]. unfold poly_cache_mm_free.
  destruct (vaddr_parts _ _ Hs) as [-> Hid].
  unfold CPU_MAX, POLY_CACHE_PER_CPU_LIST_ENTRY_SZ in *.
  rewrite (s32_id cpu), u64_id, Hid, s32_id by lia.
  rewrite (proj2 (Z.ltb_ge _ _)), (proj2 (Z.leb_gt _ _)) by lia.
  rewrite El. done.
Qed.

(** Setting a clear bit and clearing it again gives the bitmap back. *)
Lemma unset_set_bitmap l id :
  list_ok l -> 0 <= id < POLY_CACHE_PER_CPU_LIST_ENTRY_SZ ->
  bitmap_bit l id = false -> unset_bitmap (set_bitmap l id) id = l.
Proof.
  intros Hl Hid Hb. pose proof (bitmap_wf_alter _ l (bitmap_byte id)
    (fun x => Z.lor x (bitmap_mask id)) Hl) as Hl'.
  apply (bitmap_ext POLY_CACHE_PER_CPU_LIST_ENTRY_SZ); [by apply bitmap_wf_alter|done|].
  intros k Hk. erewrite unset_bitmap_bit, set_bitmap_bit by done.
  destruct (Z.eqb_spec id k) as [<-|]; cbn; done.
Qed.

(** *** The interface is implemented *)

Lemma live_after_set s cpu id l q :
  shm_wf s -> slot_ok cpu id ->
  shm_free_list s !! Z.to_nat cpu = Some l -> list_ok l ->
  let s' := ShmState (shm_cpu s)
              (<[Z.to_nat cpu := set_bitmap l id]> (shm_free_list s)) in
  shm_live s' q <-> q = POLY_CACHE_BUF_VADDR cpu id \/ shm_live s q.
Proof.
  intros Hwf Hs El Hl s'. pose proof Hs as [Hc Hi].
  assert (forall c k, slot_ok c k ->
    taken s' c k = ((c =? cpu) && (id =? k)) || taken s c k) as Ht.
  { intros c k [Hc' Hk]. unfold s'. rewrite taken_insert by done. zif; [|done].
    subst c. unfold taken. rewrite El. cbn [default from_option Datatypes.id].
    by apply (set_bitmap_bit _ _ _ _ Hl). }
  split.
  - intros (c & k & Hck & -> & Hb). rewrite Ht in Hb by done.
    apply orb_true_iff in Hb as [Hb|Hb]; [left; zbool; by subst|].
    right. by exists c, k.
  - intros [->|(c & k & Hck & -> & Hb)]; [exists cpu, id|exists c, k];
      rewrite Ht by done; split_and!; try done.
    + by rewrite !Z.eqb_refl.
    + by rewrite Hb, orb_true_r.
Qed.

Lemma live_after_unset s cpu id l q :
  shm_wf s -> slot_ok cpu id ->
  shm_free_list s !! Z.to_nat cpu = Some l -> list_ok l ->
  let s' := ShmState (shm_cpu s)
              (<[Z.to_nat cpu := unset_bitmap l id]> (shm_free_list s)) in
  shm_live s' q <-> shm_live s q /\ q <> POLY_CACHE_BUF_VADDR cpu id.
Proof.
  intros Hwf Hs El Hl s'. pose proof Hs as [Hc Hi].
  assert (forall c k, slot_ok c k ->
    taken s' c k = negb ((c =? cpu) && (id =? k)) && taken s c k) as Ht.
  { intros c k [Hc' Hk]. unfold s'. rewrite taken_insert by done. zif; [|done].
    subst c. unfold taken. rewrite El. cbn [default from_option Datatypes.id].
    by apply (unset_bitmap_bit _ _ _ _ Hl). }
  split.
  - intros (c & k & Hck & -> & Hb). rewrite Ht in Hb by done.
    apply andb_true_iff in Hb as [Hn Hb]. split; [by exists c, k|].
    intros [-> ->]%vaddr_inj; [|done..]. by rewrite !Z.eqb_refl in Hn.
  - intros [(c & k & Hck & -> & Hb) Hne]. exists c, k.
    rewrite Ht, Hb, andb_true_r by done. split_and!; [done..|].
    apply negb_true_iff, andb_false_iff.
    destruct (Z.eqb_spec c cpu) as [->|]; [right|by left].
    apply Z.eqb_neq. intros ->. done.
Qed.

Lemma room_after_set s id l n :
  slot_ok (shm_cpu s) id ->
  shm_free_list s !! Z.to_nat (shm_cpu s) = Some l -> list_ok l ->
  bitmap_bit l id = false -> shm_room s (S n) ->
  shm_room (ShmState (shm_cpu s) (<[Z.to_nat (shm_cpu s) := set_bitmap l id]>
                                    (shm_free_list s))) n.
Proof.
  intros [_ Hi] El Hl Hb. unfold shm_room. cbn [shm_cpu shm_free_list].
  rewrite El, list_lookup_insert_eq by (by apply lookup_lt_Some in El).
  cbn [default from_option Datatypes.id]. assert (id ∈ free_ids l) as Hid
    by (by apply elem_free_ids).
  generalize (free_ids_set l id Hl Hid).
  generalize (free_ids l) (free_ids (set_bitmap l id)).
  intros f f' ->%Permutation_length. apply le_S_n.
Qed.

(** What an allocation gives, in terms of the buffers in use. *)
Lemma alloc_spec s :
  shm_wf s ->
  exists p s', poly_cache_mm_alloc s = Some (p, s') /\ shm_wf s' /\
    (p = 0 /\ s' = s /\
       (forall id, slot_ok (shm_cpu s) id ->
          shm_live s (POLY_CACHE_BUF_VADDR (shm_cpu s) id)) \/
     0 < p /\ p mod NODE = 0 /\ (forall q, shm_live s q -> apart p q) /\
       (forall q, shm_live s' q <-> q = p \/ shm_live s q) /\
       (forall n, shm_room s (S n) -> shm_room s' n)).
Proof.
  intros Hwf. destruct (alloc_cases s Hwf)
    as [[E Hall]|(id & l & Hs & El & Hl & Hb & _ & E)].
  - exists 0, s. split_and!; [done..|]. left. split_and!; [done..|].
    intros id Hid. exists (shm_cpu s), id. auto.
  - eexists _, _. split_and!; [exact E|by apply set_wf, bitmap_wf_alter|]. right.
    pose proof Hs as [Hc Hi]. split_and!.
    + by apply vaddr_aligned.
    + by apply vaddr_aligned.
    + intros q (c & k & Hck & -> & Ht). apply vaddr_apart; [done..|].
      intros [= <- <-]. unfold taken in Ht. rewrite El in Ht. cbn in Ht. congruence.
    + intros q. by apply live_after_set.
    + intros n. by apply room_after_set.
Qed.

Lemma alloc_own_cpu s p s' :
  shm_wf s -> poly_cache_mm_alloc s = Some (p, s') -> p <> 0 ->
  exists id, slot_ok (shm_cpu s) id /\ p = POLY_CACHE_BUF_VADDR (shm_cpu s) id.
Proof.
  intros Hwf E Hp. destruct (alloc_cases s Hwf)
    as [[E' _]|(id & l & Hs & _ & _ & _ & _ & E')]; rewrite E in E'; simplify_eq; eauto.
Qed.

Lemma free_spec s p :
  shm_wf s -> shm_live s p ->
  exists s', poly_cache_mm_free s p = Some s' /\ shm_wf s' /\
    forall q, shm_live s' q <-> shm_live s q /\ q <> p.
Proof.
  intros Hwf (cpu & id & Hs & -> & Ht).
  destruct (free_live s cpu id Hwf Hs) as (l & El & Hl & E).
  eexists. split_and!; [exact E|by apply set_wf, bitmap_wf_alter|].
  intros q. by apply live_after_unset.
Qed.

(** Neither operation writes to the shared region. *)
#[global] Instance shm_alloc : CacheAlloc shm := {|
  mm_alloc := fun s m =>
    match poly_cache_mm_alloc s with
    | Some (p, s') => (p, s', m) | None => (0, s, m) end;
  mm_free := fun s m p =>
    match poly_cache_mm_free s p with Some s' => (s', m) | None => (s, m) end;
  mm_wf := shm_wf;
  mm_live := shm_live;
  mm_room := shm_room
|}.

#[global] Instance shm_laws : CacheAllocLaws shm.
Proof.
  split; cbn; intros a.
  - intros m p a' m' Hwf. destruct (alloc_spec a Hwf) as (p1 & s1 & -> & ? & _).
    by intros [= <- <- <-].
  - intros p _ (c & k & Hck & -> & _). destruct (vaddr_aligned _ _ Hck) as [H _].
    rewrite (vaddr_sum _ _ Hck) in *. destruct Hck as [? ?].
    unfold CPU_MAX, POLY_CACHE_PER_CPU_LIST_ENTRY_SZ, valid_buf, MAP_FAILED,
      POLY_CACHE_VADDR_BASE in *.
    rewrite !(proj2 (Z.eqb_neq _ _)) by lia. done.
  - intros p q _ (c & k & Hck & -> & _) (c' & k' & Hck' & -> & _) Hne.
    apply vaddr_apart; [done..|]. intros [= -> ->]. done.
  - intros m p a' m' Hwf.
    destruct (alloc_spec a Hwf) as (p1 & s1 & -> & ? & [(-> & _)|(?&?&Ha&?&_)]);
      intros [= <- <- <-]; [done|]. intros _. split; [|done].
    intros Hl. specialize (Ha _ Hl). pose proof node_pos. destruct Ha; lia.
  - intros m p a' m' q Hwf. destruct (alloc_spec a Hwf) as (p1 & s1 & -> & _).
    by intros [= <- <- <-].
  - intros m n Hwf Hroom.
    destruct (alloc_spec a Hwf)
      as (p1 & s1 & -> & ? & [(-> & -> & Hfull)|(?&?&?&?&Hr)]).
    + exfalso. unfold shm_room in Hroom.
      destruct (free_ids _) as [|id ids] eqn:Ef; [cbn in Hroom; lia|].
      assert (id ∈ id :: ids) as Hid by left. rewrite <-Ef in Hid.
      apply elem_free_ids in Hid as [Hb Hid]. pose proof Hwf as (Hc & _).
      destruct (Hfull id) as (c & k & Hck & E & Ht); [done|].
      apply vaddr_inj in E as [<- <-]; [|done..]. unfold taken in Ht. congruence.
    + exists p1, s1, m. split_and!; [done|lia|auto].
  - intros n. unfold shm_room. lia.
  - intros m p a' m' Hwf Hp. destruct (free_spec a p Hwf Hp) as (s1 & -> & ? & _).
    by intros [= <- <-].
  - intros m p a' m' Hwf Hp. destruct (free_spec a p Hwf Hp) as (s1 & -> & ? & ?).
    by intros [= <- <-].
  - intros m p a' m' q Hwf Hp. destruct (free_spec a p Hwf Hp) as (s1 & -> & _).
    by intros [= <- <-].
Qed.

Lemma init_wf cpu : 0 <= cpu < CPU_MAX -> shm_wf (poly_cache_mm_init cpu).
Proof.
  intros Hc. unfold shm_wf, poly_cache_mm_init. cbn [shm_cpu shm_free_list].
  rewrite length_replicate. split_and!; [lia..|done|].
  apply Forall_replicate. split; [by rewrite length_replicate|].
  apply Forall_replicate. lia.
Qed.

(** ** Properties *)

(** C37: the shared-memory allocator never hands out a buffer twice: it returns
    NULL, changing nothing, exactly when all buffers of the current CPU are in use;
    any other result is the address of a buffer of this CPU, an aligned 2 MiB range
    inside the mapped region that overlaps no buffer in use on any CPU, and is
    exactly what becomes in use. *)
Theorem mm_alloc_correct (s : shm) :
  shm_wf s ->
  exists p s', poly_cache_mm_alloc s = Some (p, s') /\ shm_wf s' /\
    (p = 0 <-> forall id, slot_ok (shm_cpu s) id ->
       shm_live s (POLY_CACHE_BUF_VADDR (shm_cpu s) id)) /\
    (p = 0 -> s' = s) /\
    (p <> 0 ->
       (exists id, slot_ok (shm_cpu s) id /\ p = POLY_CACHE_BUF_VADDR (shm_cpu s) id) /\
       POLY_CACHE_VADDR_BASE <= p /\
       p + NODE <= POLY_CACHE_VADDR_BASE + POLY_CACHE_VADDR_RANGE /\
       p mod NODE = 0 /\ (forall q, shm_live s q -> apart p q) /\
       (forall q, shm_live s' q <-> q = p \/ shm_live s q)).
Proof.
  intros Hwf. destruct (alloc_spec s Hwf) as (p & s' & E & Hwf' & H).
  exists p, s'. split_and!; [done|done|..].
  - split; [naive_solver lia|]. intros Hall.
    destruct H as [[? _]|(Hp & _ & Ha & _)]; [done|].
    destruct (alloc_own_cpu s p s') as (id & Hs & ->); [done|done|lia|].
    pose proof (Ha _ (Hall id Hs)) as Hap. unfold apart in Hap. pose proof node_pos. lia.
  - naive_solver lia.
  - intros Hp. destruct (alloc_own_cpu s p s') as (id & Hs & ->); [done|done|lia|].
    destruct H as [[? _]|(_ & Hm & Ha & Hl & _)]; [lia|].
    destruct (vaddr_range _ _ Hs). split_and!; eauto.
Qed.

(** Returning a buffer undoes its allocation exactly, whichever CPU the
    freeing task runs on: CPU and list position are recovered from the
    address. *)
Theorem mm_free_undoes_alloc (s s' : shm) (p cpu : Z) :
  shm_wf s -> poly_cache_mm_alloc s = Some (p, s') -> p <> 0 ->
  poly_cache_mm_free (ShmState cpu (shm_free_list s')) p =
    Some (ShmState cpu (shm_free_list s)).
Proof.
  intros Hwf E Hp. destruct (alloc_cases s Hwf)
    as [[E' _]|(id & l & Hs & El & Hl & Hb & _ & E')];
    rewrite E in E'; injection E' as -> ->; [done|].
  pose proof Hs as [Hc Hi].
  destruct (vaddr_parts _ _ Hs) as [H1 H2].
  unfold poly_cache_mm_free. rewrite H1.
  unfold CPU_MAX, POLY_CACHE_PER_CPU_LIST_ENTRY_SZ in Hc, Hi.
  rewrite (s32_id (shm_cpu s)), u64_id, H2, s32_id by lia.
  unfold CPU_MAX. rewrite (proj2 (Z.ltb_ge _ _)), (proj2 (Z.leb_gt _ _)) by lia.
  cbn. rewrite list_lookup_insert_eq by (apply lookup_lt_Some in El; done).
  cbn. rewrite list_insert_insert_eq, unset_set_bitmap by done.
  by rewrite list_insert_id.
Qed.

Lemma mm_alloc_correct_witness :
  exists p s', poly_cache_mm_alloc (poly_cache_mm_init 3) = Some (p, s') /\
    p = 0x4600000000 /\ shm_wf s'.
Proof.
  destruct (mm_alloc_correct (poly_cache_mm_init 3)) as (p & s' & E & Hwf & _).
  - apply init_wf. unfold CPU_MAX. lia.
  - exists p, s'. split_and!; [exact E| |exact Hwf].
    assert (fst <$> poly_cache_mm_alloc (poly_cache_mm_init 3) = Some 0x4600000000)
      as Hp by (vm_compute; reflexivity).
    rewrite E in Hp. cbn in Hp. congruence.
Defined.

Lemma mm_free_undoes_alloc_witness :
  exists p s', poly_cache_mm_alloc (poly_cache_mm_init 3) = Some (p, s') /\
    poly_cache_mm_free (ShmState 5 (shm_free_list s')) p =
      Some (ShmState 5 (shm_free_list (poly_cache_mm_init 3))).
Proof.
  destruct (alloc_spec (poly_cache_mm_init 3)) as (p & s' & E & _).
  - apply init_wf. unfold CPU_MAX. lia.
  - exists p, s'. split; [exact E|].
    apply (mm_free_undoes_alloc (poly_cache_mm_init 3) s' p 5).
    + apply init_wf. unfold CPU_MAX. lia.
    + exact E.
    + assert (fst <$> poly_cache_mm_alloc (poly_cache_mm_init 3) = Some 0x4600000000)
        as Hp by (vm_compute; reflexivity).
      rewrite E in Hp. cbn in Hp. injection Hp as ->. done.
Defined.

End Shm.
