(* ===== verification/Cache.v ===== *)
(** * The Poly cache ([polylib/src/cache.c])

    Each 2 MiB piece of a file may have a buffer in memory.  Admission loads the
    piece into its buffer, eviction writes a dirty buffer back, and the flushing
    worker, [poly_cache_drop] and [poly_cache_free] give buffers up.  The list
    links of an entry are represented by the lists of entries themselves: an
    entry is named by its inode and its slot.

    The model is the interval-level build (without [_HETERO_CACHE_PG]).  A result
    [None] is an access through an invalid pointer, a path shorter than the mount
    point's prefix, or exhausted fuel. *)

From S2P Require Import Prelude Defs Util Posix IntervalTree Indexing IoDirect.
From S2P Require Import CacheMm.
Import IoDirect.

#[local] Open Scope Z_scope.

(** [mmap(NULL, len, PROT_READ | PROT_WRITE, MAP_PRIVATE, fd, off)] and
    [munmap(addr, len)], used for intervals that are not admitted. *)
Class CacheMmap (Fs A : Type) := {
  mm_mmap : Fs -> A -> mem -> Z -> Z -> Z -> Z * A * mem;
  mm_munmap : A -> mem -> Z -> Z -> A * mem
}.

Module Cache.

(** An entry on a list: the inode and the slot in its index. *)
Abbreviation lru_ref := (Z * Z)%type.

Record poly_cache (A : Type) := PolyCache {
  ch_mem : mem;
  ch_alloc : A;
  ch_cold : list lru_ref;           (* interval_cold_list *)
  ch_queues : list (list lru_ref);  (* poly_cache_flushing_queue *)
  ch_size : Z;                      (* poly_cache_size *)
  ch_flushing_end : Z;              (* poly_cache_flushing_end *)
  ch_access_cnt : Z                 (* cache_access_cnt *)
}.
Arguments PolyCache {A}.
Arguments ch_mem {A}.
Arguments ch_alloc {A}.
Arguments ch_cold {A}.
Arguments ch_queues {A}.
Arguments ch_size {A}.
Arguments ch_flushing_end {A}.
Arguments ch_access_cnt {A}.

#[export] Instance cache_copy {A} : Copy (poly_cache A) := fun c =>
  PolyCache (ch_mem c) (ch_alloc c) (ch_cold c) (ch_queues c) (ch_size c)
    (ch_flushing_end c) (ch_access_cnt c).

(** The data path's state with the cache. *)
Record cstate (Fs A : Type) := CState {
  cs_io : io_state Fs;
  cs_cache : poly_cache A
}.
Arguments CState {Fs A}.
Arguments cs_io {Fs A}.
Arguments cs_cache {Fs A}.

#[export] Instance cstate_copy {Fs A} : Copy (cstate Fs A) := fun s =>
  CState (cs_io s) (cs_cache s).

Definition default_flushing_thread_nr : Z := 2.

Section model.
Context {Fs : Type} `{!PosixFS Fs, !PosixNS Fs}.
Context {A : Type} `{!CacheAlloc A, !CacheMmap Fs A}.
Implicit Types (fs : Fs) (ch : poly_cache A) (st : cstate Fs A).
(** The mount points of the devices. *)
Variables FAST_DIR SLOW_DIR : string.

(** ** LRU lists *)

Definition poly_cache_add_lru_cold_list (r : lru_ref) ch : poly_cache A :=
  ch <| ch_cold := ch_cold ch ++ [r] |>.

(** [list_del]: the entry is unlinked from the list it is on. *)
Definition poly_cache_lru_list_del (r : lru_ref) ch : poly_cache A :=
  ch <| ch_cold := filter (fun x => x <> r) (ch_cold ch) |>
     <| ch_queues := filter (fun x => x <> r) <$> ch_queues ch |>.

(** ** Admission *)

(** The part that loads the piece: a failed [pread] is only reported. *)
Definition admit_load fs (rwfd : Z) (e : it_node_entry) ch
    : Z * it_node_entry * poly_cache A :=
  if e_present e =? 0 then
    if valid_buf (e_buf_addr e) then
      let '(ret, d) := fs_pread fs rwfd (e_size e) (e_offset e) in
      (s32 ret, e <| e_present := 1 |>,
       ch <| ch_mem := mem_write (ch_mem ch) (e_buf_addr e) d |>)
    else (-1, e <| e_present := 1 |>, ch)
  else (0, e, ch).

(** Dirty flag and size of a written interval. *)
Definition admit_write (rw end_ : Z) (e : it_node_entry) : it_node_entry :=
  if rw =? WRITE_IO
  then e <| e_dirty := 1 |>
         <| e_size := if e_size e <? u64 (end_ + 1) then u64 (end_ + 1)
                      else e_size e |>
  else e.

Definition admit_account (e : it_node_entry) ch : it_node_entry * poly_cache A :=
  if e_cache_size e =? 0
  then (e <| e_cache_size := POLY_INDEX_NODE_SIZE |>,
        ch <| ch_size := u64 (ch_size ch + POLY_INDEX_NODE_SIZE) |>)
  else (e, ch).

Definition poly_cache_admit st (slot start end_ rw : Z) : Z * cstate Fs A :=
  let io := cs_io st in
  let inode := io_inode io in
  let e := entry_at inode slot in
  if (rw =? READ_IO) && (e_placement e =? BLK_PLACEMENT_FAST) &&
     (i_cache_policy inode =? CACHE_POLICY_FAST_READ_NOT_ADMIT)
  then (0, st)
  else
    let polyfd := f_polyfd (io_file io) in
    let rwfd := default 0 (entry_fd (POLYSTORE_FAST_FD polyfd)
                             (POLYSTORE_SLOW_FD polyfd) (e_placement e)) in
    let '(ret, e, ch) := admit_load (io_fs io) rwfd (e <| e_inode := i_ino inode |>)
                           (cs_cache st) in
    let '(e, ch) := admit_account (admit_write rw end_ e) ch in
    (ret, CState (io <| io_inode := set_entry inode slot e |>) ch).

(** ** Eviction *)

(** [open(path, flags, mode)] of the C library. *)
Definition sys_open fs (path : string) (flags mode : Z) : Z * Fs :=
  let fd := ns_get_unused_fd fs flags in
  if fd <? 0 then (-1, fs)
  else
    let '(ret, fs) := ns_filp_open fs path flags mode fd in
    if ret <? 0 then (-1, fs) else (fd, fs).

Definition mode_0755 : Z := 493.

(** The descriptor to write back through, opened by path when there is none
    yet; [inl] is the early return of an error. *)
Definition evict_fd fs (inode : poly_inode) (placement : Z)
    : option ((Z + Z) * Fs * poly_inode) :=
  if placement =? BLK_PLACEMENT_FAST then
    if i_cache_rwfd_fast inode =? -1 then
      realpath ← Util.util_get_fastpath FAST_DIR (i_pathname inode);
      let '(ret, fs) := sys_open fs realpath O_RDWR mode_0755 in
      if ret <? 0 then Some (inl ret, fs, inode)
      else Some (inr ret, fs, inode <| i_cache_rwfd_fast := ret |>)
    else Some (inr (i_cache_rwfd_fast inode), fs, inode)
  else if placement =? BLK_PLACEMENT_SLOW then
    if i_cache_rwfd_slow inode =? -1 then
      realpath ← Util.util_get_slowpath SLOW_DIR (i_pathname inode);
      let '(ret, fs) := sys_open fs realpath O_RDWR mode_0755 in
      if ret <? 0 then Some (inl ret, fs, inode)
      else Some (inr ret, fs, inode <| i_cache_rwfd_slow := ret |>)
    else Some (inr (i_cache_rwfd_slow inode), fs, inode)
  else Some (inr 0, fs, inode).

(** [pwrite] of [n] bytes of a buffer, which fails for an invalid one. *)
Definition pwrite_buf fs (fd : Z) (m : mem) (addr n off : Z) : Z * Fs :=
  if valid_buf addr then fs_pwrite fs fd (mem_read m addr n) off else (-1, fs).

Definition poly_cache_evict fs (inode : poly_inode) (m : mem) (e : it_node_entry)
    (start end_ : Z) : option (Z * Fs * poly_inode) :=
  '(r, fs, inode) ← evict_fd fs inode (e_placement e);
  match r with
  | inl ret => Some (ret, fs, inode)
  | inr rwfd =>
      if e_dirty e =? 1 then
        let '(_, fs) := pwrite_buf fs rwfd m (e_buf_addr e)
                          (u64 (s32 (end_ - start + 1))) (e_offset e) in
        Some (0, fs, inode)
      else Some (0, fs, inode)
  end.

(** Returning the buffer of an entry, if it has one. *)
Definition release (addr : Z) ch : poly_cache A :=
  if addr =? 0 then ch
  else let '(a, m) := mm_free (ch_alloc ch) (ch_mem ch) addr in
       ch <| ch_alloc := a |> <| ch_mem := m |>.

(** ** Background flushing

    What the flushing threads share: the file systems, all inodes, the cache. *)

Record flush_state := FlushState {
  fl_fs : Fs;
  fl_inodes : gmap Z poly_inode;
  fl_cache : poly_cache A
}.

(** The body of the worker's loop. *)
Definition flush_victim (r : lru_ref) (s : flush_state) : option flush_state :=
  let '(ino, slot) := r in
  inode ← fl_inodes s !! ino;
  let victim := entry_at inode slot in
  let unlinked := poly_cache_lru_list_del r (fl_cache s) in
  if e_removed victim =? 1 then Some (FlushState (fl_fs s) (fl_inodes s) unlinked)
  else
    victim_inode ← fl_inodes s !! e_inode victim;
    '(_, fs, victim_inode) ← poly_cache_evict (fl_fs s) victim_inode
       (ch_mem (fl_cache s)) victim 0 (s64 (e_size victim - 1));
    let inodes := <[e_inode victim := victim_inode]> (fl_inodes s) in
    inode ← inodes !! ino;
    let inode := set_entry inode slot
                   (victim <| e_dirty := 0 |> <| e_present := 0 |>
                      <| e_buf_addr := 0 |> <| e_cache_size := 0 |>
                      <| e_ref_count := 0 |>) in
    Some (FlushState fs (<[ino := inode]> inodes)
            (release (e_buf_addr victim) unlinked)).

(** [poly_cache_flushing_worker]: the queue as it was when the worker took its
    lock, in order. *)
Fixpoint flush_all (queue : list lru_ref) (s : flush_state) : option flush_state :=
  match queue with
  | [] => Some s
  | r :: queue => s ← flush_victim r s; flush_all queue s
  end.

Definition poly_cache_flushing_worker (queue_id : Z) (s : flush_state)
    : option flush_state :=
  queue ← ch_queues (fl_cache s) !! Z.to_nat queue_id;
  flush_all queue s.

(** The loop of [poly_cache_flushing_dispatch] over the cold list: victims go to
    the queues in turn until enough of the cache is covered. *)
Fixpoint dispatch_victims (inodes : gmap Z poly_inode) (thread_nr flushing_end : Z)
    (cold : list lru_ref) (rr snapshot : Z) (queues : list (list lru_ref))
    : option (list lru_ref * list (list lru_ref)) :=
  match cold with
  | [] => Some ([], queues)
  | r :: cold =>
      inode ← inodes !! fst r;
      let victim := entry_at inode (snd r) in
      if e_removed victim =? 1
      then dispatch_victims inodes thread_nr flushing_end cold rr snapshot queues
      else
        let queue_id := Z.land rr (u32 (thread_nr - 1)) in
        let queues := alter (fun q => q ++ [r]) (Z.to_nat queue_id) queues in
        let snapshot := u64 (snapshot - e_cache_size victim) in
        if snapshot <? flushing_end then Some (cold, queues)
        else dispatch_victims inodes thread_nr flushing_end cold (u32 (rr + 1))
               snapshot queues
  end.

(** [poly_cache_flushing_dispatch], up to the launch of the workers. *)
Definition poly_cache_flushing_dispatch (thread_nr : Z) (s : flush_state)
    : option flush_state :=
  let ch := fl_cache s in
  '(cold, queues) ← dispatch_victims (fl_inodes s) thread_nr (ch_flushing_end ch)
                      (ch_cold ch) 0 (ch_size ch) (ch_queues ch);
  Some (FlushState (fl_fs s) (fl_inodes s)
          (ch <| ch_cold := cold |> <| ch_queues := queues |>
              <| ch_size := ch_flushing_end ch |>)).

(** The workers launched by the dispatch, one per queue; here they run one after
    the other. *)
Fixpoint launch_workers (n : nat) (queue_id : Z) (s : flush_state)
    : option flush_state :=
  match n with
  | O => Some s
  | S n => s ← poly_cache_flushing_worker queue_id s;
           launch_workers n (queue_id + 1) s
  end.

(** ** Dropping, freeing and syncing the buffers of one inode *)

(** The traversal of the index the three functions share; the range is the whole
    file. *)
Section traverse.
Variable S : Type.
Variable inode_of : S -> poly_inode.
Variable body : Z -> S -> option S.

Fixpoint traverse (fuel : nat) (start end_ : Z) (it_entry : option Z) (s : S)
    : option S :=
  match it_entry with
  | None => Some s
  | Some entry =>
      match fuel with
      | O => None
      | Datatypes.S fuel =>
          s ← body entry s;
          traverse fuel start end_
            (polystore_index_lookup_next (inode_of s) entry start end_) s
      end
  end.

Definition traverse_file (s : S) : option S :=
  let inode := inode_of s in
  let start := 0 in
  let end_ := u64 (i_size inode - 1) in
  traverse (node_fuel inode) start end_ (polystore_index_lookup inode start end_) s.
End traverse.

Arguments traverse_file {S}.
Arguments traverse {S}.

(** The file systems, one inode and the cache. *)
Abbreviation inode_state := (Fs * poly_inode * poly_cache A)%type.

Definition not_admitted (inode : poly_inode) (e : it_node_entry) : bool :=
  (e_placement e =? BLK_PLACEMENT_FAST) &&
  (i_cache_policy inode =? CACHE_POLICY_FAST_READ_NOT_ADMIT).

Definition unmap (addr len : Z) ch : poly_cache A :=
  if addr =? 0 then ch
  else let '(a, m) := mm_munmap (ch_alloc ch) (ch_mem ch) addr len in
       ch <| ch_alloc := a |> <| ch_mem := m |>.

Definition drop_entry (entry : Z) (s : inode_state) : option inode_state :=
  let '(fs, inode, ch) := s in
  let e := entry_at inode entry in
  if not_admitted inode e
  then Some (fs, set_entry inode entry (e <| e_removed := 1 |>),
             unmap (e_buf_addr e) (e_size e) ch)
  else Some (fs, set_entry inode entry (e <| e_buf_addr := 0 |> <| e_removed := 1 |>),
             release (e_buf_addr e) ch).

(** [if (fd > 0) { close(fd); fd = -1; }] *)
Definition close_fd fs (fd : Z) : Z * Fs :=
  if 0 <? fd then let '(_, fs) := ns_close fs fd in (-1, fs) else (fd, fs).

Definition close_rwfds fs (inode : poly_inode) : Fs * poly_inode :=
  let '(fast, fs) := close_fd fs (i_cache_rwfd_fast inode) in
  let '(slow, fs) := close_fd fs (i_cache_rwfd_slow inode) in
  (fs, inode <| i_cache_rwfd_fast := fast |> <| i_cache_rwfd_slow := slow |>).

Definition poly_cache_drop (s : inode_state) : option inode_state :=
  '(fs, inode, ch) ← traverse_file (fun s => snd (fst s)) drop_entry s;
  let '(fs, inode) := close_rwfds fs inode in
  Some (fs, inode, ch).

Definition free_entry (entry : Z) (s : inode_state) : option inode_state :=
  let '(fs, inode, ch) := s in
  let e := entry_at inode entry in
  if e_removed e =? 0 then
    '(_, fs, inode) ← poly_cache_evict fs inode (ch_mem ch) e 0 (s64 (e_size e - 1));
    let e' := e <| e_dirty := 0 |> <| e_present := 0 |> <| e_cache_size := 0 |>
                <| e_buf_addr := 0 |> in
    let ch :=
      if not_admitted inode e then unmap (e_buf_addr e) (e_size e) ch
      else if e_buf_addr e =? 0 then ch
      else poly_cache_lru_list_del (i_ino inode, entry) (release (e_buf_addr e) ch) in
    Some (fs, set_entry inode entry e', ch)
  else Some (fs, set_entry inode entry (e <| e_buf_addr := 0 |>), ch).

Definition poly_cache_free (s : inode_state) : option inode_state :=
  '(fs, inode, ch) ← traverse_file (fun s => snd (fst s)) free_entry s;
  let '(fs, inode) := close_rwfds fs inode in
  let '(fd, fs) := close_fd fs (i_cache_mmapfd inode) in
  Some (fs, inode <| i_cache_mmapfd := fd |>, ch).

Definition fsync_entry (fastfd slowfd entry : Z) (s : inode_state)
    : option inode_state :=
  let '(fs, inode, ch) := s in
  let e := entry_at inode entry in
  if e_dirty e =? 1 then
    let fd := if e_placement e =? BLK_PLACEMENT_FAST then fastfd else slowfd in
    let '(_, fs) := pwrite_buf fs fd (ch_mem ch) (e_buf_addr e) (e_size e)
                      (e_offset e) in
    Some (fs, set_entry inode entry (e <| e_dirty := 0 |>), ch)
  else Some s.

Definition poly_cache_fsync (fastfd slowfd : Z) (s : inode_state)
    : option (Z * inode_state) :=
  '(fs, inode, ch) ← traverse_file (fun s => snd (fst s))
                       (fsync_entry fastfd slowfd) s;
  let '(r1, fs) := fs_fsync fs fastfd in
  let '(r2, fs) := fs_fsync fs slowfd in
  Some (Z.lor r1 r2, (fs, inode, ch)).

End model.

Arguments traverse_file {S}.
Arguments traverse {S}.
Arguments flush_state : clear implicits.

End Cache.
