(* ===== verification/IoBuffered.v ===== *)
(** * Buffered I/O ([polylib/src/io_buffered.c])

    The iterators of the builds with [POLYSTORE_POLYCACHE]: reads and writes go
    to the cache buffers of the pieces; the physical files are only touched when
    a piece is admitted.  The model is the build without
    [POLYSTORE_POLYCACHE_SENSITIVITY], whose writes never start the background
    flushing themselves.  [None] is an access through an invalid pointer, the
    process's exit, or exhausted fuel. *)

From S2P Require Import Prelude Defs Util Posix IntervalTree Indexing IoDirect.
From S2P Require Import CacheMm Cache.
Import IoDirect Cache.

#[local] Open Scope Z_scope.

Module IoBuffered.

Section model.
Context {Fs : Type} `{!PosixFS Fs, !PosixNS Fs}.
Context {A : Type} `{!CacheAlloc A, !CacheMmap Fs A}.
Implicit Types st : cstate Fs A.
Variable FAST_DIR : string.

Definition set_io (io : io_state Fs) st : cstate Fs A := st <| cs_io := io |>.

(** The inode and the entries of the file being accessed. *)
Definition cs_inode st : poly_inode := io_inode (cs_io st).

Definition set_cs_entry (slot : Z) (e : it_node_entry) st : cstate Fs A :=
  set_io (cs_io st <| io_inode := set_entry (cs_inode st) slot e |>) st.

Definition set_mem (m : mem) st : cstate Fs A :=
  st <| cs_cache := cs_cache st <| ch_mem := m |> |>.

Definition advance (offset n : Z) st : cstate Fs A :=
  set_io (advance_off offset n (cs_io st)) st.

(** [mmap_pmem_cache_file] *)
Definition mmap_pmem_cache_file (slot : Z) st : option (cstate Fs A) :=
  let io := cs_io st in
  let inode := io_inode io in
  realpath ← Util.util_get_fastpath FAST_DIR (i_pathname inode);
  let '(fd, fs) := if i_cache_mmapfd inode <=? 0
                   then sys_open (io_fs io) realpath O_RDWR mode_0755
                   else (i_cache_mmapfd inode, io_fs io) in
  let inode := inode <| i_cache_mmapfd := fd |> in
  let e := entry_at inode slot in
  let ch := cs_cache st in
  let '(addr, a, m) := mm_mmap fs (ch_alloc ch) (ch_mem ch) fd (e_size e)
                         (e_offset e) in
  Some (CState (io <| io_fs := fs |>
                   <| io_inode := set_entry inode slot (e <| e_buf_addr := addr |>) |>)
          (ch <| ch_alloc := a |> <| ch_mem := m |>)).

(** [it_entry->buf_addr = poly_cache_mm_alloc()], and on the cold list. *)
Definition new_buffer (slot : Z) st : cstate Fs A :=
  let ch := cs_cache st in
  let '(addr, a, m) := mm_alloc (ch_alloc ch) (ch_mem ch) in
  set_cs_entry slot (entry_at (cs_inode st) slot <| e_buf_addr := addr |>)
    (st <| cs_cache := poly_cache_add_lru_cold_list (i_ino (cs_inode st), slot)
                         (ch <| ch_alloc := a |> <| ch_mem := m |>) |>).

(** A buffer for an entry without one: mapped for a read of an interval that is
    not to be admitted, allocated otherwise. *)
Definition get_buffer (rw slot : Z) st : option (cstate Fs A) :=
  let e := entry_at (cs_inode st) slot in
  if e_buf_addr e =? 0 then
    if (rw =? READ_IO) && not_admitted (cs_inode st) e then
      st ← mmap_pmem_cache_file slot st;
      if e_buf_addr (entry_at (cs_inode st) slot) =? 0 then None else Some st
    else Some (new_buffer slot st)
  else Some st.

(** Buffer, admission and the reference count, common to the three loops; the
    copy between the buffer and the caller's memory is in between. *)
Definition access (rw slot it_buf_start it_buf_count : Z) st
    : option (Z * cstate Fs A) :=
  st ← get_buffer rw slot st;
  let '(_, st) := poly_cache_admit st slot it_buf_start
                    (s64 (it_buf_start + it_buf_count - 1)) rw in
  let e := entry_at (cs_inode st) slot in
  if valid_buf (e_buf_addr e)
  then Some (e_buf_addr e,
             set_cs_entry slot (e <| e_ref_count := s32 (e_ref_count e + 1) |>) st)
  else None.

(** ** Reading *)

(** The number of bytes to read from an interval, with the adjustment for an
    interval that is not full. *)
Definition read_count (e : it_node_entry) (node_end start end_ it_buf_start : Z) : Z :=
  if e_size e <? POLY_INDEX_NODE_SIZE
  then if u64 (end_ - start + 1) <? e_size e then u64 (end_ - start + 1)
       else u64 (e_size e - it_buf_start)
  else node_count node_end start end_.

Fixpoint read_nodes_polycache (fuel : nat) st (buf : list byte)
    (it_entry : option Z) (start end_ copied offset : Z)
    : option (Z * list byte * cstate Fs A) :=
  match it_entry with
  | None => Some (copied, buf, st)
  | Some entry =>
      match fuel with
      | O => None
      | S fuel =>
          let e := entry_at (cs_inode st) entry in
          let node_start := s64 (it_start (e_it e)) in
          let node_end := s64 (it_last (e_it e)) in
          let it_buf_start := start - node_start in
          let it_buf_count := read_count e node_end start end_ it_buf_start in
          if e_size e <=? u64 it_buf_start then Some (copied, buf, st)
          else
            '(addr, st) ← access READ_IO entry it_buf_start it_buf_count st;
            let d := mem_read (ch_mem (cs_cache st)) (addr + it_buf_start)
                       it_buf_count in
            let start := node_next node_end end_ in
            read_nodes_polycache fuel (advance offset it_buf_count st)
              (overwrite copied d buf)
              (polystore_index_lookup_next (cs_inode st) entry
                 (u64 start) (u64 end_))
              start end_ (copied + it_buf_count) offset
      end
  end.

Definition polystore_read_iter_polycache st (buf : list byte) (count offset : Z)
    : option (Z * list byte * cstate Fs A) :=
  if count =? 0 then Some (0, buf, st)
  else
    let '(start, end_) := polystore_io_set_range (io_file (cs_io st)) offset count in
    '(copied, buf, st) ← read_nodes_polycache (node_fuel (cs_inode st)) st buf
       (polystore_index_lookup (cs_inode st) (u64 start) (u64 end_))
       start end_ 0 offset;
    let task := io_task (cs_io st) in
    let ch := cs_cache st in
    Some (copied, buf,
      CState
        (cs_io st <| io_task := task
           <| t_throughput := u64 (t_throughput task + copied) |>
           <| t_throughput_read := u64 (t_throughput_read task + copied) |> |>)
        (ch <| ch_access_cnt := u64 (ch_access_cnt ch + 1) |>)).

(** ** Writing *)

Fixpoint write_nodes_polycache (fuel : nat) st (buf : list byte)
    (it_entry : option Z) (start end_ copied offset : Z)
    : option (Z * Z * cstate Fs A) :=
  match it_entry with
  | None => Some (start, copied, st)
  | Some entry =>
      match fuel with
      | O => None
      | S fuel =>
          let e := entry_at (cs_inode st) entry in
          let node_start := s64 (it_start (e_it e)) in
          let node_end := s64 (it_last (e_it e)) in
          let it_buf_start := start - node_start in
          let it_buf_count := node_count node_end start end_ in
          '(addr, st) ← access WRITE_IO entry it_buf_start it_buf_count st;
          let st := set_mem (mem_write (ch_mem (cs_cache st)) (addr + it_buf_start)
                               (slice copied it_buf_count buf)) st in
          let start := node_next node_end end_ in
          write_nodes_polycache fuel (advance offset it_buf_count st) buf
            (polystore_index_lookup_next (cs_inode st) entry (u64 start) (u64 end_))
            start end_ (copied + it_buf_count) offset
      end
  end.

(** The fields set on a new entry before it is admitted. *)
Definition new_cache_entry (slot start placement ino addr : Z) (e : it_node_entry)
    : it_node_entry :=
  let it_start := u64 (Z.land start POLY_INDEX_NODE_SIZE_MASK) in
  e <| e_it := ITNode slot it_start (u64 (it_start + POLY_INDEX_NODE_SIZE - 1)) |>
    <| e_size := 0 |> <| e_cache_size := 0 |> <| e_inode := ino |>
    <| e_ref_count := 1 |> <| e_dirty := 1 |> <| e_present := 1 |>
    <| e_removed := 0 |> <| e_buf_addr := addr |> <| e_placement := placement |>.

(** The offset of a new piece in its physical file, and the counter. *)
Definition take_offset (placement : Z) (inode : poly_inode) : Z * poly_inode :=
  if placement =? BLK_PLACEMENT_FAST
  then (i_cache_fast_offset inode,
        inode <| i_cache_fast_offset :=
                   i_cache_fast_offset inode + POLY_INDEX_NODE_SIZE |>)
  else (i_cache_slow_offset inode,
        inode <| i_cache_slow_offset :=
                   i_cache_slow_offset inode + POLY_INDEX_NODE_SIZE |>).

Definition set_cs_inode (inode : poly_inode) st : cstate Fs A :=
  set_io (cs_io st <| io_inode := inode |>) st.

(** One new node: buffer, admission, copy, offset, LRU list, index.  The copy
    goes to the beginning of the buffer whatever [it_buf_start] is. *)
Definition add_node (slot start it_buf_count : Z) (d : list byte) st
    : option (cstate Fs A) :=
  let it_buf_start := start - Z.land start POLY_INDEX_NODE_SIZE_MASK in
  let ch := cs_cache st in
  let '(addr, a, m) := mm_alloc (ch_alloc ch) (ch_mem ch) in
  if negb (valid_buf addr) then None
  else
    let placement := t_placement (io_task (cs_io st)) in
    let e := new_cache_entry slot start placement (i_ino (cs_inode st)) addr
               (entry_at (cs_inode st) slot) in
    let st := set_cs_entry slot e
                (st <| cs_cache := ch <| ch_alloc := a |>
                         <| ch_mem := mem_set m addr x00 POLY_INDEX_NODE_SIZE |> |>) in
    let '(_, st) := poly_cache_admit st slot it_buf_start
                      (s64 (it_buf_start + it_buf_count - 1)) WRITE_IO in
    let st := set_mem (mem_write (ch_mem (cs_cache st)) addr d) st in
    let '(off, inode) := take_offset placement (cs_inode st) in
    let inode := set_entry inode slot (entry_at inode slot <| e_offset := off |>) in
    let st := st <| cs_cache := poly_cache_add_lru_cold_list (i_ino inode, slot)
                                  (cs_cache st) |> in
    inode ← polystore_index_insert inode slot;
    Some (set_cs_inode inode st).

Fixpoint write_new_nodes_polycache (fuel : nat) st (buf : list byte)
    (start end_ copied offset : Z) : option (Z * cstate Fs A) :=
  if start <? end_ then
    match fuel with
    | O => None
    | S fuel =>
        let it_buf_count := u64 (end_ - start + 1) in
        let it_buf_count := if POLY_INDEX_NODE_SIZE <? it_buf_count
                            then POLY_INDEX_NODE_SIZE else it_buf_count in
        alloc ← polystore_index_entry_allocate (cs_inode st);
        match alloc with
        | (None, inode) => Some (copied, set_cs_inode inode st)
        | (Some slot, inode) =>
            st ← add_node slot start it_buf_count (slice copied it_buf_count buf)
                   (set_cs_inode inode st);
            write_new_nodes_polycache fuel (advance offset it_buf_count st) buf
              (s64 (start + it_buf_count)) end_ (s64 (copied + it_buf_count)) offset
        end
    end
  else Some (copied, st).

Definition polystore_write_iter_polycache st (buf : list byte) (count offset : Z)
    : option (Z * cstate Fs A) :=
  if count =? 0 then Some (0, st)
  else
    let '(start, end_) := polystore_io_set_range (io_file (cs_io st)) offset count in
    '(start, copied, st) ← write_nodes_polycache (node_fuel (cs_inode st)) st buf
       (polystore_index_lookup (cs_inode st) (u64 start) (u64 end_))
       start end_ 0 offset;
    '(copied, st) ← write_new_nodes_polycache (new_fuel start end_) st buf
       start end_ copied offset;
    let st := set_cs_inode (grow_size end_ (cs_inode st)) st in
    let task := io_task (cs_io st) in
    Some (copied,
      set_io (cs_io st <| io_task := task
                <| t_throughput := u64 (t_throughput task + copied) |>
                <| t_throughput_write := u64 (t_throughput_write task + copied) |> |>)
        st).

(** [polystore_append_iter_polycache]: apart from the extent of the lock its body
    is that of the write iterator, the range included. *)
Definition polystore_append_iter_polycache st (buf : list byte) (count offset : Z)
    : option (Z * cstate Fs A) :=
  polystore_write_iter_polycache st buf count offset.

End model.

End IoBuffered.
