(* ===== verification/CacheSpec.v ===== *)
(** * The Poly cache keeps the contents of a file

    [cached]: the Poly-index, the cache buffers and the two physical files of an
    inode together hold the byte sequence [data]: a present buffer holds the bytes
    of its piece, and a piece that is not dirty is stored in its physical file.
    Admission, eviction and syncing preserve it. *)

From S2P Require Import Prelude Defs Posix IntervalTree Indexing IoDirect.
From S2P Require Import IoDirectSpec CacheMm Cache.
Import IoDirect Cache.

#[local] Open Scope Z_scope.

Module CacheSpec.

(** ** Memory *)

Lemma same_buffer_write m addr d p q :
  apart p q -> p <= addr -> addr + zlength d <= p + NODE ->
  same_buffer q m (mem_write m addr d).
Proof.
  intros Ha Hp Hd x Hx. rewrite mem_write_spec, decide_False; [done|].
  destruct Ha; lia.
Qed.

Lemma same_buffer_trans q m1 m2 m3 :
  same_buffer q m1 m2 -> same_buffer q m2 m3 -> same_buffer q m1 m3.
Proof. intros H1 H2 x Hx. by rewrite H2, H1. Qed.

Section inv.
Context {Fs : Type} `{!PosixFS Fs, !PosixFSLaws Fs, !ReliableFS Fs}.
Context {A : Type} `{!CacheAlloc A, !CacheAllocLaws A}.
Implicit Types (fs : Fs) (a : A) (m : mem) (e : it_node_entry).
Variables fast_obj slow_obj : Z.
Hypothesis distinct : fast_obj <> slow_obj.

Local Abbreviation dev := (IoDirectSpec.dev fast_obj slow_obj).

(** ** The invariant *)

(** The length of the [i]-th piece. *)
Definition piece_len (data : list byte) (i : nat) : Z :=
  Z.min NODE (zlength data - i * NODE).

(** [f] gives the bytes of the [i]-th piece. *)
Definition holds_piece (data : list byte) (i : nat) (f : Z -> byte) : Prop :=
  forall k, 0 <= k < piece_len data i -> data !! Z.to_nat (i * NODE + k) = Some (f k).

(** The piece is in its physical file. *)
Definition stored fs (data : list byte) (i : nat) (p : piece) : Prop :=
  pc_off p + piece_len data i <= fs_size fs (dev (pc_place p)) /\
  holds_piece data i (fun k => fs_content fs (dev (pc_place p)) (pc_off p + k)).

Record piece_ok fs m a (data : list byte) (i : nat) (p : piece) e : Prop := {
  po_size : e_size e = piece_len data i;
  po_removed : e_removed e = 0;
  po_live : e_buf_addr e <> 0 -> mm_live a (e_buf_addr e);
  po_present : e_present e = 0 \/
    e_present e = 1 /\ e_buf_addr e <> 0 /\
    holds_piece data i (fun k => m (e_buf_addr e + k));
  po_dirty : e_dirty e = 1 /\ e_present e = 1 \/
    e_dirty e = 0 /\ stored fs data i p
}.

(** The offset the next new piece on a device gets. *)
Definition next_off (inode : poly_inode) (placement : Z) : Z :=
  if placement =? BLK_PLACEMENT_FAST then i_cache_fast_offset inode
  else i_cache_slow_offset inode.

Definition placed_at (pl : Z) : Prop :=
  pl = BLK_PLACEMENT_FAST \/ pl = BLK_PLACEMENT_SLOW.

Record cached fs (inode : poly_inode) m a (es : list piece) (data : list byte)
    : Prop := {
  ca_index : index_ok inode es;
  ca_len : (length es - 1) * NODE < zlength data <= length es * NODE;
  ca_policy : i_cache_policy inode <> CACHE_POLICY_FAST_READ_NOT_ADMIT;
  ca_place : forall p, p ∈ es -> placed_at (pc_place p) /\
    0 <= pc_off p /\ pc_off p + NODE <= next_off inode (pc_place p);
  ca_apart : forall (i j : nat) p q,
    es !! i = Some p -> es !! j = Some q -> i <> j ->
    pc_place p = pc_place q -> apart (pc_off p) (pc_off q);
  ca_next : forall pl, 0 <= next_off inode pl;
  ca_wf : mm_wf a;
  ca_piece : forall (i : nat) p, es !! i = Some p ->
    piece_ok fs m a data i p (entry_at inode (pc_slot p));
  ca_bufs : forall (i j : nat) p q,
    es !! i = Some p -> es !! j = Some q -> i <> j ->
    e_buf_addr (entry_at inode (pc_slot p)) <> 0 ->
    e_buf_addr (entry_at inode (pc_slot p)) <>
      e_buf_addr (entry_at inode (pc_slot q))
}.

#[local] Arguments ca_index {fs inode m a es data} _.
#[local] Arguments ca_len {fs inode m a es data} _.
#[local] Arguments ca_policy {fs inode m a es data} _.
#[local] Arguments ca_place {fs inode m a es data} _.
#[local] Arguments ca_apart {fs inode m a es data} _.
#[local] Arguments ca_next {fs inode m a es data} _.
#[local] Arguments ca_wf {fs inode m a es data} _.
#[local] Arguments ca_piece {fs inode m a es data} _.
#[local] Arguments ca_bufs {fs inode m a es data} _.
#[local] Arguments po_size {fs m a data i p e} _.
#[local] Arguments po_removed {fs m a data i p e} _.
#[local] Arguments po_live {fs m a data i p e} _.
#[local] Arguments po_present {fs m a data i p e} _.
#[local] Arguments po_dirty {fs m a data i p e} _.

(** ** Other users of the cache *)

(** A buffer in use by somebody else. *)
Definition foreign (inode : poly_inode) a (es : list piece) (q : Z) : Prop :=
  mm_live a q /\
  forall p, p ∈ es -> e_buf_addr (entry_at inode (pc_slot p)) <> q.

Definition keeps_foreign inode m a es inode' m' a' es' : Prop :=
  forall q, foreign inode a es q -> foreign inode' a' es' q /\ same_buffer q m m'.

Lemma keeps_foreign_refl inode m a es : keeps_foreign inode m a es inode m a es.
Proof. by intros q Hq. Qed.

Lemma keeps_foreign_trans i1 m1 a1 es1 i2 m2 a2 es2 i3 m3 a3 es3 :
  keeps_foreign i1 m1 a1 es1 i2 m2 a2 es2 ->
  keeps_foreign i2 m2 a2 es2 i3 m3 a3 es3 ->
  keeps_foreign i1 m1 a1 es1 i3 m3 a3 es3.
Proof.
  intros H1 H2 q Hq. destruct (H1 q Hq) as [Hq2 Hm1].
  destruct (H2 q Hq2) as [Hq3 Hm2]. eauto using same_buffer_trans.
Qed.

(** ** Changing one piece *)

Lemma slots_ne inode es (i j : nat) p q :
  index_ok inode es -> es !! i = Some p -> es !! j = Some q -> i <> j ->
  pc_slot q <> pc_slot p.
Proof.
  intros H Hp Hq Hij E. apply Hij.
  eapply (NoDup_lookup (pc_slot <$> es)); [apply (ok_slots _ _ H)|..];
    by rewrite list_lookup_fmap, ?Hp, ?Hq; cbn; rewrite ?E.
Qed.

Lemma cached_set_piece fs inode m a es data (i : nat) p fs' m' a' data' e' :
  let e := entry_at inode (pc_slot p) in
  cached fs inode m a es data -> es !! i = Some p ->
  e_it e' = e_it e -> e_placement e' = e_placement e -> e_offset e' = e_offset e ->
  (length es - 1) * NODE < zlength data' <= length es * NODE ->
  mm_wf a' ->
  piece_ok fs' m' a' data' i p e' ->
  (forall (j : nat) q, es !! j = Some q -> j <> i ->
     piece_ok fs m a data j q (entry_at inode (pc_slot q)) ->
     piece_ok fs' m' a' data' j q (entry_at inode (pc_slot q))) ->
  (forall (j : nat) q, es !! j = Some q -> j <> i -> e_buf_addr e' <> 0 ->
     e_buf_addr (entry_at inode (pc_slot q)) <> e_buf_addr e') ->
  cached fs' (set_entry inode (pc_slot p) e') m' a' es data'.
Proof.
  intros e C Hp H1 H2 H3 Hlen Hwf Hpo Hothers Hbufs.
  pose proof (ca_index C) as Hidx.
  assert (forall (j : nat) q, es !! j = Some q ->
    entry_at (set_entry inode (pc_slot p) e') (pc_slot q) =
      if decide (j = i) then e' else entry_at inode (pc_slot q)) as Hat.
  { intros j q Hq. destruct (decide (j = i)) as [->|Hne].
    - rewrite Hp in Hq. injection Hq as <-. apply entry_at_set_eq.
    - apply entry_at_set_ne. by eapply slots_ne. }
  split; try apply C; try done.
  - by apply index_ok_set_entry.
  - intros j q Hq. rewrite (Hat j q Hq). case_decide as Hj.
    + subst j. rewrite Hp in Hq. by injection Hq as <-.
    + apply Hothers; [done..|]. by apply C.
  - intros j k q r Hq Hr Hjk. rewrite (Hat j q Hq), (Hat k r Hr).
    destruct (decide (j = i)) as [->|Hj], (decide (k = i)) as [->|Hk]; [done|..].
    + intros Hn E. by eapply (Hbufs k r).
    + intros Hn E. eapply (Hbufs j q); [done..|congruence|done].
    + by apply (ca_bufs C j k).
Qed.

(** What a piece depends on besides its entry. *)
Lemma piece_ok_same fs m a data (j : nat) q e m' a' :
  piece_ok fs m a data j q e ->
  (e_buf_addr e <> 0 -> mm_live a (e_buf_addr e) ->
     mm_live a' (e_buf_addr e) /\ same_buffer (e_buf_addr e) m m') ->
  piece_ok fs m' a' data j q e.
Proof.
  intros [Hs Hr Hl Hpr Hd] H. split; try done.
  - intros Hn. by apply H, Hl.
  - destruct Hpr as [|(Hp1 & Hb & Hh)]; [by left|right]. split_and!; [done..|].
    intros k Hk. destruct (H Hb (Hl Hb)) as [_ Hm].
    rewrite Hh by done. f_equal. symmetry. apply Hm.
    unfold piece_len in Hk. lia.
Qed.

Lemma keeps_foreign_set fs inode m a es data (i : nat) p m' a' e' :
  cached fs inode m a es data -> es !! i = Some p ->
  (forall q, foreign inode a es q ->
     mm_live a' q /\ q <> e_buf_addr e' /\ same_buffer q m m') ->
  keeps_foreign inode m a es (set_entry inode (pc_slot p) e') m' a' es.
Proof.
  intros C Hp H q Hq. destruct (H q Hq) as (Hl & Hne & Hm). split; [|done].
  split; [done|]. intros r Hr. apply list_elem_of_lookup in Hr as (j & Hr).
  destruct (decide (j = i)) as [->|Hj].
  - rewrite Hp in Hr. injection Hr as <-. rewrite entry_at_set_eq. congruence.
  - rewrite entry_at_set_ne by (eapply slots_ne; [apply C|done..]).
    apply Hq. by eapply list_elem_of_lookup_2.
Qed.

(** Fields of an entry the invariant does not mention. *)
Lemma cached_same_entry fs inode m a es data (i : nat) p e' :
  let e := entry_at inode (pc_slot p) in
  cached fs inode m a es data -> es !! i = Some p ->
  (e_it e', e_placement e', e_offset e', e_size e', e_removed e', e_buf_addr e',
   e_present e', e_dirty e') =
  (e_it e, e_placement e, e_offset e, e_size e, e_removed e, e_buf_addr e,
   e_present e, e_dirty e) ->
  cached fs (set_entry inode (pc_slot p) e') m a es data /\
  keeps_foreign inode m a es (set_entry inode (pc_slot p) e') m a es.
Proof.
  intros e C Hp [= H1 H2 H3 H4 H5 H6 H7 H8]. split.
  - apply (cached_set_piece fs inode m a es data i p); try done; try apply C.
    + destruct (ca_piece C i p Hp).
      split; rewrite ?H4, ?H5, ?H6, ?H7, ?H8; done.
    + intros j q Hq Hj Hn. rewrite H6 in *. intros E.
      by apply (ca_bufs C i j p q).
  - eapply keeps_foreign_set; [done..|]. intros q [Hl Hq]. split_and!; [done| |done].
    rewrite H6. intros ->. eapply Hq; [by eapply list_elem_of_lookup_2|done].
Qed.

(** ** Buffers come and go *)

(** The buffer of another piece or of another user is unaffected by a write to
    the buffer of this one. *)
Lemma other_buffer fs inode m a es data (i : nat) p q addr d :
  let e := entry_at inode (pc_slot p) in
  cached fs inode m a es data -> es !! i = Some p -> e_buf_addr e <> 0 ->
  mm_live a q -> q <> e_buf_addr e ->
  e_buf_addr e <= addr -> addr + zlength d <= e_buf_addr e + NODE ->
  same_buffer q m (mem_write m addr d).
Proof.
  intros e C Hp Hb Hq Hne H1 H2.
  apply same_buffer_write with (e_buf_addr e); [|done..].
  apply (mm_live_apart a); [apply C| |done|done].
  by apply (po_live (ca_piece C i p Hp)).
Qed.

(** [poly_cache_mm_alloc] for a piece without a buffer. *)
Lemma cached_alloc fs inode m a es data (i : nat) p addr a' m' :
  let e := entry_at inode (pc_slot p) in
  cached fs inode m a es data -> es !! i = Some p -> e_buf_addr e = 0 ->
  mm_alloc a m = (addr, a', m') -> addr <> 0 ->
  let inode' := set_entry inode (pc_slot p) (e <| e_buf_addr := addr |>) in
  cached fs inode' m' a' es data /\ keeps_foreign inode m a es inode' m' a' es.
Proof.
  intros e C Hp Hb E Hn inode'. pose proof (ca_wf C) as Hwf.
  destruct (mm_alloc_live _ _ _ _ _ Hwf E Hn) as [Hnl Hl].
  pose proof (mm_alloc_wf _ _ _ _ _ Hwf E) as Hwf'.
  assert (forall q, mm_live a q -> mm_live a' q /\ same_buffer q m m') as Hkeep.
  { intros q Hq. split; [apply Hl; by right|]. by apply (mm_alloc_frame a m addr a' m'). }
  split.
  - apply (cached_set_piece fs inode m a es data i p); try done; try apply C.
    + destruct (ca_piece C i p Hp) as [H1 H2 H3 H4 H5].
      fold e in H1, H2, H3, H4, H5. split; cbn; try done.
      * intros _. apply Hl. by left.
      * destruct H4 as [H4|(_ & H4 & _)]; [by left|done].
    + intros j q Hq Hj Hpo. eapply piece_ok_same; [done|]. auto.
    + intros j q Hq Hj _. cbn. intros <-. apply Hnl.
      apply (po_live (ca_piece C j q Hq)).
      done.
  - eapply keeps_foreign_set; [done..|]. intros q [Hq _]. cbn.
    destruct (Hkeep q Hq). split_and!; [done| |done]. by intros ->.
Qed.

(** The two physical files are open. *)
Definition opened fs (fastfd slowfd : Z) : Prop :=
  fs_object fs fastfd = Some fast_obj /\ fs_object fs slowfd = Some slow_obj.

(** The descriptor of the device of a piece. *)
Lemma cached_fd fs inode m a es data p fastfd slowfd :
  cached fs inode m a es data -> p ∈ es -> opened fs fastfd slowfd ->
  exists fd, entry_fd fastfd slowfd (pc_place p) = Some fd /\
    fs_object fs fd = Some (dev (pc_place p)).
Proof.
  intros C Hp [Hf Hs]. destruct (ca_place C p Hp) as [[->| ->] _];
    unfold entry_fd, IoDirectSpec.dev; cbn; eexists; by split.
Qed.

Lemma piece_len_pos fs inode m a es data (i : nat) p :
  cached fs inode m a es data -> es !! i = Some p -> 0 < piece_len data i <= NODE.
Proof.
  intros C Hp. apply lookup_lt_Some in Hp. pose proof node_pos.
  destruct (ca_len C). unfold piece_len. nia.
Qed.

(** Loading a piece into its buffer. *)
Lemma cached_load fs inode m a es data (i : nat) p fd :
  let e := entry_at inode (pc_slot p) in
  cached fs inode m a es data -> es !! i = Some p ->
  e_buf_addr e <> 0 -> e_present e = 0 ->
  fs_object fs fd = Some (dev (pc_place p)) ->
  exists d, fs_pread fs fd (e_size e) (e_offset e) = (piece_len data i, d) /\
    let inode' := set_entry inode (pc_slot p) (e <| e_present := 1 |>) in
    let m' := mem_write m (e_buf_addr e) d in
    cached fs inode' m' a es data /\ keeps_foreign inode m a es inode' m' a es.
Proof.
  intros e C Hp Hb Hpr Hfd. pose proof (piece_len_pos _ _ _ _ _ _ _ _ C Hp) as Hlen.
  destruct (ca_place C p) as (_ & Hoff & _);
    [by eapply list_elem_of_lookup_2|].
  destruct (ok_entry _ _ (ca_index C) i p Hp) as (_ & _ & Eoff).
  destruct (ca_piece C i p Hp) as [H1 H2 H3 H4 H5].
  fold e in Eoff, H1, H2, H3, H4, H5.
  destruct H5 as [[_ ?]|[Hd [Hsz Hst]]]; [congruence|].
  rewrite H1, Eoff. erewrite pread_reliable by (done || lia).
  rewrite Z.min_l by lia. eexists. split; [done|]. intros inode' m'.
  assert (zlength (tabulate (fun k => fs_content fs (dev (pc_place p)) (pc_off p + k))
    (piece_len data i)) = piece_len data i) as Hz by (apply zlength_tabulate; lia).
  split.
  - apply (cached_set_piece fs inode m a es data i p); try done; try apply C.
    + split; cbn; try done; [|by right]. right. split_and!; [done..|].
      intros k Hk. unfold m'. rewrite mem_write_spec, Hz, decide_True by lia.
      replace (e_buf_addr e + k - e_buf_addr e) with k by lia.
      rewrite lookup_tabulate, decide_True, Z2Nat.id by lia. by apply Hst.
    + intros j q Hq Hj Hpo. eapply piece_ok_same; [done|]. intros Hn Hl.
      split; [done|]. apply (other_buffer fs inode m a es data i p); fold e; try done; try lia.
      by apply (ca_bufs C j i).
    + intros j q Hq Hj _. cbn. intros E.
      by apply (ca_bufs C i j p q).
  - eapply keeps_foreign_set; [done..|]. intros q [Hq Hf]. cbn.
    assert (q <> e_buf_addr e).
    { intros ->. eapply Hf; [by eapply list_elem_of_lookup_2|done]. }
    split_and!; [done|done|].
    apply (other_buffer fs inode m a es data i p); fold e; done || lia.
Qed.

(** ** Writing to a buffer *)

(** Writing inside one piece leaves the length and the bytes of the others. *)
Lemma overwrite_other_piece data (i j n : nat) pos d :
  (n - 1) * NODE < zlength data <= n * NODE -> (i < n)%nat -> (j < n)%nat -> j <> i ->
  i * NODE <= pos <= zlength data -> pos + zlength d <= i * NODE + NODE ->
  piece_len (overwrite pos d data) j = piece_len data j /\
  forall f, holds_piece data j f -> holds_piece (overwrite pos d data) j f.
Proof.
  intros Hlen Hi Hj Hij Hpos Hend. pose proof node_pos.
  assert (piece_len (overwrite pos d data) j = piece_len data j) as Hpl.
  { unfold piece_len. rewrite zlength_overwrite by nia.
    destruct (decide (zlength data < pos + zlength d)); [nia|lia]. }
  split; [done|]. intros f Hf k Hk. rewrite Hpl in Hk.
  rewrite lookup_overwrite by nia. rewrite decide_False; [by apply Hf|].
  unfold piece_len in Hk. rewrite Z2Nat.id by nia. intros Hin.
  apply Hij. apply (IoDirectSpec.piece_unique j i (j * NODE + k)); lia.
Qed.

Lemma overwrite_piece_len data (i n : nat) pos d :
  (n - 1) * NODE < zlength data <= n * NODE -> (i < n)%nat ->
  i * NODE <= pos <= zlength data -> pos + zlength d <= i * NODE + NODE ->
  piece_len (overwrite pos d data) i =
    Z.max (piece_len data i) (pos - i * NODE + zlength d) /\
  (n - 1) * NODE < zlength (overwrite pos d data) <= n * NODE.
Proof.
  intros Hlen Hi Hpos Hend. pose proof node_pos. unfold piece_len.
  rewrite zlength_overwrite by nia. nia.
Qed.

(** The bytes of a piece whose buffer is written to. *)
Lemma holds_piece_write data (i : nat) m addr pos d :
  i * NODE <= pos <= zlength data ->
  pos + zlength d <= i * NODE + NODE ->
  holds_piece data i (fun k => m (addr + k)) ->
  holds_piece (overwrite pos d data) i
    (fun k => mem_write m (addr + (pos - i * NODE)) d (addr + k)).
Proof.
  intros Hpos Hend Hh k Hk. pose proof node_pos.
  assert (piece_len (overwrite pos d data) i =
    Z.min NODE (zlength data `max` (pos + zlength d) - i * NODE)) as Hpl.
  { unfold piece_len. by rewrite zlength_overwrite by lia. }
  rewrite Hpl in Hk. rewrite lookup_overwrite, mem_write_spec by lia.
  rewrite Z2Nat.id by lia.
  destruct (decide (pos <= i * NODE + k < pos + zlength d)).
  - rewrite decide_True by lia.
    replace (addr + k - (addr + (pos - i * NODE))) with (i * NODE + k - pos) by lia.
    destruct (lookup_lt_is_Some_2 d (Z.to_nat (i * NODE + k - pos))) as [x ->];
      [lia|done].
  - rewrite decide_False by lia. apply Hh. unfold piece_len. lia.
Qed.

Lemma cached_write fs inode m a es data (i : nat) p pos d e' :
  let e := entry_at inode (pc_slot p) in
  cached fs inode m a es data -> es !! i = Some p ->
  e_present e = 1 -> i * NODE <= pos <= zlength data ->
  pos + zlength d <= i * NODE + NODE ->
  (e_it e', e_placement e', e_offset e', e_removed e', e_buf_addr e', e_present e') =
    (e_it e, e_placement e, e_offset e, e_removed e, e_buf_addr e, e_present e) ->
  e_dirty e' = 1 -> e_size e' = Z.max (e_size e) (pos - i * NODE + zlength d) ->
  let inode' := set_entry inode (pc_slot p) e' in
  let m' := mem_write m (e_buf_addr e + (pos - i * NODE)) d in
  cached fs inode' m' a es (overwrite pos d data) /\
  keeps_foreign inode m a es inode' m' a es.
Proof.
  intros e C Hp Hpr Hpos Hend [= E1 E2 E3 E4 E5 E6] Hd Hsz inode' m'.
  pose proof (lookup_lt_Some _ _ _ Hp) as Hi.
  destruct (ca_piece C i p Hp) as [H1 H2 H3 H4 H5].
  fold e in H1, H2, H3, H4, H5.
  destruct H4 as [|(_ & Hb & Hh)]; [congruence|].
  pose proof (ca_len C) as Hlen.
  destruct (overwrite_piece_len data i (length es) pos d) as [Hpl Hlen']; [done..|].
  split.
  - apply (cached_set_piece fs inode m a es data i p); try done; try apply C.
    + split; rewrite ?E4, ?E5, ?E6; try done.
      * by rewrite Hsz, Hpl, H1.
      * right. split_and!; [done..|]. by apply holds_piece_write.
      * left. done.
    + intros j q Hq Hj Hpo. apply lookup_lt_Some in Hq as Hj'.
      destruct (overwrite_other_piece data i j (length es) pos d) as [Hpl' Hho];
        [done..|].
      eapply piece_ok_same with m a.
      * destruct Hpo as [? ? ? P4 P5]. split; rewrite ?Hpl'; try done.
        -- destruct P4 as [|(?&?&?)]; [by left|right]. auto.
        -- destruct P5 as [|(?&?&?)]; [by left|right]. unfold stored.
           rewrite Hpl'. auto.
      * intros Hn Hl. split; [done|].
        apply (other_buffer fs inode m a es data i p); fold e; try done; try lia.
        by apply (ca_bufs C j i).
    + intros j q Hq Hj _. rewrite E5. intros E.
      by apply (ca_bufs C i j p q).
  - eapply keeps_foreign_set; [done..|]. intros q [Hq Hf]. rewrite E5.
    assert (q <> e_buf_addr e).
    { intros ->. eapply Hf; [by eapply list_elem_of_lookup_2|done]. }
    split_and!; [done|done|].
    apply (other_buffer fs inode m a es data i p); fold e; done || lia.
Qed.

(** ** A new piece *)

Lemma app_other_piece data d (j n : nat) :
  zlength data = n * NODE -> (j < n)%nat ->
  piece_len (data ++ d) j = piece_len data j /\
  forall f, holds_piece data j f -> holds_piece (data ++ d) j f.
Proof.
  intros Hlen Hj. pose proof node_pos.
  assert (j * NODE + NODE <= zlength data) as Hfull by nia.
  assert (piece_len (data ++ d) j = piece_len data j) as Hpl
    by (unfold piece_len; rewrite length_app; lia).
  split; [done|]. intros f Hf k Hk. rewrite Hpl in Hk.
  rewrite lookup_app_l by (unfold piece_len in Hk; lia). by apply Hf.
Qed.

Lemma app_new_piece data d (n : nat) :
  zlength data = n * NODE -> d <> [] -> zlength d <= NODE ->
  piece_len (data ++ d) n = zlength d /\
  (S n - 1) * NODE < zlength (data ++ d) <= S n * NODE.
Proof.
  intros Hlen Hd Hdl. assert (0 < zlength d) by (destruct d; [done|cbn; lia]).
  unfold piece_len. rewrite length_app. lia.
Qed.

(** The buffer of the new piece. *)
Record fresh_buffer m a addr m' a' (d : list byte) : Prop := {
  fb_nonnull : addr <> 0;
  fb_new : ~ mm_live a addr;
  fb_wf : mm_wf a';
  fb_live : forall q, mm_live a' q <-> q = addr \/ mm_live a q;
  fb_frame : forall q, mm_live a q -> same_buffer q m m';
  fb_data : forall k, 0 <= k < zlength d -> d !! Z.to_nat k = Some (m' (addr + k))
}.

(** The inode with the new piece. *)
Record extended (inode inode' : poly_inode) (es : list piece) (p : piece) : Prop := {
  ex_index : index_ok inode' (es ++ [p]);
  ex_entry : forall slot, slot <> pc_slot p ->
    entry_at inode' slot = entry_at inode slot;
  ex_slot : forall q, q ∈ es -> pc_slot q <> pc_slot p;
  ex_policy : i_cache_policy inode' = i_cache_policy inode;
  ex_place : placed_at (pc_place p);
  ex_off : pc_off p = next_off inode (pc_place p);
  ex_next : forall pl, next_off inode pl <= next_off inode' pl;
  ex_next_eq : next_off inode' (pc_place p) = pc_off p + NODE
}.

Lemma cached_new fs inode m a es data p inode' addr m' a' d :
  let e := entry_at inode' (pc_slot p) in
  cached fs inode m a es data -> zlength data = length es * NODE ->
  d <> [] -> zlength d <= NODE ->
  extended inode inode' es p -> fresh_buffer m a addr m' a' d ->
  (e_size e, e_removed e, e_buf_addr e, e_present e, e_dirty e) =
    (zlength d, 0, addr, 1, 1) ->
  cached fs inode' m' a' (es ++ [p]) (data ++ d).
Proof.
  intros e C Hfull Hd Hdl X B [= E1 E2 E3 E4 E5].
  destruct (app_new_piece data d (length es)) as [Hpl Hlen]; [done..|].
  assert (length (es ++ [p]) = S (length es)) as Hl by (rewrite length_app; cbn; lia).
  assert (forall q, q ∈ es -> entry_at inode' (pc_slot q) = entry_at inode (pc_slot q))
    as Hat by (intros q Hq; apply X; by apply X).
  assert (forall q, q ∈ es -> e_buf_addr (entry_at inode (pc_slot q)) <> addr) as Hnew.
  { intros q (j & Hq)%list_elem_of_lookup E. pose proof (fb_nonnull _ _ _ _ _ _ B).
    apply (fb_new _ _ _ _ _ _ B). rewrite <-E in *.
    by apply (po_live (ca_piece C j q Hq)). }
  split; try apply C; try apply X; try apply B.
  - by rewrite Hl.
  - rewrite (ex_policy _ _ _ _ X). apply C.
  - intros q [Hq|Hq]%elem_of_app.
    + destruct (ca_place C q Hq) as (?&?&?).
      pose proof (ex_next _ _ _ _ X (pc_place q)). split_and!; [done|done|lia].
    + apply list_elem_of_singleton in Hq as ->. split; [apply X|].
      rewrite (ex_next_eq _ _ _ _ X). rewrite (ex_off _ _ _ _ X) at 1.
      split; [apply C|lia].
  - assert (forall (j : nat) q, es !! j = Some q -> pc_place q = pc_place p ->
      pc_off q + NODE <= pc_off p) as Hb.
    { intros j q Hq E. rewrite (ex_off _ _ _ _ X), <-E.
      apply C. by eapply list_elem_of_lookup_2. }
    intros i j q r Hq Hr Hij E.
    apply lookup_app_Some in Hq as [Hq|[Hi' Hq]];
      apply lookup_app_Some in Hr as [Hr|[Hj' Hr]].
    + by eapply (ca_apart C i j).
    + apply list_lookup_singleton_Some in Hr as [_ <-]. left. by eapply Hb.
    + apply list_lookup_singleton_Some in Hq as [_ <-]. right. by eapply Hb.
    + apply list_lookup_singleton_Some in Hq as [? _].
      apply list_lookup_singleton_Some in Hr as [? _]. lia.
  - intros pl. pose proof (ca_next C pl).
    pose proof (ex_next _ _ _ _ X pl). lia.
  - intros i q [Hq|[Hi Hq]]%lookup_app_Some.
    + pose proof (lookup_lt_Some _ _ _ Hq) as Hi.
      destruct (app_other_piece data d i (length es)) as [Hpl' Hho]; [done..|].
      rewrite Hat by (by eapply list_elem_of_lookup_2).
      eapply piece_ok_same with m a.
      * destruct (ca_piece C i q Hq) as [? ? ? P4 P5].
        split; rewrite ?Hpl'; try done.
        -- destruct P4 as [|(?&?&?)]; [by left|right]. auto.
        -- destruct P5 as [|(?&?&?)]; [by left|right]. unfold stored.
           rewrite Hpl'. auto.
      * intros _ Hlv. split; [apply B; by right|by apply B].
    + apply list_lookup_singleton_Some in Hq as [Hi' <-].
      replace i with (length es) by lia. fold e.
      split; rewrite ?E1, ?E2, ?E3, ?E4, ?E5; try done; [|right|by left].
      * intros _. apply B. by left.
      * split_and!; [done|apply B|]. intros k Hk. rewrite Hpl in Hk.
        rewrite lookup_app_r by lia. rewrite <-(fb_data _ _ _ _ _ _ B k Hk).
        f_equal. lia.
  - intros i j q r Hq Hr Hij.
    apply lookup_app_Some in Hq as [Hq|[Hi' Hq]];
      apply lookup_app_Some in Hr as [Hr|[Hj' Hr]].
    + rewrite !Hat by (by eapply list_elem_of_lookup_2).
      by apply (ca_bufs C i j).
    + apply list_lookup_singleton_Some in Hr as [_ <-]. fold e. rewrite E3.
      rewrite Hat by (by eapply list_elem_of_lookup_2). intros _.
      apply Hnew. by eapply list_elem_of_lookup_2.
    + apply list_lookup_singleton_Some in Hq as [_ <-]. fold e. rewrite E3.
      rewrite Hat by (by eapply list_elem_of_lookup_2). intros _ E. symmetry in E.
      revert E. apply Hnew. by eapply list_elem_of_lookup_2.
    + apply list_lookup_singleton_Some in Hq as [? _].
      apply list_lookup_singleton_Some in Hr as [? _]. lia.
Qed.

Lemma keeps_foreign_new inode m a es p inode' addr m' a' d :
  extended inode inode' es p -> fresh_buffer m a addr m' a' d ->
  e_buf_addr (entry_at inode' (pc_slot p)) = addr ->
  keeps_foreign inode m a es inode' m' a' (es ++ [p]).
Proof.
  intros X B E q [Hq Hf]. split; [|by apply B]. split; [apply B; by right|].
  intros r [Hr|Hr]%elem_of_app.
  - rewrite (ex_entry _ _ _ _ X) by (by apply X). by apply Hf.
  - apply list_elem_of_singleton in Hr as ->. rewrite E. intros ->.
    by apply (fb_new _ _ _ _ _ _ B).
Qed.

(** ** Writing back *)

(** The file systems enter only through the contents of the two files. *)
Lemma cached_same_fs fs fs' inode m a es data :
  cached fs inode m a es data -> same_contents fs fs' -> cached fs' inode m a es data.
Proof.
  intros C Hsame. split; try apply C.
  intros i p Hp. destruct (ca_piece C i p Hp) as [? ? ? ? H5].
  split; try done. destruct H5 as [|[Hd [Hsz Hst]]]; [by left|right].
  destruct (Hsame (dev (pc_place p))) as [Esz Ec]. split; [done|].
  split; [by rewrite Esz|]. intros k Hk. rewrite Ec. by apply Hst.
Qed.

Lemma cached_same_inode fs inode inode' m a es data :
  cached fs inode m a es data ->
  (i_it_tree inode', i_next_avail_it_node_no inode', i_index inode',
   i_index_slots inode', i_entries inode',
   i_cache_policy inode', i_cache_fast_offset inode', i_cache_slow_offset inode') =
  (i_it_tree inode, i_next_avail_it_node_no inode, i_index inode,
   i_index_slots inode, i_entries inode,
   i_cache_policy inode, i_cache_fast_offset inode, i_cache_slow_offset inode) ->
  cached fs inode' m a es data.
Proof.
  intros C [= H1 H2 H3 H3' H4 H5 H6 H7].
  assert (forall slot, entry_at inode' slot = entry_at inode slot) as He
    by (intros slot; unfold entry_at; by rewrite H4).
  assert (forall pl, next_off inode' pl = next_off inode pl) as Hn
    by (intros pl; unfold next_off; by rewrite H6, H7).
  split; rewrite ?H5; try apply C.
  - apply (index_ok_ext inode); [apply C|done..|]. intros p _. by rewrite He.
  - intros p Hp. rewrite Hn. by apply C.
  - intros pl. rewrite Hn. apply C.
  - intros i p Hp. rewrite He. by apply C.
  - intros i j p q Hp Hq Hij. rewrite !He. by apply (ca_bufs C i j).
Qed.

(** A buffer written to its place in the physical file. *)
Lemma written_stored fs fs' m data (i : nat) p addr :
  0 < piece_len data i ->
  holds_piece data i (fun k => m (addr + k)) ->
  written (dev (pc_place p)) (pc_off p) (mem_read m addr (piece_len data i)) fs fs' ->
  stored fs' data i p.
Proof.
  intros Hlen Hh (Wsz & Wc & _).
  assert (zlength (mem_read m addr (piece_len data i)) = piece_len data i) as Hz
    by (apply zlength_tabulate; lia).
  rewrite Hz in Wsz, Wc. split.
  - rewrite Wsz. case_decide as E; [rewrite E in Hz; cbn in Hz; lia|lia].
  - intros k Hk. rewrite Wc, decide_True by lia. rewrite Hh by done.
    unfold mem_read. rewrite lookup_tabulate, decide_True by lia.
    cbn. do 2 f_equal. lia.
Qed.

(** The other pieces of the file stay where they are. *)
Lemma written_stored_other fs fs' inode m a es data (i j : nat) p q d :
  cached fs inode m a es data -> es !! i = Some p -> es !! j = Some q -> i <> j ->
  zlength d <= NODE -> written (dev (pc_place p)) (pc_off p) d fs fs' ->
  stored fs data j q -> stored fs' data j q.
Proof.
  intros C Hp Hq Hij Hd W [Hsz Hst]. split.
  - pose proof (IoDirectSpec.written_size_le _ _ _ _ _ (dev (pc_place q)) W). lia.
  - intros k Hk. rewrite (Hst k Hk). f_equal.
    destruct W as (_ & Wc & Wo & _).
    destruct (decide (dev (pc_place q) = dev (pc_place p))) as [E|Hne];
      [|by destruct (Wo _ Hne) as [_ ->]].
    rewrite E, Wc, decide_False; [done|].
    destruct (ca_place C p) as [Pp _]; [by eapply list_elem_of_lookup_2|].
    destruct (ca_place C q) as [Pq _]; [by eapply list_elem_of_lookup_2|].
    apply (IoDirectSpec.dev_inj_place _ _ distinct) in E; [|done..].
    destruct (ca_apart C i j p q) as [|]; [done..|congruence| |];
      unfold piece_len in Hk; lia.
Qed.

Lemma cached_clean fs fs' inode m a es data (i : nat) p e' :
  let e := entry_at inode (pc_slot p) in
  cached fs inode m a es data -> es !! i = Some p -> e_present e = 1 ->
  written (dev (pc_place p)) (pc_off p) (mem_read m (e_buf_addr e) (e_size e))
    fs fs' ->
  (e_it e', e_placement e', e_offset e', e_size e', e_removed e', e_buf_addr e',
   e_present e', e_dirty e') =
  (e_it e, e_placement e, e_offset e, e_size e, e_removed e, e_buf_addr e,
   e_present e, 0) ->
  cached fs' (set_entry inode (pc_slot p) e') m a es data.
Proof.
  intros e C Hp Hpr W [= H1 H2 H3 H4 H5 H6 H7 H8].
  pose proof (piece_len_pos _ _ _ _ _ _ _ _ C Hp) as Hlen.
  destruct (ca_piece C i p Hp) as [P1 P2 P3 P4 P5].
  fold e in P1, P2, P3, P4, P5. rewrite P1 in W.
  destruct P4 as [|P4]; [congruence|]. pose proof P4 as (_ & Hb & Hh).
  apply (cached_set_piece fs inode m a es data i p); try done; try apply C.
  - split; rewrite ?H4, ?H5, ?H6, ?H7, ?H8; try done; right; [done|].
    split; [done|]. eapply written_stored; [lia|exact Hh|done].
  - intros j q Hq Hj [Q1 Q2 Q3 Q4 Q5]. split; try done.
    destruct Q5 as [|[? ?]]; [by left|right]. split; [done|].
    eapply (written_stored_other fs fs' inode m a es data i j p q); try done.
    unfold mem_read. rewrite zlength_tabulate; lia.
  - intros j q Hq Hj _. rewrite H6. intros E.
    by apply (ca_bufs C i j p q).
Qed.

(** Giving up the buffer of a clean piece. *)
Lemma cached_release fs inode m a es data (i : nat) p a' m' e' :
  let e := entry_at inode (pc_slot p) in
  cached fs inode m a es data -> es !! i = Some p -> e_dirty e = 0 ->
  e_buf_addr e <> 0 -> mm_free a m (e_buf_addr e) = (a', m') ->
  (e_it e', e_placement e', e_offset e', e_size e', e_removed e', e_buf_addr e',
   e_present e', e_dirty e') =
  (e_it e, e_placement e, e_offset e, e_size e, e_removed e, 0, 0, 0) ->
  let inode' := set_entry inode (pc_slot p) e' in
  cached fs inode' m' a' es data /\ keeps_foreign inode m a es inode' m' a' es.
Proof.
  intros e C Hp Hd Hb E [= H1 H2 H3 H4 H5 H6 H7 H8] inode'.
  destruct (ca_piece C i p Hp) as [P1 P2 P3 P4 P5].
  fold e in P1, P2, P3, P4, P5. pose proof (ca_wf C) as Hwf.
  pose proof (mm_free_wf _ _ _ _ _ Hwf (P3 Hb) E) as Hwf'.
  pose proof (mm_free_live _ _ _ _ _ Hwf (P3 Hb) E) as Hl.
  assert (forall q, mm_live a q -> q <> e_buf_addr e ->
    mm_live a' q /\ same_buffer q m m') as Hkeep.
  { intros q Hq Hne. split; [by apply Hl|].
    by apply (mm_free_frame a m (e_buf_addr e) a' m' q Hwf (P3 Hb)). }
  split.
  - apply (cached_set_piece fs inode m a es data i p); try done; try apply C.
    + split; rewrite ?H4, ?H5, ?H6, ?H7, ?H8; try done; [by left|].
      right. split; [done|]. destruct P5 as [[? _]|[_ ?]]; [congruence|done].
    + intros j q Hq Hj Hpo. eapply piece_ok_same; [done|]. intros Hn Hlv.
      apply Hkeep; [done|]. by apply (ca_bufs C j i).
  - eapply keeps_foreign_set; [done..|]. intros q [Hq Hf].
    assert (q <> e_buf_addr e).
    { intros ->. eapply Hf; [by eapply list_elem_of_lookup_2|done]. }
    destruct (Hkeep q) as [? ?]; [done..|]. rewrite H6. split_and!; [done| |done].
    intros ->. pose proof (mm_live_valid a 0 Hwf Hq). done.
Qed.

End inv.

Arguments ca_index {_ _ _ _ _ _ _ _ _ _ _ _} _.
Arguments ca_len {_ _ _ _ _ _ _ _ _ _ _ _} _.
Arguments ca_policy {_ _ _ _ _ _ _ _ _ _ _ _} _.
Arguments ca_place {_ _ _ _ _ _ _ _ _ _ _ _} _.
Arguments ca_apart {_ _ _ _ _ _ _ _ _ _ _ _} _.
Arguments ca_next {_ _ _ _ _ _ _ _ _ _ _ _} _.
Arguments ca_wf {_ _ _ _ _ _ _ _ _ _ _ _} _.
Arguments ca_piece {_ _ _ _ _ _ _ _ _ _ _ _} _.
Arguments ca_bufs {_ _ _ _ _ _ _ _ _ _ _ _} _.
Arguments po_size {_ _ _ _ _ _ _ _ _ _ _ _ _} _.
Arguments po_removed {_ _ _ _ _ _ _ _ _ _ _ _ _} _.
Arguments po_live {_ _ _ _ _ _ _ _ _ _ _ _ _} _.
Arguments po_present {_ _ _ _ _ _ _ _ _ _ _ _ _} _.
Arguments po_dirty {_ _ _ _ _ _ _ _ _ _ _ _ _} _.

(** ** Bytes in the physical files *)

(** The byte the index locates at position [k] of the file. *)
Definition physical_byte `{PosixFS Fs} (fast_obj slow_obj : Z) (fs : Fs)
    (inode : poly_inode) (k : Z) : option byte :=
  slot ← polystore_index_lookup inode k k;
  let e := entry_at inode slot in
  let o := IoDirectSpec.dev fast_obj slow_obj (e_placement e) in
  let pos := e_offset e + (k - it_start (e_it e)) in
  if pos <? fs_size fs o then Some (fs_content fs o pos) else None.

Definition on_disk `{PosixFS Fs} (fast_obj slow_obj : Z) (fs : Fs) inode
    (data : list byte) : Prop :=
  forall k, 0 <= k < zlength data ->
    physical_byte fast_obj slow_obj fs inode k = data !! Z.to_nat k.

Lemma clean_on_disk `{PosixFS Fs, CacheAlloc A} fast_obj slow_obj (fs : Fs) inode m (a : A)
    es data :
  cached fast_obj slow_obj fs inode m a es data ->
  (forall p, p ∈ es -> e_dirty (entry_at inode (pc_slot p)) = 0) ->
  on_disk fast_obj slow_obj fs inode data.
Proof.
  intros C Hclean k Hk. pose proof node_pos as HN. destruct (ca_len C).
  pose proof (Z.div_mod k NODE) as Hdm. pose proof (Z.mod_pos_bound k NODE HN).
  assert (0 <= k / NODE < length es) as Hi
    by (split; [apply Z.div_pos|apply Z.div_lt_upper_bound]; lia).
  destruct (lookup_lt_is_Some_2 es (Z.to_nat (k / NODE))) as [p Hp]; [lia|].
  unfold physical_byte. rewrite (lookup_pieces _ es) by (apply C || lia).
  rewrite Hp. cbn [fmap option_fmap option_map mbind option_bind].
  destruct (ok_entry _ _ (ca_index C) _ p Hp) as (-> & -> & ->).
  destruct (ca_piece C _ p Hp) as [_ _ _ _ [[Hd _]|[_ [Hsz Hst]]]].
  { rewrite Hclean in Hd by (by eapply list_elem_of_lookup_2). done. }
  unfold piece_node, holds_piece, piece_len in *. cbn [it_start].
  rewrite Z2Nat.id in * by lia. rewrite (proj2 (Z.ltb_lt _ _)) by lia.
  rewrite <-Hst by lia. f_equal. lia.
Qed.

(** ** Traversing a file *)

Section traversal.
Context {S : Type} (inode_of : S -> poly_inode) (body : Z -> S -> option S).
Variables (es : list piece) (P : nat -> S -> Prop).
Hypothesis P_index : forall i s, P i s -> index_ok (inode_of s) es.
Hypothesis P_step : forall i s p, P i s -> es !! i = Some p ->
  exists s', body (pc_slot p) s = Some s' /\ P (Datatypes.S i) s'.

Lemma traverse_spec last fuel : forall (i : nat) s,
  (length es - 1) * NODE <= last -> (length es <= fuel + i)%nat ->
  (i <= length es)%nat -> P i s ->
  exists s', traverse inode_of body fuel 0 last (pc_slot <$> es !! i) s = Some s' /\
    P (length es) s'.
Proof.
  induction fuel as [|fuel IH]; intros i s Hl Hfuel Hi HP.
  { exists s. rewrite lookup_ge_None_2 by lia.
    by replace (length es) with i by lia. }
  destruct (es !! i) as [p|] eqn:Ep.
  - destruct (P_step i s p HP Ep) as (s' & E & HP').
    cbn [fmap option_fmap option_map traverse]. rewrite E. cbn [mbind option_bind].
    rewrite (lookup_next_scan _ es i) by (by eauto).
    apply lookup_lt_Some in Ep. apply IH; [done|lia..|done].
  - exists s. apply lookup_ge_None in Ep. by replace (length es) with i by lia.
Qed.

Lemma traverse_file_spec s n :
  P 0 s -> i_size (inode_of s) = n -> 0 <= n < 2 ^ 64 ->
  (length es - 1) * NODE < n <= length es * NODE ->
  exists s', traverse_file inode_of body s = Some s' /\ P (length es) s'.
Proof.
  intros HP Hn Hb Hlen. unfold traverse_file. rewrite Hn.
  pose proof (P_index 0 s HP) as Hidx. pose proof node_pos.
  pose proof (IoDirectSpec.node_fuel_length _ _ Hidx) as ->.
  assert ((length es - 1) * NODE <= u64 (n - 1)) as Hl.
  { destruct (decide (n = 0)) as [->|]; [|rewrite u64_id by lia; lia].
    pose proof (u64_range (0 - 1)). nia. }
  pose proof (u64_range (n - 1)).
  rewrite (lookup_pieces _ es) by (done || lia). rewrite Z.div_0_l by lia.
  apply (traverse_spec _ _ 0%nat); [done|lia|lia|done].
Qed.
End traversal.

(** ** Syncing *)

Section sync.
Context {Fs : Type} `{!PosixFS Fs, !PosixFSLaws Fs, !ReliableFS Fs, !PosixNS Fs}.
Context {A : Type} `{!CacheAlloc A, !CacheAllocLaws A, !CacheMmap Fs A}.
Variables fast_obj slow_obj fastfd slowfd : Z.
Hypothesis distinct : fast_obj <> slow_obj.

Local Abbreviation dev := (IoDirectSpec.dev fast_obj slow_obj).
Local Abbreviation cached := (cached fast_obj slow_obj).
Implicit Types (fs : Fs) (ch : poly_cache A).

(** [cached] with the first [n] pieces clean. *)
Definition clean_to (n : nat) fs inode ch es data : Prop :=
  cached fs inode (ch_mem ch) (ch_alloc ch) es data /\
  forall (j : nat) q, (j < n)%nat -> es !! j = Some q ->
    e_dirty (entry_at inode (pc_slot q)) = 0.

Lemma buf_valid fs inode m a es data (i : nat) p :
  cached fs inode m a es data -> es !! i = Some p ->
  e_buf_addr (entry_at inode (pc_slot p)) <> 0 ->
  valid_buf (e_buf_addr (entry_at inode (pc_slot p))) = true.
Proof.
  intros C Hp Hb. apply (mm_live_valid a); [apply C|].
  by apply (po_live (ca_piece C i p Hp)).
Qed.

(** What syncing leaves alone. *)
Definition sync_kept (inode inode' : poly_inode) : Prop :=
  inode_meta inode' = inode_meta inode /\
  i_next_avail_it_node_no inode' = i_next_avail_it_node_no inode /\
  forall slot, e_inode (entry_at inode' slot) = e_inode (entry_at inode slot).

Lemma sync_kept_trans i1 i2 i3 : sync_kept i1 i2 -> sync_kept i2 i3 -> sync_kept i1 i3.
Proof.
  intros (A1 & B1 & C1) (A2 & B2 & C2). split_and!; [congruence..|].
  intros slot. by rewrite C2.
Qed.

Lemma fsync_entry_step (i : nat) fs inode ch es data p :
  clean_to i fs inode ch es data -> opened fast_obj slow_obj fs fastfd slowfd ->
  es !! i = Some p ->
  exists fs' inode',
    fsync_entry fastfd slowfd (pc_slot p) (fs, inode, ch) = Some (fs', inode', ch) /\
    clean_to (S i) fs' inode' ch es data /\ same_fds fs fs' /\
    sync_kept inode inode' /\
    forall o, o <> fast_obj -> o <> slow_obj ->
      fs_size fs' o = fs_size fs o /\
      forall k, fs_content fs' o k = fs_content fs o k.
Proof.
  intros [C Hclean] Hopen Hp. pose proof (ca_index C) as Hidx.
  destruct (ok_entry _ _ Hidx i p Hp) as (_ & Epl & Eoff).
  destruct (ca_piece C i p Hp) as [P1 P2 P3 P4 P5].
  destruct (ca_place C p) as (Hpl & Hoff & _);
    [by eapply list_elem_of_lookup_2|].
  unfold fsync_entry. set (e := entry_at inode (pc_slot p)) in *.
  destruct P5 as [[Hd Hpr]|[Hd Hst]]; rewrite Hd; cbn [Z.eqb Pos.eqb].
  - destruct P4 as [|(_ & Hb & Hh)]; [congruence|].
    pose proof (buf_valid _ _ _ _ _ _ i p C Hp Hb) as Hv. fold e in Hv.
    unfold pwrite_buf. rewrite Hv.
    set (fd := if e_placement e =? BLK_PLACEMENT_FAST then fastfd else slowfd).
    assert (fs_object fs fd = Some (dev (pc_place p))) as Hfd.
    { unfold fd, IoDirectSpec.dev. rewrite Epl.
      destruct (pc_place p =? BLK_PLACEMENT_FAST); apply Hopen. }
    destruct (pwrite_reliable fs fd (mem_read (ch_mem ch) (e_buf_addr e) (e_size e))
      (e_offset e) _ Hfd) as (fs' & E & W); [lia|].
    rewrite E. eexists _, _. split_and!; [done| |apply W| |].
    + rewrite Eoff in W. split; [by eapply cached_clean|].
      intros j q Hj Hq. destruct (decide (j = i)) as [->|].
      * rewrite Hp in Hq. injection Hq as <-. by rewrite entry_at_set_eq.
      * rewrite entry_at_set_ne by (by eapply slots_ne). apply (Hclean j); [lia|done].
    + split_and!; [done..|]. intros slot. destruct (decide (slot = pc_slot p)) as [->|].
      * by rewrite entry_at_set_eq.
      * by rewrite entry_at_set_ne.
    + intros o H1 H2. apply W. unfold IoDirectSpec.dev.
      by destruct (pc_place p =? BLK_PLACEMENT_FAST).
  - exists fs, inode. split_and!; try done. split; [done|].
    intros j q Hj Hq. destruct (decide (j = i)) as [->|].
    + rewrite Hp in Hq. by injection Hq as <-.
    + apply (Hclean j); [lia|done].
Qed.

Lemma fsync_all fs inode ch es data :
  cached fs inode (ch_mem ch) (ch_alloc ch) es data ->
  opened fast_obj slow_obj fs fastfd slowfd ->
  i_size inode = zlength data -> zlength data < 2 ^ 64 ->
  exists ret fs' inode',
    poly_cache_fsync fastfd slowfd (fs, inode, ch) = Some (ret, (fs', inode', ch)) /\
    clean_to (length es) fs' inode' ch es data /\ same_fds fs fs' /\
    sync_kept inode inode' /\
    forall o, o <> fast_obj -> o <> slow_obj ->
      fs_size fs' o = fs_size fs o /\
      forall k, fs_content fs' o k = fs_content fs o k.
Proof.
  intros C Hopen Hsz Hb.
  destruct (traverse_file_spec (fun s : Fs * poly_inode * poly_cache A => snd (fst s))
    (fsync_entry fastfd slowfd) es
    (fun i s => let '(fs', inode', ch') := s in
       clean_to i fs' inode' ch' es data /\ ch' = ch /\ same_fds fs fs' /\
       sync_kept inode inode' /\
       forall o, o <> fast_obj -> o <> slow_obj ->
         fs_size fs' o = fs_size fs o /\
         forall k, fs_content fs' o k = fs_content fs o k))
    with (s := (fs, inode, ch)) (n := zlength data)
    as ([[fs1 inode1] ch1] & E & Hclean & -> & Hfds & Hmeta & Ho).
  - intros i [[fs1 inode1] ch1] [[C1 _] _]. apply C1.
  - intros i [[fs1 inode1] ch1] p (H1 & -> & Hfds & Hm & Ho) Hp.
    destruct (fsync_entry_step i fs1 inode1 ch es data p H1)
      as (fs2 & inode2 & E & H2 & Hfds2 & Hm2 & Ho2);
      [unfold opened; rewrite !Hfds; done|done|].
    exists (fs2, inode2, ch). split_and!; [done|done|done| |by eapply sync_kept_trans|].
    { intros fd. by rewrite Hfds2. }
    intros o H3 H4. destruct (Ho o H3 H4) as [<- Hc], (Ho2 o H3 H4) as [-> Hc2].
    split; [done|]. intros k. by rewrite Hc2.
  - split_and!; try done. split; [done|]. lia.
  - done.
  - lia.
  - apply C.
  - unfold poly_cache_fsync. rewrite E. cbn [mbind option_bind].
    destruct (fs_fsync_spec fs1 fastfd) as [S1 F1].
    destruct (fs_fsync fs1 fastfd) as [r1 fs2]. cbn in S1, F1.
    destruct (fs_fsync_spec fs2 slowfd) as [S2 F2].
    destruct (fs_fsync fs2 slowfd) as [r2 fs3]. cbn in S2, F2.
    eexists _, _, _. split_and!; [done| | |done|].
    + destruct Hclean as [C1 Hd]. split; [|done].
      by apply (cached_same_fs _ _ fs2), S2; apply (cached_same_fs _ _ fs1).
    + intros fd. by rewrite F2, F1.
    + intros o H1 H2. destruct (Ho o H1 H2) as [<- Hc], (S1 o) as [Z1 D1],
        (S2 o) as [Z2 D2]. split; [congruence|]. intros k. by rewrite D2, D1, Hc.
Qed.

End sync.

(** ** Eviction *)

Section evict.
Context {Fs : Type} `{!PosixFS Fs, !PosixFSLaws Fs, !ReliableFS Fs}.
Context `{!PosixNS Fs, !ReliableNS Fs}.
Context {A : Type} `{!CacheAlloc A, !CacheAllocLaws A}.
Variables fast_obj slow_obj : Z.
Variables FAST_DIR SLOW_DIR : string.
Hypothesis distinct : fast_obj <> slow_obj.

Local Abbreviation dev := (IoDirectSpec.dev fast_obj slow_obj).
Local Abbreviation cached := (cached fast_obj slow_obj).
Implicit Types (fs : Fs) (ch : poly_cache A).

(** Open descriptors stay open and names keep their files. *)
Definition env_kept fs fs' : Prop :=
  (forall fd o, fs_object fs fd = Some o -> fs_object fs' fd = Some o) /\
  forall path, ns_resolve fs' path = ns_resolve fs path.

Lemma env_kept_trans fs1 fs2 fs3 :
  env_kept fs1 fs2 -> env_kept fs2 fs3 -> env_kept fs1 fs3.
Proof. intros [H1 R1] [H2 R2]. split; [auto|]. intros path. by rewrite R2. Qed.

(** The contents of files other than those of this Poly-file. *)
Definition others_kept fs fs' : Prop := forall o, o <> fast_obj -> o <> slow_obj ->
  fs_size fs' o = fs_size fs o /\ forall k, fs_content fs' o k = fs_content fs o k.

Lemma sys_open_ok fs path o :
  ns_resolve fs path = Some o ->
  exists fd fs', sys_open fs path O_RDWR mode_0755 = (fd, fs') /\ 0 <= fd /\
    fs_object fs fd = None /\ fs_object fs' fd = Some o /\ same_contents fs fs' /\ env_kept fs fs'.
Proof.
  intros Hr. unfold sys_open. destruct (ns_unused_fd fs O_RDWR) as [Hfd Hun].
  set (fd := ns_get_unused_fd fs O_RDWR) in *.
  destruct (ns_open_existing fs path O_RDWR mode_0755 fd o Hr)
    as (fs' & E & Ho & Hs & Hfds & Hres); [done|].
  rewrite (proj2 (Z.ltb_ge _ _) Hfd), E. cbn. exists fd, fs'.
  split_and!; try done. split; [|done].
  intros fd' o' Hfd'. rewrite Hfds; [done|]. congruence.
Qed.

(** The pieces on a device can be written back: through a descriptor the cache
    already has, or by opening the physical file under its recorded path. *)
Definition cache_rwfd (inode : poly_inode) (pl : Z) : Z :=
  if pl =? BLK_PLACEMENT_FAST then i_cache_rwfd_fast inode
  else i_cache_rwfd_slow inode.

Definition cache_path (inode : poly_inode) (pl : Z) : option string :=
  if pl =? BLK_PLACEMENT_FAST
  then Util.Util.util_get_fastpath FAST_DIR (i_pathname inode)
  else Util.Util.util_get_slowpath SLOW_DIR (i_pathname inode).

Definition writable fs (inode : poly_inode) (pl : Z) : Prop :=
  if cache_rwfd inode pl =? -1
  then exists path, cache_path inode pl = Some path /\
         ns_resolve fs path = Some (dev pl)
  else fs_object fs (cache_rwfd inode pl) = Some (dev pl).

Lemma writable_kept fs fs' inode pl :
  env_kept fs fs' -> writable fs inode pl -> writable fs' inode pl.
Proof.
  intros [Hfd Hr]. unfold writable. destruct (_ =? -1); [|auto].
  intros (path & E & Hp). exists path. by rewrite Hr.
Qed.

(** The fields of the inode an eviction leaves alone. *)
Definition evict_kept (inode inode' : poly_inode) : Prop :=
  inode_meta inode' = inode_meta inode /\ i_entries inode' = i_entries inode /\
  i_cache_mmapfd inode' = i_cache_mmapfd inode /\
  i_cache_policy inode' = i_cache_policy inode /\
  i_next_avail_it_node_no inode' = i_next_avail_it_node_no inode.

(** A new descriptor of the cache is one that was not in use. *)
Definition rwfds_from fs (inode inode' : poly_inode) : Prop :=
  forall pl, placed_at pl -> cache_rwfd inode' pl = cache_rwfd inode pl \/
    0 <= cache_rwfd inode' pl /\ fs_object fs (cache_rwfd inode' pl) = None.

Lemma rwfds_from_trans fs1 fs2 inode1 inode2 inode3 :
  env_kept fs1 fs2 -> rwfds_from fs1 inode1 inode2 -> rwfds_from fs2 inode2 inode3 ->
  rwfds_from fs1 inode1 inode3.
Proof.
  intros [Hk _] H1 H2 pl Hpl. destruct (H2 pl Hpl) as [->|[Hn Hf]]; [by apply H1|].
  right. split; [done|]. destruct (fs_object fs1 _) as [o|] eqn:E; [|done].
  apply Hk in E. congruence.
Qed.

Lemma evict_fd_ok fs inode m a es data pl :
  cached fs inode m a es data -> placed_at pl ->
  (forall pl, placed_at pl -> writable fs inode pl) ->
  exists fd fs' inode',
    evict_fd FAST_DIR SLOW_DIR fs inode pl = Some (inr fd, fs', inode') /\
    fs_object fs' fd = Some (dev pl) /\ same_contents fs fs' /\ env_kept fs fs' /\
    cached fs' inode' m a es data /\ evict_kept inode inode' /\
    rwfds_from fs inode inode' /\
    (forall pl, placed_at pl -> writable fs' inode' pl).
Proof.
  intros C Hpl Hw. pose proof (Hw pl Hpl) as Hwp. unfold writable in Hwp.
  assert (evict_fd FAST_DIR SLOW_DIR fs inode pl =
    if cache_rwfd inode pl =? -1 then
      path ← cache_path inode pl;
      let '(ret, fs) := sys_open fs path O_RDWR mode_0755 in
      if ret <? 0 then Some (inl ret, fs, inode)
      else Some (inr ret, fs,
        if pl =? BLK_PLACEMENT_FAST then inode <| i_cache_rwfd_fast := ret |>
        else inode <| i_cache_rwfd_slow := ret |>)
    else Some (inr (cache_rwfd inode pl), fs, inode)) as ->
    by (by destruct Hpl as [->| ->]).
  destruct (cache_rwfd inode pl =? -1) eqn:E; cycle 1.
  { eexists _, _, _. split_and!; try done. intros pl' _. by left. }
  destruct Hwp as (path & -> & Hres). cbn [mbind option_bind].
  destruct (sys_open_ok fs path _ Hres) as (fd & fs' & Eo & Hfd & Hun & Ho & Hsame & Hk).
  rewrite Eo, (proj2 (Z.ltb_ge _ _)) by lia.
  eexists _, _, _. split_and!; [done|done|done|done| | | |].
  - apply (cached_same_fs _ _ fs); [|done].
    apply (cached_same_inode _ _ fs inode); [done|]. by destruct (pl =? _).
  - split_and!; by destruct (pl =? _).
  - intros pl' _. unfold cache_rwfd.
    destruct (pl =? BLK_PLACEMENT_FAST), (pl' =? BLK_PLACEMENT_FAST); auto.
  - intros pl' Hpl'. pose proof (writable_kept fs fs' inode pl' Hk (Hw pl' Hpl')) as Hw'.
    destruct (decide (pl' = pl)) as [->|Hne].
    + unfold writable, cache_rwfd. destruct Hpl as [->| ->]; cbn;
        by rewrite (proj2 (Z.eqb_neq _ _)) by lia.
    + by destruct Hpl as [->| ->], Hpl' as [->| ->].
Qed.

(** Evicting a whole piece leaves it stored; the entry can be marked clean. *)
Lemma evict_ok fs inode m a es data (i : nat) p :
  let e := entry_at inode (pc_slot p) in
  cached fs inode m a es data -> es !! i = Some p ->
  (forall pl, placed_at pl -> writable fs inode pl) ->
  exists fs' inode',
    poly_cache_evict FAST_DIR SLOW_DIR fs inode m e 0 (s64 (e_size e - 1)) =
      Some (0, fs', inode') /\
    cached fs' (set_entry inode' (pc_slot p) (e <| e_dirty := 0 |>)) m a es data /\
    evict_kept inode inode' /\ env_kept fs fs' /\ others_kept fs fs' /\
    rwfds_from fs inode inode' /\
    (forall pl, placed_at pl -> writable fs' inode' pl).
Proof.
  intros e C Hp Hw. pose proof (list_elem_of_lookup_2 _ _ _ Hp) as Hin.
  destruct (ca_place C p Hin) as (Hpl & Hoff & _).
  destruct (ok_entry _ _ (ca_index C) i p Hp) as (_ & Epl & Eoff).
  destruct (ca_piece C i p Hp) as [P1 P2 P3 P4 P5].
  pose proof (piece_len_pos _ _ _ _ _ _ _ _ _ _ C Hp) as Hlen.
  destruct (evict_fd_ok fs inode m a es data (pc_place p))
    as (fd & fs1 & inode1 & E & Hfd & Hsame & Henv & C1 & Hk & Hrw & Hw1); [done..|].
  assert (entry_at inode1 (pc_slot p) = e) as Ee
    by (unfold entry_at; by rewrite (proj1 (proj2 Hk))).
  unfold poly_cache_evict. fold e in Epl, Eoff, P1, P2, P3, P4, P5.
  rewrite Epl, E. cbn [mbind option_bind].
  destruct P5 as [[Hd Hpr]|[Hd Hst]]; rewrite Hd; cbn [Z.eqb Pos.eqb].
  - destruct P4 as [|(_ & Hb & _)]; [congruence|].
    pose proof (buf_valid _ _ _ _ _ _ _ _ i p C Hp Hb) as Hv. fold e in Hv.
    unfold pwrite_buf. rewrite Hv.
    assert (u64 (s32 (s64 (e_size e - 1) - 0 + 1)) = e_size e) as ->.
    { rewrite node_size_val in Hlen. rewrite s64_id, s32_id, u64_id by lia. lia. }
    destruct (pwrite_reliable fs1 fd (mem_read m (e_buf_addr e) (e_size e))
      (e_offset e) _ Hfd) as (fs2 & E2 & W); [lia|].
    assert (env_kept fs1 fs2) as Henv2.
    { split; [intros fd' o Hfd'; destruct W as (_ & _ & _ & ->); done|].
      intros path. pose proof (ns_pwrite_resolve fs1 fd
        (mem_read m (e_buf_addr e) (e_size e)) (e_offset e) path) as Hr.
      by rewrite E2 in Hr. }
    rewrite E2. eexists _, _. split_and!; [done| |done|by eapply env_kept_trans| |done|].
    + rewrite Eoff in W. eapply (cached_clean _ _ distinct fs1); try done;
        rewrite Ee; done.
    + intros o H1 H2. destruct (Hsame o) as [<- Hc].
      destruct W as (_ & _ & Wo & _).
      destruct (Wo o) as [-> Hc']; [unfold IoDirectSpec.dev; by case_match|].
      split; [done|]. intros k. by rewrite Hc'.
    + intros pl Hpl'. eapply writable_kept; [done|]. by apply Hw1.
  - eexists _, _. split_and!; [done| |done|done|intros o _ _; apply Hsame|done|done].
    eapply (cached_same_entry _ _ fs1); [done|done|]. rewrite Ee. cbn. congruence.
Qed.

End evict.

End CacheSpec.
