(* ===== verification/IoBufferedSpec.v ===== *)
(** * Buffered I/O refines a byte array

    On an inode whose index, buffers and physical files hold the bytes [data]
    ([cached]), the buffered read iterator returns the bytes of [data] and the
    buffered write iterators overwrite and extend [data], without writing to the
    physical files and without touching the buffers of other files. *)

From S2P Require Import Prelude Defs Util Posix IntervalTree Indexing IoDirect.
From S2P Require Import IoDirectSpec CacheMm Cache CacheSpec IoBuffered.
Import IoDirect Cache CacheSpec IoBuffered.

#[local] Open Scope Z_scope.

Module IoBufferedSpec.

(** Writing back the entry of a piece changes nothing. *)
Lemma set_entry_id inode es (i : nat) p :
  index_ok inode es -> es !! i = Some p ->
  set_entry inode (pc_slot p) (entry_at inode (pc_slot p)) = inode.
Proof.
  intros H Hp. destruct (ok_entry _ _ H i p Hp) as (He & _). revert He.
  unfold set_entry, entry_at. destruct (i_entries inode !! pc_slot p) as [e|] eqn:E; cbn.
  - intros _. unfold update. cbn. rewrite insert_id by done. by destruct inode.
  - intros F. apply (f_equal it_last) in F. unfold piece_node in F.
    cbn [it_last e_it zero_entry] in F. rewrite node_size_val in F. lia.
Qed.

(** The fields of the inode the data path never changes. *)
Definition inode_fixed (i : poly_inode) :=
  (inode_meta i, i_cache_policy i, i_cache_rwfd_fast i, i_cache_rwfd_slow i,
   i_cache_mmapfd i).

Lemma fixed_fields i i' :
  inode_fixed i' = inode_fixed i ->
  inode_meta i' = inode_meta i /\ i_cache_policy i' = i_cache_policy i /\
  i_ino i' = i_ino i /\ i_index i' = i_index i /\ i_index_slots i' = i_index_slots i.
Proof. unfold inode_fixed, inode_meta. intros E. injection E. intros. split_and!; congruence. Qed.

(** All entries point back to their inode. *)
Definition backed (inode : poly_inode) (es : list piece) : Prop :=
  forall p, p ∈ es -> e_inode (entry_at inode (pc_slot p)) = i_ino inode.

Section loops.
Context {Fs : Type} `{!PosixFS Fs, !PosixFSLaws Fs, !ReliableFS Fs, !PosixNS Fs}.
Context {A : Type} `{!CacheAlloc A, !CacheAllocLaws A, !CacheMmap Fs A}.
Variables fast_obj slow_obj fastfd slowfd : Z.
Variable FAST_DIR : string.
Hypothesis distinct : fast_obj <> slow_obj.
Implicit Types (st : cstate Fs A) (ch : poly_cache A) (e : it_node_entry).

Local Abbreviation dev := (IoDirectSpec.dev fast_obj slow_obj).
Local Abbreviation cached := (cached fast_obj slow_obj).

Definition cs_ok st (es : list piece) (data : list byte) : Prop :=
  cached (io_fs (cs_io st)) (cs_inode st) (ch_mem (cs_cache st))
    (ch_alloc (cs_cache st)) es data /\
  opened fast_obj slow_obj (io_fs (cs_io st)) fastfd slowfd /\
  POLYSTORE_FAST_FD (f_polyfd (io_file (cs_io st))) = fastfd /\
  POLYSTORE_SLOW_FD (f_polyfd (io_file (cs_io st))) = slowfd.

(** ** Access to one piece *)

(** The four steps of [access] on the entry and the cache. *)
Definition buffer_step e (r : lru_ref) ch : it_node_entry * poly_cache A :=
  if e_buf_addr e =? 0 then
    let '(addr, a, m) := mm_alloc (ch_alloc ch) (ch_mem ch) in
    (e <| e_buf_addr := addr |>,
     poly_cache_add_lru_cold_list r (ch <| ch_alloc := a |> <| ch_mem := m |>))
  else (e, ch).

Definition access_step (fs : Fs) (fd ino rw end_ : Z) (r : lru_ref) e ch
    : it_node_entry * poly_cache A :=
  let '(e, ch) := buffer_step e r ch in
  let '(_, e, ch) := admit_load fs fd (e <| e_inode := ino |>) ch in
  let '(e, ch) := admit_account (admit_write rw end_ e) ch in
  (e <| e_ref_count := s32 (e_ref_count e + 1) |>, ch).

Lemma admit_load_buf fs fd e ch :
  e_buf_addr (snd (fst (admit_load fs fd e ch))) = e_buf_addr e.
Proof. unfold admit_load. repeat case_match; done. Qed.

Lemma admit_write_fields rw end_ e :
  (e_it (admit_write rw end_ e), e_placement (admit_write rw end_ e),
   e_offset (admit_write rw end_ e), e_removed (admit_write rw end_ e),
   e_buf_addr (admit_write rw end_ e), e_present (admit_write rw end_ e),
   e_inode (admit_write rw end_ e)) =
  (e_it e, e_placement e, e_offset e, e_removed e, e_buf_addr e, e_present e, e_inode e).
Proof. unfold admit_write. by destruct (rw =? WRITE_IO). Qed.

Lemma admit_account_fields e ch :
  let '(e', ch') := admit_account e ch in
  (e_it e', e_placement e', e_offset e', e_size e', e_removed e', e_buf_addr e',
   e_present e', e_dirty e', e_inode e') =
  (e_it e, e_placement e, e_offset e, e_size e, e_removed e, e_buf_addr e,
   e_present e, e_dirty e, e_inode e) /\
  ch_mem ch' = ch_mem ch /\ ch_alloc ch' = ch_alloc ch.
Proof. unfold admit_account. by destruct (e_cache_size e =? 0). Qed.

(** Pieces of the file may join the LRU list; the flushing queues stay. *)
Definition lru_grows (ino : Z) (es : list piece) ch ch' : Prop :=
  ch_queues ch' = ch_queues ch /\
  forall r, r ∈ ch_cold ch' -> r ∈ ch_cold ch \/ exists p, p ∈ es /\ r = (ino, pc_slot p).

Lemma access_step_lru fs fd ino rw end_ es p e ch :
  p ∈ es -> lru_grows ino es ch (snd (access_step fs fd ino rw end_ (ino, pc_slot p) e ch)).
Proof.
  intros Hp. unfold access_step, buffer_step, admit_load, admit_account.
  repeat case_match; simplify_eq; split; try done; cbn; intros r; auto.
  all: rewrite elem_of_app, list_elem_of_singleton; intros [?| ->]; eauto.
Qed.

Lemma access_eq st es data (i : nat) p fd rw b cnt :
  cs_ok st es data -> es !! i = Some p ->
  entry_fd fastfd slowfd (pc_place p) = Some fd ->
  let inode := cs_inode st in
  let '(e', ch') := access_step (io_fs (cs_io st)) fd (i_ino inode) rw
    (s64 (b + cnt - 1)) (i_ino inode, pc_slot p) (entry_at inode (pc_slot p))
    (cs_cache st) in
  access FAST_DIR rw (pc_slot p) b cnt st =
    if valid_buf (e_buf_addr e')
    then Some (e_buf_addr e',
      CState (cs_io st <| io_inode := set_entry inode (pc_slot p) e' |>) ch')
    else None.
Proof.
  intros (C & Ho & Hf & Hs) Hp Hfd inode. pose proof (ca_index C) as Hidx.
  destruct (ok_entry _ _ Hidx i p Hp) as (_ & Epl & _).
  assert (not_admitted inode (entry_at inode (pc_slot p)) = false) as Hna.
  { unfold not_admitted. rewrite (proj2 (Z.eqb_neq (i_cache_policy inode) _)), andb_false_r;
      [done|apply C]. }
  unfold access, get_buffer, access_step, buffer_step.
  fold inode. set (e := entry_at inode (pc_slot p)) in *.
  assert (forall st1 e1, cs_inode st1 = set_entry inode (pc_slot p) e1 ->
    e_placement e1 = pc_place p -> io_file (cs_io st1) = io_file (cs_io st) ->
    poly_cache_admit st1 (pc_slot p) b (s64 (b + cnt - 1)) rw =
    let '(ret, e2, ch2) := admit_load (io_fs (cs_io st1)) fd (e1 <| e_inode := i_ino inode |>)
                             (cs_cache st1) in
    let '(e3, ch3) := admit_account (admit_write rw (s64 (b + cnt - 1)) e2) ch2 in
    (ret, CState (cs_io st1 <| io_inode := set_entry inode (pc_slot p) e3 |>) ch3))
    as Hadmit.
  { intros st1 e1 Hi1 Hpl1 Hfile. unfold poly_cache_admit. unfold cs_inode in Hi1.
    rewrite Hi1, entry_at_set_eq, Hpl1, Hfile, Hf, Hs, Hfd. cbn [default from_option id].
    change (i_cache_policy (set_entry inode (pc_slot p) e1)) with (i_cache_policy inode).
    change (i_ino (set_entry inode (pc_slot p) e1)) with (i_ino inode).
    rewrite (proj2 (Z.eqb_neq (i_cache_policy inode) _)), andb_false_r by apply C.
    destruct (admit_load _ _ _ _) as [[ret e2] ch2].
    destruct (admit_account _ _) as [e3 ch3]. by rewrite set_entry_twice. }
  destruct (e_buf_addr e =? 0).
  - rewrite Hna, andb_false_r. cbn [mbind option_bind]. unfold new_buffer.
    destruct (mm_alloc _ _) as [[addr a] m].
    erewrite Hadmit; [|done|by cbn|done]. cbn [cs_io cs_cache io_fs].
    match goal with |- context [admit_load ?x ?y ?z ?w] =>
      change (admit_load x y z w) with
        (admit_load (io_fs (cs_io st)) fd (e <| e_buf_addr := addr |> <| e_inode := i_ino inode |>)
           (poly_cache_add_lru_cold_list (i_ino inode, pc_slot p)
              (cs_cache st <| ch_alloc := a |> <| ch_mem := m |>))) end.
    destruct (admit_load _ _ _ _) as [[ret e2] ch2].
    destruct (admit_account _ _) as [e3 ch3].
    unfold cs_inode. cbn. rewrite entry_at_set_eq. unfold set_cs_entry, set_io, cs_inode. cbn.
    by rewrite set_entry_twice.
  - cbn [mbind option_bind].
    erewrite (Hadmit st e); [|symmetry; by apply (set_entry_id _ es i)|done|done].
    destruct (admit_load _ _ _ _) as [[ret e2] ch2].
    destruct (admit_account _ _) as [e3 ch3].
    unfold cs_inode. cbn. rewrite entry_at_set_eq. unfold set_cs_entry, set_io, cs_inode. cbn.
    by rewrite set_entry_twice.
Qed.

(** Allocation gives a piece a buffer. *)
Lemma buffer_step_ok fs inode ch es data (i : nat) p r (n : nat) :
  let e := entry_at inode (pc_slot p) in
  cached fs inode (ch_mem ch) (ch_alloc ch) es data -> es !! i = Some p ->
  mm_room (ch_alloc ch) (S n) ->
  exists addr ch', buffer_step e r ch = (e <| e_buf_addr := addr |>, ch') /\
    let inode' := set_entry inode (pc_slot p) (e <| e_buf_addr := addr |>) in
    addr <> 0 /\ mm_room (ch_alloc ch') n /\
    cached fs inode' (ch_mem ch') (ch_alloc ch') es data /\
    keeps_foreign inode (ch_mem ch) (ch_alloc ch) es inode' (ch_mem ch') (ch_alloc ch') es.
Proof.
  intros e C Hp Hroom. unfold buffer_step.
  destruct (Z.eqb_spec (e_buf_addr e) 0) as [Hb|Hb].
  - destruct (mm_alloc_room (ch_alloc ch) (ch_mem ch) n) as (addr & a & m & E & Hn & Hr);
      [apply C|done|].
    rewrite E. eexists _, _. split; [reflexivity|]. cbn zeta. split_and!; [done|done|..];
      by eapply cached_alloc.
  - exists (e_buf_addr e), ch. split; [by destruct e|].
    assert (e <| e_buf_addr := e_buf_addr e |> = e) as -> by (by destruct e).
    assert (set_entry inode (pc_slot p) e = inode) as ->
      by (apply (set_entry_id _ es i); [apply C|done]).
    split_and!; [done|by apply mm_room_le|done|apply keeps_foreign_refl].
Qed.

(** Admission leaves the piece in its buffer. *)
Lemma admit_load_ok fs inode ch es data (i : nat) p fd ino :
  let e := entry_at inode (pc_slot p) in
  cached fs inode (ch_mem ch) (ch_alloc ch) es data -> es !! i = Some p ->
  fs_object fs fd = Some (dev (pc_place p)) -> e_buf_addr e <> 0 ->
  exists ret ch',
    let e' := e <| e_inode := ino |> <| e_present := 1 |> in
    let inode' := set_entry inode (pc_slot p) e' in
    admit_load fs fd (e <| e_inode := ino |>) ch = (ret, e', ch') /\
    ch_alloc ch' = ch_alloc ch /\
    cached fs inode' (ch_mem ch') (ch_alloc ch') es data /\
    keeps_foreign inode (ch_mem ch) (ch_alloc ch) es inode' (ch_mem ch') (ch_alloc ch') es.
Proof.
  intros e C Hp Hfd Hb. unfold admit_load.
  destruct (ca_piece C i p Hp) as [_ _ _ P4 _]. fold e in P4.
  pose proof (buf_valid _ _ _ _ _ _ _ _ i p C Hp Hb) as Hv. fold e in Hv.
  destruct P4 as [P4|(P4 & _)].
  - destruct (cached_load _ _ fs inode (ch_mem ch) (ch_alloc ch) es data i p fd C Hp
      Hb P4 Hfd) as (d & E & C' & K). fold e in E, C', K.
    cbn [e_present e_buf_addr e_size e_offset update].
    change (e_present (e <| e_inode := ino |>)) with (e_present e).
    change (e_buf_addr (e <| e_inode := ino |>)) with (e_buf_addr e).
    change (e_size (e <| e_inode := ino |>)) with (e_size e).
    change (e_offset (e <| e_inode := ino |>)) with (e_offset e).
    rewrite P4, Hv, E. cbn [Z.eqb].
    eexists _, _. split_and!; [reflexivity|reflexivity|..]; cbn [ch_mem ch_alloc].
    + eapply (cached_same_entry _ _ fs _ _ _ _ _ i p
        (e <| e_inode := ino |> <| e_present := 1 |>)) in C' as [C'' _]; [|done|].
      * by rewrite set_entry_twice in C''.
      * by rewrite entry_at_set_eq.
    + eapply keeps_foreign_trans; [exact K|].
      eapply (cached_same_entry _ _ fs _ _ _ _ _ i p
        (e <| e_inode := ino |> <| e_present := 1 |>)) in C' as [_ K']; [|done|].
      * by rewrite set_entry_twice in K'.
      * by rewrite entry_at_set_eq.
  - change (e_present (e <| e_inode := ino |>)) with (e_present e). rewrite P4.
    cbn [Z.eqb]. exists 0, ch.
    assert (e <| e_inode := ino |> <| e_present := 1 |> = e <| e_inode := ino |>) as ->
      by (destruct e; unfold update; cbn in *; congruence).
    split_and!; [done|done|..]; by eapply cached_same_entry.
Qed.

(** The piece is in its buffer; the entry is [e1] up to what a write records. *)
Lemma access_ok st es data (i : nat) p rw b cnt (n : nat) :
  cs_ok st es data -> es !! i = Some p -> mm_room (ch_alloc (cs_cache st)) (S n) ->
  let inode := cs_inode st in
  let fs := io_fs (cs_io st) in
  exists e1 e' ch',
    access FAST_DIR rw (pc_slot p) b cnt st =
      Some (e_buf_addr e1,
        CState (cs_io st <| io_inode := set_entry inode (pc_slot p) e' |>) ch') /\
    mm_room (ch_alloc ch') n /\
    cached fs (set_entry inode (pc_slot p) e1) (ch_mem ch') (ch_alloc ch') es data /\
    keeps_foreign inode (ch_mem (cs_cache st)) (ch_alloc (cs_cache st)) es
      (set_entry inode (pc_slot p) e1) (ch_mem ch') (ch_alloc ch') es /\
    e_present e1 = 1 /\ e_size e1 = e_size (entry_at inode (pc_slot p)) /\
    (e_it e', e_placement e', e_offset e', e_removed e', e_buf_addr e', e_present e',
     e_inode e') =
    (e_it e1, e_placement e1, e_offset e1, e_removed e1, e_buf_addr e1, e_present e1,
     i_ino inode) /\
    (e_size e', e_dirty e') =
      (e_size (admit_write rw (s64 (b + cnt - 1)) e1),
       e_dirty (admit_write rw (s64 (b + cnt - 1)) e1)) /\
    lru_grows (i_ino inode) es (cs_cache st) ch'.
Proof.
  intros Hok Hp Hroom inode fs. pose proof Hok as (C & Ho & _).
  destruct (cached_fd _ _ _ _ _ _ _ _ p fastfd slowfd C) as (fd & Efd & Hfd);
    [by eapply list_elem_of_lookup_2|done|].
  pose proof (access_eq st es data i p fd rw b cnt Hok Hp Efd) as Hacc.
  cbn zeta in Hacc.
  pose proof (access_step_lru fs fd (i_ino inode) rw (s64 (b + cnt - 1)) es p
    (entry_at inode (pc_slot p)) (cs_cache st)
    ltac:(by eapply list_elem_of_lookup_2)) as L.
  unfold access_step in Hacc, L.
  destruct (buffer_step_ok fs inode (cs_cache st) es data i p (i_ino inode, pc_slot p) n)
    as (addr & ch0 & E0 & Hn & Hr & C0 & K0); [done..|].
  fold inode fs in Hacc. rewrite E0 in Hacc, L.
  destruct (admit_load_ok fs _ ch0 es data i p fd (i_ino inode) C0 Hp Hfd)
    as (ret & ch1 & E1 & Ha & C1 & K1); [by rewrite entry_at_set_eq|].
  rewrite entry_at_set_eq, set_entry_twice in *. rewrite E1 in Hacc, L.
  set (e1 := entry_at inode (pc_slot p) <| e_buf_addr := addr |>
               <| e_inode := i_ino inode |> <| e_present := 1 |>) in *.
  pose proof (admit_account_fields (admit_write rw (s64 (b + cnt - 1)) e1) ch1) as F.
  destruct (admit_account _ _) as [e2 ch2] eqn:E2.
  pose proof (admit_write_fields rw (s64 (b + cnt - 1)) e1) as G.
  destruct F as [F [Fm Fa]]. simplify_eq F. simplify_eq G. intros G1 G2 G3 G4 G5 G6 G7
    F1 F2 F3 F4 F5 F6 F7 F8 F9.
  assert (e_buf_addr e2 = addr) as Eb by (rewrite F6, G5; done).
  change (e_buf_addr (e2 <| e_ref_count := s32 (e_ref_count e2 + 1) |>)) with
    (e_buf_addr e2) in Hacc.
  assert (valid_buf addr = true) as Hv.
  { apply (mm_live_valid (ch_alloc ch1)); [apply C1|].
    pose proof (po_live (ca_piece C1 i p Hp)) as Hl.
    rewrite entry_at_set_eq in Hl. by apply Hl. }
  rewrite Eb, Hv in Hacc. eexists e1, _, ch2. rewrite Fm, Fa.
  split_and!; [exact Hacc|by rewrite Ha|done| |done|done| | |exact L].
  - by eapply keeps_foreign_trans.
  - cbn. rewrite F1, F2, F3, F5, F6, F7, F9. by rewrite G1, G2, G3, G4, G5, G6, G7.
  - cbn. by rewrite F4, F8.
Qed.

(** ** What the loops leave alone *)

Record cprogress (offset n : Z) st es st' es' : Prop := {
  cp_fs : io_fs (cs_io st') = io_fs (cs_io st);
  cp_fixed : inode_fixed (cs_inode st') = inode_fixed (cs_inode st);
  cp_task : io_task (cs_io st') = io_task (cs_io st);
  cp_file : io_file (cs_io st') = io_file (advance_off offset n (cs_io st));
  cp_foreign : keeps_foreign (cs_inode st) (ch_mem (cs_cache st))
    (ch_alloc (cs_cache st)) es (cs_inode st') (ch_mem (cs_cache st'))
    (ch_alloc (cs_cache st')) es';
  cp_slots : i_next_avail_it_node_no (cs_inode st') - length es' =
    i_next_avail_it_node_no (cs_inode st) - length es;
  cp_backed : backed (cs_inode st) es -> backed (cs_inode st') es';
  cp_pieces : es `prefix_of` es';
  cp_lru : lru_grows (i_ino (cs_inode st)) es' (cs_cache st) (cs_cache st')
}.

Lemma lru_grows_refl ino es ch : lru_grows ino es ch ch.
Proof. split; auto. Qed.

Lemma lru_grows_trans ino es es' ch1 ch2 ch3 :
  es `prefix_of` es' -> lru_grows ino es ch1 ch2 -> lru_grows ino es' ch2 ch3 ->
  lru_grows ino es' ch1 ch3.
Proof.
  intros [k ->] [Q1 L1] [Q2 L2]. split; [congruence|]. intros r [Hr|?]%L2; [|auto].
  destruct (L1 r Hr) as [?|(p & Hp & ->)]; [by left|right]. exists p.
  split; [|done]. apply elem_of_app. by left.
Qed.

Lemma cprogress_0 offset st es : cprogress offset 0 st es st es.
Proof.
  split; try done; [by rewrite IoDirectSpec.advance_off_0|apply lru_grows_refl].
Qed.

Lemma cprogress_add offset a b st1 es1 st2 es2 st3 es3 :
  cprogress offset a st1 es1 st2 es2 -> cprogress offset b st2 es2 st3 es3 ->
  cprogress offset (a + b) st1 es1 st3 es3.
Proof.
  intros [H1 H2 H3 H4 H5 H6 H7 H8 H9] [G1 G2 G3 G4 G5 G6 G7 G8 G9].
  destruct (fixed_fields _ _ H2) as (_ & _ & Ei & _). rewrite Ei in G9.
  split; try congruence; [|by eapply keeps_foreign_trans|auto|by trans es2|
    by eapply lru_grows_trans].
  rewrite G4, <-IoDirectSpec.advance_off_add. unfold advance_off in *.
  destruct (offset <? 0); cbn in *; by rewrite H4.
Qed.

Lemma cs_ok_advance offset n st es data :
  cs_ok st es data -> cs_ok (advance offset n st) es data.
Proof.
  intros (C & Ho & Hf & Hs). unfold cs_ok, advance, advance_off, cs_inode, set_io.
  destruct (offset <? 0); done.
Qed.

(** A step on one piece, followed by the update of the file offset. *)
Lemma cprogress_step offset n st es (i : nat) p e' ch' :
  es !! i = Some p ->
  e_inode e' = i_ino (cs_inode st) ->
  keeps_foreign (cs_inode st) (ch_mem (cs_cache st)) (ch_alloc (cs_cache st)) es
    (set_entry (cs_inode st) (pc_slot p) e') (ch_mem ch') (ch_alloc ch') es ->
  lru_grows (i_ino (cs_inode st)) es (cs_cache st) ch' ->
  cprogress offset n st es
    (advance offset n
       (CState (cs_io st <| io_inode := set_entry (cs_inode st) (pc_slot p) e' |>) ch'))
    es.
Proof.
  intros Hp He K L.
  assert (forall q, q ∈ es -> backed (cs_inode st) es ->
    e_inode (entry_at (set_entry (cs_inode st) (pc_slot p) e') (pc_slot q)) =
      i_ino (cs_inode st)) as Hb.
  { intros q Hq Hb. destruct (decide (pc_slot q = pc_slot p)) as [->|Hne].
    - by rewrite entry_at_set_eq.
    - rewrite entry_at_set_ne by done. by apply Hb. }
  split; unfold advance, advance_off, set_io, cs_inode; destruct (offset <? 0); try done.
  all: intros Hbk q Hq; by apply Hb.
Qed.

(** ** Reading *)

(** Bytes in a present buffer. *)
Lemma buffer_read fs inode m a es data (i : nat) p start cnt :
  let e := entry_at inode (pc_slot p) in
  cached fs inode m a es data -> es !! i = Some p -> e_present e = 1 ->
  i * NODE <= start -> 0 <= cnt -> start - i * NODE + cnt <= piece_len data i ->
  mem_read m (e_buf_addr e + (start - i * NODE)) cnt = slice start cnt data.
Proof.
  intros e C Hp Hpr Hs Hc Hl. pose proof node_pos.
  destruct (ca_piece C i p Hp) as [_ _ _ P4 _]. fold e in P4.
  destruct P4 as [|(_ & _ & Hh)]; [congruence|].
  apply list_eq. intros j. unfold mem_read. rewrite lookup_tabulate. case_decide.
  - rewrite lookup_slice by lia.
    replace (start + j) with (i * NODE + (start - i * NODE + j)) by lia.
    rewrite Hh by lia. do 2 f_equal. lia.
  - symmetry. apply lookup_ge_None_2.
    enough (zlength (slice start cnt data) <= cnt) by lia.
    rewrite zlength_slice by lia. lia.
Qed.

(** A read of [r] bytes from byte [b] of a piece of [size] bytes is cut at the end
    of the piece: always for a full piece, and for a shorter one unless [r] lies
    strictly between the bytes available and the size of the piece. *)
Definition cut_ok (size b r : Z) : Prop :=
  size = NODE \/ r <= size - b \/ size <= r.

Lemma read_count_ok e (i : nat) start end_ :
  let b := start - i * NODE in
  let r := end_ - start + 1 in
  0 <= b < e_size e -> e_size e <= NODE -> 0 < r <= 2 ^ 62 -> i * NODE < 2 ^ 62 ->
  cut_ok (e_size e) b r ->
  read_count e (i * NODE + NODE - 1) start end_ b = Z.min r (e_size e - b).
Proof.
  intros b r Hb Hs Hr Hi Hcut. unfold read_count, node_count, cut_ok in *.
  subst b r. rewrite node_size_val in *.
  repeat zif; rewrite ?u64_id in * by lia; lia.
Qed.

(** What the loops find in the entry of a piece. *)
Lemma cs_entry st es data (i : nat) p :
  cs_ok st es data -> es !! i = Some p -> length es * NODE < 2 ^ 62 ->
  let e := entry_at (cs_inode st) (pc_slot p) in
  s64 (it_start (e_it e)) = i * NODE /\ s64 (it_last (e_it e)) = i * NODE + NODE - 1 /\
  e_size e = piece_len data i /\ 0 < piece_len data i <= NODE.
Proof.
  intros (C & _) Hp Hb e.
  destruct (ok_entry _ _ (ca_index C) i p Hp) as (He & _).
  fold e in He. pose proof (lookup_lt_Some _ _ _ Hp). pose proof node_pos.
  pose proof (piece_len_pos _ _ _ _ _ _ _ _ _ _ C Hp).
  rewrite He. cbn. rewrite !s64_id by nia. split_and!; [done|done| |lia|lia].
  apply (po_size (ca_piece C i p Hp)).
Qed.

Lemma read_polycache_step (fuel : nat) st es data buf (i : nat) p start end_ copied offset (n : nat) :
  cs_ok st es data -> length es * NODE < 2 ^ 62 -> es !! i = Some p ->
  i * NODE <= start < i * NODE + piece_len data i -> start <= end_ < 2 ^ 62 ->
  0 <= copied <= zlength buf ->
  cut_ok (piece_len data i) (start - i * NODE) (end_ - start + 1) ->
  mm_room (ch_alloc (cs_cache st)) (S n) ->
  let cnt := Z.min (end_ - start + 1) (i * NODE + piece_len data i - start) in
  exists st',
    read_nodes_polycache FAST_DIR (S fuel) st buf (Some (pc_slot p)) start end_ copied
      offset =
    read_nodes_polycache FAST_DIR fuel st' (overwrite copied (slice start cnt data) buf)
      (if i * NODE + NODE <=? end_ then pc_slot <$> es !! S i else None)
      (node_next (i * NODE + NODE - 1) end_) end_ (copied + cnt) offset /\
    cs_ok st' es data /\ cprogress offset cnt st es st' es /\
    mm_room (ch_alloc (cs_cache st')) n.
Proof.
  intros Hok Hb Hp Hs He Hc Hcut Hroom cnt. pose proof node_pos as HN.
  pose proof (lookup_lt_Some _ _ _ Hp) as Hi.
  destruct (cs_entry st es data i p Hok Hp Hb) as (E1 & E2 & E3 & Hlen).
  cbn [read_nodes_polycache]. rewrite E1, E2.
  assert (0 <= i * NODE /\ i * NODE + NODE <= length es * NODE) by nia.
  rewrite read_count_ok by (rewrite ?E3; done || lia). rewrite E3.
  rewrite u64_id, (proj2 (Z.leb_gt _ _)) by nia.
  replace (Z.min (end_ - start + 1) (piece_len data i - (start - i * NODE)))
    with cnt by lia.
  destruct (access_ok st es data i p READ_IO (start - i * NODE) cnt n Hok Hp Hroom)
    as (e1 & e' & ch' & E & Hr & C1 & K1 & Hpr & Hsz & F & G & L).
  rewrite E. cbn [mbind option_bind cs_cache].
  change (admit_write READ_IO (s64 (start - i * NODE + cnt - 1)) e1) with e1 in G.
  simplify_eq F. simplify_eq G. intros G1 G2 F1 F2 F3 F4 F5 F6 F7.
  assert (mem_read (ch_mem ch') (e_buf_addr e1 + (start - i * NODE)) cnt =
    slice start cnt data) as ->.
  { pose proof (buffer_read _ _ _ _ _ _ i p start cnt C1 Hp) as Hbr.
    rewrite entry_at_set_eq in Hbr. apply Hbr; [done|lia..]. }
  destruct (cached_same_entry _ _ _ _ _ _ _ _ i p e' C1 Hp) as [C2 K2].
  { rewrite entry_at_set_eq. congruence. }
  rewrite set_entry_twice in C2, K2.
  exists (advance offset cnt
    (CState (cs_io st <| io_inode := set_entry (cs_inode st) (pc_slot p) e' |>) ch')).
  split_and!; [|apply cs_ok_advance; split; [exact C2|apply Hok]| |].
  - unfold cs_inode. cbn [cs_io io_inode]. f_equal. unfold node_next.
    destruct (i * NODE + NODE - 1 <? end_) eqn:En; zbool.
    + rewrite (proj2 (Z.leb_le _ _)), !u64_id by nia.
      rewrite (lookup_next_pieces _ es i) by (apply C2 || done || lia).
      replace (i * NODE + NODE - 1 + 1) with ((S i) * NODE) by lia.
      by rewrite Z.div_mul, Nat2Z.id by lia.
    + rewrite (proj2 (Z.leb_gt _ _)) by lia.
      by rewrite (lookup_next_done _ es i) by (apply C2 || done || words; lia).
  - apply (cprogress_step _ _ _ _ i); [done|congruence| |exact L].
    by eapply keeps_foreign_trans.
  - unfold advance, set_io. done.
Qed.

(** The pieces from the [i]-th on that a range up to [end_] meets. *)
Definition touched (len : nat) (i end_ : Z) : nat :=
  Z.to_nat (Z.min len (end_ / NODE + 1) - i).

Lemma touched_S (len i : nat) end_ :
  (i < len)%nat -> i * NODE <= end_ -> touched len i end_ = S (touched len (S i) end_).
Proof.
  intros Hi He. pose proof node_pos. unfold touched.
  assert (i <= end_ / NODE) by (apply Z.div_le_lower_bound; lia). lia.
Qed.

Lemma read_nodes_polycache_spec (fuel : nat) : forall st es data buf (i : nat) p start end_ copied offset,
  cs_ok st es data -> length es * NODE < 2 ^ 62 -> es !! i = Some p ->
  (length es <= fuel + i)%nat ->
  i * NODE <= start < i * NODE + NODE -> start <= end_ < 2 ^ 62 ->
  0 <= copied <= zlength buf ->
  start < zlength data ->
  cut_ok (piece_len data i) (start - i * NODE) (end_ - start + 1) ->
  mm_room (ch_alloc (cs_cache st)) (touched (length es) i end_) ->
  let d := slice start (end_ - start + 1) data in
  exists st',
    read_nodes_polycache FAST_DIR fuel st buf (Some (pc_slot p)) start end_ copied
      offset = Some (copied + zlength d, overwrite copied d buf, st') /\
    cs_ok st' es data /\ cprogress offset (zlength d) st es st' es.
Proof.
  induction fuel as [|fuel IH];
    intros st es data buf i p start end_ copied offset Hok Hb Hp Hfuel Hs He Hc Hsd Hcut
      Hroom d; pose proof (lookup_lt_Some _ _ _ Hp) as Hi; [lia|].
  pose proof node_pos as HN. pose proof Hok as (C & _).
  destruct (ca_len C) as [Hl1 Hl2].
  assert (i * NODE + piece_len data i = Z.min (i * NODE + NODE) (zlength data)) as Hpl
    by (unfold piece_len; lia).
  rewrite touched_S in Hroom by lia.
  destruct (read_polycache_step fuel st es data buf i p start end_ copied offset
    (touched (length es) (S i) end_)) as (st1 & E & Hok1 & Hpr1 & Hr1); [done|done|done|lia|lia|done|done|done|].
  rewrite E. clear E. rewrite Hpl in *.
  set (cnt := Z.min (end_ - start + 1) (Z.min (i * NODE + NODE) (zlength data) - start)) in *.
  assert (zlength (slice start cnt data) = cnt) as Hd1 by (rewrite zlength_slice; nia).
  destruct (decide (i * NODE + NODE <= end_ /\ (S i < length es)%nat)) as [[Hmore Hi']|Hlast].
  - rewrite (proj2 (Z.leb_le _ _)) by lia.
    destruct (lookup_lt_is_Some_2 es (S i) Hi') as [q Eq]. rewrite Eq.
    cbn [fmap option_fmap option_map].
    assert ((S i) * NODE < zlength data) by nia.
    assert (cnt = (S i) * NODE - start) as Hcnt by lia.
    assert (node_next (i * NODE + NODE - 1) end_ = (S i) * NODE) as ->
      by (unfold node_next; zif; lia).
    destruct (IH st1 es data (overwrite copied (slice start cnt data) buf) (S i) q
      ((S i) * NODE) end_ (copied + cnt) offset Hok1) as (st' & E' & Hok' & Hpr');
      [done|done|lia|lia|lia|rewrite zlength_overwrite by lia; lia|done| |done|].
    { unfold cut_ok, piece_len. lia. }
    exists st'. assert (d = slice start cnt data ++
      slice ((S i) * NODE) (end_ - (S i) * NODE + 1) data) as Hd.
    { unfold d. replace (end_ - start + 1) with (cnt + (end_ - (S i) * NODE + 1)) by lia.
      rewrite slice_app by nia. do 2 f_equal. lia. }
    rewrite E', Hd, length_app, overwrite_app, Hd1 by lia.
    split_and!; [do 3 f_equal; lia|done|].
    rewrite Nat2Z.inj_add, Hd1. by eapply cprogress_add.
  - assert ((if i * NODE + NODE <=? end_ then pc_slot <$> es !! S i else None) = None)
      as -> by (zif; [by rewrite (lookup_ge_None_2 es) by lia|done]).
    exists st1. assert (d = slice start cnt data) as ->.
    { unfold d. destruct (decide (end_ - start + 1 <= cnt)) as [Hle|Hgt].
      - f_equal. lia.
      - replace (end_ - start + 1) with (cnt + (end_ - start + 1 - cnt)) by lia.
        rewrite slice_app by lia. rewrite (slice_nil_r (start + cnt)), app_nil_r by nia.
        done. }
    rewrite Hd1. split_and!; [by destruct fuel|done|done].
Qed.

(** ** Writing *)

Lemma write_polycache_step (fuel : nat) st es data buf (i : nat) p start end_ copied offset (n : nat) :
  cs_ok st es data -> length es * NODE < 2 ^ 62 -> es !! i = Some p ->
  i * NODE <= start < i * NODE + NODE -> start <= zlength data ->
  start <= end_ < 2 ^ 62 ->
  0 <= copied -> copied + (end_ - start + 1) <= zlength buf ->
  mm_room (ch_alloc (cs_cache st)) (S n) ->
  let stop := Z.min (end_ + 1) (i * NODE + NODE) in
  let cnt := stop - start in
  exists st',
    write_nodes_polycache FAST_DIR (S fuel) st buf (Some (pc_slot p)) start end_ copied
      offset =
    write_nodes_polycache FAST_DIR fuel st' buf
      (if i * NODE + NODE <=? end_ then pc_slot <$> es !! S i else None)
      stop end_ (copied + cnt) offset /\
    cs_ok st' es (overwrite start (slice copied cnt buf) data) /\
    cprogress offset cnt st es st' es /\ mm_room (ch_alloc (cs_cache st')) n.
Proof.
  intros Hok Hb Hp Hs Hsd He Hc Hbuf Hroom stop cnt. pose proof node_pos as HN.
  pose proof (lookup_lt_Some _ _ _ Hp) as Hi.
  assert (0 <= i * NODE /\ i * NODE + NODE <= length es * NODE) by nia.
  destruct (cs_entry st es data i p Hok Hp Hb) as (E1 & E2 & E3 & Hlen).
  cbn [write_nodes_polycache]. rewrite E1, E2.
  assert (node_count (i * NODE + NODE - 1) start end_ = cnt) as ->
    by (unfold node_count; zif; rewrite u64_id by lia; lia).
  assert (zlength (slice copied cnt buf) = cnt) as Hd
    by (rewrite zlength_slice by lia; lia).
  destruct (access_ok st es data i p WRITE_IO (start - i * NODE) cnt n Hok Hp Hroom)
    as (e1 & e' & ch' & E & Hr & C1 & K1 & Hpr & Hsz & F & G & L).
  rewrite E. cbn [mbind option_bind cs_cache].
  simplify_eq F. simplify_eq G. intros G1 G2 F1 F2 F3 F4 F5 F6 F7.
  destruct (cached_write _ _ _ _ _ _ _ _ i p start (slice copied cnt buf) e' C1 Hp)
    as [C2 K2]; rewrite ?entry_at_set_eq; [done|lia|lia|congruence|by rewrite G2| |].
  { rewrite G1, Hd. unfold admit_write. cbn. rewrite s64_id, u64_id by lia. zif; lia. }
  rewrite set_entry_twice, entry_at_set_eq in C2, K2.
  set (ch2 := ch' <| ch_mem := mem_write (ch_mem ch')
    (e_buf_addr e1 + (start - i * NODE)) (slice copied cnt buf) |>).
  exists (advance offset cnt
    (CState (cs_io st <| io_inode := set_entry (cs_inode st) (pc_slot p) e' |>) ch2)).
  split_and!; [|apply cs_ok_advance; split; [exact C2|apply Hok]| |].
  - unfold cs_inode, set_mem. cbn [cs_io io_inode cs_cache]. f_equal.
    + unfold node_next.
      destruct (i * NODE + NODE - 1 <? end_) eqn:En; zbool.
      * rewrite (proj2 (Z.leb_le _ _)), !u64_id by nia.
        rewrite (lookup_next_pieces _ es i) by (apply C2 || done || lia).
        replace (i * NODE + NODE - 1 + 1) with ((S i) * NODE) by lia.
        by rewrite Z.div_mul, Nat2Z.id by lia.
      * rewrite (proj2 (Z.leb_gt _ _)) by lia.
        by rewrite (lookup_next_done _ es i) by (apply C2 || done || words; lia).
    + unfold node_next. zif; lia.
  - apply (cprogress_step _ _ _ _ i); [done|congruence| |exact L].
    by eapply keeps_foreign_trans.
  - done.
Qed.

Lemma write_nodes_polycache_spec (fuel : nat) :
  forall st es data buf (i : nat) p start end_ copied offset (n : nat),
  cs_ok st es data -> length es * NODE < 2 ^ 62 -> es !! i = Some p ->
  (length es <= fuel + i)%nat ->
  i * NODE <= start < i * NODE + NODE -> start <= zlength data ->
  start <= end_ < 2 ^ 62 ->
  0 <= copied -> copied + (end_ - start + 1) <= zlength buf ->
  mm_room (ch_alloc (cs_cache st)) (touched (length es) i end_ + n) ->
  let stop := Z.min (end_ + 1) (length es * NODE) in
  exists st',
    write_nodes_polycache FAST_DIR fuel st buf (Some (pc_slot p)) start end_ copied
      offset = Some (stop, copied + (stop - start), st') /\
    cs_ok st' es (overwrite start (slice copied (stop - start) buf) data) /\
    cprogress offset (stop - start) st es st' es /\
    mm_room (ch_alloc (cs_cache st')) n.
Proof.
  induction fuel as [|fuel IH];
    intros st es data buf i p start end_ copied offset n Hok Hb Hp Hfuel Hs Hsd
      He Hc Hbuf Hroom stop;
    pose proof (lookup_lt_Some _ _ _ Hp) as Hi; [lia|].
  pose proof node_pos as HN. pose proof Hok as (C & _).
  destruct (ca_len C) as [Hl1 Hl2].
  rewrite touched_S in Hroom by lia.
  destruct (write_polycache_step fuel st es data buf i p start end_ copied offset
    (touched (length es) (S i) end_ + n)) as (st1 & E & Hok1 & Hpr1 & Hr1); [done..|].
  set (stop1 := Z.min (end_ + 1) (i * NODE + NODE)) in *.
  set (cnt := stop1 - start) in *. rewrite E.
  assert (zlength (slice copied cnt buf) = cnt) as Hd
    by (rewrite zlength_slice by lia; lia).
  destruct (decide (i * NODE + NODE <= end_ /\ (S i < length es)%nat))
    as [[Hmore Hi']|Hlast].
  - rewrite (proj2 (Z.leb_le _ _)) by lia.
    destruct (lookup_lt_is_Some_2 es (S i) Hi') as [q Eq]. rewrite Eq.
    cbn [fmap option_fmap option_map].
    assert ((S i) * NODE <= zlength data) as Hfull by nia.
    assert (zlength (overwrite start (slice copied cnt buf) data) =
      zlength data) as Hlen by (rewrite zlength_overwrite by lia; lia).
    destruct (IH st1 es _ buf (S i) q stop1 end_ (copied + cnt) offset n Hok1)
      as (st' & Hst' & Hok' & Hpr' & Hr'); [done|done|lia..|done|].
    fold stop in Hst', Hok', Hpr'.
    exists st'. replace (stop - start) with (cnt + (stop - stop1)) by lia.
    split_and!; [rewrite Hst'; do 3 f_equal; lia| |by eapply cprogress_add|done].
    assert (i * NODE + NODE <= length es * NODE) by nia.
    rewrite slice_app, overwrite_app, Hd by lia.
    by replace (start + cnt) with stop1 by lia.
  - exists st1. assert (stop = stop1) as ->.
    { unfold stop, stop1. destruct (decide (i * NODE + NODE <= end_)); [|nia].
      assert (length es = S i) as -> by (apply lookup_lt_Some in Hp; lia). lia. }
    split_and!; [|done..|].
    + assert ((if i * NODE + NODE <=? end_ then pc_slot <$> es !! S i else None) =
        None) as ->; [|by destruct fuel].
      zif; [|done]. by rewrite (lookup_ge_None_2 es) by lia.
    + assert (touched (length es) (S i) end_ = O) as Ht; [|by rewrite Ht in Hr1].
      unfold touched. destruct (decide (S i < length es)%nat); [|lia].
      assert (end_ / NODE < S i) by (apply Z.div_lt_upper_bound; lia). lia.
Qed.

(** ** New pieces *)

(** The buffer of a new piece: cleared, then filled from its start. *)
Lemma new_buffer_ok a m addr a' m' d (n : nat) :
  mm_wf a -> mm_room a (S n) -> mm_alloc a m = (addr, a', m') -> zlength d <= NODE ->
  valid_buf addr = true /\ mm_room a' n /\
  fresh_buffer m a addr (mem_write (mem_set m' addr x00 NODE) addr d) a' d.
Proof.
  intros Hwf Hroom E Hd.
  destruct (mm_alloc_room a m n Hwf Hroom) as (addr0 & a0 & m0 & E0 & Hn & Hr).
  rewrite E in E0. injection E0 as <- <- <-.
  destruct (mm_alloc_live _ _ _ _ _ Hwf E Hn) as [Hnew Hlive].
  pose proof (mm_alloc_wf _ _ _ _ _ Hwf E) as Hwf'.
  assert (mm_live a' addr) as Hl by (apply Hlive; by left).
  split_and!; [by apply (mm_live_valid a')|done|].
  split; [done|done|done|done| |].
  - intros q Hq. assert (apart addr q) as Hap.
    { apply (mm_live_apart a'); [done|done|apply Hlive; by right|]. by intros ->. }
    intros x Hx. rewrite mem_write_spec, decide_False by (destruct Hap; lia).
    unfold mem_set. rewrite (proj2 (andb_false_iff _ _)) by (destruct Hap; lia).
    by apply (mm_alloc_frame a m addr a' m' q).
  - intros k Hk. rewrite mem_write_spec, decide_True by lia.
    replace (addr + k - addr) with k by lia.
    destruct (lookup_lt_is_Some_2 d (Z.to_nat k)) as [x ->]; [lia|done].
Qed.

(** The entry [add_node] inserts and the inode it is inserted into. *)
Definition added_entry (slot start cnt placement ino addr off : Z) e : it_node_entry :=
  new_cache_entry slot start placement ino addr e
    <| e_size := cnt |> <| e_cache_size := NODE |> <| e_offset := off |>.

Lemma admit_new_entry st (slot cnt : Z) (e : it_node_entry) :
  entry_at (cs_inode st) slot = e -> 0 < cnt <= NODE ->
  e_present e = 1 -> e_dirty e = 1 -> e_size e = 0 -> e_cache_size e = 0 ->
  e_inode e = i_ino (cs_inode st) ->
  exists n, poly_cache_admit st slot 0 (s64 (cnt - 1)) WRITE_IO =
    (0, CState (cs_io st <| io_inode := set_entry (cs_inode st) slot
                  (e <| e_size := cnt |> <| e_cache_size := NODE |>) |>)
          (cs_cache st <| ch_size := n |>)).
Proof.
  intros He Hc Hp Hd Hs Hz Hi. unfold poly_cache_admit. fold (cs_inode st).
  rewrite He. change (WRITE_IO =? READ_IO) with false. cbn [andb].
  unfold admit_load, admit_write, admit_account. destruct e. cbn in *. subst. cbn.
  assert (u64 (s64 (cnt - 1) + 1) = cnt) as ->.
  { rewrite node_size_val in Hc. rewrite s64_id, u64_id by lia. lia. }
  rewrite (proj2 (Z.ltb_lt 0 cnt)) by lia. eexists. reflexivity.
Qed.

Lemma admit_new st (slot start cnt placement addr : Z) e0 :
  let inode := cs_inode st in
  let e := new_cache_entry slot start placement (i_ino inode) addr e0 in
  entry_at inode slot = e -> 0 < cnt <= NODE ->
  exists n, poly_cache_admit st slot 0 (s64 (cnt - 1)) WRITE_IO =
    (0, CState (cs_io st <| io_inode := set_entry inode slot
                  (e <| e_size := cnt |> <| e_cache_size := NODE |>) |>)
          (cs_cache st <| ch_size := n |>)).
Proof. intros inode e He Hc. by apply admit_new_entry. Qed.

Lemma add_node_eq st (slot start cnt : Z) d addr a' m' :
  mm_alloc (ch_alloc (cs_cache st)) (ch_mem (cs_cache st)) = (addr, a', m') ->
  valid_buf addr = true -> start mod NODE = 0 -> 0 < cnt <= NODE ->
  let inode := cs_inode st in
  let placement := t_placement (io_task (cs_io st)) in
  let off := fst (take_offset placement inode) in
  let inode1 := set_entry (snd (take_offset placement inode)) slot
    (added_entry slot start cnt placement (i_ino inode) addr off
       (entry_at inode slot)) in
  exists ch', add_node slot start cnt d st =
      (inode2 ← polystore_index_insert inode1 slot;
       Some (CState (cs_io st <| io_inode := inode2 |>) ch')) /\
    ch_mem ch' = mem_write (mem_set m' addr x00 NODE) addr d /\ ch_alloc ch' = a' /\
    ch_queues ch' = ch_queues (cs_cache st) /\
    ch_cold ch' = ch_cold (cs_cache st) ++ [(i_ino inode, slot)].
Proof.
  intros E Hv Hs Hc inode placement off inode1. unfold add_node. rewrite E, Hv.
  cbn [negb]. rewrite node_mask_floor, Hs, Z.sub_0_r, Z.sub_diag, Z.add_0_l.
  match goal with |- context [poly_cache_admit ?s slot 0 _ _] => set (st1 := s) end.
  destruct (admit_new st1 slot start cnt placement addr (entry_at inode slot))
    as (n & ->); [apply entry_at_set_eq|done|].
  assert (forall e e' (i : poly_inode),
    take_offset placement (set_entry i slot e) =
      (fst (take_offset placement i), set_entry (snd (take_offset placement i)) slot e) /\
    set_entry (set_entry (snd (take_offset placement i)) slot e) slot e' =
      set_entry (snd (take_offset placement i)) slot e') as Htake.
  { intros e e' i. split; [|apply set_entry_twice].
    unfold take_offset. by destruct (placement =? _). }
  eexists. split_and!.
  - unfold st1, set_cs_entry, set_mem, set_io, set_cs_inode, cs_inode.
    cbn [cs_io cs_cache io_inode update].
    fold (cs_inode st). fold inode. rewrite !set_entry_twice.
    fold placement. rewrite (proj1 (Htake _ zero_entry inode)).
    fold off. cbn zeta. rewrite entry_at_set_eq, set_entry_twice.
    reflexivity.
  - done.
  - done.
  - done.
  - cbn. do 3 f_equal. unfold st1, set_cs_entry, set_mem, set_io, cs_inode.
    unfold take_offset. by destruct (_ =? BLK_PLACEMENT_FAST).
Qed.

Lemma take_offset_fields pl inode :
  let '(off, inode') := take_offset pl inode in
  off = next_off inode pl /\ next_off inode' pl = off + NODE /\
  (forall pl', next_off inode pl' <= next_off inode' pl') /\
  inode_fixed inode' = inode_fixed inode /\ i_it_tree inode' = i_it_tree inode /\
  i_next_avail_it_node_no inode' = i_next_avail_it_node_no inode /\
  i_entries inode' = i_entries inode.
Proof.
  pose proof node_pos. unfold take_offset, next_off.
  destruct (pl =? BLK_PLACEMENT_FAST) eqn:E; cbn; rewrite ?E; split_and!; try done;
    intros pl'; destruct (pl' =? BLK_PLACEMENT_FAST); lia.
Qed.

(** One iteration of the second loop: a piece behind full ones. *)
Lemma add_node_ok st es data cnt d (n : nat) offset :
  let inode := cs_inode st in
  let slot := i_next_avail_it_node_no inode in
  cs_ok st es data -> zlength data = length es * NODE -> zlength data < 2 ^ 62 ->
  placed_at (t_placement (io_task (cs_io st))) ->
  slot < i_index_slots inode -> mm_room (ch_alloc (cs_cache st)) (S n) ->
  zlength d = cnt -> 0 < cnt <= NODE ->
  exists inode1 st' p,
    polystore_index_entry_allocate inode = Some (Some slot, inode1) /\
    add_node slot (zlength data) cnt d (set_cs_inode inode1 st) = Some st' /\
    cs_ok st' (es ++ [p]) (data ++ d) /\ cprogress offset 0 st es st' (es ++ [p]) /\
    mm_room (ch_alloc (cs_cache st')) n.
Proof.
  intros inode slot (C & Ho & Hf & Hs) Hfull Hsm Hpl Hslot Hroom Hd Hc.
  pose proof (ca_index C) as Hidx.
  pose proof node_pos as HN. set (pl := t_placement (io_task (cs_io st))) in *.
  set (inode1 := set_entry (inode <| i_next_avail_it_node_no := slot + 1 |>) slot
    (entry_at inode slot <| e_idx_no := slot |>)).
  destruct (mm_alloc (ch_alloc (cs_cache st)) (ch_mem (cs_cache st)))
    as [[addr a'] m'] eqn:Ea.
  destruct (new_buffer_ok _ _ addr a' m' d n (ca_wf C) Hroom Ea)
    as (Hv & Hr & B); [lia|].
  destruct (add_node_eq (set_cs_inode inode1 st) slot (zlength data) cnt d addr a' m' Ea Hv)
    as (ch' & E & Hm & Ha & Hqs & Hcold); [rewrite Hfull; apply Z.mod_mul; lia|lia|].
  change (t_placement (io_task (cs_io (set_cs_inode inode1 st)))) with pl in E.
  change (cs_inode (set_cs_inode inode1 st)) with inode1 in E.
  pose proof (take_offset_fields pl inode1) as Ht.
  destruct (take_offset pl inode1) as [off inode2]. cbn [fst snd] in E.
  destruct Ht as (Hoff & Hnext & Hmono & Tfix & Ttree & Tnext & Tent).
  change (inode_fixed inode1) with (inode_fixed inode) in Tfix.
  destruct (fixed_fields _ _ Tfix) as (Tmeta & Tpol & Tino & Tidx & Tsl).
  change (i_ino inode1) with (i_ino inode) in E.
  set (e := added_entry slot (zlength data) cnt pl (i_ino inode) addr off
    (entry_at inode1 slot)) in E.
  set (p := Piece slot pl off).
  assert (forall s, s <> slot -> entry_at (set_entry inode2 slot e) s = entry_at inode s)
    as Hent.
  { intros s Hne. rewrite entry_at_set_ne by done. unfold entry_at. rewrite Tent.
    unfold inode1, set_entry. cbn. by rewrite lookup_insert_ne by congruence. }
  assert (e_it e = piece_node (length es) p) as Hit.
  { unfold e, added_entry, new_cache_entry, piece_node, p. cbn.
    rewrite node_mask_floor, Hfull, Z.mod_mul, Z.sub_0_r by lia.
    rewrite node_size_val in *. rewrite !u64_id by (rewrite ?u64_id; lia). done. }
  destruct (index_insert_snoc inode (set_entry inode2 slot e) es p Hidx)
    as (t & Et & Hidx');
    [reflexivity|exact Ttree|exact Tnext|exact Tidx|exact Tsl|exact Hslot|exact Hent|
     by rewrite entry_at_set_eq..|].
  change (pc_slot p) with slot in Et. rewrite Et in E. cbn [mbind option_bind] in E.
  set (inode3 := set_entry inode2 slot e <| i_it_tree := t |>) in *.
  assert (entry_at inode3 slot = e) as Hee by apply entry_at_set_eq.
  assert (extended inode inode3 es p) as X.
  { split; [exact Hidx'|exact Hent| |exact Tpol|exact Hpl|exact Hoff|exact Hmono|exact Hnext].
    intros q Hq. pose proof (ok_fresh _ _ Hidx q Hq) as Hq'. change (pc_slot p) with slot.
    change (0 <= pc_slot q < slot) in Hq'. lia. }
  exists inode1, (CState (cs_io (set_cs_inode inode1 st) <| io_inode := inode3 |>) ch'), p.
  split_and!; [by apply (index_allocate _ es)|exact E| | |].
  - split; [|done]. cbn [cs_io cs_cache]. rewrite Hm, Ha.
    change (cs_inode _) with inode3.
    eapply cached_new; [exact C|done| |lia|exact X|exact B|].
    + destruct d; [cbn in Hd; lia|done].
    + change (pc_slot p) with slot. rewrite Hee, Hd. reflexivity.
  - split; [done|exact Tfix|done| | | | |by eexists|].
    + by rewrite IoDirectSpec.advance_off_0.
    + cbn [cs_cache]. rewrite Hm, Ha. change (cs_inode (CState _ _)) with inode3.
      eapply keeps_foreign_new; [exact X|exact B|].
      change (pc_slot p) with slot. by rewrite Hee.
    + change (cs_inode (CState _ _)) with inode3. rewrite length_app. cbn [length].
      change (i_next_avail_it_node_no inode3) with (i_next_avail_it_node_no inode2).
      rewrite Tnext. change (i_next_avail_it_node_no inode1) with (slot + 1).
      fold inode. fold slot. lia.
    + change (cs_inode (CState _ _)) with inode3. intros Hbk q [Hq|Hq]%elem_of_app.
      * rewrite (ex_entry _ _ _ _ X) by (by apply X). rewrite Hbk by done.
        symmetry. exact Tino.
      * apply list_elem_of_singleton in Hq as ->. change (pc_slot p) with slot.
        rewrite Hee. symmetry. exact Tino.
    + split; [exact Hqs|]. intros r. cbn [cs_cache]. rewrite Hcold, elem_of_app, list_elem_of_singleton.
      intros [?| ->]; [by left|right]. exists p. split; [|done].
      apply elem_of_app. right. by left.
  - cbn [cs_cache]. by rewrite Ha.
Qed.

Lemma cprogress_advance offset n st es st' es' :
  cprogress offset 0 st es st' es' -> cprogress offset n st es (advance offset n st') es'.
Proof.
  intros [H1 H2 H3 H4 H5 H6 H7 H8 H9]. rewrite IoDirectSpec.advance_off_0 in H4.
  split; unfold advance, advance_off, set_io, cs_inode in *;
    destruct (offset <? 0); cbn; rewrite ?H4; done.
Qed.

Lemma write_new_polycache_step (fuel : nat) st es data buf end_ copied offset (n : nat) :
  cs_ok st es data -> zlength data = length es * NODE ->
  placed_at (t_placement (io_task (cs_io st))) ->
  let start := zlength data in
  let cnt := Z.min NODE (end_ - start + 1) in
  start < end_ < 2 ^ 62 ->
  0 <= copied -> copied + cnt <= zlength buf < 2 ^ 62 ->
  i_next_avail_it_node_no (cs_inode st) < i_index_slots (cs_inode st) ->
  mm_room (ch_alloc (cs_cache st)) (S n) ->
  exists st' p,
    write_new_nodes_polycache (S fuel) st buf start end_ copied offset =
      write_new_nodes_polycache fuel st' buf (start + cnt) end_ (copied + cnt) offset /\
    cs_ok st' (es ++ [p]) (data ++ slice copied cnt buf) /\
    cprogress offset cnt st es st' (es ++ [p]) /\ mm_room (ch_alloc (cs_cache st')) n.
Proof.
  intros Hok Hfull Hpl start cnt He Hc Hbuf Hslot Hroom. pose proof node_pos as HN.
  assert (zlength (slice copied cnt buf) = cnt) as Hd
    by (rewrite zlength_slice by lia; lia).
  cbn [write_new_nodes_polycache]. rewrite (proj2 (Z.ltb_lt start end_)) by lia.
  assert ((if NODE <? u64 (end_ - start + 1) then NODE
           else u64 (end_ - start + 1)) = cnt) as ->
    by (rewrite u64_id by lia; zif; lia).
  destruct (add_node_ok st es data cnt (slice copied cnt buf) n offset)
    as (inode1 & st' & p & Ea & E & Hok' & Hpr & Hr); [done|done|lia|done|done|done|done|lia|].
  fold start in E. rewrite Ea. cbn [mbind option_bind]. rewrite E. cbn [mbind option_bind]. rewrite !s64_id by lia.
  exists (advance offset cnt st'), p.
  split_and!; [done|by apply cs_ok_advance|by apply cprogress_advance|done].
Qed.

Lemma write_new_nodes_polycache_spec (fuel : nat) :
  forall st es data buf end_ copied offset,
  cs_ok st es data -> zlength data = length es * NODE ->
  placed_at (t_placement (io_task (cs_io st))) ->
  let start := zlength data in
  let m := end_ - start + 1 in
  0 <= m <= fuel * NODE -> m mod NODE <> 1 -> end_ < 2 ^ 62 ->
  0 <= copied -> copied + m <= zlength buf -> zlength buf < 2 ^ 62 ->
  i_next_avail_it_node_no (cs_inode st) + fuel <= i_index_slots (cs_inode st) ->
  mm_room (ch_alloc (cs_cache st)) fuel ->
  exists st' es',
    write_new_nodes_polycache fuel st buf start end_ copied offset =
      Some (copied + m, st') /\
    cs_ok st' es' (data ++ slice copied m buf) /\ cprogress offset m st es st' es'.
Proof.
  induction fuel as [|fuel IH];
    intros st es data buf end_ copied offset Hok Hfull Hpl start m Hm Hm1 He
      Hc Hbuf Hbl Hroom Hmm; pose proof node_pos as HN;
    (destruct (decide (m = 0)) as [Hm0|];
      [exists st, es; cbn [write_new_nodes_polycache]; rewrite Hm0;
       rewrite (proj2 (Z.ltb_ge start end_)), Z.add_0_r, slice_0_len, app_nil_r
         by lia; split_and!; [done..|apply cprogress_0]|]); [lia|].
  assert (m <> 1) by (intros Hm'; destruct Hm1; by rewrite Hm').
  destruct (write_new_polycache_step fuel st es data buf end_ copied offset fuel)
    as (st2 & p & E & Hok2 & Hpr2 & Hr2); [done..|lia|lia|lia|lia|done|].
  fold start in E, Hok2, Hpr2. fold m in E, Hok2, Hpr2.
  set (cnt := Z.min NODE m) in *. rewrite E.
  assert (zlength (slice copied cnt buf) = cnt) as Hd
    by (rewrite zlength_slice by lia; lia).
  assert (zlength (data ++ slice copied cnt buf) = start + cnt) as Hlen
    by (rewrite length_app; lia).
  destruct (decide (m <= NODE)) as [Hlast|Hmore].
  - exists st2, (es ++ [p]). assert (m = cnt) as Hmc by lia. rewrite Hmc.
    split_and!; [|done|done].
    destruct fuel; cbn; by rewrite (proj2 (Z.ltb_ge _ _)) by lia.
  - pose proof (cp_slots _ _ _ _ _ _ Hpr2) as Hn2. rewrite length_app in Hn2. cbn in Hn2.
    destruct (fixed_fields _ _ (cp_fixed _ _ _ _ _ _ Hpr2)) as (_ & _ & _ & _ & Hsl2).
    destruct (IH st2 _ _ buf end_ (copied + cnt) offset Hok2)
      as (st' & es' & E' & Hok' & Hpr');
      [rewrite Hlen, length_app; cbn; lia|by rewrite (cp_task _ _ _ _ _ _ Hpr2)|
       lia| |lia..|done|].
    { rewrite Hlen. replace (end_ - (start + cnt) + 1) with (m + (-1) * NODE)
        by lia. by rewrite Z.mod_add by lia. }
    rewrite Hlen in *.
    replace (end_ - (start + cnt) + 1) with (m - cnt) in * by lia.
    exists st', es'. replace m with (cnt + (m - cnt)) by lia. split_and!.
    + rewrite E'. do 2 f_equal. lia.
    + by rewrite slice_app, app_assoc by lia.
    + by eapply cprogress_add.
Qed.

End loops.

End IoBufferedSpec.
