(* ===== verification/IoBufferedRefine.v ===== *)
(** * A file in the Poly cache is a byte array

    The whole operations of buffered I/O, from the lookup to the statistics:
    [cached_file st data] relates the state of a buffered file to its bytes, and
    the buffered iterators refine reading and overwriting those bytes. *)

From S2P Require Import Prelude Defs Util Posix IntervalTree Indexing IoDirect.
From S2P Require Import IoDirectSpec CacheMm Cache CacheSpec IoBuffered IoBufferedSpec.
Import IoDirect IoDirectSpec Cache CacheSpec IoBuffered IoBufferedSpec.

#[local] Open Scope Z_scope.

Module IoBufferedRefine.

(** The nodes a range of [count] bytes meets: the buffers it may need. *)
Definition range_nodes (start count : Z) : nat :=
  Z.to_nat ((start + count - 1) / NODE - start / NODE + 1).

Section whole.
Context {Fs : Type} `{!PosixFS Fs, !PosixFSLaws Fs, !ReliableFS Fs, !PosixNS Fs}.
Context {A : Type} `{!CacheAlloc A, !CacheAllocLaws A, !CacheMmap Fs A}.
Variables fast_obj slow_obj fastfd slowfd : Z.
Variable FAST_DIR : string.
Implicit Types (st : cstate Fs A) (ch : poly_cache A).

Local Abbreviation cs_ok := (cs_ok fast_obj slow_obj fastfd slowfd).

Lemma mm_room_mono (a : A) (n n' : nat) : (n <= n')%nat -> mm_room a n' -> mm_room a n.
Proof. induction 1; auto using mm_room_le. Qed.

Lemma cs_len st es data :
  cs_ok st es data -> (length es - 1) * NODE < zlength data <= length es * NODE.
Proof. intros (C & _). apply C. Qed.

Lemma cs_index st es data : cs_ok st es data -> index_ok (cs_inode st) es.
Proof. intros (C & _). apply C. Qed.

(** The first loop, from the lookup on. *)
Lemma write_existing_polycache st es data buf start end_ offset (n : nat) :
  cs_ok st es data -> length es * NODE < 2 ^ 62 ->
  0 <= start <= zlength data -> start <= end_ < 2 ^ 62 ->
  end_ - start + 1 <= zlength buf ->
  mm_room (ch_alloc (cs_cache st)) (touched (length es) (start / NODE) end_ + n) ->
  let stop := Z.min (end_ + 1) (length es * NODE) in
  exists st',
    write_nodes_polycache FAST_DIR (node_fuel (cs_inode st)) st buf
      (polystore_index_lookup (cs_inode st) (u64 start) (u64 end_))
      start end_ 0 offset = Some (stop, stop - start, st') /\
    cs_ok st' es (overwrite start (slice 0 (stop - start) buf) data) /\
    cprogress offset (stop - start) st es st' es /\
    mm_room (ch_alloc (cs_cache st')) n.
Proof.
  intros Hok Hb Hs He Hbuf Hroom stop. pose proof node_pos as HN.
  pose proof (cs_index _ _ _ Hok) as Hidx. pose proof (cs_len _ _ _ Hok) as Hlen.
  rewrite (node_fuel_length _ es), !u64_id by (done || lia).
  rewrite (lookup_pieces _ es) by (done || lia).
  pose proof (Z.div_mod start NODE) as Hdm.
  pose proof (Z.mod_pos_bound start NODE HN) as Hmod.
  assert (0 <= start / NODE) by (apply Z.div_pos; lia).
  destruct (es !! Z.to_nat (start / NODE)) as [p|] eqn:Ep.
  - destruct (write_nodes_polycache_spec fast_obj slow_obj fastfd slowfd FAST_DIR
      (length es) st es data buf (Z.to_nat (start / NODE)) p start end_ 0 offset n)
      as (st' & E & R); [done|done|done|lia|lia|lia|lia|lia|lia| |].
    { by rewrite Z2Nat.id. }
    by exists st'.
  - exists st. apply lookup_ge_None in Ep.
    assert (length es * NODE <= start) by nia. assert (stop = start) as -> by lia.
    rewrite Z.sub_diag, slice_0_len, overwrite_nil by lia.
    split_and!; [by destruct (length es)|done|apply cprogress_0|].
    assert (touched (length es) (start / NODE) end_ = O) as Ht by (unfold touched; lia).
    by rewrite Ht in Hroom.
Qed.

(** Both loops. *)
Lemma write_loops_ok st es data buf n start offset :
  cs_ok st es data -> length es * NODE < 2 ^ 61 -> zlength buf < 2 ^ 61 ->
  placed_at (t_placement (io_task (cs_io st))) ->
  0 <= start <= zlength data -> 0 < n <= zlength buf ->
  let stop := start + n in
  stop <= length es * NODE \/ stop mod NODE <> 1 ->
  i_next_avail_it_node_no (cs_inode st) +
    Z.max 0 ((stop - length es * NODE - 1) / NODE + 1) <=
    i_index_slots (cs_inode st) ->
  mm_room (ch_alloc (cs_cache st)) (range_nodes start n) ->
  exists mid copied st1 st' es',
    write_nodes_polycache FAST_DIR (node_fuel (cs_inode st)) st buf
      (polystore_index_lookup (cs_inode st) (u64 start) (u64 (stop - 1)))
      start (stop - 1) 0 offset = Some (mid, copied, st1) /\
    write_new_nodes_polycache (new_fuel mid (stop - 1)) st1 buf mid (stop - 1) copied
      offset = Some (n, st') /\
    cs_ok st' es' (overwrite start (ztake n buf) data) /\
    cprogress offset n st es st' es'.
Proof.
  intros Hok Hb Hbl Hpl Hs Hn stop Htail Hslots Hroom. pose proof node_pos as HN.
  pose proof (cs_len _ _ _ Hok) as Hlen.
  assert (0 <= (stop - 1) / NODE) by (apply Z.div_pos; lia).
  assert (start / NODE <= (stop - 1) / NODE) by (apply Z.div_le_mono; lia).
  assert (start / NODE <= length es) by (apply Z.div_le_upper_bound; lia).
  set (new := Z.to_nat (Z.max 0 ((stop - 1) / NODE + 1 - length es))).
  assert (range_nodes start n =
    (touched (length es) (start / NODE) (stop - 1) + new)%nat) as Hrn.
  { unfold range_nodes, touched, new. replace (start + n - 1) with (stop - 1) by lia. lia. }
  rewrite Hrn in Hroom.
  destruct (write_existing_polycache st es data buf start (stop - 1) offset new Hok)
    as (st1 & E1 & Hok1 & Hpr1 & Hr1); [lia..|done|].
  replace (stop - 1 + 1) with stop in * by lia.
  set (mid := Z.min stop (length es * NODE)) in *.
  destruct (decide (stop <= length es * NODE)) as [Hin|Hout].
  - assert (mid = stop) as Hmid by lia. rewrite Hmid in *.
    replace (stop - start) with n in * by lia. rewrite slice_0_ztake in Hok1.
    eexists _, _, st1, st1, es. split_and!; [exact E1| |done|done].
    destruct (new_fuel stop (stop - 1)); cbn [write_new_nodes_polycache];
      by rewrite (proj2 (Z.ltb_ge _ _)) by lia.
  - assert (mid = length es * NODE) as Hmid by lia.
    assert (zlength (overwrite start (slice 0 (mid - start) buf) data) = mid) as Hlen1
      by (rewrite zlength_overwrite, zlength_slice by lia; lia).
    assert ((stop - 1 - mid) / NODE = (stop - 1) / NODE - length es) as Hdiv.
    { rewrite Hmid. replace (stop - 1 - length es * NODE)
        with (stop - 1 + (- length es) * NODE) by lia. rewrite Z.div_add by lia. lia. }
    assert (0 <= (stop - 1 - mid) / NODE) by (apply Z.div_pos; lia).
    assert (new_fuel mid (stop - 1) = new) as Hfuel
      by (unfold new_fuel, new; rewrite Hdiv; lia).
    assert ((stop - 1 - mid + 1) mod NODE <> 1) as Htail'.
    { destruct Htail as [|Htail]; [lia|].
      replace (stop - 1 - mid + 1) with (stop + (- length es) * NODE) by lia.
      by rewrite Z.mod_add by lia. }
    pose proof (Z.div_mod (stop - 1 - mid) NODE).
    pose proof (Z.mod_pos_bound (stop - 1 - mid) NODE HN).
    replace (stop - length es * NODE - 1) with (stop - 1 - mid) in Hslots by lia.
    pose proof (cp_slots _ _ _ _ _ _ Hpr1) as Hs1.
    destruct (fixed_fields _ _ (cp_fixed _ _ _ _ _ _ Hpr1)) as (_ & _ & _ & _ & Hsl1).
    destruct (write_new_nodes_polycache_spec fast_obj slow_obj fastfd slowfd new st1 es _ buf
      (stop - 1) (mid - start) offset Hok1) as (st2 & es2 & E2 & Hok2 & Hpr2);
      rewrite ?Hlen1 in *;
      [done|by rewrite (cp_task _ _ _ _ _ _ Hpr1)|nia|done|lia..|done|].
    eexists _, _, st1, st2, es2. split_and!; [exact E1| | |].
    + rewrite Hfuel, E2. do 2 f_equal. lia.
    + rewrite (overwrite_split start (mid - start)) by (rewrite ?zlength_ztake by lia; lia).
      rewrite zlength_ztake, !slice_ztake by lia.
      by replace (n - (mid - start)) with (stop - 1 - mid + 1) by lia.
    + replace n with ((mid - start) + (stop - 1 - mid + 1)) by lia.
      by eapply cprogress_add.
Qed.

(** A read that starts at or behind the end of the data. *)
Lemma read_behind st es data buf start end_ offset :
  cs_ok st es data -> length es * NODE < 2 ^ 62 ->
  0 <= start -> zlength data <= start <= end_ -> end_ < 2 ^ 62 ->
  read_nodes_polycache FAST_DIR (node_fuel (cs_inode st)) st buf
    (polystore_index_lookup (cs_inode st) (u64 start) (u64 end_))
    start end_ 0 offset = Some (0, buf, st).
Proof.
  intros Hok Hb Hs0 Hs He. pose proof node_pos as HN.
  pose proof (cs_index _ _ _ Hok) as Hidx. pose proof (cs_len _ _ _ Hok) as Hlen.
  rewrite (node_fuel_length _ es), !u64_id by (done || lia).
  rewrite (lookup_pieces _ es) by (done || lia).
  pose proof (Z.div_mod start NODE) as Hdm.
  pose proof (Z.mod_pos_bound start NODE HN) as Hmod.
  destruct (es !! Z.to_nat (start / NODE)) as [p|] eqn:Ep; [|by destruct (length es)].
  destruct (cs_entry _ _ _ _ st es data _ p Hok Ep Hb) as (E1 & E2 & E3 & E4).
  apply lookup_lt_Some in Ep. assert (0 <= start / NODE) by (apply Z.div_pos; lia).
  destruct (length es); [lia|]. cbn [fmap option_fmap option_map read_nodes_polycache].
  rewrite E1, E3, Z2Nat.id in * by done. unfold piece_len in *. rewrite Z2Nat.id in * by done.
  by rewrite (proj2 (Z.leb_le _ _)) by (rewrite u64_id by lia; lia).
Qed.

(** The loop of the read iterator, from the lookup on. *)
Lemma read_loop_ok st es data buf n start offset :
  cs_ok st es data -> length es * NODE < 2 ^ 61 ->
  0 <= start -> 0 < n -> start + n < 2 ^ 62 ->
  cut_ok (piece_len data (Z.to_nat (start / NODE))) (start mod NODE) n ->
  mm_room (ch_alloc (cs_cache st)) (range_nodes start n) ->
  let d := slice start n data in
  exists st',
    read_nodes_polycache FAST_DIR (node_fuel (cs_inode st)) st buf
      (polystore_index_lookup (cs_inode st) (u64 start) (u64 (start + n - 1)))
      start (start + n - 1) 0 offset = Some (zlength d, overwrite 0 d buf, st') /\
    cs_ok st' es data /\ cprogress offset (zlength d) st es st' es.
Proof.
  intros Hok Hb Hs Hn Hsn Hcut Hroom d. pose proof node_pos as HN.
  destruct (decide (zlength data <= start)) as [Hend|Hin].
  { exists st. assert (d = []) as -> by (apply slice_nil_r; lia).
    rewrite (read_behind _ es data), overwrite_nil by (done || lia).
    split_and!; [done..|apply cprogress_0]. }
  pose proof (cs_index _ _ _ Hok) as Hidx. pose proof (cs_len _ _ _ Hok) as Hlen.
  rewrite (node_fuel_length _ es), !u64_id by (done || lia).
  rewrite (lookup_pieces _ es) by (done || lia).
  pose proof (Z.div_mod start NODE) as Hdm.
  pose proof (Z.mod_pos_bound start NODE HN) as Hmod.
  assert (0 <= start / NODE) by (apply Z.div_pos; lia).
  destruct (lookup_lt_is_Some_2 es (Z.to_nat (start / NODE))) as [p Ep].
  { assert (start / NODE < length es) by (apply Z.div_lt_upper_bound; lia). lia. }
  rewrite Ep. destruct (read_nodes_polycache_spec fast_obj slow_obj fastfd slowfd FAST_DIR
    (length es) st es data buf (Z.to_nat (start / NODE)) p start (start + n - 1) 0 offset)
    as (st' & E & R); [done|lia|done|lia|lia|lia|lia|lia| | |].
  - replace (start + n - 1 - start + 1) with n by lia.
    by replace (start - Z.to_nat (start / NODE) * NODE) with (start mod NODE) by lia.
  - eapply mm_room_mono; [|exact Hroom].
    unfold touched, range_nodes. rewrite Z2Nat.id by done. lia.
  - replace (start + n - 1 - start + 1) with n in E, R by lia. by exists st'.
Qed.

End whole.

(** ** The interface *)

Section interface.
Context {Fs : Type} `{!PosixFS Fs, !PosixFSLaws Fs, !ReliableFS Fs, !PosixNS Fs}.
Context {A : Type} `{!CacheAlloc A, !CacheAllocLaws A, !CacheMmap Fs A}.
Variable FAST_DIR : string.
Implicit Types (st : cstate Fs A) (ch : poly_cache A).

Definition cached_file st (data : list byte) : Prop :=
  exists fast_obj slow_obj es, fast_obj <> slow_obj /\
    cs_ok fast_obj slow_obj (fastfd_of (cs_io st)) (slowfd_of (cs_io st)) st es data /\
    backed (cs_inode st) es /\
    i_size (cs_inode st) = zlength data /\
    length es <= i_next_avail_it_node_no (cs_inode st) /\
    length es <= MAX_POLY_INDEX_NODE_NR + 1.

(** Buffers that belong to other files keep their contents and their owner. *)
Definition others_buffers_kept st st' : Prop :=
  forall q, mm_live (ch_alloc (cs_cache st)) q ->
    (forall slot, e_buf_addr (entry_at (cs_inode st) slot) <> q) ->
    mm_live (ch_alloc (cs_cache st')) q /\
    same_buffer q (ch_mem (cs_cache st)) (ch_mem (cs_cache st')).

Lemma kept_of_progress offset n st es st' es' :
  cprogress offset n st es st' es' -> others_buffers_kept st st'.
Proof.
  intros H q Hl Hq. destruct (cp_foreign _ _ _ _ _ _ H q) as [[Hl' _] Hm]; [|done].
  split; [done|]. intros p _. apply Hq.
Qed.

Lemma cs_pieces fo so ffd sfd st es data :
  cs_ok fo so ffd sfd st es data -> Z.of_nat (length es) = pieces_of (zlength data).
Proof.
  intros Hok. pose proof node_pos. pose proof (cs_len _ _ _ _ _ _ _ Hok).
  unfold pieces_of. apply Z.div_unique with (zlength data + NODE - 1 - length es * NODE);
    lia.
Qed.

(** The end of a write: size and statistics. *)
Definition write_done (n stop : Z) st : cstate Fs A :=
  let st := set_cs_inode (grow_size (stop - 1) (cs_inode st)) st in
  let task := io_task (cs_io st) in
  set_io (cs_io st <| io_task := task
            <| t_throughput := u64 (t_throughput task + n) |>
            <| t_throughput_write := u64 (t_throughput_write task + n) |> |>) st.

Lemma progress_fds offset n st es st' es' :
  cprogress offset n st es st' es' ->
  f_polyfd (io_file (cs_io st')) = f_polyfd (io_file (cs_io st)).
Proof. intros H. rewrite (cp_file _ _ _ _ _ _ H). unfold advance_off. by case_match. Qed.

Lemma write_done_cached fo so st es (data : list byte) st' es' data' n stop offset :
  let ffd := fastfd_of (cs_io st) in
  let sfd := slowfd_of (cs_io st) in
  fo <> so -> cs_ok fo so ffd sfd st' es' data' -> cprogress offset n st es st' es' ->
  backed (cs_inode st) es -> i_size (cs_inode st) = zlength data ->
  zlength data' = Z.max (zlength data) stop -> 0 <= stop < 2 ^ 62 ->
  length es' <= i_next_avail_it_node_no (cs_inode st') ->
  length es' <= MAX_POLY_INDEX_NODE_NR + 1 ->
  cached_file (write_done n stop st') data'.
Proof.
  intros ffd sfd Hd (C & Ho & Hf & Hs) Hpr Hbk Hsz Hlen Hstop Hk Hmax.
  destruct (fixed_fields _ _ (cp_fixed _ _ _ _ _ _ Hpr)) as (Hmeta & _ & Hino & _).
  assert (i_size (cs_inode st') = zlength data) as Hsz'
    by (unfold inode_meta in Hmeta; injection Hmeta; intros; congruence).
  exists fo, so, es'. unfold fastfd_of, slowfd_of.
  change (io_file (cs_io (write_done n stop st'))) with (io_file (cs_io st')).
  rewrite Hf, Hs. split_and!; [done| | | |done|done].
  - split; [|done]. change (cs_inode (write_done n stop st'))
      with (grow_size (stop - 1) (cs_inode st')).
    by apply (cached_same_inode _ _ _ (cs_inode st')).
  - by apply (cp_backed _ _ _ _ _ _ Hpr).
  - change (i_size (cs_inode (write_done n stop st')))
      with (i_size (grow_size (stop - 1) (cs_inode st'))).
    unfold grow_size. cbn. rewrite Hsz', Z.sub_add, u64_id by lia. zif; lia.
Qed.

Lemma write_done_accounted st es st' es' n stop offset :
  cprogress offset n st es st' es' ->
  write_accounted offset n (cs_io st) (cs_io (write_done n stop st')).
Proof.
  intros Hpr.
  destruct (fixed_fields _ _ (cp_fixed _ _ _ _ _ _ Hpr)) as (Hmeta & _).
  split_and!.
  - apply (cp_file _ _ _ _ _ _ Hpr).
  - cbn. by rewrite (cp_task _ _ _ _ _ _ Hpr).
  - unfold cs_inode, inode_meta in Hmeta. injection Hmeta. intros.
    unfold inode_meta, cs_inode in *. cbn in *. unfold cs_inode. congruence.
  - intros o _ _. cbn. by rewrite (cp_fs _ _ _ _ _ _ Hpr).
Qed.

(** A write, in terms of the pieces of the file. *)
Lemma write_iter_pieces fo so st es data buf n offset :
  cs_ok fo so (fastfd_of (cs_io st)) (slowfd_of (cs_io st)) st es data ->
  length es <= i_next_avail_it_node_no (cs_inode st) ->
  placed (io_task (cs_io st)) -> 0 < n <= zlength buf -> zlength buf < 2 ^ 61 ->
  let start := io_start (cs_io st) offset in
  let stop := start + n in
  0 <= start <= zlength data ->
  stop <= pieces_of (zlength data) * NODE \/ stop mod NODE <> 1 ->
  i_next_avail_it_node_no (cs_inode st) + new_pieces (zlength data) stop <=
    i_index_slots (cs_inode st) ->
  mm_room (ch_alloc (cs_cache st)) (range_nodes start n) ->
  exists st2 es2,
    polystore_write_iter_polycache FAST_DIR st buf n offset =
      Some (n, write_done n stop st2) /\
    cs_ok fo so (fastfd_of (cs_io st)) (slowfd_of (cs_io st)) st2 es2
      (overwrite start (ztake n buf) data) /\
    cprogress offset n st es st2 es2 /\ 0 <= stop < 2 ^ 62 /\
    length es2 <= i_next_avail_it_node_no (cs_inode st2) /\
    length es2 <= MAX_POLY_INDEX_NODE_NR + 1.
Proof.
  intros Hok Hk Hpl Hn Hbl start stop Hs Htail Hroom Hmm.
  pose proof node_pos as HN. pose proof (ok_region _ _ (ca_index (proj1 Hok))) as Hsl.
  pose proof (cs_pieces _ _ _ _ _ _ _ Hok) as HK.
  pose proof (cs_len _ _ _ _ _ _ _ Hok) as Hlen.
  destruct (pieces_of_bound stop) as [Hp1 Hp2].
  assert (0 <= length es <= 65536 /\ pieces_of stop <= 65536) as [Hk1 Hk2].
  { unfold new_pieces, MAX_POLY_INDEX_NODE_NR in *. lia. }
  assert (length es * NODE <= 2 ^ 37 /\ stop <= 2 ^ 37) as [Hb1 Hb2]
    by (rewrite node_size_val in *; lia).
  destruct (write_loops_ok fo so _ _ FAST_DIR st es data buf n start offset Hok)
    as (mid & copied & st1 & st2 & es2 & E1 & E2 & Hok2 & Hpr);
    [lia|lia|done|done|done|by rewrite HK|..|done|].
  { fold stop. rewrite <-new_pieces_div, HK by lia.
    unfold new_pieces, MAX_POLY_INDEX_NODE_NR in *. lia. }
  fold stop in E1, E2.
  unfold polystore_write_iter_polycache, polystore_io_set_range.
  rewrite (proj2 (Z.eqb_neq n 0)) by lia. fold (io_start (cs_io st) offset). fold start.
  fold stop. rewrite s64_id by lia. rewrite E1. cbn [mbind option_bind].
  rewrite E2. cbn [mbind option_bind]. exists st2, es2.
  pose proof (cs_pieces _ _ _ _ _ _ _ Hok2) as HK2.
  assert (zlength (overwrite start (ztake n buf) data) = Z.max (zlength data) stop) as Hl2
    by (rewrite zlength_overwrite, zlength_ztake by lia; lia).
  rewrite Hl2, pieces_of_max in HK2. pose proof (cp_slots _ _ _ _ _ _ Hpr).
  split_and!; try done; lia.
Qed.

Lemma write_iter_polycache_refines st data buf n offset :
  cached_file st data -> placed (io_task (cs_io st)) ->
  0 < n <= zlength buf -> zlength buf < 2 ^ 61 ->
  let start := io_start (cs_io st) offset in
  let stop := start + n in
  0 <= start <= zlength data ->
  stop <= pieces_of (zlength data) * NODE \/ stop mod NODE <> 1 ->
  i_next_avail_it_node_no (cs_inode st) + new_pieces (zlength data) stop <=
    i_index_slots (cs_inode st) ->
  mm_room (ch_alloc (cs_cache st)) (range_nodes start n) ->
  exists st', polystore_write_iter_polycache FAST_DIR st buf n offset = Some (n, st') /\
    cached_file st' (overwrite start (ztake n buf) data) /\
    write_accounted offset n (cs_io st) (cs_io st') /\
    io_fs (cs_io st') = io_fs (cs_io st) /\ others_buffers_kept st st'.
Proof.
  intros (fo & so & es & Hd & Hok & Hbk & Hsz & Hk & Hmax) Hpl Hn Hbl start stop Hs Htail
    Hroom Hmm.
  destruct (write_iter_pieces fo so st es data buf n offset Hok)
    as (st2 & es2 & E & Hok2 & Hpr & Hst & Hk2 & Hm2); [done..|].
  fold start in E, Hok2, Hst. fold stop in E, Hst.
  exists (write_done n stop st2).
  split_and!; [done| | |apply (cp_fs _ _ _ _ _ _ Hpr)|].
  - eapply (write_done_cached fo so st es data); try done.
    rewrite zlength_overwrite, zlength_ztake by lia. lia.
  - by eapply write_done_accounted.
  - by eapply (kept_of_progress offset n st es st2 es2).
Qed.

Definition read_done (n : Z) st : cstate Fs A :=
  let task := io_task (cs_io st) in
  let ch := cs_cache st in
  CState
    (cs_io st <| io_task := task
       <| t_throughput := u64 (t_throughput task + n) |>
       <| t_throughput_read := u64 (t_throughput_read task + n) |> |>)
    (ch <| ch_access_cnt := u64 (ch_access_cnt ch + 1) |>).

(** A read, in terms of the pieces of the file. *)
Lemma read_iter_pieces fo so st es data buf n offset :
  cs_ok fo so (fastfd_of (cs_io st)) (slowfd_of (cs_io st)) st es data ->
  length es <= MAX_POLY_INDEX_NODE_NR + 1 ->
  let start := io_start (cs_io st) offset in
  0 <= start -> 0 < n -> start + n < 2 ^ 62 ->
  cut_ok (piece_len data (Z.to_nat (start / NODE))) (start mod NODE) n ->
  mm_room (ch_alloc (cs_cache st)) (range_nodes start n) ->
  let d := slice start n data in
  exists st1,
    polystore_read_iter_polycache FAST_DIR st buf n offset =
      Some (zlength d, overwrite 0 d buf, read_done (zlength d) st1) /\
    cs_ok fo so (fastfd_of (cs_io st)) (slowfd_of (cs_io st)) st1 es data /\
    cprogress offset (zlength d) st es st1 es.
Proof.
  intros Hok Hmax start Hs Hn Hsn Hcut Hmm d.
  assert (length es * NODE < 2 ^ 61) as Hes.
  { rewrite node_size_val. unfold MAX_POLY_INDEX_NODE_NR in Hmax. lia. }
  destruct (read_loop_ok fo so _ _ FAST_DIR st es data buf n start offset Hok)
    as (st1 & E & Hok1 & Hpr); [done..|].
  unfold polystore_read_iter_polycache, polystore_io_set_range.
  rewrite (proj2 (Z.eqb_neq n 0)) by lia. fold (io_start (cs_io st) offset). fold start.
  rewrite s64_id by lia. rewrite E. cbn [mbind option_bind]. by exists st1.
Qed.

Lemma read_iter_polycache_refines st data buf n offset :
  cached_file st data ->
  let start := io_start (cs_io st) offset in
  0 <= start -> 0 < n -> start + n < 2 ^ 62 ->
  cut_ok (piece_len data (Z.to_nat (start / NODE))) (start mod NODE) n ->
  mm_room (ch_alloc (cs_cache st)) (range_nodes start n) ->
  let d := slice start n data in
  exists st',
    polystore_read_iter_polycache FAST_DIR st buf n offset =
      Some (zlength d, overwrite 0 d buf, st') /\
    cached_file st' data /\
    io_fs (cs_io st') = io_fs (cs_io st) /\
    io_file (cs_io st') = io_file (advance_off offset (zlength d) (cs_io st)) /\
    t_throughput_read (io_task (cs_io st')) =
      u64 (t_throughput_read (io_task (cs_io st)) + zlength d) /\
    others_buffers_kept st st'.
Proof.
  intros (fo & so & es & Hd & Hok & Hbk & Hsz & Hk & Hmax) start Hs Hn Hsn Hcut Hmm d.
  destruct (read_iter_pieces fo so st es data buf n offset Hok)
    as (st1 & E & (C1 & Ho1 & Hf1 & Hs1) & Hpr); [done..|].
  fold start in E, Hpr. fold d in E, Hpr.
  destruct (fixed_fields _ _ (cp_fixed _ _ _ _ _ _ Hpr)) as (Hmeta & _).
  exists (read_done (zlength d) st1).
  split_and!; [exact E| |apply Hpr|apply Hpr| |].
  - exists fo, so, es. unfold fastfd_of, slowfd_of.
    change (io_file (cs_io (read_done _ st1))) with (io_file (cs_io st1)).
    change (cs_inode (read_done _ st1)) with (cs_inode st1).
    rewrite Hf1, Hs1. pose proof (cp_slots _ _ _ _ _ _ Hpr).
    split_and!; [done|done|by apply (cp_backed _ _ _ _ _ _ Hpr)| |lia|done].
    unfold inode_meta in Hmeta. injection Hmeta. congruence.
  - cbn. by rewrite (cp_task _ _ _ _ _ _ Hpr).
  - eapply (kept_of_progress offset (zlength d) st es st1 es), Hpr.
Qed.

(** The loop in a file of one piece that is shorter than a node: a range that
    reaches behind the end but is shorter than the file is not cut. *)
Lemma read_uncut fo so ffd sfd st data p buf n start offset :
  cs_ok fo so ffd sfd st [p] data -> zlength data < NODE ->
  0 <= start < zlength data -> zlength data - start < n < zlength data ->
  start + n <= NODE -> mm_room (ch_alloc (cs_cache st)) 1 ->
  exists d st',
    read_nodes_polycache FAST_DIR 1 st buf (Some (pc_slot p)) start (start + n - 1) 0
      offset = Some (n, overwrite 0 d buf, st') /\
    zlength d = n /\ ztake (zlength data - start) d = slice start n data.
Proof.
  intros Hok Hsm Hs Hn Hend Hroom. pose proof node_pos as HN.
  destruct (cs_entry _ _ _ _ st [p] data 0 p Hok eq_refl) as (E1 & E2 & E3 & E4).
  { cbn. rewrite node_size_val. lia. }
  assert (piece_len data 0 = zlength data) as Epl by (unfold piece_len; lia).
  assert (start < 2 ^ 21 /\ n < 2 ^ 21) as [? ?] by (rewrite node_size_val in *; lia).
  cbn [read_nodes_polycache].
  rewrite E1, E2, E3, Epl, Z.mul_0_l, Z.sub_0_r, Z.add_0_l.
  rewrite (u64_id start), (proj2 (Z.leb_gt _ _)) by lia.
  assert (read_count (entry_at (cs_inode st) (pc_slot p)) (NODE - 1) start
    (start + n - 1) start = n) as ->.
  { unfold read_count. rewrite E3, Epl. rewrite (proj2 (Z.ltb_lt _ _)) by lia.
    rewrite u64_id by lia. zif; lia. }
  destruct (access_ok fo so ffd sfd FAST_DIR st [p] data 0 p READ_IO start n 0 Hok eq_refl
    Hroom) as (e1 & e' & ch' & E & Hr & C1 & K1 & Hpr & Hsz1 & F & G & _).
  rewrite E. cbn [mbind option_bind cs_cache].
  destruct (cached_same_entry _ _ _ _ _ _ _ _ 0%nat p e' C1 eq_refl) as [C2 _].
  { rewrite entry_at_set_eq. injection F. injection G. intros. cbn in *. congruence. }
  rewrite set_entry_twice in C2.
  set (st1 := CState _ ch').
  assert (node_next (NODE - 1) (start + n - 1) = start + n) as ->.
  { unfold node_next. zif; lia. }
  rewrite (lookup_next_done (cs_inode st1) [p] 0 p) by (apply C2 || done || words; lia).
  eexists _, _. split; [reflexivity|]. unfold mem_read.
  rewrite zlength_tabulate by lia. split; [done|].
  pose proof (buffer_read fo so _ _ _ _ _ _ 0%nat p start (zlength data - start) C1 eq_refl)
    as Hbr. rewrite entry_at_set_eq, Z.mul_0_l, Z.sub_0_r in Hbr.
  rewrite <-slice_0_ztake, slice_tabulate by lia.
  transitivity (slice start (zlength data - start) data); [|unfold slice, ztake, zdrop].
  - rewrite <-Hbr by lia. unfold mem_read, tabulate. by setoid_rewrite Z.add_0_l.
  - rewrite !take_ge; [done|rewrite length_drop; lia..].
Qed.

Lemma read_past_end st data buf n offset :
  cached_file st data -> zlength data < NODE ->
  let start := io_start (cs_io st) offset in
  0 <= start < zlength data -> zlength data - start < n < zlength data ->
  start + n <= NODE -> mm_room (ch_alloc (cs_cache st)) 1 ->
  exists d st',
    polystore_read_iter_polycache FAST_DIR st buf n offset =
      Some (n, overwrite 0 d buf, st') /\
    zlength d = n /\ ztake (zlength data - start) d = slice start n data.
Proof.
  intros (fo & so & es & Hd & Hok & Hbk & Hsz & Hk & Hmax) Hsm start Hs Hn Hend Hroom.
  pose proof node_pos as HN. pose proof (cs_len _ _ _ _ _ _ _ Hok) as Hlen.
  assert (length es = 1%nat) as Hes by nia. destruct es as [|p [|]]; try done.
  pose proof (cs_index _ _ _ _ _ _ _ Hok) as Hidx.
  assert (start < 2 ^ 21 /\ n < 2 ^ 21) as [? ?] by (rewrite node_size_val in *; lia).
  destruct (read_uncut _ _ _ _ st data p buf n start offset Hok)
    as (d & st' & E & Hz & Ht); [done..|].
  unfold polystore_read_iter_polycache, polystore_io_set_range.
  rewrite (proj2 (Z.eqb_neq n 0)) by lia. fold (io_start (cs_io st) offset). fold start.
  rewrite s64_id, !u64_id by lia. rewrite (node_fuel_length _ [p] Hidx).
  rewrite (lookup_pieces _ [p]) by (done || lia). rewrite Z.div_small by lia.
  change (pc_slot <$> [p] !! Z.to_nat 0) with (Some (pc_slot p)).
  change (length [p]) with 1%nat. rewrite E. cbn [mbind option_bind].
  exists d. eexists. split; [reflexivity|done].
Qed.

(** A new file has no pieces. *)
Lemma cached_file_fresh st fast_obj slow_obj :
  fast_obj <> slow_obj ->
  opened fast_obj slow_obj (io_fs (cs_io st)) (fastfd_of (cs_io st))
    (slowfd_of (cs_io st)) ->
  mm_wf (ch_alloc (cs_cache st)) ->
  i_it_tree (cs_inode st) = Leaf -> i_size (cs_inode st) = 0 ->
  0 <= i_next_avail_it_node_no (cs_inode st) -> i_index (cs_inode st) <> 0 ->
  i_index_slots (cs_inode st) <= MAX_POLY_INDEX_NODE_NR ->
  0 <= i_cache_fast_offset (cs_inode st) -> 0 <= i_cache_slow_offset (cs_inode st) ->
  i_cache_policy (cs_inode st) <> CACHE_POLICY_FAST_READ_NOT_ADMIT ->
  cached_file st [].
Proof.
  intros Hd Hopen Hwf Ht Hsz Hn Hi Hreg Hfo Hso Hp. pose proof node_pos.
  assert (forall p : piece, p ∈ [] -> False) as Hnil by (intros p Hin; by apply elem_of_nil in Hin).
  exists fast_obj, slow_obj, []. split_and!; [done| |intros p []%Hnil|done|done|by cbn].
  split; [|done]. split; try done; cbn; [|intros p []%Hnil|].
  - split; rewrite ?Ht; try done; [apply wf_tree_empty|constructor|intros p []%Hnil..].
  - intros pl. unfold next_off. by destruct (pl =? _).
Qed.

Lemma fsync_writes_back st data :
  cached_file st data ->
  let fs := io_fs (cs_io st) in
  let ffd := fastfd_of (cs_io st) in
  let sfd := slowfd_of (cs_io st) in
  exists ret fs' inode' fast_obj slow_obj,
    poly_cache_fsync ffd sfd (fs, cs_inode st, cs_cache st) =
      Some (ret, (fs', inode', cs_cache st)) /\
    fs_object fs ffd = Some fast_obj /\ fs_object fs sfd = Some slow_obj /\
    on_disk fast_obj slow_obj fs' inode' data /\
    others_kept fast_obj slow_obj fs fs' /\
    cached_file (CState (cs_io st <| io_fs := fs' |> <| io_inode := inode' |>)
                   (cs_cache st)) data.
Proof.
  intros (fo & so & es & Hd & (C & Ho & Hf & Hs) & Hbk & Hsz & Hk & Hmax) fs ffd sfd.
  destruct (ca_len C) as [_ Hlen].
  assert (zlength data < 2 ^ 64) as Hb.
  { rewrite node_size_val in Hlen. unfold MAX_POLY_INDEX_NODE_NR in Hmax. lia. }
  destruct (fsync_all fo so ffd sfd Hd fs (cs_inode st) (cs_cache st) es data C Ho Hsz Hb)
    as (ret & fs' & inode' & E & [C' Hclean] & Hfds & (Hmeta & Hnext & Hino) & Hoth).
  exists ret, fs', inode', fo, so. split_and!; [exact E|apply Ho|apply Ho| |exact Hoth|].
  - apply (clean_on_disk _ _ _ _ _ _ _ _ C'). intros p (j & Hp)%list_elem_of_lookup.
    apply (Hclean j); [|done]. by eapply lookup_lt_Some.
  - unfold inode_meta in Hmeta. injection Hmeta as M1 M2 M3 M4 M5 M6 M7 M8 M9.
    exists fo, so, es. unfold fastfd_of, slowfd_of, cs_inode. cbn.
    split_and!; [done| | |by rewrite M5| |done].
    + split; [exact C'|]. split; [|done]. split; rewrite Hfds; apply Ho.
    + intros p Hp. rewrite Hino, M2. by apply Hbk.
    + by rewrite Hnext.
Qed.

End interface.

(** ** Properties *)

(** C8: a buffered write that starts inside or at the end of the file, does not
    end one byte into a fresh piece and finds index slots and cache memory writes
    everything: the bytes of the file become the old ones with the buffer written
    over them, whether its pieces were cached or not, no byte reaches the physical
    files, and offset, size and statistics are updated. Buffers of other files
    keep their owner and contents. *)
Theorem polycache_write_correct `{!PosixFS Fs, !PosixFSLaws Fs, !ReliableFS Fs,
    !PosixNS Fs, !CacheAlloc A, !CacheAllocLaws A, !CacheMmap Fs A} (FAST_DIR : string)
    (st : cstate Fs A) (data buf : list byte) (n offset : Z) :
  cached_file st data -> placed (io_task (cs_io st)) ->
  0 < n <= zlength buf -> zlength buf < 2 ^ 61 ->
  let start := io_start (cs_io st) offset in
  let stop := start + n in
  0 <= start <= zlength data ->
  stop <= pieces_of (zlength data) * NODE \/ stop mod NODE <> 1 ->
  i_next_avail_it_node_no (cs_inode st) + new_pieces (zlength data) stop <=
    i_index_slots (cs_inode st) ->
  mm_room (ch_alloc (cs_cache st)) (range_nodes start n) ->
  exists st', polystore_write_iter_polycache FAST_DIR st buf n offset = Some (n, st') /\
    cached_file st' (overwrite start (ztake n buf) data) /\
    write_accounted offset n (cs_io st) (cs_io st') /\
    io_fs (cs_io st') = io_fs (cs_io st) /\ others_buffers_kept st st'.
Proof. apply write_iter_polycache_refines. Qed.

(** C9: a buffered read returns exactly the bytes of the file from the start
    position on, cut at the end of the file, whether they are in the cache or only
    in the physical files; the exception are reads that reach behind the end of a
    last piece longer than the read ([cut_ok]). Bytes, physical files and the
    buffers of other files are unchanged. *)
Theorem polycache_read_correct `{!PosixFS Fs, !PosixFSLaws Fs, !ReliableFS Fs,
    !PosixNS Fs, !CacheAlloc A, !CacheAllocLaws A, !CacheMmap Fs A} (FAST_DIR : string)
    (st : cstate Fs A) (data buf : list byte) (n offset : Z) :
  cached_file st data ->
  let start := io_start (cs_io st) offset in
  0 <= start -> 0 < n -> start + n < 2 ^ 62 ->
  cut_ok (piece_len data (Z.to_nat (start / NODE))) (start mod NODE) n ->
  mm_room (ch_alloc (cs_cache st)) (range_nodes start n) ->
  let d := slice start n data in
  exists st',
    polystore_read_iter_polycache FAST_DIR st buf n offset =
      Some (zlength d, overwrite 0 d buf, st') /\
    cached_file st' data /\
    io_fs (cs_io st') = io_fs (cs_io st) /\
    io_file (cs_io st') = io_file (advance_off offset (zlength d) (cs_io st)) /\
    t_throughput_read (io_task (cs_io st')) =
      u64 (t_throughput_read (io_task (cs_io st)) + zlength d) /\
    others_buffers_kept st st'.
Proof. apply read_iter_polycache_refines. Qed.

(** C36: after [poly_cache_fsync] every byte of the file is in the physical files
    at the place the index records, whichever pieces were dirty; no other physical
    file changes and the file stays cached. *)
Theorem polycache_fsync_writes_back `{!PosixFS Fs, !PosixFSLaws Fs, !ReliableFS Fs,
    !CacheAlloc A, !CacheAllocLaws A} (st : cstate Fs A) (data : list byte) :
  cached_file st data ->
  let fs := io_fs (cs_io st) in
  let ffd := fastfd_of (cs_io st) in
  let sfd := slowfd_of (cs_io st) in
  exists ret fs' inode' fast_obj slow_obj,
    poly_cache_fsync ffd sfd (fs, cs_inode st, cs_cache st) =
      Some (ret, (fs', inode', cs_cache st)) /\
    fs_object fs ffd = Some fast_obj /\ fs_object fs sfd = Some slow_obj /\
    on_disk fast_obj slow_obj fs' inode' data /\
    others_kept fast_obj slow_obj fs fs' /\
    cached_file (CState (cs_io st <| io_fs := fs' |> <| io_inode := inode' |>)
                   (cs_cache st)) data.
Proof. apply fsync_writes_back. Qed.

(** Not cut: a buffered read that reaches behind the end of a file of less than a node
    is not cut when it asks for less than the file's size: it reports [n] bytes
    although fewer remain, the excess coming from the rest of the buffer. *)
Theorem polycache_read_past_end `{!PosixFS Fs, !PosixFSLaws Fs, !ReliableFS Fs,
    !PosixNS Fs, !CacheAlloc A, !CacheAllocLaws A, !CacheMmap Fs A} (FAST_DIR : string)
    (st : cstate Fs A) (data buf : list byte) (n offset : Z) :
  cached_file st data -> zlength data < NODE ->
  let start := io_start (cs_io st) offset in
  0 <= start < zlength data -> zlength data - start < n < zlength data ->
  start + n <= NODE -> mm_room (ch_alloc (cs_cache st)) 1 ->
  exists d st',
    polystore_read_iter_polycache FAST_DIR st buf n offset =
      Some (n, overwrite 0 d buf, st') /\
    zlength d = n /\ ztake (zlength data - start) d = slice start n data.
Proof. apply read_past_end. Qed.

(** ** Witnesses *)

(** A device whose files cannot be mapped. *)
#[export] Instance no_mmap : CacheMmap MemFS.memfs Shm.shm := {|
  mm_mmap _ a m _ _ _ := (MAP_FAILED, a, m);
  mm_munmap a m _ _ := (a, m)
|}.

(** A new, empty file behind the descriptors 5 and 6 with its names, and an empty
    cache on CPU 3 that is flushed down to 0 bytes. *)
Definition example_cs : cstate MemFS.memfs Shm.shm :=
  CState
    (IOState
       (MemFS.Mem (<[5 := 0]> {[6 := 1]}) ∅ ∅
          (<["/fast/a" := 0]> {["/slow/a" := 1]}) ∅)
       (File (POLYSTORE_GEN_FD 5 6) 0 0 (Some 0))
       (init_poly_inode 7 0 0 <| i_index := GET_POLY_INDEX_VADDR false 0 |>
          <| i_index_slots := index_slots false |>
          <| i_cache_rwfd_fast := -1 |> <| i_cache_rwfd_slow := -1 |>
          <| i_cache_mmapfd := -1 |> <| i_pathname := "/mnt/polystore/a" |>)
       (Task 1 0 0 0 0 0 0 BLK_PLACEMENT_SLOW))
    (PolyCache (fun _ => x00) (Shm.poly_cache_mm_init 3) [] [[]; []] 0 0 0).

Lemma example_cached : cached_file example_cs [].
Proof.
  apply cached_file_fresh with 0 1; try done. apply Shm.init_wf. unfold Shm.CPU_MAX. lia.
Qed.

(** Three bytes written to it. *)
Local Abbreviation example_write :=
  (polystore_write_iter_polycache "/fast" example_cs [x41; x42; x43] 3 0).

Definition example_room (st : cstate MemFS.memfs Shm.shm) : bool :=
  let s := ch_alloc (cs_cache st) in
  Nat.leb 1 (length (Shm.free_ids (default [] (Shm.shm_free_list s !! Z.to_nat
    (Shm.shm_cpu s))))).

Lemma example_room_ok st : example_room st = true -> mm_room (ch_alloc (cs_cache st)) 1.
Proof. intros H. by apply Nat.leb_le in H. Qed.

Lemma example_written :
  exists st, example_write = Some (3, st) /\ cached_file st [x41; x42; x43] /\
    mm_room (ch_alloc (cs_cache st)) 1 /\
    io_fs (cs_io st) = io_fs (cs_io example_cs) /\
    io_file (cs_io st) = io_file (cs_io example_cs).
Proof.
  destruct (write_iter_polycache_refines "/fast" example_cs [] [x41; x42; x43] 3 0)
    as (st & E & C & (Hfile & _) & Hfs & _).
  - apply example_cached.
  - by right.
  - cbn. lia.
  - cbn. lia.
  - cbn. lia.
  - right. by vm_compute.
  - by vm_compute.
  - apply example_room_ok. by vm_compute.
  - exists st. split_and!; [exact E|exact C| |exact Hfs|exact Hfile].
    apply example_room_ok.
    assert ((example_room ∘ snd) <$> example_write = Some true) as H by (by vm_compute).
    rewrite E in H.
    change (Some (example_room st) = Some true) in H. congruence.
Qed.

Lemma polycache_write_correct_witness :
  exists st', example_write = Some (3, st') /\ cached_file st' [x41; x42; x43].
Proof.
  destruct (polycache_write_correct "/fast" example_cs [] [x41; x42; x43] 3 0)
    as (st & E & C & _).
  - apply example_cached.
  - by right.
  - cbn. lia.
  - cbn. lia.
  - cbn. lia.
  - right. by vm_compute.
  - by vm_compute.
  - apply example_room_ok. by vm_compute.
  - exists st. split; [exact E|exact C].
Defined.

Lemma polycache_read_correct_witness :
  exists st st', cached_file st [x41; x42; x43] /\
    polystore_read_iter_polycache "/fast" st [x00; x00; x00; x00] 4 1 =
      Some (2, [x42; x43; x00; x00], st').
Proof.
  destruct example_written as (st & _ & C & Hr & _).
  destruct (polycache_read_correct "/fast" st [x41; x42; x43] [x00; x00; x00; x00] 4 1 C)
    as (st' & E & _).
  - cbn. lia.
  - lia.
  - cbn. lia.
  - right. right. by vm_compute.
  - exact Hr.
  - exists st, st'. split; [exact C|exact E].
Defined.

Lemma polycache_fsync_writes_back_witness :
  exists st ret fs' inode', example_write = Some (3, st) /\
    poly_cache_fsync 5 6 (io_fs (cs_io st), cs_inode st, cs_cache st) =
      Some (ret, (fs', inode', cs_cache st)) /\
    on_disk 0 1 fs' inode' [x41; x42; x43].
Proof.
  destruct example_written as (st & E & C & _ & Efs & Efile).
  destruct (polycache_fsync_writes_back st [x41; x42; x43] C)
    as (ret & fs' & inode' & fo & so & Hf & Ho1 & Ho2 & Hd & _).
  unfold fastfd_of, slowfd_of in Hf, Ho1, Ho2. rewrite Efs, Efile in Ho1, Ho2.
  rewrite Efile in Hf. vm_compute in Ho1, Ho2. injection Ho1 as <-. injection Ho2 as <-.
  exists st, ret, fs', inode'. split; [exact E|]. split; [exact Hf|exact Hd].
Defined.

Lemma polycache_read_past_end_witness :
  exists st d st', cached_file st [x41; x42; x43] /\
    polystore_read_iter_polycache "/fast" st [x00; x00] 2 2 =
      Some (2, overwrite 0 d [x00; x00], st') /\ ztake 1 d = [x43].
Proof.
  destruct example_written as (st & _ & C & Hr & _).
  destruct (polycache_read_past_end "/fast" st [x41; x42; x43] [x00; x00] 2 2 C)
    as (d & st' & E & _ & Hd).
  - by vm_compute.
  - cbn. lia.
  - cbn. lia.
  - by vm_compute.
  - exact Hr.
  - exists st, d, st'. split; [exact C|]. split; [exact E|exact Hd].
Defined.

End IoBufferedRefine.
