(* ===== verification/CacheFlush.v ===== *)
(** * Background flushing keeps every file

    The flushing workers take the buffers of cold pieces away from all open
    files.  [files_ok]: every file of the process is [cached], no two share a
    physical file or a buffer.  Flushing any queue of victims preserves it, with
    the same contents for every file. *)

From S2P Require Import Prelude Defs Util Posix IntervalTree Indexing IoDirect.
From S2P Require Import IoDirectSpec CacheMm Cache CacheSpec IoBuffered IoBufferedSpec.
From S2P Require Import IoBufferedRefine.
Import IoDirect IoDirectSpec Cache CacheSpec IoBuffered IoBufferedSpec IoBufferedRefine.

#[local] Open Scope Z_scope.

Module CacheFlush.

(** A file: its two physical files, its pieces and its bytes. *)
Record finfo := FInfo {
  fi_fast : Z;
  fi_slow : Z;
  fi_es : list piece;
  fi_data : list byte
}.

Section flush.
Context {Fs : Type} `{!PosixFS Fs, !PosixFSLaws Fs, !ReliableFS Fs}.
Context `{!PosixNS Fs, !ReliableNS Fs}.
Context {A : Type} `{!CacheAlloc A, !CacheAllocLaws A}.
Variables FAST_DIR SLOW_DIR : string.
Implicit Types (fs : Fs) (a : A) (m : mem) (s : flush_state Fs A).

Definition fcached fs inode m a (f : finfo) : Prop :=
  cached (fi_fast f) (fi_slow f) fs inode m a
    (fi_es f) (fi_data f).

Record file_ok fs (inode : poly_inode) m a (ino : Z) (f : finfo) : Prop := {
  fo_distinct : fi_fast f <> fi_slow f;
  fo_cached : fcached fs inode m a f;
  fo_writable : forall pl, placed_at pl ->
    writable (fi_fast f) (fi_slow f) FAST_DIR SLOW_DIR fs inode pl;
  fo_back : forall p, p ∈ fi_es f -> e_inode (entry_at inode (pc_slot p)) = ino;
  fo_size : i_size inode = zlength (fi_data f);
  fo_small : zlength (fi_data f) < 2 ^ 62;
  fo_mmapfd : i_cache_mmapfd inode = -1
}.

Definition buf_of (inode : poly_inode) (p : piece) : Z :=
  e_buf_addr (entry_at inode (pc_slot p)).

Record files_ok (files : gmap Z finfo) s : Prop := {
  fs_each : forall ino f, files !! ino = Some f -> exists inode,
    fl_inodes s !! ino = Some inode /\
    file_ok (fl_fs s) inode (ch_mem (fl_cache s)) (ch_alloc (fl_cache s)) ino f;
  fs_objs : forall ino1 ino2 f1 f2 o,
    files !! ino1 = Some f1 -> files !! ino2 = Some f2 -> ino1 <> ino2 ->
    o = fi_fast f1 \/ o = fi_slow f1 -> o <> fi_fast f2 /\ o <> fi_slow f2;
  fs_bufs : forall ino1 ino2 f1 f2 inode1 inode2 p q,
    files !! ino1 = Some f1 -> files !! ino2 = Some f2 -> ino1 <> ino2 ->
    fl_inodes s !! ino1 = Some inode1 -> fl_inodes s !! ino2 = Some inode2 ->
    p ∈ fi_es f1 -> q ∈ fi_es f2 -> buf_of inode1 p <> 0 ->
    buf_of inode1 p <> buf_of inode2 q;
  fs_rwfds : forall ino1 ino2 f1 f2 inode1 inode2 pl1 pl2,
    files !! ino1 = Some f1 -> files !! ino2 = Some f2 -> ino1 <> ino2 ->
    fl_inodes s !! ino1 = Some inode1 -> fl_inodes s !! ino2 = Some inode2 ->
    placed_at pl1 -> placed_at pl2 ->
    cache_rwfd inode1 pl1 = -1 \/ cache_rwfd inode1 pl1 <> cache_rwfd inode2 pl2
}.

(** Flushing takes buffers away and hands none out. *)
Definition bufs_shrink (inode inode' : poly_inode) (es : list piece) : Prop :=
  forall p, p ∈ es -> buf_of inode' p = buf_of inode p \/ buf_of inode' p = 0.

(** A file is unaffected by what happens to other files and buffers. *)
Lemma fcached_other fs fs' inode m m' a a' f :
  fcached fs inode m a f ->
  (forall o, o = fi_fast f \/ o = fi_slow f -> fs_size fs' o = fs_size fs o /\
     forall k, fs_content fs' o k = fs_content fs o k) ->
  mm_wf a' ->
  (forall p, p ∈ fi_es f -> buf_of inode p <> 0 ->
     mm_live a' (buf_of inode p) /\ same_buffer (buf_of inode p) m m') ->
  fcached fs' inode m' a' f.
Proof.
  intros C Hfs Hwf Hb. split; try apply C; [done|].
  intros i p Hp. pose proof (list_elem_of_lookup_2 _ _ _ Hp) as Hin.
  eapply piece_ok_same with m a; [|intros Hn _; by apply Hb].
  destruct (ca_piece C i p Hp) as [? ? ? ? H5].
  split; try done. destruct H5 as [|[Hd [Hsz Hst]]]; [by left|right].
  destruct (Hfs (IoDirectSpec.dev (fi_fast f) (fi_slow f) (pc_place p))) as [Esz Ec].
  { unfold IoDirectSpec.dev. case_match; auto. }
  split; [done|]. split; [by rewrite Esz|]. intros k Hk. rewrite Ec. by apply Hst.
Qed.

(** What an operation on the file [f], which then has the pieces [es'], leaves to
    the other files: descriptors that the cache does not use for [f], names,
    contents and buffers. *)
Record framed fs (inode : poly_inode) m a (f : finfo) fs' inode' m' a' es' : Prop := {
  fr_fds : forall fd o, fs_object fs fd = Some o ->
    (forall pl, placed_at pl -> cache_rwfd inode pl <> fd) -> fs_object fs' fd = Some o;
  fr_names : forall path, ns_resolve fs' path = ns_resolve fs path;
  fr_others : others_kept (fi_fast f) (fi_slow f) fs fs';
  fr_wf : mm_wf a';
  fr_bufs : keeps_foreign inode m a (fi_es f) inode' m' a' es'
}.

Lemma env_framed fs inode m a f fs' inode' m' a' es' :
  env_kept fs fs' -> others_kept (fi_fast f) (fi_slow f) fs fs' -> mm_wf a' ->
  keeps_foreign inode m a (fi_es f) inode' m' a' es' ->
  framed fs inode m a f fs' inode' m' a' es'.
Proof. intros [H1 H2] H3 H4 H5. split; auto. Qed.

Lemma other_file_ok files s ino f inode fs' inode' m' a' es' ino2 f2 :
  files_ok files s -> files !! ino = Some f -> fl_inodes s !! ino = Some inode ->
  framed (fl_fs s) inode (ch_mem (fl_cache s)) (ch_alloc (fl_cache s)) f
    fs' inode' m' a' es' ->
  files !! ino2 = Some f2 -> ino2 <> ino ->
  exists inode2, fl_inodes s !! ino2 = Some inode2 /\ file_ok fs' inode2 m' a' ino2 f2.
Proof.
  intros [Heach Hobjs Hbufs Hrw] Hf Hi F Hf2 Hne.
  destruct (Heach ino2 f2 Hf2) as (inode2 & Hi2 & [D2 C2 W2 B2 S2 L2 M2]).
  exists inode2. split; [done|]. split; try done.
  - eapply fcached_other; [done| |apply F|].
    + intros o Ho. destruct (Hobjs ino2 ino f2 f o) as [H1 H2]; [done..|].
      by apply (fr_others _ _ _ _ _ _ _ _ _ _ F).
    + intros q Hq Hn. destruct (fr_bufs _ _ _ _ _ _ _ _ _ _ F (buf_of inode2 q))
        as [[Hl _] Hm]; [|done]. split.
      * apply list_elem_of_lookup in Hq as (j & Hq).
        by apply (po_live (ca_piece C2 j q Hq)).
      * intros r Hr Er. eapply (Hbufs ino2 ino f2 f inode2 inode q r); try done.
  - intros pl Hpl. specialize (W2 pl Hpl). unfold writable in *.
    destruct (cache_rwfd inode2 pl =? -1) eqn:E; zbool.
    + destruct W2 as (path & Ep & Hp). exists path.
      by rewrite (fr_names _ _ _ _ _ _ _ _ _ _ F).
    + apply (fr_fds _ _ _ _ _ _ _ _ _ _ F); [done|]. intros pl' Hpl' Heq.
      destruct (Hrw ino2 ino f2 f inode2 inode pl pl'); done.
Qed.

(** The cache after the buffer of a clean piece is given up. *)
Lemma release_ok fo so fs inode ch es data (i : nat) p e' :
  let e := entry_at inode (pc_slot p) in
  cached fo so fs inode (ch_mem ch) (ch_alloc ch) es data ->
  es !! i = Some p -> e_dirty e = 0 ->
  (e_it e', e_placement e', e_offset e', e_size e', e_removed e', e_buf_addr e',
   e_present e', e_dirty e') =
  (e_it e, e_placement e, e_offset e, e_size e, e_removed e, 0, 0, 0) ->
  let ch' := release (e_buf_addr e) ch in
  let inode' := set_entry inode (pc_slot p) e' in
  cached fo so fs inode' (ch_mem ch') (ch_alloc ch') es data /\
  keeps_foreign inode (ch_mem ch) (ch_alloc ch) es inode' (ch_mem ch') (ch_alloc ch') es.
Proof.
  intros e C Hp Hd F ch' inode'. unfold ch', release.
  destruct (Z.eqb_spec (e_buf_addr e) 0) as [Hb|Hb].
  - eapply cached_same_entry; [done..|]. fold e. rewrite F.
    destruct (ca_piece C i p Hp) as [_ _ _ P4 _]. fold e in P4.
    destruct P4 as [P4|(_ & ? & _)]; [|done]. by rewrite P4, Hb, Hd.
  - destruct (mm_free (ch_alloc ch) (ch_mem ch) (e_buf_addr e)) as [a' m'] eqn:E.
    cbn. by eapply cached_release.
Qed.

(** The fields of the entry of a piece whose buffer was given up. *)
Definition given_up (e e' : it_node_entry) : Prop :=
  (e_it e', e_placement e', e_offset e', e_size e', e_removed e', e_buf_addr e',
   e_present e', e_dirty e', e_inode e') =
  (e_it e, e_placement e, e_offset e, e_size e, e_removed e, 0, 0, 0, e_inode e).

(** Evicting a piece and giving up its buffer. *)
Lemma evict_release_ok fs inode ch ino f (i : nat) p e' :
  let e := entry_at inode (pc_slot p) in
  let m := ch_mem ch in
  let a := ch_alloc ch in
  file_ok fs inode m a ino f -> fi_es f !! i = Some p -> given_up e e' ->
  exists fs' inode1,
    poly_cache_evict FAST_DIR SLOW_DIR fs inode m e 0 (s64 (e_size e - 1)) =
      Some (0, fs', inode1) /\
    let inode' := set_entry inode1 (pc_slot p) e' in
    let ch' := release (e_buf_addr e) ch in
    file_ok fs' inode' (ch_mem ch') (ch_alloc ch') ino f /\
    env_kept fs fs' /\ others_kept (fi_fast f) (fi_slow f) fs fs' /\
    keeps_foreign inode m a (fi_es f) inode' (ch_mem ch') (ch_alloc ch') (fi_es f) /\
    rwfds_from fs inode inode' /\ inode_meta inode1 = inode_meta inode /\
    i_cache_policy inode1 = i_cache_policy inode /\
    i_next_avail_it_node_no inode1 = i_next_avail_it_node_no inode /\
    forall slot, slot <> pc_slot p -> entry_at inode' slot = entry_at inode slot.
Proof.
  intros e m a [Hd C Hw Hback Hsz Hsm Hmm] Hp G.
  pose proof (list_elem_of_lookup_2 _ _ _ Hp) as Hin.
  destruct (evict_ok _ _ FAST_DIR SLOW_DIR Hd _ _ _ _ _ _ _ _ C Hp Hw)
    as (fs' & inode1 & E & C1 & (Hmeta & Hent & Hmmap & Hpol & Hnext) & Henv & Hoth & Hrw & Hw1).
  fold e in E, C1. unfold given_up in G. injection G as G1 G2 G3 G4 G5 G6 G7 G8 G9.
  destruct (release_ok (fi_fast f) (fi_slow f) fs'
    (set_entry inode1 (pc_slot p) (e <| e_dirty := 0 |>)) ch (fi_es f) (fi_data f)
    i p e') as [C2 K2];
    [done|done|by rewrite entry_at_set_eq|rewrite entry_at_set_eq; cbn; congruence|].
  rewrite set_entry_twice, entry_at_set_eq in C2, K2.
  assert (forall slot, slot <> pc_slot p ->
    forall e0, entry_at (set_entry inode1 (pc_slot p) e0) slot = entry_at inode slot)
    as Hat.
  { intros slot Hne e0. rewrite entry_at_set_ne by done. unfold entry_at.
    by rewrite Hent. }
  exists fs', inode1. split; [exact E|]. cbn zeta.
  split_and!; [|done|done| |done|done|done|done|intros; by apply Hat].
  - split; [done|exact C2|done| | |done|].
    + intros q Hq. destruct (decide (pc_slot q = pc_slot p)) as [->|Hne].
      * rewrite entry_at_set_eq, G9. by apply Hback.
      * rewrite Hat by done. by apply Hback.
    + cbn. unfold inode_meta in Hmeta. injection Hmeta. congruence.
    + cbn. congruence.
  - intros q [Hq Hf]. apply K2. split; [done|]. intros r Hr.
    destruct (decide (pc_slot r = pc_slot p)) as [Er|Hne].
    + rewrite Er, entry_at_set_eq. cbn. by apply (Hf p).
    + rewrite Hat by done. by apply Hf.
Qed.

(** What flushing leaves alone in an inode. *)
Definition inode_stays (inode inode' : poly_inode) : Prop :=
  inode_meta inode' = inode_meta inode /\
  i_next_avail_it_node_no inode' = i_next_avail_it_node_no inode.

(** One victim. *)
Lemma flush_victim_file s ino f inode (i : nat) p :
  fl_inodes s !! ino = Some inode ->
  let m := ch_mem (fl_cache s) in
  let a := ch_alloc (fl_cache s) in
  file_ok (fl_fs s) inode m a ino f -> fi_es f !! i = Some p ->
  exists fs' inode' ch',
    flush_victim FAST_DIR SLOW_DIR (ino, pc_slot p) s =
      Some (FlushState fs' (<[ino := inode']> (fl_inodes s)) ch') /\
    file_ok fs' inode' (ch_mem ch') (ch_alloc ch') ino f /\
    env_kept (fl_fs s) fs' /\
    framed (fl_fs s) inode m a f fs' inode' (ch_mem ch') (ch_alloc ch') (fi_es f) /\
    rwfds_from (fl_fs s) inode inode' /\ inode_stays inode inode' /\
    bufs_shrink inode inode' (fi_es f) /\ buf_of inode' p = 0.
Proof.
  intros Hi m a Hok Hp. pose proof (list_elem_of_lookup_2 _ _ _ Hp) as Hin.
  set (e := entry_at inode (pc_slot p)).
  set (e' := e <| e_dirty := 0 |> <| e_present := 0 |> <| e_buf_addr := 0 |>
               <| e_cache_size := 0 |> <| e_ref_count := 0 |>).
  set (unlinked := poly_cache_lru_list_del (ino, pc_slot p) (fl_cache s)).
  destruct (evict_release_ok (fl_fs s) inode unlinked ino f i p e' Hok Hp)
    as (fs' & inode1 & E & Hok' & Henv & Hoth & Hkeep & Hrw & Hmeta & _ & Hnext & Hat);
    [done|].
  unfold flush_victim. rewrite Hi. cbn [mbind option_bind]. fold e in E |- *.
  assert (e_removed e = 0) as ->
    by apply (po_removed (ca_piece (fo_cached _ _ _ _ _ _ Hok) i p Hp)).
  cbn [Z.eqb]. assert (e_inode e = ino) as -> by (by apply (fo_back _ _ _ _ _ _ Hok)).
  rewrite Hi. cbn [mbind option_bind].
  change (ch_mem (fl_cache s)) with (ch_mem unlinked). rewrite E. cbn [mbind option_bind].
  rewrite lookup_insert_eq. cbn [mbind option_bind]. rewrite insert_insert_eq.
  eexists _, _, _. split_and!; [reflexivity|exact Hok'|done| |done|done| |].
  - apply env_framed; [done|done|apply Hok'|done].
  - intros q Hq. unfold buf_of. destruct (decide (pc_slot q = pc_slot p)) as [->|Hne].
    + right. by rewrite entry_at_set_eq.
    + left. by rewrite Hat.
  - unfold buf_of. by rewrite entry_at_set_eq.
Qed.

(** A list entry is a piece of an open file, or was dropped with its file. *)
Definition victim_of (files : gmap Z finfo) (r : lru_ref) : Prop :=
  exists f p, files !! fst r = Some f /\ p ∈ fi_es f /\ snd r = pc_slot p.

Definition dropped (files : gmap Z finfo) (r : lru_ref) s : Prop :=
  files !! fst r = None /\ exists inode, fl_inodes s !! fst r = Some inode /\
    e_removed (entry_at inode (snd r)) = 1.

(** The piece has no buffer. *)
Definition evicted (r : lru_ref) s : Prop :=
  forall inode, fl_inodes s !! fst r = Some inode ->
    e_buf_addr (entry_at inode (snd r)) = 0.

(** The invariant after a step on the file [f], which turns it into [f']. *)
Lemma files_ok_step files s ino f f' inode fs' inode' ch' :
  files_ok files s -> files !! ino = Some f -> fl_inodes s !! ino = Some inode ->
  file_ok fs' inode' (ch_mem ch') (ch_alloc ch') ino f' ->
  fi_fast f' = fi_fast f -> fi_slow f' = fi_slow f ->
  framed (fl_fs s) inode (ch_mem (fl_cache s)) (ch_alloc (fl_cache s)) f
    fs' inode' (ch_mem ch') (ch_alloc ch') (fi_es f') ->
  rwfds_from (fl_fs s) inode inode' ->
  files_ok (<[ino := f']> files) (FlushState fs' (<[ino := inode']> (fl_inodes s)) ch').
Proof.
  intros Hok Hf Hi Hok' Ef Es F Hrw. pose proof Hok as [Heach Hobjs Hbufs Hrws].
  assert (forall (R : finfo -> poly_inode -> finfo -> poly_inode -> Prop),
    (forall f1 i1 f2 i2, R f1 i1 f2 i2 -> R f2 i2 f1 i1) ->
    (forall ino1 ino2 f1 f2 i1 i2, files !! ino1 = Some f1 -> files !! ino2 = Some f2 ->
       ino1 <> ino2 -> fl_inodes s !! ino1 = Some i1 -> fl_inodes s !! ino2 = Some i2 ->
       R f1 i1 f2 i2) ->
    (forall ino2 f2 i2, files !! ino2 = Some f2 -> ino2 <> ino ->
       fl_inodes s !! ino2 = Some i2 -> R f inode f2 i2 -> R f' inode' f2 i2) ->
    forall ino1 ino2 f1 f2 i1 i2, <[ino := f']> files !! ino1 = Some f1 ->
      <[ino := f']> files !! ino2 = Some f2 ->
      ino1 <> ino2 -> <[ino := inode']> (fl_inodes s) !! ino1 = Some i1 ->
      <[ino := inode']> (fl_inodes s) !! ino2 = Some i2 -> R f1 i1 f2 i2) as Hgen.
  { intros R Hsym Hold Hnew ino1 ino2 f1 f2 i1 i2.
    rewrite !lookup_insert. repeat case_decide; subst; intros F1 F2 Hne I1 I2; simplify_eq.
    - by eapply Hnew; eauto.
    - by eapply Hsym, Hnew; eauto.
    - by eapply Hold. }
  split; cbn.
  - intros ino2 f2. rewrite !lookup_insert. case_decide as Hd; [subst; intros [= <-]; eauto|].
    intros Hf2. exact (other_file_ok files s ino f inode _ _ _ _ _ ino2 f2 Hok Hf Hi F Hf2
      (not_eq_sym Hd)).
  - intros ino1 ino2 f1 f2 o F1 F2 Hne. rewrite !lookup_insert in F1, F2.
    repeat case_decide; simplify_eq; rewrite ?Ef, ?Es; eauto.
  - intros ino1 ino2 f1 f2 i1 i2 q r F1 F2 Hne I1 I2. revert q r.
    refine (Hgen (fun f1 i1 f2 i2 => forall q r, q ∈ fi_es f1 -> r ∈ fi_es f2 ->
      buf_of i1 q <> 0 -> buf_of i1 q <> buf_of i2 r)
      _ _ _ ino1 ino2 f1 f2 i1 i2 F1 F2 Hne I1 I2).
    + intros g1 j1 g2 j2 H q r Hq Hr Hn E. apply (H r q); congruence.
    + intros ino3 ino4 g1 g2 j1 j2 G1 G2 Hn3 J1 J2 q r.
      exact (Hbufs ino3 ino4 g1 g2 j1 j2 q r G1 G2 Hn3 J1 J2).
    + intros ino3 f3 i3 Hf3 Hne3 Hi3 H q r Hq Hr Hn E.
      destruct (Heach ino3 f3 Hf3) as (i3' & Hi3' & Hf3'). rewrite Hi3 in Hi3'.
      injection Hi3' as <-. pose proof Hr as (k & Hk)%list_elem_of_lookup.
      assert (buf_of i3 r <> 0) as Hn3 by congruence.
      destruct (fr_bufs _ _ _ _ _ _ _ _ _ _ F (buf_of i3 r)) as [[_ Hno] _].
      * split; [by apply (po_live (ca_piece (fo_cached _ _ _ _ _ _ Hf3') k r Hk))|].
        intros p Hp Ep. apply (Hbufs ino3 ino f3 f i3 inode r p); try done.
      * by apply (Hno q Hq).
  - intros ino1 ino2 f1 f2 i1 i2 pl1 pl2 F1 F2 Hne I1 I2. revert pl1 pl2.
    refine (Hgen (fun _ i1 _ i2 => forall pl1 pl2, placed_at pl1 -> placed_at pl2 ->
      cache_rwfd i1 pl1 = -1 \/ cache_rwfd i1 pl1 <> cache_rwfd i2 pl2)
      _ _ _ ino1 ino2 f1 f2 i1 i2 F1 F2 Hne I1 I2).
    + intros g1 j1 g2 j2 H pl1 pl2 P1 P2. destruct (H pl2 pl1 P2 P1); lia.
    + intros ino3 ino4 g1 g2 j1 j2 G1 G2 Hn3 J1 J2 q r.
      exact (Hrws ino3 ino4 g1 g2 j1 j2 q r G1 G2 Hn3 J1 J2).
    + intros ino3 f3 i3 Hf3 Hne3 Hi3 H pl1 pl2 P1 P2.
      destruct (Hrw pl1 P1) as [->|[Hn Hun]]; [by apply H|]. right. intros E.
      destruct (Heach ino3 f3 Hf3) as (i3' & Hi3' & Hf3'). rewrite Hi3 in Hi3'.
      injection Hi3' as <-. pose proof (fo_writable _ _ _ _ _ _ Hf3' pl2 P2) as W.
      unfold writable in W. rewrite (proj2 (Z.eqb_neq _ _)) in W by lia. congruence.
Qed.

(** ** What a round of flushing leaves alone *)

(** The list entries in the cache. *)
Definition refs s : list lru_ref :=
  ch_cold (fl_cache s) ++ concat (ch_queues (fl_cache s)).

Record quiet s s' : Prop := {
  qt_env : env_kept (fl_fs s) (fl_fs s');
  qt_inodes : forall ino inode', fl_inodes s' !! ino = Some inode' ->
    exists inode, fl_inodes s !! ino = Some inode /\ inode_stays inode inode';
  qt_refs : refs s' ⊆ refs s;
  qt_queues : length (ch_queues (fl_cache s')) = length (ch_queues (fl_cache s))
}.

#[global] Instance quiet_preorder : PreOrder quiet.
Proof.
  split.
  - intros s. split; [by split| |done|done]. intros ino inode ->. by exists inode.
  - intros s1 s2 s3 [E1 I1 R1 Q1] [E2 I2 R2 Q2]. split; [by eapply env_kept_trans| |set_solver|congruence].
    intros ino inode3 Hi. destruct (I2 _ _ Hi) as (inode2 & Hi2 & [M2 N2]).
    destruct (I1 _ _ Hi2) as (inode1 & Hi1 & [M1 N1]). exists inode1. split; [done|].
    split; congruence.
Qed.

Lemma list_elem_of_concat {B} (x : B) (ls : list (list B)) :
  x ∈ concat ls <-> exists l, x ∈ l /\ l ∈ ls.
Proof. induction ls as [|l ls IH]; cbn; set_solver. Qed.

(** Workers only take entries off the lists. *)
Lemma flush_victim_queues r s s' :
  flush_victim FAST_DIR SLOW_DIR r s = Some s' ->
  ch_queues (fl_cache s') = filter (fun x => x <> r) <$> ch_queues (fl_cache s) /\
  ch_cold (fl_cache s') = filter (fun x => x <> r) (ch_cold (fl_cache s)).
Proof.
  destruct r as [ino slot]. unfold flush_victim. intros H.
  repeat (case_match || simplify_option_eq); try done.
  all: unfold release; repeat case_match; done.
Qed.

Lemma flush_victim_refs r s s' :
  flush_victim FAST_DIR SLOW_DIR r s = Some s' -> refs s' ⊆ refs s.
Proof.
  intros [Eq Ec]%flush_victim_queues r'. unfold refs. rewrite Eq, Ec, !elem_of_app.
  intros [[_ ?]%list_elem_of_filter|(q & Hr & Hq)%list_elem_of_concat]; [by left|right].
  apply list_elem_of_fmap in Hq as (q' & -> & Hq').
  apply list_elem_of_filter in Hr as [_ Hr]. apply list_elem_of_concat. eauto.
Qed.

Lemma victim_files_ok files s ino f inode (i : nat) p :
  files_ok files s -> files !! ino = Some f -> fl_inodes s !! ino = Some inode ->
  fi_es f !! i = Some p ->
  exists s', flush_victim FAST_DIR SLOW_DIR (ino, pc_slot p) s = Some s' /\
    files_ok files s' /\ evicted (ino, pc_slot p) s' /\
    (forall ino', ino' <> ino -> fl_inodes s' !! ino' = fl_inodes s !! ino') /\
    (exists inode', fl_inodes s' !! ino = Some inode' /\ inode_stays inode inode' /\
       bufs_shrink inode inode' (fi_es f)) /\ env_kept (fl_fs s) (fl_fs s').
Proof.
  intros Hok Hf Hi Hp.
  destruct (fs_each _ _ Hok ino f Hf) as (inode0 & Hi0 & Hfile). rewrite Hi in Hi0.
  injection Hi0 as <-.
  destruct (flush_victim_file s ino f inode i p Hi Hfile Hp)
    as (fs' & inode' & ch' & E & Hfile' & Henv & F & Hrw & Hstay & Hsh & Hb).
  eexists. split; [exact E|]. split_and!.
  - rewrite <-(insert_id files ino f) by done. by eapply files_ok_step.
  - intros inode1. cbn. rewrite lookup_insert_eq. by intros [= <-].
  - intros ino' Hne. cbn. by rewrite lookup_insert_ne by congruence.
  - exists inode'. cbn. by rewrite lookup_insert_eq.
  - done.
Qed.

Lemma flush_step files s r :
  files_ok files s -> victim_of files r \/ dropped files r s ->
  exists s', flush_victim FAST_DIR SLOW_DIR r s = Some s' /\ files_ok files s' /\
    (victim_of files r -> evicted r s') /\
    (forall r', victim_of files r' -> evicted r' s -> evicted r' s') /\
    (forall r', dropped files r' s -> dropped files r' s') /\ quiet s s'.
Proof.
  intros Hok Hr. destruct r as [ino slot].
  destruct Hr as [(f & p & Hf & Hp & E)|[Hn (inode & Hi & Hrem)]]; cbn in *; subst.
  - apply list_elem_of_lookup in Hp as (i & Hp).
    destruct (fs_each _ _ Hok ino f Hf) as (inode & Hi & _).
    destruct (victim_files_ok files s ino f inode i p Hok Hf Hi Hp)
      as (s' & E & Hok' & He & Hother & (inode' & Hi' & Hst & Hsh) & Henv).
    exists s'. split_and!; [done..| | |].
    + intros [ino' slot'] (f' & p' & Hf' & Hp' & E') Hev inode2. cbn in *. subst slot'.
      destruct (decide (ino' = ino)) as [->|Hne].
      * rewrite Hi'. intros [= <-]. rewrite Hf in Hf'. injection Hf' as <-.
        specialize (Hev inode Hi). cbn in Hev. unfold bufs_shrink, buf_of in Hsh.
        destruct (Hsh p' Hp') as [->| ->]; done.
      * rewrite Hother by done. intros Hi2. by apply Hev.
    + intros r' [Hn (inode2 & Hi2 & Hrem)]. split; [done|]. exists inode2.
      rewrite Hother by congruence. done.
    + split; [done| |by eapply flush_victim_refs|].
      * intros ino' inode2. destruct (decide (ino' = ino)) as [->|Hne].
        -- rewrite Hi'. intros [= <-]. eauto.
        -- rewrite Hother by done. intros H2. by exists inode2.
      * destruct (flush_victim_queues _ _ _ E) as [-> _]. by rewrite length_fmap.
  - unfold flush_victim. rewrite Hi. cbn [mbind option_bind]. rewrite Hrem.
    assert (flush_victim FAST_DIR SLOW_DIR (ino, slot) s =
      Some (FlushState (fl_fs s) (fl_inodes s)
              (poly_cache_lru_list_del (ino, slot) (fl_cache s)))) as E
      by (unfold flush_victim; rewrite Hi; cbn [mbind option_bind]; by rewrite Hrem).
    eexists. split_and!; [done| | |done|done|].
    + destruct Hok. by split.
    + intros (f & p & Hf & _). cbn in Hf. congruence.
    + split; [by split| |by eapply flush_victim_refs|cbn; by rewrite length_fmap].
      intros ino' inode' H'. by exists inode'.
Qed.

(** ** Dispatch *)

(** The entries that still belong to a file. *)
Definition kept (inodes : gmap Z poly_inode) (r : lru_ref) : bool :=
  match inodes !! fst r with
  | Some inode => negb (e_removed (entry_at inode (snd r)) =? 1)
  | None => false
  end.

Lemma alter_snoc_perm {B} (k : nat) (x : B) (ls : list (list B)) :
  (k < length ls)%nat ->
  concat (alter (fun q => q ++ [x]) k ls) ≡ₚ x :: concat ls.
Proof.
  revert k. induction ls as [|l ls IH]; intros k Hk; [cbn in Hk; lia|].
  destruct k as [|k]; cbn.
  - rewrite <-app_assoc. cbn. by rewrite Permutation_middle.
  - rewrite IH by (cbn in Hk; lia). by rewrite Permutation_middle.
Qed.

(** The cache sizes of the victims among [moved]. *)
Definition moved_size (inodes : gmap Z poly_inode) (moved : list lru_ref) : Z :=
  foldr (fun r n =>
    match inodes !! fst r with
    | Some inode => if kept inodes r then e_cache_size (entry_at inode (snd r)) + n else n
    | None => n
    end) 0 moved.

(** The dispatch moves a prefix of the cold list to the queues, up to the point
    where the threshold is met; entries of dropped files disappear. *)
Lemma dispatch_spec inodes nr end_ cold : forall rr snapshot queues,
  (forall r, r ∈ cold -> is_Some (inodes !! fst r)) ->
  0 < nr < 2 ^ 31 -> zlength queues = nr -> 0 <= rr < 2 ^ 32 ->
  exists moved rest queues',
    dispatch_victims inodes nr end_ cold rr snapshot queues = Some (rest, queues') /\
    cold = moved ++ rest /\ zlength queues' = nr /\
    concat queues' ≡ₚ filter (fun r => kept inodes r = true) moved ++ concat queues /\
    (rest = [] \/ u64 (snapshot - moved_size inodes moved) < end_).
Proof.
  induction cold as [|r cold IH]; intros rr snapshot queues Hin Hnr Hlen Hrr.
  { exists [], [], queues. split_and!; try done. by left. }
  cbn [dispatch_victims]. destruct (Hin r) as [inode Hi]; [by left|].
  rewrite Hi. cbn [mbind option_bind].
  assert (forall r', r' ∈ cold -> is_Some (inodes !! fst r')) as Hin'
    by (intros r' Hr'; apply Hin; by right).
  set (e := entry_at inode (snd r)).
  assert (kept inodes r = negb (e_removed e =? 1)) as Hk
    by (unfold kept; by rewrite Hi).
  assert (forall moved, moved_size inodes (r :: moved) =
    if kept inodes r then e_cache_size e + moved_size inodes moved
    else moved_size inodes moved) as Hms by (intros moved; cbn; by rewrite Hi).
  destruct (e_removed e =? 1); cbn [negb] in Hk.
  - destruct (IH rr snapshot queues) as (moved & rest & qs & E & -> & Hl & Hp & Ht);
      [done..|].
    exists (r :: moved), rest, qs. rewrite Hms, filter_cons_False by congruence.
    rewrite Hk. split_and!; done.
  - set (id := Z.land rr (u32 (nr - 1))).
    assert (0 <= id < nr) as Hid.
    { unfold id. rewrite u32_id by lia. split; [apply Z.land_nonneg; lia|].
      pose proof (land_le_r rr (nr - 1)). lia. }
    set (qs0 := alter _ _ _).
    assert (concat qs0 ≡ₚ r :: concat queues) as Hq0
      by (apply alter_snoc_perm; lia).
    assert (zlength qs0 = nr) as Hl0 by (unfold qs0; by rewrite length_alter).
    destruct (u64 (snapshot - e_cache_size e) <? end_) eqn:Eend; zbool.
    + exists [r], cold, qs0. rewrite Hms, Hk, filter_cons_True by done. cbn.
      split_and!; [done..|]. right. by rewrite Z.add_0_r.
    + destruct (IH (u32 (rr + 1)) (u64 (snapshot - e_cache_size e)) qs0)
        as (moved & rest & qs & E & -> & Hl & Hp & Ht); [done..|apply u32_range|].
      exists (r :: moved), rest, qs. rewrite Hms, Hk, filter_cons_True by done.
      split_and!; [done..| |].
      * rewrite Hp, Hq0. cbn. by rewrite Permutation_middle.
      * destruct Ht as [|Ht]; [by left|right]. revert Ht. unfold u64.
        rewrite Zminus_mod_idemp_l. by rewrite Z.sub_add_distr.
Qed.

Definition queues_ok files s : Prop :=
  forall (i : nat) q r, ch_queues (fl_cache s) !! i = Some q -> r ∈ q ->
    victim_of files r \/ dropped files r s.

(** Entries leave the queues only when they are flushed. *)
Definition queues_drain files s s' : Prop :=
  length (ch_queues (fl_cache s')) = length (ch_queues (fl_cache s)) /\
  forall (i : nat) q q' r, ch_queues (fl_cache s) !! i = Some q ->
    ch_queues (fl_cache s') !! i = Some q' ->
    (r ∈ q' -> r ∈ q) /\ (r ∈ q -> victim_of files r -> r ∈ q' \/ evicted r s').

Lemma flush_step_queues files r s s' :
  flush_victim FAST_DIR SLOW_DIR r s = Some s' ->
  (victim_of files r -> evicted r s') -> queues_drain files s s'.
Proof.
  intros [E _]%flush_victim_queues Hr. unfold queues_drain. rewrite E. split.
  - by rewrite length_fmap.
  - intros i q q' r' Hq. rewrite list_lookup_fmap, Hq. intros [= <-].
    rewrite list_elem_of_filter. split; [by intros [_ ?]|].
    intros Hin Hv. destruct (decide (r' = r)) as [->|]; auto.
Qed.

Lemma queues_drain_trans files s1 s2 s3 :
  queues_drain files s1 s2 -> queues_drain files s2 s3 ->
  (forall r, victim_of files r -> evicted r s2 -> evicted r s3) ->
  queues_drain files s1 s3.
Proof.
  intros [L1 H1] [L2 H2] Hev. split; [congruence|]. intros i q q' r Hq Hq'.
  destruct (lookup_lt_is_Some_2 (ch_queues (fl_cache s2)) i) as [q2 Hq2].
  { rewrite L1. by eapply lookup_lt_Some. }
  destruct (H1 i q q2 r Hq Hq2) as [A1 B1], (H2 i q2 q' r Hq2 Hq') as [A2 B2].
  split; [auto|]. intros Hr Hv. destruct (B1 Hr Hv) as [Hr2|He]; auto.
Qed.

Lemma queues_drain_refl files s : queues_drain files s s.
Proof. split; [done|]. intros i q q' r -> [= ->]. auto. Qed.

(** All victims of a queue, in order. *)
Lemma flush_all_ok files queue : forall s,
  files_ok files s ->
  (forall r, r ∈ queue -> victim_of files r \/ dropped files r s) ->
  exists s', flush_all FAST_DIR SLOW_DIR queue s = Some s' /\ files_ok files s' /\
    (forall r, r ∈ queue -> victim_of files r -> evicted r s') /\
    (forall r, victim_of files r -> evicted r s -> evicted r s') /\
    (forall r, dropped files r s -> dropped files r s') /\ queues_drain files s s' /\
    quiet s s'.
Proof.
  induction queue as [|r queue IH]; intros s Hok Hq; cbn [flush_all].
  { exists s. split_and!; try done; [|apply queues_drain_refl].
    intros r Hr. by apply elem_of_nil in Hr. }
  destruct (flush_step files s r Hok) as (s1 & E & Hok1 & Hr1 & Hev1 & Hdr1 & Hqt1);
    [apply Hq; by left|].
  rewrite E. cbn [mbind option_bind].
  destruct (IH s1 Hok1) as (s' & E' & Hok' & Hq' & Hev' & Hdr' & Hs' & Hqt').
  { intros r' Hr'. destruct (Hq r') as [|]; [by right|by left|right; auto]. }
  exists s'. split_and!; [done|done| |auto|auto| |by trans s1].
  - intros r' [->|Hr']%elem_of_cons Hv; auto.
  - eapply queues_drain_trans; [by eapply flush_step_queues|done|done].
Qed.

(** The workers, one queue after the other. *)
Lemma launch_workers_ok files (n : nat) : forall id s,
  files_ok files s -> queues_ok files s -> 0 <= id ->
  id + n <= zlength (ch_queues (fl_cache s)) ->
  exists s', launch_workers FAST_DIR SLOW_DIR n id s = Some s' /\ files_ok files s' /\
    (forall (i : nat) q r, id <= i < id + n -> ch_queues (fl_cache s) !! i = Some q ->
       r ∈ q -> victim_of files r -> evicted r s') /\
    (forall r, victim_of files r -> evicted r s -> evicted r s') /\ quiet s s'.
Proof.
  induction n as [|n IH]; intros id s Hok Hqs Hid Hlen; cbn [launch_workers].
  { exists s. split_and!; try done. lia. }
  unfold poly_cache_flushing_worker.
  destruct (lookup_lt_is_Some_2 (ch_queues (fl_cache s)) (Z.to_nat id)) as [queue Hq];
    [lia|].
  rewrite Hq. cbn [mbind option_bind].
  destruct (flush_all_ok files queue s Hok)
    as (s1 & E & Hok1 & Hev1 & Hpres1 & Hdr1 & [Hl1 Hd1] & Hqt1); [by eauto|].
  rewrite E. cbn [mbind option_bind].
  assert (forall (i : nat) q1, ch_queues (fl_cache s1) !! i = Some q1 ->
    exists q, ch_queues (fl_cache s) !! i = Some q) as Hback.
  { intros i q1 Hi. apply lookup_lt_is_Some_2. rewrite <-Hl1. by eapply lookup_lt_Some. }
  destruct (IH (id + 1) s1) as (s' & E' & Hok' & Hev' & Hpres' & Hqt'); [done| |lia|lia|].
  { intros i q1 r Hi Hr. destruct (Hback i q1 Hi) as [q Hqi].
    destruct (Hqs i q r Hqi); [by eapply Hd1|by left|right; auto]. }
  exists s'. split_and!; [done|done| |auto|by trans s1].
  intros i q r Hi Hqi Hr Hv. destruct (decide (Z.of_nat i = id)) as [<-|].
  - rewrite Nat2Z.id, Hqi in Hq. injection Hq as ->. auto.
  - destruct (lookup_lt_is_Some_2 (ch_queues (fl_cache s1)) i) as [q1 Hq1].
    { rewrite Hl1. by eapply lookup_lt_Some. }
    destruct (Hd1 i q q1 r Hqi Hq1) as [_ Hd]. destruct (Hd Hr Hv); [|auto].
    eapply (Hev' i q1); [lia|done..].
Qed.

(** One round of background flushing: dispatch, then the workers. *)
Definition flush_round (thread_nr : Z) s : option (flush_state Fs A) :=
  s ← poly_cache_flushing_dispatch thread_nr s;
  launch_workers FAST_DIR SLOW_DIR (Z.to_nat thread_nr) 0 s.

Lemma flush_round_ok files s nr :
  files_ok files s -> 0 < nr < 2 ^ 31 ->
  zlength (ch_queues (fl_cache s)) = nr ->
  (forall r, r ∈ ch_cold (fl_cache s) ++ concat (ch_queues (fl_cache s)) ->
     victim_of files r \/ dropped files r s) ->
  exists moved rest s', flush_round nr s = Some s' /\ files_ok files s' /\
    ch_cold (fl_cache s) = moved ++ rest /\
    (rest = [] \/ u64 (ch_size (fl_cache s) - moved_size (fl_inodes s) moved) <
                   ch_flushing_end (fl_cache s)) /\
    (forall r, r ∈ moved \/ r ∈ concat (ch_queues (fl_cache s)) ->
       victim_of files r -> evicted r s') /\ quiet s s'.
Proof.
  intros Hok Hnr Hlen Hrefs. unfold flush_round, poly_cache_flushing_dispatch.
  assert (forall r, victim_of files r \/ dropped files r s ->
    exists inode, fl_inodes s !! fst r = Some inode /\
      (victim_of files r -> e_removed (entry_at inode (snd r)) = 0)) as Hin.
  { intros r [(f & p & Hf & Hp & E)|[Hn (inode & Hi & _)]].
    - destruct (fs_each _ _ Hok _ f Hf) as (inode & Hi & Hfile). exists inode.
      split; [done|]. intros _. apply list_elem_of_lookup in Hp as (i & Hp). rewrite E.
      eapply po_removed, (ca_piece (fo_cached _ _ _ _ _ _ Hfile)), Hp.
    - exists inode. split; [done|]. intros (f & p & Hf & _). congruence. }
  destruct (dispatch_spec (fl_inodes s) nr (ch_flushing_end (fl_cache s))
    (ch_cold (fl_cache s)) 0 (ch_size (fl_cache s)) (ch_queues (fl_cache s)))
    as (moved & rest & qs & E & Hcold & Hl & Hperm & Ht); [|done|done|lia|].
  { intros r Hr. destruct (Hin r) as (inode & -> & _); [|done].
    apply Hrefs, elem_of_app. by left. }
  rewrite E. cbn [mbind option_bind]. set (s1 := FlushState _ _ _).
  assert (files_ok files s1) as Hok1 by (destruct Hok; by split).
  assert (forall r, r ∈ concat qs -> r ∈ moved \/ r ∈ concat (ch_queues (fl_cache s)))
    as Hqs.
  { intros r. rewrite Hperm, elem_of_app, list_elem_of_filter. naive_solver. }
  destruct (launch_workers_ok files (Z.to_nat nr) 0 s1 Hok1) as (s' & E' & Hok' & Hev & _ & Hqt).
  - intros i q r Hq Hr. cbn in Hq.
    assert (r ∈ concat qs) as Hr' by (apply list_elem_of_concat; eauto using list_elem_of_lookup_2).
    apply Hrefs. rewrite elem_of_app, Hcold, elem_of_app.
    destruct (Hqs r Hr'); auto.
  - lia.
  - cbn. lia.
  - exists moved, rest, s'. split_and!; [done..| |].
    2: { trans s1; [|done]. split; [by split| | |cbn; lia].
      - intros ino inode Hi. by exists inode.
      - intros r. unfold refs. cbn. rewrite !elem_of_app, Hcold, elem_of_app.
        intros [?|?%Hqs]; naive_solver. }
    intros r Hr Hv.
    assert (r ∈ concat qs) as Hr'.
    { rewrite Hperm, elem_of_app, list_elem_of_filter.
      destruct Hr as [Hr|Hr]; [left|by right]. split; [|done].
      destruct (Hin r (or_introl Hv)) as (inode & Hi & Hrem).
      unfold kept. rewrite Hi, (Hrem Hv). done. }
    apply list_elem_of_concat in Hr' as (q & Hrq & Hq).
    apply list_elem_of_lookup in Hq as (i & Hq). apply (Hev i q r); try done.
    apply lookup_lt_Some in Hq. lia.
Qed.

(** A file of the data path is a file of the flusher. *)
Lemma cached_file_flush st data :
  cached_file st data -> i_cache_mmapfd (cs_inode st) = -1 ->
  (forall fo so pl, opened fo so (io_fs (cs_io st)) (fastfd_of (cs_io st))
       (slowfd_of (cs_io st)) -> placed_at pl ->
     writable fo so FAST_DIR SLOW_DIR (io_fs (cs_io st)) (cs_inode st) pl) ->
  exists f, fi_data f = data /\ index_ok (cs_inode st) (fi_es f) /\
    files_ok {[i_ino (cs_inode st) := f]}
      (FlushState (io_fs (cs_io st)) {[i_ino (cs_inode st) := cs_inode st]} (cs_cache st)).
Proof.
  intros (fo & so & es & Hd & (C & Ho & Hf & Hs) & Hbk & Hsz & Hk & Hmax) Hmm Hw.
  exists (FInfo fo so es data). split; [done|]. split; [apply C|].
  split; cbn.
  - intros ino f [<- <-]%lookup_singleton_Some. exists (cs_inode st).
    rewrite lookup_singleton_eq. split; [done|].
    split; cbn; [done|exact C|by eauto|done|done| |done].
    destruct (ca_len C). rewrite node_size_val in *. unfold MAX_POLY_INDEX_NODE_NR in Hmax.
    lia.
  - by intros ino1 ino2 f1 f2 o [<- _]%lookup_singleton_Some [<- _]%lookup_singleton_Some.
  - by intros ino1 ino2 f1 f2 i1 i2 p q [<- _]%lookup_singleton_Some
      [<- _]%lookup_singleton_Some.
  - by intros ino1 ino2 f1 f2 i1 i2 p q [<- _]%lookup_singleton_Some
      [<- _]%lookup_singleton_Some.
Qed.

End flush.

(** ** Properties *)

(** C10: a round of background flushing loses no byte of any file: all files of the
    process keep their contents, split between cache and physical files. The pieces
    it takes from the LRU list, oldest first, and those already queued end up written
    back and without buffer, and it stops only when enough of the cache is covered or
    the list is empty.  Every entry of the list and the queues has to be a piece of one
    of the files, or a dropped piece of another inode that is still allocated: see
    [drop_leaves_dangling_entries] for the entries of an inode the kernel freed.  The
    physical file systems serve their requests. *)
Theorem flushing_keeps_files `{!PosixFS Fs, !PosixFSLaws Fs, !ReliableFS Fs,
    !PosixNS Fs, !ReliableNS Fs, !CacheAlloc A, !CacheAllocLaws A}
    (FAST_DIR SLOW_DIR : string) (files : gmap Z finfo) (s : flush_state Fs A) (nr : Z) :
  files_ok FAST_DIR SLOW_DIR files s -> 0 < nr < 2 ^ 31 ->
  zlength (ch_queues (fl_cache s)) = nr ->
  (forall r, r ∈ ch_cold (fl_cache s) ++ concat (ch_queues (fl_cache s)) ->
     victim_of files r \/ dropped files r s) ->
  exists moved rest s1 s', poly_cache_flushing_dispatch nr s = Some s1 /\
    launch_workers FAST_DIR SLOW_DIR (Z.to_nat nr) 0 s1 = Some s' /\
    files_ok FAST_DIR SLOW_DIR files s' /\
    ch_cold (fl_cache s) = moved ++ rest /\
    (rest = [] \/ u64 (ch_size (fl_cache s) - moved_size (fl_inodes s) moved) <
                   ch_flushing_end (fl_cache s)) /\
    (forall r, r ∈ moved \/ r ∈ concat (ch_queues (fl_cache s)) ->
       victim_of files r -> evicted r s').
Proof.
  intros Hok Hnr Hlen Hrefs.
  destruct (flush_round_ok FAST_DIR SLOW_DIR files s nr Hok Hnr Hlen Hrefs)
    as (moved & rest & s' & E & H1 & H2 & H3 & H4 & _). unfold flush_round in E.
  destruct (poly_cache_flushing_dispatch nr s) as [s1|]; [|done].
  by exists moved, rest, s1, s'.
Qed.

(** Dropping the buffers of an unlinked file leaves its pieces on the LRU list. *)
Lemma traverse_drop_cold `{!PosixFS Fs, !PosixNS Fs, !CacheAlloc A, !CacheMmap Fs A} fuel :
  forall start end_ it (s s' : Fs * poly_inode * poly_cache A),
  traverse (fun s => snd (fst s)) drop_entry fuel start end_ it s = Some s' ->
  ch_cold (snd s') = ch_cold (snd s).
Proof.
  induction fuel as [|fuel IH]; intros start end_ [e|] [[fs inode] ch] s';
    cbn [traverse drop_entry]; try (by intros [= <-]).
  unfold unmap, release. destruct (not_admitted _ _);
    cbn [mbind option_bind]; intros E%IH; rewrite E; cbn [snd]; destruct (_ =? 0);
    try done; [destruct (mm_munmap _ _ _ _)|destruct (mm_free _ _ _)]; done.
Qed.

(** The pieces of a file stay on the LRU list when its cache is dropped, which
    happens just before the kernel frees its inode. A dispatch that meets such a
    piece first then works on freed memory. *)
Theorem drop_leaves_dangling_entries
    `{!PosixFS Fs, !PosixNS Fs, !CacheAlloc A, !CacheMmap Fs A}
    (fs fs1 fs2 : Fs) (inode inode1 : poly_inode) (ch ch1 : poly_cache A)
    (ino slot nr : Z) (rest : list lru_ref) (inodes : gmap Z poly_inode) :
  poly_cache_drop (fs, inode, ch) = Some (fs1, inode1, ch1) ->
  ch_cold ch = (ino, slot) :: rest -> inodes !! ino = None ->
  poly_cache_flushing_dispatch nr (FlushState fs2 inodes ch1) = None.
Proof.
  unfold poly_cache_drop, traverse_file, poly_cache_flushing_dispatch. intros E Hcold Hnone.
  destruct (traverse _ _ _ _ _ _ _) as [[[fs' i'] ch']|] eqn:Et; [|done].
  apply traverse_drop_cold in Et. cbn [snd] in Et. cbn [mbind option_bind] in E.
  destruct (close_rwfds fs' i'). injection E as -> -> ->.
  cbn [fl_cache fl_inodes]. rewrite Et, Hcold. cbn [dispatch_victims fst]. by rewrite Hnone.
Qed.

(** ** Witnesses and examples *)

(** The state of [example_cs] after a write, for the flusher. *)
Definition example_flush (st : cstate MemFS.memfs Shm.shm) : flush_state MemFS.memfs Shm.shm :=
  FlushState (io_fs (cs_io st)) {[0 := cs_inode st]} (cs_cache st).

Lemma example_flush_ok st :
  cached_file st [x41; x42; x43] -> io_fs (cs_io st) = io_fs (cs_io example_cs) ->
  io_file (cs_io st) = io_file (cs_io example_cs) ->
  (i_ino (cs_inode st), i_cache_mmapfd (cs_inode st), i_cache_rwfd_fast (cs_inode st),
   i_cache_rwfd_slow (cs_inode st), i_pathname (cs_inode st),
   polystore_index_lookup (cs_inode st) 0 0) =
  (0, -1, -1, -1, "/mnt/polystore/a", Some 1) ->
  exists f p, fi_data f = [x41; x42; x43] /\ fi_es f !! 0%nat = Some p /\ pc_slot p = 1 /\
    files_ok "/fast" "/slow" {[0 := f]} (example_flush st).
Proof.
  intros C Efs Efile [= E1 E2 E3 E4 E5 E6].
  destruct (cached_file_flush "/fast" "/slow" st _ C E2) as (f & Hd & Hidx & Hok).
  - intros fo so pl [Hf Hs] Hpl. unfold fastfd_of, slowfd_of in Hf, Hs.
    rewrite Efs, Efile in Hf, Hs. vm_compute in Hf, Hs. injection Hf as <-.
    injection Hs as <-. unfold writable, cache_rwfd, cache_path. rewrite E3, E4, E5, Efs.
    destruct Hpl as [->| ->]; cbn [Z.eqb]; eexists; split; by vm_compute.
  - rewrite E1 in Hok. rewrite (lookup_pieces _ (fi_es f)) in E6 by (done || lia).
    change (0 / NODE) with 0 in E6. change (Z.to_nat 0) with 0%nat in E6.
    destruct (fi_es f !! 0%nat) as [p|] eqn:Ep; [|done]. cbn in E6. injection E6 as E6.
    exists f, p. done.
Qed.

Definition example_facts (st : cstate MemFS.memfs Shm.shm) :=
  let inode := cs_inode st in
  ((i_ino inode, i_cache_mmapfd inode, i_cache_rwfd_fast inode, i_cache_rwfd_slow inode,
    i_pathname inode, polystore_index_lookup inode 0 0),
   (ch_cold (cs_cache st), ch_queues (cs_cache st), ch_flushing_end (cs_cache st))).

Lemma example_state :
  exists st f p, cached_file st [x41; x42; x43] /\ fi_data f = [x41; x42; x43] /\
    fi_es f !! 0%nat = Some p /\ pc_slot p = 1 /\
    files_ok "/fast" "/slow" {[0 := f]} (example_flush st) /\ i_ino (cs_inode st) = 0 /\
    ch_cold (cs_cache st) = [(0, 1)] /\ ch_queues (cs_cache st) = [[]; []] /\
    ch_flushing_end (cs_cache st) = 0.
Proof.
  destruct example_written as (st & E & C & _ & Efs & Efile).
  assert ((example_facts ∘ snd) <$>
    polystore_write_iter_polycache "/fast" example_cs [x41; x42; x43] 3 0 =
    Some ((0, -1, -1, -1, "/mnt/polystore/a", Some 1), ([(0, 1)], [[]; []], 0))) as H
    by (by vm_compute).
  rewrite E in H. change (Some (example_facts st) = Some
    ((0, -1, -1, -1, "/mnt/polystore/a", Some 1), ([(0, 1)], [[]; []], 0))) in H.
  unfold example_facts in H. injection H as H1 H2 H3 H4 H5 H6 H7 H8 H9.
  destruct (example_flush_ok st C Efs Efile) as (f & p & Hd & Hp & Hs & Hok);
    [by rewrite H1, H2, H3, H4, H5, H6|].
  by exists st, f, p.
Qed.

Lemma flushing_keeps_files_witness :
  exists st f s1 s', fi_data f = [x41; x42; x43] /\
    files_ok "/fast" "/slow" {[0 := f]} (example_flush st) /\
    poly_cache_flushing_dispatch 2 (example_flush st) = Some s1 /\
    launch_workers "/fast" "/slow" 2 0 s1 = Some s' /\
    files_ok "/fast" "/slow" {[0 := f]} s' /\ evicted (0, 1) s'.
Proof.
  destruct example_state as (st & f & p & C & Hd & Hp & Hs & Hok & _ & Hcold & Hqs & Hend0).
  assert (victim_of {[0 := f]} (0, 1)) as Hv.
  { exists f, p. cbn. rewrite lookup_singleton_eq. split_and!; [done| |done].
    by eapply list_elem_of_lookup_2. }
  destruct (flushing_keeps_files "/fast" "/slow" {[0 := f]} (example_flush st) 2 Hok)
    as (moved & rest & s1 & s' & E1 & E2 & Hok' & Hsplit & Hend & Hev).
  - lia.
  - cbn. by rewrite Hqs.
  - cbn. rewrite Hcold, Hqs. cbn. intros r ->%list_elem_of_singleton. by left.
  - exists st, f, s1, s'. split_and!; [done|done|exact E1|exact E2|done|].
    apply Hev; [|done]. left. cbn [fl_cache example_flush] in Hsplit, Hend.
    rewrite Hcold in Hsplit. rewrite Hend0 in Hend.
    destruct Hend as [->|Hend]; [rewrite app_nil_r in Hsplit; subst moved; by left|].
    pose proof (u64_range (ch_size (cs_cache st) -
      moved_size (fl_inodes (example_flush st)) moved)). lia.
Defined.

(** The file of three bytes is dropped and its inode freed. *)
Lemma drop_leaves_dangling_entries_witness :
  exists st s1, poly_cache_drop (io_fs (cs_io st), cs_inode st, cs_cache st) = Some s1 /\
    poly_cache_flushing_dispatch 2
      (FlushState (fst (fst s1)) (∅ : gmap Z poly_inode) (snd s1)) = None.
Proof.
  destruct example_written as (st & E & _).
  set (drop st := poly_cache_drop (io_fs (cs_io st), cs_inode st, cs_cache st)
    : option (MemFS.memfs * poly_inode * poly_cache Shm.shm)).
  assert ((fun r => (ch_cold (cs_cache (snd r)), bool_decide (is_Some (drop (snd r))))) <$>
    polystore_write_iter_polycache "/fast" example_cs [x41; x42; x43] 3 0 =
    Some ([(0, 1)], true)) as H by (by vm_compute).
  rewrite E in H. cbn in H. injection H as Hcold [s1 Hd]%bool_decide_eq_true_1.
  destruct s1 as [[fs1 inode1] ch1]. exists st, (fs1, inode1, ch1). split; [exact Hd|].
  by apply (drop_leaves_dangling_entries _ _ fs1 _ _ _ _ 0 1 2 [] ∅ Hd Hcold).
Defined.

(** When the physical file cannot be opened for the write-back, the worker does not
    look at the error: the piece is marked clean, its buffer given up, and nothing
    was written. Here the file written in [example_cs] has lost its names. *)
Lemma flush_error_loses_data :
  ('(_, st) ← polystore_write_iter_polycache "/fast" example_cs [x41; x42; x43] 3 0;
   let fs := io_fs (cs_io st) in
   let fs := MemFS.Mem (MemFS.m_fds fs) (MemFS.m_pos fs) (MemFS.m_files fs) ∅ ∅ in
   s ← flush_victim "/fast" "/slow" (0, 1) (FlushState fs {[0 := cs_inode st]} (cs_cache st));
   inode ← fl_inodes s !! 0;
   let e := entry_at inode 1 in
   Some (i_size inode, e_dirty e, e_buf_addr e, fs_size (fl_fs s) 0, fs_size (fl_fs s) 1,
         physical_byte 0 1 (fl_fs s) inode 0)) = Some (3, 0, 0, 0, 0, None).
Proof. vm_compute. reflexivity. Qed.

End CacheFlush.
