(* ===== verification/PolyOS.v ===== *)
(** * PolyOS, the kernel module ([polylib/src/polyos])

    The inode table and its life cycle ([inode.c]), the task context table
    ([taskctx.c]), and the ioctl handlers ([operation.c], [polyos.c]).  The
    kernel services the handlers call ([copy_from_user], [vmalloc],
    [remap_pfn_range], ...) are the fields of [kenv], one per call site; opening
    and closing of files go to the file systems of [Posix].

    An allocated inode or task context is identified by its number, which is
    never reused; the structure itself lives in the memory shared with the
    library.  [None] is a kernel oops. *)

From S2P Require Import Prelude Defs Posix IntervalTree Indexing.

#[local] Open Scope Z_scope.

Module PolyOS.

(** What [find_vma] finds at an address: nothing, a VMA other than the region the
    client is to create there, or that region. *)
Inductive vma_lookup := VmaNone | VmaOther | VmaExact.

(** Outcome of the kernel services during one call. *)
Record kenv := KEnv {
  copy_from_ok : bool;        (* copy_from_user *)
  copy_to_ok : bool;          (* copy_to_user *)
  inode_vma_ok : bool;        (* the client created the inode region *)
  index_vma_ok : bool;        (* the client created the index region *)
  task_vma : vma_lookup;      (* find_vma on the address of a task context *)
  remap_inode_ok : bool;      (* remap_pfn_range, or page already mapped *)
  remap_index_ok : bool;
  remap_task_ok : bool;
  vmalloc_index_ok : bool;
  vmalloc_inode_ok : bool;
  vmalloc_task_ok : bool;
  kmalloc_ok : bool           (* hash table nodes *)
}.

Definition all_ok : kenv :=
  KEnv true true true true VmaExact true true true true true true true.

(** State of the module and the memory it shares with its clients. *)
Record polyos := OS {
  k_next_ino : Z;                   (* uint32_t next_avail_inode_no *)
  k_itable : list (Z * Z);          (* i_hashtable: path hash, inode; newest first *)
  k_inodes : gmap Z poly_inode;     (* allocated inodes *)
  k_next_task : Z;                  (* uint32_t next_avail_task_id *)
  k_ttable : list (Z * Z);          (* task_ctx_hashtable: id, task context *)
  k_tasks : gmap Z g_task_ctx;      (* allocated task contexts *)
  k_mapped_tasks : gset Z           (* task contexts mapped into the client *)
}.

#[export] Instance polyos_copy : Copy polyos := fun k =>
  OS (k_next_ino k) (k_itable k) (k_inodes k) (k_next_task k) (k_ttable k)
    (k_tasks k) (k_mapped_tasks k).

(** The state after loading the module. *)
Definition init_os : polyos := OS 0 [] ∅ 0 [] ∅ ∅.

(** ** Chained hash tables

    [hash_add] puts the new node at the head of its bucket and
    [hash_for_each_possible] walks the bucket from the head; nodes with equal
    keys share a bucket, so among them the newest is found first. *)

Fixpoint hash_search (key : Z) (l : list (Z * Z)) : option Z :=
  match l with
  | [] => None
  | (k, v) :: l => if k =? key then Some v else hash_search key l
  end.

Fixpoint hash_del_first (key : Z) (l : list (Z * Z)) : list (Z * Z) :=
  match l with
  | [] => []
  | (k, v) :: l => if k =? key then l else (k, v) :: hash_del_first key l
  end.

(** ** [inode.c] *)

(** [alloc_poly_inode]: the number is taken even when allocation fails. *)
Definition alloc_poly_inode (env : kenv) (path_hash type : Z) (k : polyos)
    : option Z * polyos :=
  let ino := s32 (k_next_ino k) in
  let k := k <| k_next_ino := u32 (k_next_ino k + 1) |> in
  if MAX_POLY_INODE_NR <? ino then (None, k)
  else if negb (vmalloc_inode_ok env) then (None, k)
  else (Some ino,
        k <| k_inodes :=
               <[ino := init_poly_inode (s32 path_hash) ino type]> (k_inodes k) |>).

(** [find_vma] on an address of a region the client maps as a whole. *)
Definition vma_covers (mapped : bool) (base range addr : Z) : bool :=
  mapped && (base <=? addr) && (addr <? base + range).

(** [free_poly_inode]: the structure is freed when its mapping is found.  The index
    memory, which the model keeps with the inode, goes with it. *)
Definition free_poly_inode (env : kenv) (ino : Z) (k : polyos) : polyos :=
  if vma_covers (inode_vma_ok env) POLY_INODE_VADDR_BASE POLY_INODE_VADDR_RANGE
       (GET_POLY_INODE_VADDR ino)
  then k <| k_inodes := delete ino (k_inodes k) |>
  else k.

Definition i_hashtable_insert (env : kenv) (path_hash ino : Z) (k : polyos)
    : Z * polyos :=
  if kmalloc_ok env
  then (0, k <| k_itable := (u32 path_hash, ino) :: k_itable k |>)
  else (- ENOMEM, k).

Definition i_hashtable_search (path_hash : Z) (k : polyos) : option Z :=
  hash_search (u32 path_hash) (k_itable k).

Definition i_hashtable_delete (path_hash : Z) (k : polyos) : polyos :=
  k <| k_itable := hash_del_first (u32 path_hash) (k_itable k) |>.

(** [i_hashtable_search_and_insert]; the first component is [None] for an error
    pointer.  An inode that turns out to exist replaces the fresh one.  The hash
    node is used without checking that its allocation succeeded. *)
Definition i_hashtable_search_and_insert (env : kenv) (path_hash type : Z)
    (k : polyos) : option (option Z * polyos) :=
  if negb (vmalloc_index_ok env) then Some (None, k)
  else
    match alloc_poly_inode env path_hash type k with
    | (None, k) => Some (None, k)
    | (Some ino, k) =>
        match i_hashtable_search path_hash k with
        | Some ino' =>
            Some (Some ino', k <| k_inodes := delete ino (k_inodes k) |>)
        | None =>
            if kmalloc_ok env
            then Some (Some ino,
                       k <| k_itable := (u32 path_hash, ino) :: k_itable k |>)
            else None
        end
    end.

(** [i_hashtable_search_and_rename]; the hash node is again used unchecked. *)
Definition i_hashtable_search_and_rename (env : kenv)
    (old_path_hash new_path_hash : Z) (k : polyos) : option (Z * polyos) :=
  match i_hashtable_search old_path_hash k with
  | None => Some (- ENOENT, k)
  | Some ino =>
      let k := i_hashtable_delete old_path_hash k in
      let k := k <| k_inodes :=
        alter (fun i => i <| i_path_hash := s32 new_path_hash |>) ino
          (k_inodes k) |> in
      if kmalloc_ok env
      then Some (0, k <| k_itable := (u32 new_path_hash, ino) :: k_itable k |>)
      else None
  end.

(** [clean_up_poly_inode_index], at module exit. *)
Definition clean_up_poly_inode_index (k : polyos) : polyos :=
  k <| k_inodes := foldr (fun e m => delete (snd e) m) (k_inodes k) (k_itable k) |>.

(** ** [taskctx.c] *)

(** [task_ctx_alloc]: the context is returned even when it could not be mapped
    into the client. *)
Definition task_ctx_alloc (env : kenv) (k : polyos) : option Z * polyos :=
  let task_id := s32 (k_next_task k) in
  let k := k <| k_next_task := u32 (k_next_task k + 1) |> in
  if POLYSTORE_MAX_TASK_NR <? task_id then (None, k)
  else if negb (vmalloc_task_ok env) then (None, k)
  else
    let k := k <| k_tasks :=
      <[task_id := Task (u32 task_id) 0 0 0 0 0 0 0]> (k_tasks k) |> in
    match task_vma env with
    | VmaExact =>
        if remap_task_ok env
        then (Some task_id,
              k <| k_mapped_tasks := {[task_id]} ∪ k_mapped_tasks k |>)
        else (Some task_id, k)
    | _ => (Some task_id, k)
    end.

(** [task_ctx_free]: that no VMA, or another one, was found is reported, but the
    pages of [vma] are removed nevertheless: an oops when there is none, and nothing
    when the address is outside it, so that the page stays mapped. *)
Definition task_ctx_free (env : kenv) (task_id : Z) (k : polyos) : option polyos :=
  _ ← k_tasks k !! task_id;
  match task_vma env with
  | VmaNone => None
  | VmaOther => Some (k <| k_tasks := delete task_id (k_tasks k) |>)
  | VmaExact =>
      Some (k <| k_tasks := delete task_id (k_tasks k) |>
              <| k_mapped_tasks := k_mapped_tasks k ∖ {[task_id]} |>)
  end.

(** A task context as a client sees it, through the page mapped at its address. *)
Definition task_at (k : polyos) (task_id : Z) : option g_task_ctx :=
  if decide (task_id ∈ k_mapped_tasks k) then k_tasks k !! task_id else None.

Definition task_ctx_hashtable_insert (env : kenv) (task_id task_ctx : Z)
    (k : polyos) : Z * polyos :=
  if kmalloc_ok env
  then (0, k <| k_ttable := (u32 task_id, task_ctx) :: k_ttable k |>)
  else (- ENOMEM, k).

Definition task_ctx_hashtable_search (task_id : Z) (k : polyos) : option Z :=
  hash_search (u32 task_id) (k_ttable k).

Definition task_ctx_hashtable_delete (task_id : Z) (k : polyos) : polyos :=
  k <| k_ttable := hash_del_first (u32 task_id) (k_ttable k) |>.

(** ** [operation.c]

    The command structures of [polyos_iocmd.h] are the arguments and results of
    the handlers. *)

(** [polyos_task_ctx_reg]: return value and, when the command is copied back,
    the task id and the address of the context. *)
Definition polyos_task_ctx_reg (env : kenv) (k : polyos)
    : Z * option (Z * Z) * polyos :=
  if negb (copy_from_ok env) then (- EFAULT, None, k)
  else
    match task_ctx_alloc env k with
    | (None, k) => (- ENOMEM, None, k)
    | (Some task_id, k) =>
        let '(ret, k) := task_ctx_hashtable_insert env task_id task_id k in
        if ret <? 0 then (ret, None, k)
        else if copy_to_ok env
        then (ret, Some (task_id, GET_TASK_CONTEXT_VADDR task_id), k)
        else (- EFAULT, None, k)
    end.

Definition polyos_task_ctx_delete (env : kenv) (task_id : Z) (k : polyos)
    : option (Z * polyos) :=
  if negb (copy_from_ok env) then Some (- EFAULT, k)
  else
    match task_ctx_hashtable_search task_id k with
    | None => Some (- ENOMEM, k)
    | Some task_ctx =>
        k ← task_ctx_free env task_ctx (task_ctx_hashtable_delete task_id k);
        Some (0, k)
    end.

(** [struct polyos_open_cmd] *)
Record polyos_open_cmd := OpenCmd {
  oc_fastpath : string;
  oc_slowpath : string;
  oc_path_hash : Z;
  oc_mode : Z;
  oc_flags : Z;
  oc_fd : Z;
  oc_inode_addr : Z;
  oc_index_addr : Z
}.

#[export] Instance open_cmd_copy : Copy polyos_open_cmd := fun c =>
  OpenCmd (oc_fastpath c) (oc_slowpath c) (oc_path_hash c) (oc_mode c)
    (oc_flags c) (oc_fd c) (oc_inode_addr c) (oc_index_addr c).

Section files.
Context {Fs : Type} `{!PosixNS Fs}.

(** [polyos_sys_open]: whether the file pointer is an error pointer, and the
    descriptor or error stored in [*outfd].  When no descriptor is free the file
    pointer is NULL, which is not an error pointer. *)
Definition polyos_sys_open (fs : Fs) (pathname : string) (flags mode : Z)
    : bool * Z * Fs :=
  let fd := ns_get_unused_fd fs flags in
  if 0 <=? fd then
    let '(r, fs) := ns_filp_open fs pathname flags mode fd in
    if r <? 0 then (true, r, fs) else (false, fd, fs)
  else (false, fd, fs).

(** The part of [polyos_open] after both files are open: find or create the
    inode and map it and its index into the client.  The command is returned as
    the handler leaves it. *)
Definition polyos_open_inode (env : kenv) (large : bool) (cmd : polyos_open_cmd)
    (k : polyos) : option (Z * polyos_open_cmd * polyos) :=
  '(inode, k) ←
    match i_hashtable_search (oc_path_hash cmd) k with
    | Some ino => Some (Some ino, k)
    | None => i_hashtable_search_and_insert env (oc_path_hash cmd) (oc_mode cmd) k
    end;
  match inode with
  | None => Some (- ENOENT, cmd, k)
  | Some ino =>
      let inode_addr := GET_POLY_INODE_VADDR ino in
      if negb (vma_covers (inode_vma_ok env) POLY_INODE_VADDR_BASE
                 POLY_INODE_VADDR_RANGE inode_addr)
      then Some (- EFAULT, cmd, k)
      else if negb (remap_inode_ok env) then Some (- EFAULT, cmd, k)
      else
        let cmd := cmd <| oc_inode_addr := inode_addr |> in
        let index_addr := GET_POLY_INDEX_VADDR large ino in
        if negb (vma_covers (index_vma_ok env) POLY_INDEX_VADDR_BASE
                   POLY_INDEX_VADDR_RANGE index_addr)
        then Some (- EFAULT, cmd, k)
        else if negb (remap_index_ok env) then Some (- EFAULT, cmd, k)
        else Some (0, cmd <| oc_index_addr := index_addr |>, k)
  end.

(** [polyos_open]: the command as the client sees it afterwards.  On a failed
    [copy_from_user] the handler's own, uninitialised [stack] copy is sent
    back. *)
Definition polyos_open (env : kenv) (large : bool) (stack cmd : polyos_open_cmd)
    (fs : Fs) (k : polyos) : option (Z * polyos_open_cmd * Fs * polyos) :=
  let copy_back ret (c : polyos_open_cmd) fs k :=
    if copy_to_ok env then Some (ret, c, fs, k) else Some (- EFAULT, cmd, fs, k) in
  if negb (copy_from_ok env) then copy_back (- EFAULT) stack fs k
  else
    let flags := Z.lor (oc_flags cmd) O_LARGEFILE in
    let '(err, fastfd, fs) :=
      polyos_sys_open fs (oc_fastpath cmd) flags (oc_mode cmd) in
    if (err : bool) then copy_back (- EINVAL) (cmd <| oc_fd := fastfd |>) fs k
    else
      let '(err, slowfd, fs) :=
        polyos_sys_open fs (oc_slowpath cmd) flags (oc_mode cmd) in
      if (err : bool) then copy_back (- EINVAL) (cmd <| oc_fd := slowfd |>) fs k
      else
        let cmd' := cmd <| oc_fd := POLYSTORE_GEN_FD fastfd slowfd |> in
        '(ret, cmd', k) ← polyos_open_inode env large cmd' k;
        copy_back ret cmd' fs k.

(** [polyos_close]: the value returned is that of closing the slow file. *)
Definition polyos_close (env : kenv) (fd path_hash : Z) (fs : Fs) (k : polyos)
    : option (Z * Fs * polyos) :=
  if negb (copy_from_ok env) then Some (- EFAULT, fs, k)
  else
    match i_hashtable_search path_hash k with
    | None => Some (- ENOENT, fs, k)
    | Some ino =>
        let '(_, fs) := ns_close fs (POLYSTORE_FAST_FD fd) in
        let '(ret, fs) := ns_close fs (POLYSTORE_SLOW_FD fd) in
        inode ← k_inodes k !! ino;
        let refcount := s32 (i_refcount inode - 1) in
        let k := k <| k_inodes :=
                   <[ino := inode <| i_refcount := refcount |>]> (k_inodes k) |> in
        if (refcount =? 0) && (i_reclaim inode =? 1)
        then Some (ret, fs, free_poly_inode env ino (i_hashtable_delete path_hash k))
        else Some (ret, fs, k)
    end.

End files.

Definition polyos_filerw : Z := 0.

Definition polyos_rename (env : kenv) (old_path_hash new_path_hash : Z)
    (k : polyos) : option (Z * polyos) :=
  if negb (copy_from_ok env) then Some (- EFAULT, k)
  else i_hashtable_search_and_rename env old_path_hash new_path_hash k.

Definition polyos_unlink (env : kenv) (path_hash : Z) (k : polyos)
    : option (Z * polyos) :=
  if negb (copy_from_ok env) then Some (- EFAULT, k)
  else
    match i_hashtable_search path_hash k with
    | None => Some (- ENOENT, k)
    | Some ino =>
        inode ← k_inodes k !! ino;
        if i_refcount inode =? 0
        then Some (0, free_poly_inode env ino (i_hashtable_delete path_hash k))
        else Some (0, k <| k_inodes :=
                        <[ino := inode <| i_reclaim := 1 |>]> (k_inodes k) |>)
    end.

(** *** Mapping the global variables into a client *)

(** The pages of the two shared variables. *)
Inductive shared_page := ConfigPage (pace : Z) | ControlPage (pace : Z).

(** The page tables of the client, restricted to the two regions. *)
Abbreviation ptes := (gmap Z shared_page).

(** The loop of [polyos_client_init] over the pages of one region; [remap] is
    the outcome of [remap_pfn_range] at each address. *)
Fixpoint map_pages (fuel : nat) (remap : Z -> bool) (page : Z -> shared_page)
    (addr size pace : Z) (pt : ptes) : option (bool * ptes) :=
  if pace <? size then
    match fuel with
    | O => None
    | S fuel =>
        if remap (addr + pace)
        then map_pages fuel remap page addr size (pace + PAGE_SIZE)
               (<[addr + pace := page pace]> pt)
        else Some (false, pt)
    end
  else Some (true, pt).

(** The loop of [polyos_client_exit]; [zap_vma_ptes] has no effect outside the
    VMA it is given. *)
Fixpoint unmap_pages (fuel : nat) (exact : bool) (addr size pace : Z) (pt : ptes)
    : option ptes :=
  if pace <? size then
    match fuel with
    | O => None
    | S fuel =>
        unmap_pages fuel exact addr size (pace + PAGE_SIZE)
          (if exact then delete (addr + pace) pt else pt)
    end
  else Some pt.

(** 16 pages of each region, see [POLYSTORE_CONFIG_VAR_SIZE]. *)
Definition page_fuel : nat := 16.

Definition polyos_client_init (env : kenv) (config_vma control_vma : vma_lookup)
    (remap : Z -> bool) (config_var_addr control_var_addr : Z) (pt : ptes)
    : option (Z * ptes) :=
  if negb (copy_from_ok env) then Some (- EFAULT, pt)
  else
    match config_vma with
    | VmaExact =>
        '(ok, pt) ← map_pages page_fuel remap ConfigPage config_var_addr
                      POLYSTORE_CONFIG_VAR_SIZE 0 pt;
        if negb ok then Some (- EFAULT, pt)
        else
          match control_vma with
          | VmaExact =>
              '(ok, pt) ← map_pages page_fuel remap ControlPage control_var_addr
                            POLYSTORE_CONTROL_VAR_SIZE 0 pt;
              if negb ok then Some (- EFAULT, pt) else Some (0, pt)
          | _ => Some (- ENOMEM, pt)
          end
    | _ => Some (- ENOMEM, pt)
    end.

(** A missing VMA is reported but then used; the second loop runs over the size
    of the first region. *)
Definition polyos_client_exit (env : kenv) (config_vma control_vma : vma_lookup)
    (config_var_addr control_var_addr : Z) (pt : ptes) : option (Z * ptes) :=
  if negb (copy_from_ok env) then Some (- EFAULT, pt)
  else
    match config_vma, control_vma with
    | VmaNone, _ => None
    | c, d =>
        pt ← unmap_pages page_fuel (match c with VmaExact => true | _ => false end)
               config_var_addr POLYSTORE_CONFIG_VAR_SIZE 0 pt;
        match d with
        | VmaNone => None
        | _ =>
            pt ← unmap_pages page_fuel (match d with VmaExact => true | _ => false end)
                   control_var_addr POLYSTORE_CONFIG_VAR_SIZE 0 pt;
            Some (0, pt)
        end
    end.

(** ** [polyos.c]: the ioctl entry point *)

Inductive ioctl_req :=
| ClientInit (config_var_addr control_var_addr : Z)
| ClientExit (config_var_addr control_var_addr : Z)
| TaskCtxReg
| TaskCtxDelete (task_id : Z)
| Open (cmd : polyos_open_cmd)
| Rw
| Close (fd path_hash : Z)
| Rename (old_path_hash new_path_hash : Z)
| Unlink (path_hash : Z)
| Invalid.

(** The command structure copied back to the client, if any. *)
Inductive ioctl_out :=
| NoOut
| TaskOut (task_id task_ctx_addr : Z)
| OpenOut (cmd : polyos_open_cmd).

(** What the kernel finds and does at the two addresses a client gives for the
    global variables. *)
Record cenv := CEnv {
  config_vma : vma_lookup;
  control_vma : vma_lookup;
  remap_page : Z -> bool            (* remap_pfn_range, by address *)
}.

(** [polyos_control_ioctl]; [pt] are the client's page tables. *)
Definition polyos_control_ioctl {Fs : Type} `{!PosixNS Fs} (env : kenv) (cl : cenv)
    (large : bool) (stack : polyos_open_cmd) (req : ioctl_req) (fs : Fs)
    (k : polyos) (pt : ptes) : option (Z * ioctl_out * Fs * polyos * ptes) :=
  match req with
  | ClientInit config control =>
      '(ret, pt) ← polyos_client_init env (config_vma cl) (control_vma cl)
                     (remap_page cl) config control pt;
      Some (ret, NoOut, fs, k, pt)
  | ClientExit config control =>
      '(ret, pt) ← polyos_client_exit env (config_vma cl) (control_vma cl)
                     config control pt;
      Some (ret, NoOut, fs, k, pt)
  | TaskCtxReg =>
      let '(ret, out, k) := polyos_task_ctx_reg env k in
      Some (ret, match out with Some (i, a) => TaskOut i a | None => NoOut end,
            fs, k, pt)
  | TaskCtxDelete task_id =>
      '(ret, k) ← polyos_task_ctx_delete env task_id k;
      Some (ret, NoOut, fs, k, pt)
  | Open cmd =>
      '(ret, cmd, fs, k) ← polyos_open env large stack cmd fs k;
      Some (ret, OpenOut cmd, fs, k, pt)
  | Rw => Some (polyos_filerw, NoOut, fs, k, pt)
  | Close fd path_hash =>
      '(ret, fs, k) ← polyos_close env fd path_hash fs k;
      Some (ret, NoOut, fs, k, pt)
  | Rename old new =>
      '(ret, k) ← polyos_rename env old new k;
      Some (ret, NoOut, fs, k, pt)
  | Unlink path_hash =>
      '(ret, k) ← polyos_unlink env path_hash k;
      Some (ret, NoOut, fs, k, pt)
  | Invalid => Some (- ENOTTY, NoOut, fs, k, pt)
  end.

(** What [ioctl] returns in the client: -1 for every error of the handler. *)
Definition ioctl_ret (ret : Z) : Z := if ret <? 0 then -1 else ret.

(** ** The invariant of the inode table *)

Record kinv (k : polyos) : Prop := {
  ki_keys : NoDup (k_itable k).*1;
  ki_inos : NoDup (k_itable k).*2;
  ki_alive : forall h ino, (h, ino) ∈ k_itable k ->
    exists i, k_inodes k !! ino = Some i /\ u32 (i_path_hash i) = h;
  ki_fresh : forall ino i, k_inodes k !! ino = Some i ->
    0 <= ino < k_next_ino k /\ i_ino i = ino;
  ki_next : 0 <= k_next_ino k
}.

Lemma hash_search_Some key l v :
  hash_search key l = Some v -> (key, v) ∈ l.
Proof.
  induction l as [|[k w] l IH]; cbn; [done|]. zif.
  - intros [= ->]. subst. left.
  - intros ?. right. auto.
Qed.

Lemma hash_search_None key l v :
  hash_search key l = None -> (key, v) ∉ l.
Proof.
  induction l as [|[k w] l IH]; cbn; [set_solver|]. zif; [done|].
  intros ? [[= -> ->]|?]%elem_of_cons; [done|]. by apply IH.
Qed.

Lemma hash_search_elem key l v :
  NoDup l.*1 -> (key, v) ∈ l -> hash_search key l = Some v.
Proof.
  induction l as [|[k w] l IH]; cbn; intros Hnd Hin; [set_solver|].
  apply NoDup_cons in Hnd as [Hk Hnd].
  apply elem_of_cons in Hin as [[= -> ->]|Hin].
  - by rewrite Z.eqb_refl.
  - rewrite (proj2 (Z.eqb_neq _ _)); [by apply IH|]. intros ->.
    apply Hk. by apply (list_elem_of_fmap_2 fst) in Hin.
Qed.

Lemma hash_del_first_sublist key l : sublist (hash_del_first key l) l.
Proof.
  induction l as [|[k w] l IH]; cbn; [constructor|]. zif.
  - by apply sublist_cons.
  - by apply sublist_skip.
Qed.

Lemma elem_of_hash_del_first key l h v :
  NoDup l.*1 -> (h, v) ∈ hash_del_first key l <-> (h, v) ∈ l /\ h <> key.
Proof.
  induction l as [|[k w] l IH]; cbn; intros Hnd; [set_solver|].
  apply NoDup_cons in Hnd as [Hk Hnd]. zif.
  - subst. split.
    + intros Hin. split; [by right|]. intros ->. apply Hk.
      by apply (list_elem_of_fmap_2 fst) in Hin.
    + intros [[[= -> ->]|?]%elem_of_cons ?]; done.
  - rewrite !elem_of_cons, IH by done. naive_solver.
Qed.

Lemma kinv_init : kinv init_os.
Proof.
  split; cbn; try done; try constructor; try lia.
  intros h ino Hin. by apply elem_of_nil in Hin.
Qed.

(** The table and the counter alone decide about sizes and keys. *)
Lemma kinv_ext k k' :
  kinv k -> k_itable k' = k_itable k -> k_inodes k' = k_inodes k ->
  k_next_ino k' = k_next_ino k -> kinv k'.
Proof. intros [] E1 E2 E3. split; rewrite ?E1, ?E2, ?E3; done. Qed.

Lemma kinv_alter k ino i i' :
  kinv k -> k_inodes k !! ino = Some i ->
  i_path_hash i' = i_path_hash i -> i_ino i' = i_ino i ->
  kinv (k <| k_inodes := <[ino := i']> (k_inodes k) |>).
Proof.
  intros [] Hi Hh Hn. split; cbn; try done.
  - intros h ino' Hin. destruct (ki_alive0 h ino' Hin) as (j & Hj & Hh').
    destruct (decide (ino' = ino)) as [->|].
    + rewrite Hi in Hj. injection Hj as <-. exists i'.
      by rewrite lookup_insert_eq, Hh.
    + exists j. by rewrite lookup_insert_ne by done.
  - intros ino' j [[<- <-]|[? ?]]%lookup_insert_Some; [|by eauto].
    rewrite Hn. eauto.
Qed.

(** Taking an inode out of the table, and freeing it or not. *)
Lemma kinv_delete k h : kinv k -> kinv (i_hashtable_delete h k).
Proof.
  intros []. pose proof (hash_del_first_sublist (u32 h) (k_itable k)) as Hsub.
  split; cbn; try done.
  - eapply sublist_NoDup; [exact ki_keys0|]. by apply fmap_sublist.
  - eapply sublist_NoDup; [exact ki_inos0|]. by apply fmap_sublist.
  - intros h' ino Hin. apply ki_alive0. by eapply elem_of_sublist.
Qed.

Lemma kinv_free env ino k :
  kinv k -> (forall h, (h, ino) ∉ k_itable k) -> kinv (free_poly_inode env ino k).
Proof.
  intros H Hno. unfold free_poly_inode. zif; [|done]. destruct H.
  split; cbn; try done.
  - intros h ino' Hin. destruct (ki_alive0 h ino' Hin) as (j & Hj & Hh').
    exists j. rewrite lookup_delete_ne; [done|]. intros ->. by apply (Hno h).
  - intros ino' j [? ?]%lookup_delete_Some. eauto.
Qed.

Lemma not_in_deleted k h ino h' :
  kinv k -> hash_search (u32 h) (k_itable k) = Some ino ->
  (h', ino) ∉ k_itable (i_hashtable_delete h k).
Proof.
  intros H Hs Hin. cbn in Hin. pose proof (hash_search_Some _ _ _ Hs) as Hin2.
  apply elem_of_hash_del_first in Hin as [Hin Hne]; [|apply H].
  assert (forall l : list (Z * Z), NoDup l.*2 -> (h', ino) ∈ l -> (u32 h, ino) ∈ l ->
    h' = u32 h) as Huniq.
  { clear. induction l as [|[a b] l IH]; cbn; intros Hnd H1 H2; [set_solver|].
    apply NoDup_cons in Hnd as [Hb Hnd].
    apply elem_of_cons in H1 as [E1|H1]; apply elem_of_cons in H2 as [E2|H2];
      simplify_eq; [done| | |by auto]; destruct Hb;
      apply list_elem_of_fmap; by eexists (_, _). }
  by apply Hne, (Huniq (k_itable k)); [apply H|..].
Qed.

(** A new inode under a hash that is not in the table. *)
Lemma kinv_add k h type :
  kinv k -> k_next_ino k < 2 ^ 31 - 1 -> (forall ino, (u32 h, ino) ∉ k_itable k) ->
  let ino := k_next_ino k in
  kinv (k <| k_next_ino := ino + 1 |>
          <| k_inodes := <[ino := init_poly_inode (s32 h) ino type]> (k_inodes k) |>
          <| k_itable := (u32 h, ino) :: k_itable k |>).
Proof.
  intros H Hlt Hno ino.
  assert (forall h' ino', (h', ino') ∈ k_itable k -> ino' <> ino) as Hne.
  { intros h' ino' Hin. destruct (ki_alive _ H _ _ Hin) as (j & Hj & _).
    apply (ki_fresh _ H) in Hj. lia. }
  destruct H. split; cbn.
  - constructor; [|done]. intros Hin. apply list_elem_of_fmap in Hin as ([a b] & Ha & Hin).
    apply (Hno b). by rewrite Ha.
  - constructor; [|done]. intros Hin.
    apply list_elem_of_fmap in Hin as ([a b] & Hb & Hin). by apply (Hne a b).
  - intros h' ino' [[= -> ->]|Hin]%elem_of_cons.
    + rewrite lookup_insert_eq. eexists. split; [done|]. cbn.
      apply u32_s32.
    + rewrite lookup_insert_ne by (symmetry; by eapply Hne). eauto.
  - intros ino' j [[<- <-]|[? Hj]]%lookup_insert_Some; [cbn; lia|].
    apply ki_fresh0 in Hj. lia.
  - lia.
Qed.

(** A refused allocation only advances the counter. *)
Lemma kinv_skip k :
  kinv k -> kinv (k <| k_next_ino := k_next_ino k + 1 |>).
Proof.
  intros []. split; cbn; try done; [|lia]. intros ino i Hi.
  apply ki_fresh0 in Hi. lia.
Qed.

(** What opening adds to the kernel's state: inodes without references. *)
Definition os_grows (k k' : polyos) : Prop :=
  (forall ino i, k_inodes k !! ino = Some i -> k_inodes k' !! ino = Some i) /\
  (forall ino i, k_inodes k' !! ino = Some i ->
     k_inodes k !! ino = Some i \/ k_inodes k !! ino = None /\ i_refcount i = 0) /\
  (forall e, e ∈ k_itable k -> e ∈ k_itable k').

Lemma os_grows_refl k : os_grows k k.
Proof. split_and!; auto. Qed.

#[local] Hint Resolve os_grows_refl : core.

Lemma search_and_insert_kinv env h type k :
  kinv k -> k_next_ino k < 2 ^ 31 - 1 -> kmalloc_ok env = true ->
  i_hashtable_search h k = None ->
  exists r k', i_hashtable_search_and_insert env h type k = Some (r, k') /\
    kinv k' /\ k_next_ino k' <= k_next_ino k + 1 /\
    (forall ino, r = Some ino -> i_hashtable_search h k' = Some ino) /\
    os_grows k k'.
Proof.
  intros H Hlt Hk Hs. pose proof (ki_next _ H) as Hn.
  unfold i_hashtable_search_and_insert, alloc_poly_inode.
  destruct (negb (vmalloc_index_ok env)).
  { exists None, k. split_and!; auto; done || lia. }
  rewrite s32_id, u32_id by lia.
  destruct (MAX_POLY_INODE_NR <? k_next_ino k); [|destruct (vmalloc_inode_ok env)];
    cbn [negb].
  1, 3: exists None; eexists; split_and!; [done|by apply kinv_skip|done|done|split_and!; by auto].
  unfold i_hashtable_search in Hs |- *. cbn [k_itable update].
  rewrite Hs, Hk. do 2 eexists. split_and!; [done| |done| |].
  - apply (kinv_add k h type); [done..|]. intros ino. by apply hash_search_None.
  - intros ino [= <-]. cbn. by rewrite Z.eqb_refl.
  - assert (k_inodes k !! k_next_ino k = None) as Hnone.
    { destruct (k_inodes k !! _) eqn:Hi; [|done]. apply (ki_fresh _ H) in Hi. lia. }
    split_and!; cbn.
    + intros ino i Hi. rewrite lookup_insert_ne; [done|].
      apply (ki_fresh _ H) in Hi. lia.
    + intros ino i [[<- <-]|[? ?]]%lookup_insert_Some; auto.
    + intros e He. by right.
Qed.

Lemma open_inode_kinv env large cmd k :
  kinv k -> k_next_ino k < 2 ^ 31 - 1 -> kmalloc_ok env = true ->
  exists ret cmd' k', polyos_open_inode env large cmd k = Some (ret, cmd', k') /\
    kinv k' /\ k_next_ino k' <= k_next_ino k + 1 /\
    os_grows k k' /\
    oc_fd cmd' = oc_fd cmd /\
    (ret = 0 \/ ret < 0) /\
    (ret = 0 -> exists ino, i_hashtable_search (oc_path_hash cmd) k' = Some ino /\
       oc_inode_addr cmd' = GET_POLY_INODE_VADDR ino /\
       oc_index_addr cmd' = GET_POLY_INDEX_VADDR large ino).
Proof.
  intros H Hlt Hk. unfold polyos_open_inode.
  assert (exists r k', match i_hashtable_search (oc_path_hash cmd) k with
    | Some ino => Some (Some ino, k)
    | None => i_hashtable_search_and_insert env (oc_path_hash cmd) (oc_mode cmd) k
    end = Some (r, k') /\ kinv k' /\ k_next_ino k' <= k_next_ino k + 1 /\
    (forall ino, r = Some ino -> i_hashtable_search (oc_path_hash cmd) k' = Some ino) /\
    os_grows k k')
    as (r & k' & -> & H' & Hn & Hr & Hold).
  { destruct (i_hashtable_search (oc_path_hash cmd) k) as [ino|] eqn:Es.
    - exists (Some ino), k. split_and!; [done|done|lia|congruence|done].
    - by apply search_and_insert_kinv. }
  cbn [mbind option_bind].
  destruct r as [ino|]; [|do 3 eexists; split_and!; [done..|by right|done]].
  destruct (negb _); [do 3 eexists; split_and!; [done..|by right|done]|].
  destruct (negb _); [do 3 eexists; split_and!; [done..|by right|done]|].
  destruct (negb _); [do 3 eexists; split_and!; [done..|by right|done]|].
  destruct (negb _); [do 3 eexists; split_and!; [done..|by right|done]|].
  do 3 eexists. split_and!; [done..|by left|]. intros _. exists ino.
  split_and!; [by apply Hr|done|done].
Qed.

Section handlers.
Context {Fs : Type} `{!PosixNS Fs}.

Lemma close_kinv env fd h (fs : Fs) k :
  kinv k ->
  exists ret fs' k', polyos_close env fd h fs k = Some (ret, fs', k') /\
    kinv k' /\ k_next_ino k' = k_next_ino k.
Proof.
  intros H. unfold polyos_close, i_hashtable_search.
  destruct (negb _); [by eauto 10|].
  destruct (hash_search _ _) as [ino|] eqn:Es; [|by eauto 10].
  destruct (ns_close fs _) as [? fs1], (ns_close fs1 _) as [ret fs2].
  destruct (ki_alive _ H _ _ (hash_search_Some _ _ _ Es)) as (i & Hi & _).
  rewrite Hi. cbn [mbind option_bind].
  assert (kinv (k <| k_inodes := <[ino := i <| i_refcount := s32 (i_refcount i - 1)|>]>
    (k_inodes k) |>)) as H' by (by eapply kinv_alter).
  destruct (_ && _); do 3 eexists; (split_and!; [done| |]).
  - apply kinv_free; [by apply kinv_delete|]. intros h'.
    by apply not_in_deleted.
  - unfold free_poly_inode. by destruct (vma_covers _ _ _ _).
  - done.
  - done.
Qed.

End handlers.

Lemma unlink_kinv env h k :
  kinv k ->
  exists ret k', polyos_unlink env h k = Some (ret, k') /\
    kinv k' /\ k_next_ino k' = k_next_ino k.
Proof.
  intros H. unfold polyos_unlink, i_hashtable_search.
  destruct (negb _); [by eauto 10|].
  destruct (hash_search _ _) as [ino|] eqn:Es; [|by eauto 10].
  destruct (ki_alive _ H _ _ (hash_search_Some _ _ _ Es)) as (i & Hi & _).
  rewrite Hi. cbn [mbind option_bind].
  destruct (_ =? _); do 2 eexists; (split_and!; [done| |]).
  - apply kinv_free; [by apply kinv_delete|]. intros h'.
    by apply not_in_deleted.
  - unfold free_poly_inode. by destruct (vma_covers _ _ _ _).
  - by eapply kinv_alter.
  - done.
Qed.

Lemma rename_kinv env old new k :
  kinv k -> kmalloc_ok env = true ->
  (forall ino, (u32 new, ino) ∉ k_itable (i_hashtable_delete old k)) ->
  exists ret k', polyos_rename env old new k = Some (ret, k') /\
    kinv k' /\ k_next_ino k' = k_next_ino k.
Proof.
  intros H Hk Hnew. unfold polyos_rename, i_hashtable_search_and_rename.
  destruct (negb _); [by eauto 10|]. unfold i_hashtable_search.
  destruct (hash_search _ _) as [ino|] eqn:Es; [|by eauto 10].
  destruct (ki_alive _ H _ _ (hash_search_Some _ _ _ Es)) as (i & Hi & _).
  rewrite Hk. do 2 eexists. split_and!; [done| |done].
  pose proof (fun h' => not_in_deleted k old ino h' H Es) as Hino.
  destruct (kinv_delete k old H). split; cbn in *; try done.
  - constructor; [|done]. intros Hin.
    apply list_elem_of_fmap in Hin as ([a b] & Ha & Hin). apply (Hnew b).
    by rewrite Ha.
  - constructor; [|done]. intros Hin.
    apply list_elem_of_fmap in Hin as ([a b] & Hb & Hin). apply (Hino a).
    by rewrite Hb.
  - intros h' ino' [[= -> ->]|Hin]%elem_of_cons.
    + rewrite lookup_alter_eq, Hi. eexists. split; [done|]. apply u32_s32.
    + rewrite lookup_alter_ne; [by auto|]. intros ->. by apply (Hino h').
  - intros ino' j Hj. destruct (decide (ino' = ino)) as [->|].
    + rewrite lookup_alter_eq, Hi in Hj. injection Hj as <-. cbn.
      apply (ki_fresh0 _ _ Hi).
    + rewrite lookup_alter_ne in Hj by done. eauto.
Qed.

Lemma open_kinv {Fs} `{!PosixNS Fs} env large stack cmd (fs : Fs) k :
  kinv k -> k_next_ino k < 2 ^ 31 - 1 -> kmalloc_ok env = true ->
  exists ret cmd' fs' k', polyos_open env large stack cmd fs k =
      Some (ret, cmd', fs', k') /\ kinv k' /\ k_next_ino k' <= k_next_ino k + 1 /\
    os_grows k k' /\ (ret = 0 \/ ret < 0) /\
    (ret = 0 -> exists ino, i_hashtable_search (oc_path_hash cmd) k' = Some ino /\
       oc_inode_addr cmd' = GET_POLY_INODE_VADDR ino /\
       oc_index_addr cmd' = GET_POLY_INDEX_VADDR large ino).
Proof.
  intros H Hlt Hk. unfold polyos_open.
  assert (forall ret c fs', ret < 0 -> exists ret' cmd' fs'' k',
    (if copy_to_ok env then Some (ret, c, fs', k) else Some (- EFAULT, cmd, fs', k)) =
      Some (ret', cmd', fs'' : Fs, k') /\ kinv k' /\ k_next_ino k' <= k_next_ino k + 1 /\
    os_grows k k' /\ (ret' = 0 \/ ret' < 0) /\
    (ret' = 0 -> exists ino, i_hashtable_search (oc_path_hash cmd) k' = Some ino /\
       oc_inode_addr cmd' = GET_POLY_INODE_VADDR ino /\
       oc_index_addr cmd' = GET_POLY_INDEX_VADDR large ino)) as Herr.
  { intros ret c fs' Hr. unfold EFAULT.
    destruct (copy_to_ok env); do 4 eexists; split_and!; auto; lia. }
  destruct (negb _); [by apply Herr|].
  destruct (polyos_sys_open fs _ _ _) as [[[] fastfd] fs1]; [by apply Herr|].
  destruct (polyos_sys_open fs1 _ _ _) as [[[] slowfd] fs2]; [by apply Herr|].
  destruct (open_inode_kinv env large
    (cmd <| oc_fd := POLYSTORE_GEN_FD fastfd slowfd |>) k)
    as (ret & cmd' & k' & -> & H' & Hn & Hg & _ & Hret & Hino); [done..|].
  cbn [mbind option_bind]. clear Herr.
  destruct (copy_to_ok env); do 4 eexists; split_and!; try done. by right.
Qed.

(** *** Task contexts *)

Lemma task_at_Some k id t :
  task_at k id = Some t <-> id ∈ k_mapped_tasks k /\ k_tasks k !! id = Some t.
Proof. unfold task_at. destruct (decide _); naive_solver. Qed.

(** Storing through the pointer to a mapped context. *)
Lemma task_at_stored k k' id t t' :
  task_at k id = Some t -> k_mapped_tasks k' = k_mapped_tasks k ->
  k_tasks k' !! id = Some t' -> task_at k' id = Some t'.
Proof. rewrite !task_at_Some. intros [] -> ?. done. Qed.

Record tinv (k : polyos) : Prop := {
  ti_keys : NoDup (k_ttable k).*1;
  ti_alive : forall h id, (h, id) ∈ k_ttable k ->
    h = u32 id /\ exists t, k_tasks k !! id = Some t;
  ti_fresh : forall id t, k_tasks k !! id = Some t ->
    0 <= id < k_next_task k /\ t_task_id t = id;
  ti_next : 0 <= k_next_task k
}.

Lemma tinv_ext k k' :
  tinv k -> k_ttable k' = k_ttable k -> k_tasks k' = k_tasks k ->
  k_next_task k' = k_next_task k -> tinv k'.
Proof. intros [] E1 E2 E3. split; rewrite ?E1, ?E2, ?E3; done. Qed.

Lemma tinv_init : tinv init_os.
Proof.
  split; cbn; try done; try constructor; try lia.
  - by apply elem_of_nil in H.
  - by apply elem_of_nil in H.
Qed.

(** A new context, in the table or not. *)
Lemma tinv_alloc k t :
  tinv k -> k_next_task k < 2 ^ 31 - 1 -> t_task_id t = k_next_task k ->
  let id := k_next_task k in
  let k1 := k <| k_next_task := id + 1 |> <| k_tasks := <[id := t]> (k_tasks k) |> in
  tinv k1 /\ tinv (k1 <| k_ttable := (u32 id, id) :: k_ttable k |>).
Proof.
  intros H Hlt Ht id k1. pose proof (ti_next _ H).
  assert (tinv k1) as H1.
  { destruct H. split; cbn; [done| | |lia].
    - intros h id' Hin. destruct (ti_alive0 h id' Hin) as (-> & t' & Ht').
      split; [done|]. exists t'. rewrite lookup_insert_ne; [done|].
      apply ti_fresh0 in Ht'. lia.
    - intros id' t' [[<- <-]|[? Ht']]%lookup_insert_Some; [lia|].
      apply ti_fresh0 in Ht'. lia. }
  split; [done|]. destruct H1. split; cbn in *; try done.
  - constructor; [|done]. intros ([h id'] & Hh & Hin)%list_elem_of_fmap. cbn in Hh.
    destruct (ti_alive _ H h id' Hin) as (-> & t' & Ht'). apply (ti_fresh _ H) in Ht'.
    rewrite !u32_id in Hh by lia. lia.
  - intros h id' [[= -> ->]|Hin]%elem_of_cons; [|by auto].
    split; [done|]. exists t. apply lookup_insert_eq.
Qed.

Lemma tinv_skip k :
  tinv k -> tinv (k <| k_next_task := k_next_task k + 1 |>).
Proof.
  intros []. split; cbn; try done; [|lia]. intros id t Ht. apply ti_fresh0 in Ht. lia.
Qed.

Lemma task_reg_tinv env k :
  tinv k -> k_next_task k < 2 ^ 31 - 1 ->
  tinv (snd (polyos_task_ctx_reg env k)) /\
  k_next_task (snd (polyos_task_ctx_reg env k)) <= k_next_task k + 1.
Proof.
  intros H Hlt. pose proof (ti_next _ H) as Hn.
  unfold polyos_task_ctx_reg, task_ctx_alloc, task_ctx_hashtable_insert.
  destruct (negb _); [cbn; split; [done|lia]|].
  rewrite s32_id, u32_id by lia.
  destruct (_ <? _); [cbn; split; [by apply tinv_skip|lia]|].
  destruct (negb _); [cbn; split; [by apply tinv_skip|lia]|].
  destruct (tinv_alloc k (Task (u32 (k_next_task k)) 0 0 0 0 0 0 0)) as [H1 H2];
    [done|done|cbn; by rewrite u32_id by lia|].
  destruct (task_vma env), (remap_task_ok env), (kmalloc_ok env), (copy_to_ok env);
    change (- ENOMEM <? 0) with true; (split; [|cbn; lia]);
    first [by eapply tinv_ext; [exact H1|..]|by eapply tinv_ext; [exact H2|..]].
Qed.

Lemma tinv_remove k h id :
  tinv k -> hash_search (u32 h) (k_ttable k) = Some id ->
  tinv (task_ctx_hashtable_delete h k
          <| k_tasks := delete id (k_tasks k) |>).
Proof.
  intros H Hs. pose proof (hash_search_Some _ _ _ Hs) as Hin.
  destruct (ti_alive _ H _ _ Hin) as (Hh & t & Ht).
  pose proof (ti_fresh _ H _ _ Ht) as [Hr _].
  split; cbn.
  - eapply sublist_NoDup; [apply H|]. apply fmap_sublist, hash_del_first_sublist.
  - intros h' id' Hin'. apply elem_of_hash_del_first in Hin' as [Hin' Hne]; [|apply H].
    destruct (ti_alive _ H _ _ Hin') as (-> & t' & Ht'). split; [done|]. exists t'.
    rewrite lookup_delete_ne; [done|]. intros ->. by rewrite Hh in Hne.
  - intros id' t' [? Ht']%lookup_delete_Some. by apply (ti_fresh _ H).
  - apply H.
Qed.

Lemma task_delete_tinv env id k :
  tinv k -> task_vma env <> VmaNone ->
  exists ret k', polyos_task_ctx_delete env id k = Some (ret, k') /\
    tinv k' /\ k_next_task k' = k_next_task k /\
    k_itable k' = k_itable k /\ k_inodes k' = k_inodes k /\ k_next_ino k' = k_next_ino k.
Proof.
  intros H Hv. unfold polyos_task_ctx_delete, task_ctx_hashtable_search.
  destruct (negb _); [by do 2 eexists|].
  destruct (hash_search _ _) as [id'|] eqn:Es; [|by do 2 eexists].
  destruct (ti_alive _ H _ _ (hash_search_Some _ _ _ Es)) as (_ & t & Ht).
  unfold task_ctx_free, task_ctx_hashtable_delete.
  cbn [k_tasks update]. rewrite Ht. cbn [mbind option_bind].
  pose proof (tinv_remove _ _ _ H Es) as H'.
  destruct (task_vma env); [done|..]; do 2 eexists;
    (split_and!; [done|by eapply tinv_ext|done..]).
Qed.

(** *** All requests *)

(** The page loops end with their fuel, whatever [remap_pfn_range] answers. *)
Lemma map_pages_total remap page addr size (fuel : nat) : forall pace pt,
  size - pace <= fuel * PAGE_SIZE ->
  exists r, map_pages fuel remap page addr size pace pt = Some r.
Proof.
  induction fuel as [|fuel IH]; intros pace pt Hf; cbn [map_pages];
    (destruct (pace <? size) eqn:E; zbool; [|by eexists]); [lia|].
  destruct (remap _); [|by eexists]. apply IH. unfold PAGE_SIZE in *. lia.
Qed.

Lemma unmap_pages_total exact addr size (fuel : nat) : forall pace pt,
  size - pace <= fuel * PAGE_SIZE ->
  exists r, unmap_pages fuel exact addr size pace pt = Some r.
Proof.
  induction fuel as [|fuel IH]; intros pace pt Hf; cbn [unmap_pages];
    (destruct (pace <? size) eqn:E; zbool; [|by eexists]); [lia|].
  apply IH. unfold PAGE_SIZE in *. lia.
Qed.

Lemma client_init_total env c d remap ca da pt :
  exists r, polyos_client_init env c d remap ca da pt = Some r.
Proof.
  unfold polyos_client_init. destruct (negb _); [eauto|]. destruct c; eauto.
  destruct (map_pages_total remap ConfigPage ca POLYSTORE_CONFIG_VAR_SIZE page_fuel 0 pt)
    as [[[] pt1] ->]; [done|..]; cbn [mbind option_bind negb]; [|eauto].
  destruct d; eauto.
  destruct (map_pages_total remap ControlPage da POLYSTORE_CONTROL_VAR_SIZE page_fuel 0
    pt1) as [[[] pt2] ->]; [done|..]; cbn; eauto.
Qed.

Lemma client_exit_total env c d ca da pt :
  c <> VmaNone -> d <> VmaNone ->
  exists r, polyos_client_exit env c d ca da pt = Some r.
Proof.
  intros Hc Hd. unfold polyos_client_exit. destruct (negb _); [eauto|].
  destruct (unmap_pages_total (match c with VmaExact => true | _ => false end) ca
    POLYSTORE_CONFIG_VAR_SIZE page_fuel 0 pt) as [pt1 E1]; [done|].
  destruct (unmap_pages_total (match d with VmaExact => true | _ => false end) da
    POLYSTORE_CONFIG_VAR_SIZE page_fuel 0 pt1) as [pt2 E2]; [done|].
  destruct c; [done|..]; rewrite E1; cbn [mbind option_bind];
    (destruct d; [done|..]); rewrite E2; cbn; eauto.
Qed.

(** What a request needs to be safe: a hash node for a new name, a VMA where pages
    are to be removed, and for a rename a target that is not in the table. *)
Definition request_ok (env : kenv) (cl : cenv) (req : ioctl_req) (k : polyos) : Prop :=
  match req with
  | Open _ => kmalloc_ok env = true
  | Rename old new => kmalloc_ok env = true /\
      forall ino, (u32 new, ino) ∉ k_itable (i_hashtable_delete old k)
  | TaskCtxDelete _ => task_vma env <> VmaNone
  | ClientExit _ _ => config_vma cl <> VmaNone /\ control_vma cl <> VmaNone
  | _ => True
  end.

(** Open, close, rename and unlink leave the tasks alone. *)
Definition same_tasks (k k' : polyos) : Prop :=
  k_ttable k' = k_ttable k /\ k_tasks k' = k_tasks k /\ k_next_task k' = k_next_task k.

Lemma open_same_tasks {Fs} `{!PosixNS Fs} env large stack cmd (fs : Fs) k r c fs' k' :
  polyos_open env large stack cmd fs k = Some (r, c, fs', k') -> same_tasks k k'.
Proof.
  unfold polyos_open, polyos_open_inode, i_hashtable_search_and_insert, alloc_poly_inode.
  intros E. repeat (case_match || simplify_option_eq); done.
Qed.

Lemma close_same_tasks {Fs} `{!PosixNS Fs} env fd h (fs : Fs) k r fs' k' :
  polyos_close env fd h fs k = Some (r, fs', k') -> same_tasks k k'.
Proof.
  unfold polyos_close, free_poly_inode.
  intros E. repeat (case_match || simplify_option_eq); done.
Qed.

Lemma rename_same_tasks env old new k r k' :
  polyos_rename env old new k = Some (r, k') -> same_tasks k k'.
Proof.
  unfold polyos_rename, i_hashtable_search_and_rename.
  intros E. repeat (case_match || simplify_option_eq); done.
Qed.

Lemma unlink_same_tasks env h k r k' :
  polyos_unlink env h k = Some (r, k') -> same_tasks k k'.
Proof.
  unfold polyos_unlink, free_poly_inode.
  intros E. repeat (case_match || simplify_option_eq); done.
Qed.

(** C32: the kernel module keeps its two tables consistent.  Whatever the file systems
    and the kernel services answer, every request of the ioctl entry point returns
    without an oops and leaves an inode table in which each path hash names one live
    inode that carries this hash and each inode has one name, and a task table in which
    each id names the live context with this id.  The request has to be one the module
    can serve ([request_ok]): open and rename need memory for a hash node, a
    rename does not target a name still in the table, and disconnecting or deleting a
    task finds some VMA at the addresses concerned; and fewer than 2^31 - 1 inode
    numbers and task ids were used. *)
Theorem ioctl_keeps_table {Fs} `{!PosixNS Fs} (env : kenv) (cl : cenv) (large : bool)
    (stack : polyos_open_cmd) (req : ioctl_req) (fs : Fs) (k : polyos) (pt : ptes) :
  kinv k -> tinv k -> k_next_ino k < 2 ^ 31 - 1 -> k_next_task k < 2 ^ 31 - 1 ->
  request_ok env cl req k ->
  exists ret out fs' k' pt',
    polyos_control_ioctl env cl large stack req fs k pt = Some (ret, out, fs', k', pt') /\
    kinv k' /\ tinv k' /\
    k_next_ino k' <= k_next_ino k + 1 /\ k_next_task k' <= k_next_task k + 1.
Proof.
  intros H HT Hlt Hltt Hreq.
  assert (forall r o (fs' : Fs) k' pt', kinv k' -> k_next_ino k' <= k_next_ino k + 1 ->
    same_tasks k k' ->
    exists ret out fs'' k'' pt'', Some (r, o, fs', k', pt') = Some (ret : Z, out : ioctl_out,
      fs'', k'', pt'' : ptes) /\ kinv k'' /\ tinv k'' /\
    k_next_ino k'' <= k_next_ino k + 1 /\ k_next_task k'' <= k_next_task k + 1) as Hgo.
  { intros r o fs' k' pt' Hk' Hn (E1 & E2 & E3). do 5 eexists.
    split_and!; [done|done|by eapply tinv_ext|lia|lia]. }
  destruct req as [ca da|ca da| |id|cmd| |fd h|old new|h|];
    cbn [polyos_control_ioctl request_ok] in *.
  - destruct (client_init_total env (config_vma cl) (control_vma cl) (remap_page cl)
      ca da pt) as [[ret pt'] ->]. cbn. apply Hgo; done || lia.
  - destruct (client_exit_total env (config_vma cl) (control_vma cl) ca da pt)
      as [[ret pt'] ->]; [apply Hreq..|]. cbn. apply Hgo; done || lia.
  - destruct (task_reg_tinv env k HT Hltt) as [HT' Hn].
    destruct (polyos_task_ctx_reg env k) as [[ret out] k'] eqn:E. cbn in HT', Hn.
    do 5 eexists. split_and!; [done| |done| |done].
    all: revert E; unfold polyos_task_ctx_reg, task_ctx_alloc, task_ctx_hashtable_insert;
      intros E; repeat case_match; simplify_eq; try done;
      first [by eapply kinv_ext|cbn; lia].
  - destruct (task_delete_tinv env id k HT Hreq)
      as (ret & k' & -> & HT' & Hn & E1 & E2 & E3). cbn. do 5 eexists.
    split_and!; [done|by eapply kinv_ext|done|lia|lia].
  - destruct (open_kinv env large stack cmd fs k)
      as (ret & c & fs' & k' & E & ? & ? & _); [done..|]. rewrite E. cbn.
    by apply Hgo; [..|eapply open_same_tasks].
  - apply Hgo; done || lia.
  - destruct (close_kinv env fd h fs k) as (ret & fs' & k' & E & ? & Hn); [done|].
    rewrite E. cbn. apply Hgo; [done|lia|by eapply close_same_tasks].
  - destruct (rename_kinv env old new k) as (ret & k' & E & ? & Hn); [done|apply Hreq..|].
    rewrite E. cbn. apply Hgo; [done|lia|by eapply rename_same_tasks].
  - destruct (unlink_kinv env h k) as (ret & k' & E & ? & Hn); [done|].
    rewrite E. cbn. apply Hgo; [done|lia|by eapply unlink_same_tasks].
  - apply Hgo; done || lia.
Qed.

Definition example_cmd : polyos_open_cmd :=
  OpenCmd "/mnt/fast/a" "/mnt/slow/a" 77 438 (O_CREAT + O_RDWR) 0 0 0.

Lemma ioctl_keeps_table_witness :
  exists ret out fs' k' pt',
    polyos_control_ioctl all_ok (CEnv VmaExact VmaExact (fun _ => true)) false
      example_cmd (Open example_cmd) MemFS.m_empty init_os ∅ =
        Some (ret, out, fs', k', pt') /\
    kinv k' /\ tinv k' /\ k_next_ino k' <= 1 /\ k_next_task k' <= 1.
Proof.
  exact (ioctl_keeps_table all_ok (CEnv VmaExact VmaExact (fun _ => true)) false
    example_cmd (Open example_cmd) MemFS.m_empty init_os ∅ kinv_init tinv_init
    eq_refl eq_refl eq_refl).
Defined.

(** C40: renaming onto a name that is still in the table breaks it.  For every
    consistent table, renaming a registered name onto another registered one succeeds
    and leaves both inodes registered under the new name, where a search finds the
    renamed one only; a close of a descriptor of the replaced file, which asks for this
    name, then leaves its inode alone and drops a reference of the renamed file, or
    frees that if it was the last one of an unlinked file. *)
Theorem rename_over_existing_breaks_table {Fs} `{!PosixNS Fs} (env : kenv)
    (old new ino1 ino2 : Z) (i1 i2 : poly_inode) (k : polyos) :
  kinv k -> copy_from_ok env = true -> kmalloc_ok env = true -> u32 old <> u32 new ->
  i_hashtable_search old k = Some ino1 -> i_hashtable_search new k = Some ino2 ->
  k_inodes k !! ino1 = Some i1 -> k_inodes k !! ino2 = Some i2 ->
  exists k1, polyos_rename env old new k = Some (0, k1) /\
    ino1 <> ino2 /\ (u32 new, ino1) ∈ k_itable k1 /\ (u32 new, ino2) ∈ k_itable k1 /\
    ~ kinv k1 /\
    forall env' fd (fs : Fs), copy_from_ok env' = true ->
      let refcount := s32 (i_refcount i1 - 1) in
      exists ret fs' k2,
        polyos_close env' fd (i_path_hash i2) fs k1 = Some (ret, fs', k2) /\
        k_inodes k2 !! ino2 = Some i2 /\
        (k_inodes k2 !! ino1 =
           Some (i1 <| i_path_hash := s32 new |> <| i_refcount := refcount |>) \/
         refcount = 0 /\ i_reclaim i1 = 1 /\ k_inodes k2 !! ino1 = None).
Proof.
  intros H Hc Hk Hne S1 S2 H1 H2. unfold i_hashtable_search in *.
  pose proof (hash_search_Some _ _ _ S1) as In1.
  pose proof (hash_search_Some _ _ _ S2) as In2.
  destruct (ki_alive _ H _ _ In1) as (j1 & J1 & Hh1).
  destruct (ki_alive _ H _ _ In2) as (j2 & J2 & Hh2). simplify_eq.
  assert (ino1 <> ino2) as Hi by (intros ->; simplify_eq; congruence).
  unfold polyos_rename, i_hashtable_search_and_rename, i_hashtable_search.
  rewrite Hc, S1, Hk. cbn [negb]. eexists. split; [done|].
  assert ((u32 new, ino2) ∈ hash_del_first (u32 old) (k_itable k)) as In2'
    by (apply elem_of_hash_del_first; [apply H|done]).
  split_and!; [done|cbn; left|cbn; by right| |].
  - intros [Hnd _ _ _ _]. cbn in Hnd. apply NoDup_cons in Hnd as [Hnin _]. apply Hnin.
    by apply (list_elem_of_fmap_2 fst) in In2'.
  - intros env' fd fs Hc'. set (refcount := s32 (i_refcount i1 - 1)).
    unfold polyos_close, i_hashtable_search.
    rewrite Hc'. cbn [negb k_itable update hash_search]. rewrite Hh2, Z.eqb_refl.
    destruct (ns_close fs _) as [? fs1], (ns_close fs1 _) as [ret fs2].
    cbn. rewrite lookup_alter_eq, H1.
    cbn [fmap option_fmap option_map mbind option_bind].
    cbn [i_refcount i_reclaim update]. fold refcount.
    destruct ((refcount =? 0) && (i_reclaim i1 =? 1)) eqn:E;
      do 3 eexists; (split_and!; [done| |]); cbn.
    all: unfold free_poly_inode; try destruct (vma_covers _ _ _ _); cbn;
      repeat (rewrite ?lookup_delete_eq, ?lookup_delete_ne, ?lookup_insert_eq,
        ?lookup_insert_ne, ?lookup_alter_ne by done); try done.
    all: zbool; try (by left); by right.
Qed.

(** Two files with one descriptor each, named by the hashes 7 and 8. *)
Definition two_files : polyos :=
  let i h ino := init_poly_inode h ino 0 <| i_refcount := 1 |> in
  OS 2 [(8, 1); (7, 0)] {[0 := i 7 0; 1 := i 8 1]} 0 [] ∅ ∅.

Lemma kinv_two_files : kinv two_files.
Proof.
  split; cbn.
  - repeat constructor; set_solver.
  - repeat constructor; set_solver.
  - intros h ino. rewrite !elem_of_cons. intros [[= -> ->]|[[= -> ->]|Hin]];
      [eexists; split; [by simplify_map_eq|done]..|by apply elem_of_nil in Hin].
  - intros ino j. rewrite lookup_insert_Some, lookup_singleton_Some.
    intros [[<- <-]|[_ [<- <-]]]; cbn; lia.
  - lia.
Qed.

Lemma rename_over_existing_breaks_table_witness :
  exists k1, polyos_rename all_ok 7 8 two_files = Some (0, k1) /\ ~ kinv k1 /\
    exists ret fs' k2,
      polyos_close all_ok (POLYSTORE_GEN_FD 5 6) 8 (MemFS.empty_pair 5 6) k1 =
        Some (ret, fs', k2) /\
      i_refcount <$> k_inodes k2 !! 1 = Some 1.
Proof.
  destruct (rename_over_existing_breaks_table (Fs:=MemFS.memfs) all_ok 7 8 0 1
    (init_poly_inode 7 0 0 <| i_refcount := 1 |>)
    (init_poly_inode 8 1 0 <| i_refcount := 1 |>) two_files kinv_two_files
    eq_refl eq_refl ltac:(done) eq_refl eq_refl eq_refl eq_refl)
    as (k1 & H1 & _ & _ & _ & H2 & H3).
  exists k1. split; [exact H1|]. split; [exact H2|].
  destruct (H3 all_ok (POLYSTORE_GEN_FD 5 6) (MemFS.empty_pair 5 6) eq_refl)
    as (ret & fs' & k2 & E & Hi & _).
  exists ret, fs', k2. split; [exact E|]. by rewrite Hi.
Defined.

(** ** Mapping and unmapping the global variables *)

(** The page addresses of the part of a region from [pace] on. *)
Definition region_page (addr size pace a : Z) : Prop :=
  addr + pace <= a < addr + size /\ (a - addr - pace) mod PAGE_SIZE = 0.

#[export] Instance region_page_dec addr size pace a :
  Decision (region_page addr size pace a).
Proof. unfold region_page. apply _. Defined.

Lemma region_page_step addr size pace a :
  pace < size ->
  region_page addr size pace a <->
    a = addr + pace \/ region_page addr size (pace + PAGE_SIZE) a.
Proof.
  intros Hp. unfold region_page, PAGE_SIZE.
  replace (a - addr - (pace + 4096)) with ((a - addr - pace) + (-1) * 4096) by lia.
  rewrite Z.mod_add by lia. split.
  - intros [Hr Hm]. destruct (decide (a = addr + pace)); [by left|right].
    split; [|done]. apply Z.mod_divide in Hm as [q Hq]; [|lia]. lia.
  - intros [->|[Hr Hm]]; [|split; [lia|done]].
    split; [lia|]. by replace (addr + pace - addr - pace) with 0 by lia.
Qed.

Lemma region_page_end addr size pace a : size <= pace -> ~ region_page addr size pace a.
Proof. unfold region_page. lia. Qed.

Lemma map_pages_spec remap page addr size (fuel : nat) : forall pace pt,
  (forall a, remap a = true) -> size - pace <= fuel * PAGE_SIZE ->
  exists pt', map_pages fuel remap page addr size pace pt = Some (true, pt') /\
    forall a, pt' !! a = if decide (region_page addr size pace a)
                         then Some (page (a - addr)) else pt !! a.
Proof.
  induction fuel as [|fuel IH]; intros pace pt Hr Hf; cbn [map_pages];
    (destruct (pace <? size) eqn:E; zbool;
      [|exists pt; split; [done|]; intros a;
        by rewrite decide_False by (by apply region_page_end)]); [lia|].
  rewrite Hr.
  destruct (IH (pace + PAGE_SIZE) (<[addr + pace := page pace]> pt)) as (pt' & -> & Hl);
    [done|unfold PAGE_SIZE in *; lia|].
  exists pt'. split; [done|]. intros a. rewrite Hl.
  pose proof (region_page_step addr size pace a E) as Hst.
  destruct (decide (a = addr + pace)) as [->|Hne].
  - rewrite (decide_True (P := region_page _ _ pace _)) by (apply Hst; by left).
    destruct (decide _) as [[? _]|]; [unfold PAGE_SIZE in *; lia|].
    rewrite lookup_insert_eq. do 2 f_equal. lia.
  - rewrite lookup_insert_ne by done.
    destruct (decide (region_page addr size (pace + PAGE_SIZE) a)),
      (decide (region_page addr size pace a)); tauto.
Qed.

Lemma unmap_pages_spec addr size (fuel : nat) : forall pace pt,
  size - pace <= fuel * PAGE_SIZE ->
  exists pt', unmap_pages fuel true addr size pace pt = Some pt' /\
    forall a, pt' !! a = if decide (region_page addr size pace a)
                         then None else pt !! a.
Proof.
  induction fuel as [|fuel IH]; intros pace pt Hf; cbn [unmap_pages];
    (destruct (pace <? size) eqn:E; zbool;
      [|exists pt; split; [done|]; intros a;
        by rewrite decide_False by (by apply region_page_end)]); [lia|].
  destruct (IH (pace + PAGE_SIZE) (delete (addr + pace) pt)) as (pt' & -> & Hl);
    [unfold PAGE_SIZE in *; lia|].
  exists pt'. split; [done|]. intros a. rewrite Hl.
  pose proof (region_page_step addr size pace a E) as Hst.
  destruct (decide (a = addr + pace)) as [->|Hne].
  - rewrite (decide_True (P := region_page _ _ pace _)) by (apply Hst; by left).
    destruct (decide _) as [[? _]|]; [unfold PAGE_SIZE in *; lia|].
    apply lookup_delete_eq.
  - rewrite lookup_delete_ne by done.
    destruct (decide (region_page addr size (pace + PAGE_SIZE) a)),
      (decide (region_page addr size pace a)); tauto.
Qed.

(** Connecting a client maps all 16 pages of the configuration and all 16 of
    the control variables, each to its own page, and disconnecting removes
    exactly these mappings again, although both unmapping loops run over the size
    of the configuration region. *)
Lemma client_exit_undoes_init (env : kenv) (remap : Z -> bool) (ca da : Z)
    (pt : ptes) :
  copy_from_ok env = true -> (forall a, remap a = true) ->
  (forall a, region_page ca POLYSTORE_CONFIG_VAR_SIZE 0 a -> pt !! a = None) ->
  (forall a, region_page da POLYSTORE_CONTROL_VAR_SIZE 0 a -> pt !! a = None) ->
  (forall a, ~ (region_page ca POLYSTORE_CONFIG_VAR_SIZE 0 a /\
                region_page da POLYSTORE_CONTROL_VAR_SIZE 0 a)) ->
  exists pt1,
    polyos_client_init env VmaExact VmaExact remap ca da pt = Some (0, pt1) /\
    (forall a, region_page ca POLYSTORE_CONFIG_VAR_SIZE 0 a ->
       pt1 !! a = Some (ConfigPage (a - ca))) /\
    (forall a, region_page da POLYSTORE_CONTROL_VAR_SIZE 0 a ->
       pt1 !! a = Some (ControlPage (a - da))) /\
    (forall env', copy_from_ok env' = true ->
       polyos_client_exit env' VmaExact VmaExact ca da pt1 = Some (0, pt)).
Proof.
  intros Hc Hr Hca Hda Hdis. unfold polyos_client_init, polyos_client_exit. rewrite Hc.
  destruct (map_pages_spec remap ConfigPage ca POLYSTORE_CONFIG_VAR_SIZE page_fuel 0 pt)
    as (pt1 & -> & H1); [done..|]. cbn [mbind option_bind negb].
  destruct (map_pages_spec remap ControlPage da POLYSTORE_CONTROL_VAR_SIZE page_fuel 0
    pt1) as (pt2 & -> & H2); [done..|]. cbn [mbind option_bind negb].
  exists pt2. split_and!; [done| | |].
  - intros a Ha. rewrite H2, H1, decide_False, decide_True by naive_solver. done.
  - intros a Ha. by rewrite H2, decide_True by done.
  - intros env' Hc'. rewrite Hc'. cbn [negb].
    destruct (unmap_pages_spec ca POLYSTORE_CONFIG_VAR_SIZE page_fuel 0 pt2)
      as (pt3 & -> & H3); [done|]. cbn [mbind option_bind].
    destruct (unmap_pages_spec da POLYSTORE_CONFIG_VAR_SIZE page_fuel 0 pt3)
      as (pt4 & -> & H4); [done|]. cbn [mbind option_bind].
    do 2 f_equal. apply map_eq. intros a. rewrite H4, H3, H2, H1.
    change POLYSTORE_CONTROL_VAR_SIZE with POLYSTORE_CONFIG_VAR_SIZE in *.
    repeat case_decide; try done; symmetry; auto.
Qed.

End PolyOS.
