(* ===== verification/Context.v ===== *)
(** * Process context ([polylib/src/context.c]) and placement ([placement.c])

    The tables of the library: the Poly-file map from descriptors, the inode map
    from path hashes used by the cache, and the list of task contexts, with the
    two placement routines run by the profiling timer.  [None] is a NULL or
    unmapped dereference. *)

From S2P Require Import Prelude Defs Util Posix IntervalTree Indexing PolyOS.
Import PolyOS.

#[local] Open Scope Z_scope.

Module Context.

(** Global variables of the library. *)
Record lib := Lib {
  l_files : list (Z * poly_file);       (* poly_file_hashmap, newest first *)
  l_hashmap : list (Z * Z);             (* poly_inode_hashmap: path hash, inode *)
  l_task_list : list (option Z);        (* task_ctx_list *)
  l_active_cnt : Z;                     (* int task_ctx_active_cnt *)
  l_split_point : Z;                    (* unsigned sched_split_point *)
  l_epoch_tic : Z;                      (* unsigned sched_epoch_tic *)
  l_fastdev_usage : Z;                  (* unsigned sched_fastdev_usage *)
  l_aggre_throughput : Z                (* unsigned long sched_aggre_throughput *)
}.

#[export] Instance lib_copy : Copy lib := fun l =>
  Lib (l_files l) (l_hashmap l) (l_task_list l) (l_active_cnt l) (l_split_point l)
    (l_epoch_tic l) (l_fastdev_usage l) (l_aggre_throughput l).

(** State at start-up, with the split point read from the environment. *)
Definition init_lib (split_point : Z) : lib := Lib [] [] [] 0 split_point 0 0 0.

(** Outcome of the user-space services during one call. *)
Record uenv := UEnv {
  malloc_file_ok : bool;                (* a Poly-file *)
  malloc_node_ok : bool;                (* its node in poly_file_hashmap *)
  malloc_inode_node_ok : bool;          (* a node of poly_inode_hashmap *)
  rdlock_ok : bool;                     (* poly_file_hashmap_rwlock for reading *)
  wrlock_ok : bool;                     (* and for writing *)
  inode_find_lock_ok : bool;            (* poly_inode_hashmap_rwlock, to search *)
  inode_delete_lock_ok : bool           (* and to delete *)
}.

Definition user_ok : uenv := UEnv true true true true true true true.

(** ** Poly-files

    [HASH_ADD_INT] does not look for the key; [HASH_FIND_INT] finds the newest
    node of its bucket first.  (When a table grows, uthash reverses the nodes of a
    bucket; that changes what is found only where a key is in the table twice.) *)

Fixpoint file_lookup (fd : Z) (l : list (Z * poly_file)) : option poly_file :=
  match l with
  | [] => None
  | (k, f) :: l => if k =? fd then Some f else file_lookup fd l
  end.

Fixpoint file_remove (fd : Z) (l : list (Z * poly_file)) : list (Z * poly_file) :=
  match l with
  | [] => []
  | (k, f) :: l => if k =? fd then l else (k, f) :: file_remove fd l
  end.

(** Store through the pointer found under a descriptor. *)
Fixpoint file_store (fd : Z) (f : poly_file) (l : list (Z * poly_file))
    : list (Z * poly_file) :=
  match l with
  | [] => []
  | (k, g) :: l => if k =? fd then (k, f) :: l else (k, g) :: file_store fd f l
  end.

(** [polystore_file_create]; [flags] is whatever [malloc] left in that field. *)
Definition polystore_file_create (env : uenv) (flags polyfd : Z) (inode : option Z)
    (l : lib) : option poly_file * lib :=
  if negb (malloc_file_ok env) then (None, l)
  else
    let file := File polyfd flags 0 inode in
    if negb (malloc_node_ok env) then (None, l)
    else (Some file, l <| l_files := (polyfd, file) :: l_files l |>).

Definition polystore_file_find (env : uenv) (polyfd : Z) (l : lib)
    : option poly_file :=
  if rdlock_ok env then file_lookup polyfd (l_files l) else None.

Definition polystore_file_delete (env : uenv) (polyfd : Z) (l : lib) : Z * lib :=
  if wrlock_ok env
  then (0, l <| l_files := file_remove polyfd (l_files l) |>)
  else (- EFAULT, l).

(** ** The inode map of the cache

    [HASH_REPLACE_INT] removes the node that has the key, if any, and appends the
    new one; [HASH_ITER] visits the nodes in the order of their insertion. *)

Definition map_remove (key : Z) (m : list (Z * Z)) : list (Z * Z) :=
  filter (fun e => fst e <> key) m.

Definition map_replace (key v : Z) (m : list (Z * Z)) : list (Z * Z) :=
  map_remove key m ++ [(key, v)].

Definition polystore_inode_hashmap_add (env : uenv) (inode : poly_inode) (l : lib)
    : Z * lib :=
  if malloc_inode_node_ok env
  then (0, l <| l_hashmap :=
                  map_replace (i_path_hash inode) (i_ino inode) (l_hashmap l) |>)
  else (- ENOMEM, l).

Definition polystore_inode_hashmap_delete (env : uenv) (inode : poly_inode) (l : lib)
    : Z * lib :=
  if inode_delete_lock_ok env
  then (0, l <| l_hashmap := map_remove (i_path_hash inode) (l_hashmap l) |>)
  else (- EFAULT, l).

Definition polystore_inode_hashmap_find (env : uenv) (path_hash : Z) (l : lib)
    : option Z :=
  if inode_find_lock_ok env then hash_search path_hash (l_hashmap l) else None.

(** [polystore_inode_hashmap_iterate]: [func] on every inode with a
    non-negative number, threading the state it works on. *)
Definition polystore_inode_hashmap_iterate {S : Type} (inodes : S -> gmap Z poly_inode)
    (func : Z -> S -> option S) (l : lib) (s : S) : option (Z * S) :=
  s ← foldl (fun os e => s ← os;
               inode ← inodes s !! snd e;
               if i_ino inode <? 0 then Some s else func (snd e) s)
        (Some s) (l_hashmap l);
  Some (0, s).

(** [polystore_inode_hashmap_rename]: the inode is entered under the new hash and
    its stored path name replaced. *)
Definition polystore_inode_hashmap_rename (env : uenv) (oldname newname : string)
    (l : lib) (k : polyos) : option (Z * lib * polyos) :=
  let path_hash_old := s32 (Util.util_get_path_hash oldname) in
  let path_hash_new := s32 (Util.util_get_path_hash newname) in
  if negb (inode_find_lock_ok env) then Some (- EFAULT, l, k)
  else
    match hash_search path_hash_old (l_hashmap l) with
    | None => Some (- EFAULT, l, k)
    | Some ino =>
        inode ← k_inodes k !! ino;
        let k := k <| k_inodes :=
                   <[ino := inode <| i_pathname := newname |>]> (k_inodes k) |> in
        let l := l <| l_hashmap := map_remove path_hash_old (l_hashmap l) |> in
        if negb (malloc_inode_node_ok env) then Some (- ENOMEM, l, k)
        else Some (0, l <| l_hashmap := map_replace path_hash_new ino (l_hashmap l) |>, k)
    end.

(** ** Task contexts *)

(** [polystore_task_ctx_register]: new value of the thread's context pointer,
    return value and state.  The initial placement is static: the first
    [sched_split_point] tasks are placed on the fast device. *)
Definition polystore_task_ctx_register (env : kenv) (l : lib) (k : polyos)
    (tls : option Z) : option (Z * option Z * lib * polyos) :=
  let '(ret, out, k) := polyos_task_ctx_reg env k in
  if ioctl_ret ret <? 0 then Some (- EFAULT, tls, l, k)
  else
    match out with
    | None => Some (- EFAULT, tls, l, k)
    | Some (task_id, addr) =>
        if addr =? 0 then Some (- EFAULT, tls, l, k)
        else
          t ← task_at k task_id;
          let t := t <| t_throughput := 0 |> <| t_throughput_read := 0 |>
                     <| t_throughput_write := 0 |> <| t_last_throughput := 0 |>
                     <| t_low_throughput_tic := 0 |> in
          let cnt := l_active_cnt l in
          let l := l <| l_active_cnt := s32 (cnt + 1) |> in
          let '(t, l) :=
            if u32 cnt <? l_split_point l
            then (t <| t_placement := BLK_PLACEMENT_FAST |>,
                  l <| l_fastdev_usage := u32 (l_fastdev_usage l + 1) |>)
            else (t <| t_placement := BLK_PLACEMENT_SLOW |>, l) in
          Some (ioctl_ret ret, Some task_id,
                l <| l_task_list := l_task_list l ++ [Some task_id] |>,
                k <| k_tasks := <[task_id := t]> (k_tasks k) |>)
    end.

(** Unlinking the list node of a task. *)
Definition task_list_del (task_id : Z) (l : list (option Z)) : list (option Z) :=
  filter (fun e => e <> Some task_id) l.

(** [polystore_task_ctx_delete] *)
Definition polystore_task_ctx_delete (env : kenv) (l : lib) (k : polyos)
    (tls : option Z) : option (Z * option Z * lib * polyos) :=
  match tls with
  | None => Some (- EFAULT, tls, l, k)
  | Some task_id =>
      t ← task_at k task_id;
      let l := l <| l_task_list := task_list_del task_id (l_task_list l) |> in
      let l := if t_placement t =? BLK_PLACEMENT_FAST
               then l <| l_fastdev_usage := u32 (l_fastdev_usage l - 1) |> else l in
      let l := l <| l_active_cnt := s32 (l_active_cnt l - 1) |> in
      '(ret, k) ← polyos_task_ctx_delete env task_id k;
      Some (if ioctl_ret ret <? 0 then - EFAULT else ioctl_ret ret, None, l, k)
  end.

(** ** Placement *)

Definition POLYSTORE_EPOCH_LOW_THRPUT : Z := 16.
Definition POLYSTORE_FILECOPY_THRES : Z := 16 * 1024 * 1024 * 1024.

(** The loop of [polystore_placement_static_statonly]: the sum of the
    throughputs and the last context visited. *)
Fixpoint static_loop (nodes : list (option Z)) (throughput : Z)
    (last : option Z) (k : polyos) : option (Z * option Z * polyos) :=
  match nodes with
  | [] => Some (throughput, last, k)
  | None :: nodes => static_loop nodes throughput None k
  | Some id :: nodes =>
      t ← task_at k id;
      let t' := t <| t_last_throughput := t_throughput t |>
                  <| t_throughput := 0 |> <| t_throughput_read := 0 |>
                  <| t_throughput_write := 0 |> in
      static_loop nodes (u64 (throughput + t_throughput t)) (Some id)
        (k <| k_tasks := <[id := t']> (k_tasks k) |>)
  end.

(** [filecopy] is the build flag [POLYSTORE_FILECOPY]: the context the loop ended
    with is moved to the slow device once enough was copied. *)
Definition polystore_placement_static_statonly (filecopy : bool) (l : lib) (k : polyos)
    : option (lib * polyos) :=
  '(throughput, last, k) ← static_loop (l_task_list l) 0 None k;
  let aggre := u64 (l_aggre_throughput l + throughput) in
  k ←
    (if filecopy then
       id ← last; t ← task_at k id;
       Some (if (t_placement t =? BLK_PLACEMENT_FAST) &&
                (POLYSTORE_FILECOPY_THRES <? aggre)
             then k <| k_tasks := <[id := t <| t_placement := BLK_PLACEMENT_SLOW |>]>
                                    (k_tasks k) |>
             else k)
     else Some k);
  Some (l <| l_aggre_throughput := aggre |>
          <| l_epoch_tic := u32 (l_epoch_tic l + 1) |>, k).

(** One task in the loop of [polystore_placement_dynamic]: it is promoted while
    the fast device has room and demoted after 16 idle epochs. *)
Definition dynamic_step (split : Z) (t : g_task_ctx) (usage : Z)
    : g_task_ctx * Z :=
  let t := t <| t_last_throughput := t_throughput t |> <| t_throughput := 0 |> in
  let '(t, usage) :=
    if (t_placement t =? BLK_PLACEMENT_SLOW) && (usage <? split)
    then (t <| t_placement := BLK_PLACEMENT_FAST |>, u32 (usage + 1))
    else (t, usage) in
  let t := if t_last_throughput t =? 0
           then t <| t_low_throughput_tic := u32 (t_low_throughput_tic t + 1) |>
           else t <| t_low_throughput_tic := 0 |> in
  if (POLYSTORE_EPOCH_LOW_THRPUT <? t_low_throughput_tic t) &&
     (t_placement t =? BLK_PLACEMENT_FAST)
  then (t <| t_placement := BLK_PLACEMENT_SLOW |>, u32 (usage - 1))
  else (t, usage).

Fixpoint dynamic_loop (nodes : list (option Z)) (split throughput usage : Z)
    (k : polyos) : option (Z * Z * polyos) :=
  match nodes with
  | [] => Some (throughput, usage, k)
  | None :: nodes => dynamic_loop nodes split throughput usage k
  | Some id :: nodes =>
      t ← task_at k id;
      let '(t', usage') := dynamic_step split t usage in
      dynamic_loop nodes split (u64 (throughput + t_throughput t)) usage'
        (k <| k_tasks := <[id := t']> (k_tasks k) |>)
  end.

Definition polystore_placement_dynamic (l : lib) (k : polyos)
    : option (lib * polyos) :=
  '(throughput, usage, k) ←
    dynamic_loop (l_task_list l) (l_split_point l) 0 (l_fastdev_usage l) k;
  Some (l <| l_aggre_throughput := u64 (l_aggre_throughput l + throughput) |>
          <| l_fastdev_usage := usage |>
          <| l_epoch_tic := u32 (l_epoch_tic l + 1) |>, k).

End Context.
