(* ===== verification/CacheExit.v ===== *)
(** * Freeing the buffers of a file and leaving the cache

    [poly_cache_free] writes the pieces of a file back and gives up their
    buffers; [poly_cache_exit] does so for every inode of the process, so that at
    exit the physical files hold every file. *)

From S2P Require Import Prelude Defs Util Posix IntervalTree Indexing IoDirect.
From S2P Require Import IoDirectSpec CacheMm Cache CacheSpec IoBuffered IoBufferedSpec.
From S2P Require Import IoBufferedRefine CacheFlush PolyOS Context.
Import IoDirect Cache CacheSpec IoBuffered IoBufferedRefine CacheFlush Context.

#[local] Open Scope Z_scope.

Module CacheExit.

Section model.
Context {Fs : Type} `{!PosixFS Fs, !PosixNS Fs}.
Context {A : Type} `{!CacheAlloc A, !CacheMmap Fs A}.
Variables FAST_DIR SLOW_DIR : string.

(** [poly_cache_free] on an inode of the process. *)
Definition free_inode (ino : Z) (s : flush_state Fs A) : option (flush_state Fs A) :=
  inode ← fl_inodes s !! ino;
  '(fs, inode, ch) ← poly_cache_free FAST_DIR SLOW_DIR (fl_fs s, inode, fl_cache s);
  Some (FlushState fs (<[ino := inode]> (fl_inodes s)) ch).

(** [poly_cache_exit] without [POLYSTORE_POLYCACHE_SHM], when the flushing threads
    are done; the queues it releases are not used afterwards. *)
Definition poly_cache_exit (l : lib) (s : flush_state Fs A)
    : option (flush_state Fs A) :=
  '(_, s) ← polystore_inode_hashmap_iterate fl_inodes free_inode l s;
  Some s.
End model.

Section free.
Context {Fs : Type} `{!PosixFS Fs, !PosixFSLaws Fs, !ReliableFS Fs}.
Context `{!PosixNS Fs, !ReliableNS Fs}.
Context {A : Type} `{!CacheAlloc A, !CacheAllocLaws A, !CacheMmap Fs A}.
Variables FAST_DIR SLOW_DIR : string.
Implicit Types (fs : Fs) (a : A) (m : mem) (s : flush_state Fs A).

Local Abbreviation file_ok := (file_ok FAST_DIR SLOW_DIR).
Local Abbreviation files_ok := (files_ok FAST_DIR SLOW_DIR).

Lemma others_kept_trans fo so fs1 fs2 fs3 :
  others_kept fo so fs1 fs2 -> others_kept fo so fs2 fs3 -> others_kept fo so fs1 fs3.
Proof.
  intros H1 H2 o Hf Hs. destruct (H1 o Hf Hs) as [<- C1], (H2 o Hf Hs) as [-> C2].
  split; [done|]. intros k. by rewrite C2.
Qed.

(** The state after [i] pieces of [f] were freed, starting from [fs], [inode] and
    [ch]. *)
Record freed fs inode (ch : poly_cache A) ino f (i : nat) fs' inode'
    (ch' : poly_cache A) : Prop := {
  fd_file : file_ok fs' inode' (ch_mem ch') (ch_alloc ch') ino f;
  fd_env : env_kept fs fs';
  fd_others : others_kept (fi_fast f) (fi_slow f) fs fs';
  fd_bufs : keeps_foreign inode (ch_mem ch) (ch_alloc ch) (fi_es f) inode'
    (ch_mem ch') (ch_alloc ch') (fi_es f);
  fd_rwfds : rwfds_from fs inode inode';
  fd_meta : inode_meta inode' = inode_meta inode;
  fd_done : forall (j : nat) p, (j < i)%nat -> fi_es f !! j = Some p ->
    e_dirty (entry_at inode' (pc_slot p)) = 0 /\ buf_of inode' p = 0
}.

Lemma free_entry_step fs0 inode0 ch0 ino f (i : nat) fs inode ch p :
  freed fs0 inode0 ch0 ino f i fs inode ch -> fi_es f !! i = Some p ->
  exists fs' inode' ch',
    free_entry FAST_DIR SLOW_DIR (pc_slot p) (fs, inode, ch) = Some (fs', inode', ch') /\
    freed fs0 inode0 ch0 ino f (S i) fs' inode' ch'.
Proof.
  intros [Hf He Ho Hb Hr Hm Hd] Hp. pose proof (fo_cached _ _ _ _ _ _ _ _ Hf) as C.
  set (e := entry_at inode (pc_slot p)).
  set (e' := e <| e_dirty := 0 |> <| e_present := 0 |> <| e_cache_size := 0 |>
               <| e_buf_addr := 0 |>).
  destruct (evict_release_ok FAST_DIR SLOW_DIR fs inode ch ino f i p e' Hf Hp)
    as (fs' & inode1 & E & Hf' & He' & Ho' & Hb' & Hr' & Hm' & Hpol & _ & Hat); [done|].
  fold e in E, Hf', Hb'. unfold free_entry. fold e.
  rewrite (po_removed (ca_piece C i p Hp) : e_removed e = 0). cbn [Z.eqb].
  rewrite E. cbn [mbind option_bind].
  assert (not_admitted inode1 e = false) as ->.
  { unfold not_admitted. rewrite Hpol, (proj2 (Z.eqb_neq (i_cache_policy inode) _)),
      andb_false_r; [done|apply C]. }
  eexists _, _, _. split; [reflexivity|].
  set (ch' := if e_buf_addr e =? 0 then ch else _).
  assert (ch_mem ch' = ch_mem (release (e_buf_addr e) ch) /\
    ch_alloc ch' = ch_alloc (release (e_buf_addr e) ch)) as [Em Ea].
  { unfold ch', release. by destruct (e_buf_addr e =? 0). }
  split; rewrite ?Em, ?Ea; [exact Hf'|by eapply env_kept_trans|by eapply others_kept_trans|
    by eapply keeps_foreign_trans|by eapply rwfds_from_trans|by rewrite <-Hm|].
  intros j q Hj Hq. unfold buf_of. destruct (decide (j = i)) as [->|Hne].
  - rewrite Hp in Hq. injection Hq as <-. by rewrite entry_at_set_eq.
  - rewrite Hat by (eapply slots_ne; [apply C|exact Hp|exact Hq|done]).
    apply (Hd j q); [lia|done].
Qed.

Lemma close_fd_spec fs fd :
  exists fs', close_fd fs fd = (if 0 <? fd then -1 else fd, fs') /\
    same_contents fs fs' /\ (forall path, ns_resolve fs' path = ns_resolve fs path) /\
    forall fd', fd' <> fd -> fs_object fs' fd' = fs_object fs fd'.
Proof.
  unfold close_fd. destruct (0 <? fd); [|by exists fs].
  destruct (ns_close_others fs fd) as (H1 & H2 & H3).
  destruct (ns_close fs fd) as [r fs']. by exists fs'.
Qed.

(** Writing a whole file back. *)
Lemma free_ok fs inode ch ino f :
  file_ok fs inode (ch_mem ch) (ch_alloc ch) ino f ->
  exists fs' inode' ch',
    poly_cache_free FAST_DIR SLOW_DIR (fs, inode, ch) = Some (fs', inode', ch') /\
    on_disk (fi_fast f) (fi_slow f) fs' inode' (fi_data f) /\
    (forall p, p ∈ fi_es f -> buf_of inode' p = 0) /\
    framed fs inode (ch_mem ch) (ch_alloc ch) f fs' inode' (ch_mem ch') (ch_alloc ch')
      (fi_es f).
Proof.
  intros Hok. pose proof (fo_cached _ _ _ _ _ _ _ _ Hok) as C.
  destruct (traverse_file_spec (fun x : Fs * poly_inode * poly_cache A => snd (fst x))
    (free_entry FAST_DIR SLOW_DIR) (fi_es f)
    (fun i x => let '(fs', inode', ch') := x in
       freed fs inode ch ino f i fs' inode' ch'))
    with (s := (fs, inode, ch)) (n := zlength (fi_data f))
    as ([[fs1 inode1] ch1] & E & [Hf He Ho Hb Hr Hm Hd]).
  - intros i [[fs1 inode1] ch1] H. apply (fo_cached _ _ _ _ _ _ _ _ (fd_file _ _ _ _ _ _ _ _ _ H)).
  - intros i [[fs1 inode1] ch1] p H Hp.
    destruct (free_entry_step _ _ _ _ _ _ _ _ _ _ H Hp) as (fs2 & inode2 & ch2 & E & H2).
    by exists (fs2, inode2, ch2).
  - split; [done|by split|by intros o|apply keeps_foreign_refl|by left|done|lia].
  - apply Hok.
  - pose proof (fo_small _ _ _ _ _ _ _ _ Hok). lia.
  - apply C.
  - unfold poly_cache_free, close_rwfds. rewrite E. cbn [mbind option_bind].
    destruct (close_fd_spec fs1 (i_cache_rwfd_fast inode1)) as (fs2 & E2 & S2 & N2 & F2).
    destruct (close_fd_spec fs2 (i_cache_rwfd_slow inode1)) as (fs3 & E3 & S3 & N3 & F3).
    rewrite E2, E3.
    match goal with |- context [close_fd fs3 ?fd] =>
      assert (fd = -1) as -> by apply (fo_mmapfd _ _ _ _ _ _ _ _ Hf) end.
    eexists _, _, ch1. split; [reflexivity|].
    set (inode' := inode1 <| i_cache_rwfd_fast := _ |> <| i_cache_rwfd_slow := _ |>
                     <| i_cache_mmapfd := _ |>).
    pose proof (fo_cached _ _ _ _ _ _ _ _ Hf) as C1.
    split_and!.
    + apply (clean_on_disk _ _ fs3 inode' (ch_mem ch1) (ch_alloc ch1) (fi_es f)).
      * apply (cached_same_inode _ _ _ inode1); [|done].
        by apply (cached_same_fs _ _ fs2), S3; apply (cached_same_fs _ _ fs1).
      * intros p (j & Hp)%list_elem_of_lookup. apply (Hd j p); [|done].
        by eapply lookup_lt_Some.
    + intros p (j & Hp)%list_elem_of_lookup. apply (Hd j p); [|done].
      by eapply lookup_lt_Some.
    + assert (forall fd o pl, fs_object fs fd = Some o -> placed_at pl ->
        cache_rwfd inode pl <> fd -> fd <> cache_rwfd inode1 pl) as Hne.
      { intros fd o pl Hfd Hpl Hn ->. destruct (Hr pl Hpl) as [?|[_ ?]]; congruence. }
      split; [| | |apply Hf|done].
      * intros fd o Hfd Hn.
        rewrite F3, F2; [by apply He|apply (Hne fd o BLK_PLACEMENT_FAST)|
          apply (Hne fd o BLK_PLACEMENT_SLOW)]; try done; try apply Hn; unfold placed_at; auto.
      * intros path. rewrite N3, N2. apply He.
      * intros o H1 H2. destruct (Ho o H1 H2) as [<- D1], (S2 o) as [Z2 D2],
          (S3 o) as [Z3 D3]. split; [congruence|]. intros k. by rewrite D3, D2, D1.
Qed.

(** A file that was freed needs no more attention. *)
Lemma files_ok_delete files s ino f inode fs' inode' ch' :
  files_ok files s -> files !! ino = Some f -> fl_inodes s !! ino = Some inode ->
  framed (fl_fs s) inode (ch_mem (fl_cache s)) (ch_alloc (fl_cache s)) f
    fs' inode' (ch_mem ch') (ch_alloc ch') (fi_es f) ->
  files_ok (delete ino files) (FlushState fs' (<[ino := inode']> (fl_inodes s)) ch').
Proof.
  intros Hok Hf Hi F. pose proof Hok as [Heach Hobjs Hbufs Hrws].
  assert (forall ino2 f2, delete ino files !! ino2 = Some f2 ->
    ino2 <> ino /\ files !! ino2 = Some f2) as Hdel
    by (intros ino2 f2 [? ?]%lookup_delete_Some; done).
  assert (forall ino2 (i2 : poly_inode), ino2 <> ino ->
    <[ino := inode']> (fl_inodes s) !! ino2 = Some i2 -> fl_inodes s !! ino2 = Some i2)
    as Hins by (intros ino2 i2 Hne; by rewrite lookup_insert_ne by congruence).
  split; cbn.
  - intros ino2 f2 [Hne Hf2]%Hdel. rewrite lookup_insert_ne by congruence.
    exact (other_file_ok _ _ files s ino f inode _ _ _ _ _ ino2 f2 Hok Hf Hi F Hf2 Hne).
  - intros ino1 ino2 f1 f2 o [_ F1]%Hdel [_ F2]%Hdel. by apply (Hobjs ino1 ino2).
  - intros ino1 ino2 f1 f2 i1 i2 p q [N1 F1]%Hdel [N2 F2]%Hdel Hne I1%Hins I2%Hins;
      [|done..]. by apply (Hbufs ino1 ino2 f1 f2).
  - intros ino1 ino2 f1 f2 i1 i2 p q [N1 F1]%Hdel [N2 F2]%Hdel Hne I1%Hins I2%Hins;
      [|done..]. by apply (Hrws ino1 ino2 f1 f2).
Qed.

Lemma on_disk_same fo so fs fs' inode data :
  (forall o, o = fo \/ o = so -> fs_size fs' o = fs_size fs o /\
     forall k, fs_content fs' o k = fs_content fs o k) ->
  on_disk fo so fs inode data -> on_disk fo so fs' inode data.
Proof.
  intros Hs H k Hk. rewrite <-H by done. unfold physical_byte.
  destruct (polystore_index_lookup inode k k) as [slot|]; [|done]. cbn.
  destruct (Hs (IoDirectSpec.dev fo so (e_placement (entry_at inode slot)))) as [-> Hc].
  { unfold IoDirectSpec.dev. case_match; auto. }
  by rewrite Hc.
Qed.

(** What becomes of a file: its bytes are on the devices, its buffers given up. *)
Definition file_stored f ino s : Prop :=
  exists inode, fl_inodes s !! ino = Some inode /\
    on_disk (fi_fast f) (fi_slow f) (fl_fs s) inode (fi_data f) /\
    forall p, p ∈ fi_es f -> buf_of inode p = 0.

Definition exit_step (os : option (flush_state Fs A)) (e : Z * Z)
    : option (flush_state Fs A) :=
  s ← os; inode ← fl_inodes s !! snd e;
  if i_ino inode <? 0 then Some s else free_inode FAST_DIR SLOW_DIR (snd e) s.

Lemma exit_loop (l : list (Z * Z)) : forall files s,
  files_ok files s -> NoDup (snd <$> l) ->
  (forall e, e ∈ l -> exists f inode, files !! snd e = Some f /\
     fl_inodes s !! snd e = Some inode /\ 0 <= i_ino inode) ->
  exists s', foldl exit_step (Some s) l = Some s' /\
    (forall ino f, files !! ino = Some f -> ino ∈ snd <$> l -> file_stored f ino s') /\
    (forall ino, ino ∉ snd <$> l -> fl_inodes s' !! ino = fl_inodes s !! ino) /\
    (forall o, (forall ino f, files !! ino = Some f -> ino ∈ snd <$> l ->
         o <> fi_fast f /\ o <> fi_slow f) ->
       fs_size (fl_fs s') o = fs_size (fl_fs s) o /\
       forall k, fs_content (fl_fs s') o k = fs_content (fl_fs s) o k).
Proof.
  induction l as [|[h ino] l IH]; intros files s Hok Hnd Hl; cbn [foldl].
  { exists s. split_and!; try done. intros ino f _ Hin. by apply elem_of_nil in Hin. }
  apply NoDup_cons in Hnd as [Hnin Hnd].
  destruct (Hl (h, ino)) as (f & inode & Hf & Hi & Hino); [by left|]. cbn in Hf, Hi.
  destruct (fs_each _ _ _ _ Hok ino f Hf) as (inode0 & Hi0 & Hfile).
  rewrite Hi in Hi0. injection Hi0 as <-.
  destruct (free_ok _ _ _ _ _ Hfile) as (fs1 & inode1 & ch1 & E & Hdisk & Hbuf & F).
  set (s1 := FlushState fs1 (<[ino := inode1]> (fl_inodes s)) ch1).
  assert (exit_step (Some s) (h, ino) = Some s1) as ->.
  { unfold exit_step, free_inode. cbn. rewrite Hi. cbn.
    rewrite (proj2 (Z.ltb_ge _ _)) by lia. by rewrite E. }
  destruct (IH (delete ino files) s1) as (s' & E' & Hst & Hin' & Ho'); [|done| |].
  { by eapply files_ok_delete. }
  { intros [h2 ino2] He. destruct (Hl (h2, ino2)) as (f2 & inode2 & Hf2 & Hi2 & Hn);
      [by right|]. cbn in *. exists f2, inode2.
    assert (ino2 <> ino).
    { intros ->. apply Hnin. by apply (list_elem_of_fmap_2 snd l (h2, ino)). }
    by rewrite lookup_delete_ne, lookup_insert_ne by congruence. }
  assert (forall ino2 f2, delete ino files !! ino2 = Some f2 ->
    ino2 <> ino /\ files !! ino2 = Some f2) as Hdel
    by (intros ino2 f2 [? ?]%lookup_delete_Some; done).
  exists s'. split_and!; [done|..].
  - intros ino2 f2 Hf2 [->|Hin]%elem_of_cons.
    + cbn in Hf2 |- *. rewrite Hf in Hf2. injection Hf2 as <-. exists inode1.
      rewrite Hin' by done. cbn. rewrite lookup_insert_eq. split_and!; [done| |done].
      eapply on_disk_same; [|exact Hdisk]. intros o Hoo. apply Ho'.
      intros ino3 f3 [Hne Hf3]%Hdel _.
      by apply (fs_objs _ _ _ _ Hok ino ino3 f f3); auto.
    + apply Hst; [|done]. rewrite lookup_delete_ne; [done|]. by intros ->.
  - intros ino2 Hn. rewrite Hin' by (intros ?; apply Hn; by right).
    cbn. rewrite lookup_insert_ne; [done|]. intros ->. apply Hn. by left.
  - intros o Hoo. destruct (Ho' o) as [Hs Hc].
    { intros ino2 f2 [Hne Hf2]%Hdel Hin. apply (Hoo ino2 f2); [done|by right]. }
    destruct (Hoo ino f Hf) as [H1 H2]; [by left|].
    destruct (fr_others _ _ _ _ _ _ _ _ _ _ F o H1 H2) as [<- Hc1].
    split; [done|]. intros k. by rewrite Hc, <-Hc1.
Qed.

Lemma exit_ok files (l : lib) s :
  files_ok files s -> NoDup (snd <$> l_hashmap l) ->
  (forall e, e ∈ l_hashmap l -> exists f inode, files !! snd e = Some f /\
     fl_inodes s !! snd e = Some inode /\ 0 <= i_ino inode) ->
  exists s', poly_cache_exit FAST_DIR SLOW_DIR l s = Some s' /\
    forall ino f, files !! ino = Some f -> ino ∈ snd <$> l_hashmap l -> file_stored f ino s'.
Proof.
  intros Hok Hnd Hl. destruct (exit_loop (l_hashmap l) files s Hok Hnd Hl) as (s' & E & Hst & _).
  exists s'. split; [|done]. unfold poly_cache_exit, polystore_inode_hashmap_iterate.
  unfold exit_step in E. by rewrite E.
Qed.

End free.

(** ** Properties *)

(** C11: leaving the cache writes everything back: after [poly_cache_exit] every
    byte of every file whose inode is in the process's inode map is in the physical
    files at the place the index records, through descriptors opened for it or
    found, and no file keeps a buffer. *)
Theorem poly_cache_exit_stores `{!PosixFS Fs, !PosixFSLaws Fs, !ReliableFS Fs,
    !PosixNS Fs, !ReliableNS Fs, !CacheAlloc A, !CacheAllocLaws A, !CacheMmap Fs A}
    (FAST_DIR SLOW_DIR : string) (files : gmap Z finfo) (l : lib) (s : flush_state Fs A) :
  files_ok FAST_DIR SLOW_DIR files s -> NoDup (snd <$> l_hashmap l) ->
  (forall e, e ∈ l_hashmap l -> exists f inode, files !! snd e = Some f /\
     fl_inodes s !! snd e = Some inode /\ 0 <= i_ino inode) ->
  exists s', poly_cache_exit FAST_DIR SLOW_DIR l s = Some s' /\
    forall ino f, files !! ino = Some f -> ino ∈ snd <$> l_hashmap l -> file_stored f ino s'.
Proof. apply exit_ok. Qed.

(** ** Witnesses *)

Lemma poly_cache_exit_stores_witness :
  exists st f s', fi_data f = [x41; x42; x43] /\
    poly_cache_exit "/fast" "/slow" (init_lib 0 <| l_hashmap := [(7, 0)] |>)
      (example_flush st) = Some s' /\ file_stored f 0 s'.
Proof.
  destruct example_state as (st & f & p & C & Hd & Hp & Hs & Hok & Hino & _).
  destruct (poly_cache_exit_stores "/fast" "/slow" {[0 := f]}
    (init_lib 0 <| l_hashmap := [(7, 0)] |>) (example_flush st) Hok) as (s' & E & H).
  - cbn. apply NoDup_singleton.
  - cbn. intros e ->%list_elem_of_singleton. exists f, (cs_inode st). cbn.
    rewrite !lookup_singleton_eq, Hino. done.
  - exists st, f, s'. split; [done|]. split; [exact E|].
    apply H; [apply lookup_singleton_eq|]. cbn. by left.
Defined.

End CacheExit.
