(* ===== verification/Placement.v ===== *)
(** * The placement engine keeps the fast device within its budget

    The number of tasks placed on the fast device is the value of
    [sched_fastdev_usage] and never exceeds the split point, through every
    sequence of task registrations and deletions, timer ticks and I/O. *)

From S2P Require Import Prelude Defs Posix IntervalTree Indexing PolyOS Context.
Import PolyOS Context.

#[local] Open Scope Z_scope.

Module Placement.

Definition task_placed (t : g_task_ctx) : Prop :=
  t_placement t = BLK_PLACEMENT_FAST \/ t_placement t = BLK_PLACEMENT_SLOW.

(** 1 for a task on the fast device. *)
Definition on_fast (t : g_task_ctx) : Z :=
  if t_placement t =? BLK_PLACEMENT_FAST then 1 else 0.

Definition node_fast (tasks : gmap Z g_task_ctx) (e : option Z) : Z :=
  match e with
  | Some id => match tasks !! id with Some t => on_fast t | None => 0 end
  | None => 0
  end.

Definition fast_count (tasks : gmap Z g_task_ctx) (nodes : list (option Z)) : Z :=
  foldr (fun e n => node_fast tasks e + n) 0 nodes.

#[global] Arguments fast_count : simpl never.

(** Every list node has a live, placed context that is mapped into the client. *)
Definition nodes_ok (mapped : gset Z) (tasks : gmap Z g_task_ctx)
    (nodes : list (option Z)) : Prop :=
  forall e, e ∈ nodes -> exists id t,
    e = Some id /\ id ∈ mapped /\ tasks !! id = Some t /\ task_placed t.

Record sched_inv (l : lib) (k : polyos) : Prop := {
  si_nodup : NoDup (l_task_list l);
  si_nodes : nodes_ok (k_mapped_tasks k) (k_tasks k) (l_task_list l);
  si_usage : l_fastdev_usage l = fast_count (k_tasks k) (l_task_list l);
  si_split : l_fastdev_usage l <= l_split_point l < 2 ^ 31;
  si_cnt : l_active_cnt l = zlength (l_task_list l);
  si_next : zlength (l_task_list l) <= k_next_task k < 2 ^ 31;
  si_fresh : forall id t, k_tasks k !! id = Some t -> 0 <= id < k_next_task k;
  si_table : forall a b, (a, b) ∈ k_ttable k -> a = b
}.

Lemma on_fast_range t : 0 <= on_fast t <= 1.
Proof. unfold on_fast. by destruct (_ =? _). Qed.

Lemma fast_count_cons tasks e nodes :
  fast_count tasks (e :: nodes) = node_fast tasks e + fast_count tasks nodes.
Proof. done. Qed.

Lemma fast_count_singleton tasks e : fast_count tasks [e] = node_fast tasks e.
Proof. apply Z.add_0_r. Qed.

Lemma fast_count_range tasks nodes :
  0 <= fast_count tasks nodes <= zlength nodes.
Proof.
  induction nodes as [|e nodes IH]; rewrite ?fast_count_cons; cbn [length]; [done|].
  assert (0 <= node_fast tasks e <= 1); [|lia].
  unfold node_fast. destruct e as [id|]; [|lia].
  destruct (tasks !! id); [apply on_fast_range|lia].
Qed.

(** Contexts outside the list do not count. *)
Lemma fast_count_ext tasks tasks' nodes :
  (forall id, Some id ∈ nodes -> tasks' !! id = tasks !! id) ->
  fast_count tasks' nodes = fast_count tasks nodes.
Proof.
  intros H. induction nodes as [|e nodes IH]; [done|].
  rewrite !fast_count_cons, IH by (intros; apply H; by right). f_equal.
  destruct e as [id|]; [|done]. cbn. by rewrite H by left.
Qed.

Lemma nodes_ok_ext mapped mapped' tasks tasks' nodes :
  (forall id, Some id ∈ nodes -> id ∈ mapped -> id ∈ mapped') ->
  (forall id, Some id ∈ nodes -> tasks' !! id = tasks !! id) ->
  nodes_ok mapped tasks nodes -> nodes_ok mapped' tasks' nodes.
Proof.
  intros Hm H Hok e He. destruct (Hok e He) as (id & t & -> & Hi & Ht & Hp).
  exists id, t. rewrite H by done. auto.
Qed.

Lemma nodes_ok_task_at k nodes id :
  nodes_ok (k_mapped_tasks k) (k_tasks k) nodes -> Some id ∈ nodes ->
  exists t, task_at k id = Some t /\ k_tasks k !! id = Some t /\ task_placed t.
Proof.
  intros Hok Hin. destruct (Hok _ Hin) as (? & t & [= <-] & Hm & Ht & Hp).
  exists t. unfold task_at. by rewrite decide_True.
Qed.

Lemma fast_count_app tasks l1 l2 :
  fast_count tasks (l1 ++ l2) = fast_count tasks l1 + fast_count tasks l2.
Proof.
  induction l1 as [|e l1 IH]; [done|]. cbn [app]. rewrite !fast_count_cons, IH. lia.
Qed.

(** Replacing the context of one task in the list. *)
Lemma fast_count_insert tasks nodes id t t' :
  NoDup nodes -> Some id ∈ nodes -> tasks !! id = Some t ->
  fast_count (<[id := t']> tasks) nodes =
    fast_count tasks nodes - on_fast t + on_fast t'.
Proof.
  intros Hnd Hin Ht. induction nodes as [|e nodes IH]; [by apply elem_of_nil in Hin|].
  apply NoDup_cons in Hnd as [He Hnd]. rewrite !fast_count_cons.
  destruct (decide (e = Some id)) as [->|Hne].
  - rewrite (fast_count_ext tasks (<[id:=t']> tasks)).
    + cbn. rewrite lookup_insert_eq, Ht. lia.
    + intros id' Hid'. rewrite lookup_insert_ne; [done|]. by intros ->.
  - rewrite IH by (done || (apply elem_of_cons in Hin as [?|?]; congruence)).
    assert (node_fast (<[id:=t']> tasks) e = node_fast tasks e) as ->; [|lia].
    destruct e as [id'|]; [|done]. cbn.
    rewrite lookup_insert_ne by congruence. done.
Qed.

Lemma nodes_ok_insert mapped tasks nodes id t :
  nodes_ok mapped tasks nodes -> task_placed t ->
  nodes_ok mapped (<[id := t]> tasks) nodes.
Proof.
  intros Hok Hp e He. destruct (Hok e He) as (id' & t' & -> & Hm & Ht & Hp').
  destruct (decide (id' = id)) as [->|].
  - exists id, t. by rewrite lookup_insert_eq.
  - exists id', t'. by rewrite lookup_insert_ne by done.
Qed.

(** ** The dynamic policy *)

Lemma dynamic_step_spec split t usage t' usage' :
  task_placed t -> on_fast t <= usage <= split -> split < 2 ^ 31 ->
  dynamic_step split t usage = (t', usage') ->
  task_placed t' /\ usage' - on_fast t' = usage - on_fast t /\ usage' <= split.
Proof.
  intros Hp Hu Hs. unfold dynamic_step.
  set (t0 := t <| t_last_throughput := t_throughput t |> <| t_throughput := 0 |>).
  destruct (if (t_placement t0 =? BLK_PLACEMENT_SLOW) && (usage <? split)
            then _ else _) as [t1 u1] eqn:E1.
  assert (task_placed t1 /\ u1 - on_fast t1 = usage - on_fast t /\ u1 <= split)
    as (Hp1 & He1 & Hs1).
  { destruct (_ && _) eqn:E; injection E1 as <- <-;
      [|split_and!; [done|done|lia]].
    apply andb_true_iff in E as [E Eu]. zbool. unfold on_fast in *. cbn in *.
    rewrite E in *. cbn in *.
    rewrite u32_id by lia. split_and!; [by left|lia|lia]. }
  set (t2 := if t_last_throughput t1 =? 0 then _ else _).
  assert (t_placement t2 = t_placement t1) as Hp2 by (unfold t2; by zif).
  assert (on_fast t2 = on_fast t1) as Hf2 by (unfold on_fast; by rewrite Hp2).
  pose proof (on_fast_range t1) as Hr1. clearbody t2. clear E1.
  destruct (_ && _) eqn:E; intros [<- <-]%pair_equal_spec.
  - apply andb_true_iff in E as [_ E]. zbool.
    assert (on_fast t1 = 1) as Hf1 by (unfold on_fast; by rewrite <-Hp2, E).
    rewrite u32_id by lia. split_and!; [by right| |lia]. unfold on_fast at 1. cbn. lia.
  - unfold task_placed. rewrite Hp2, Hf2. done.
Qed.

(** What a timer does to the contexts of the list: the throughput of the epoch is
    taken as the last one and counted from zero again; other contexts are left alone. *)
Record sampled (nodes : list (option Z)) (k k' : polyos) : Prop := {
  sm_listed : forall id t, Some id ∈ nodes -> task_at k id = Some t ->
    exists t', task_at k' id = Some t' /\
      t_last_throughput t' = t_throughput t /\ t_throughput t' = 0;
  sm_others : forall id, Some id ∉ nodes -> k_tasks k' !! id = k_tasks k !! id;
  sm_mapped : k_mapped_tasks k' = k_mapped_tasks k;
  sm_tables : k_next_task k' = k_next_task k /\ k_ttable k' = k_ttable k /\
    (forall id, is_Some (k_tasks k' !! id) <-> is_Some (k_tasks k !! id))
}.

(** The throughput of the tasks of the list in the epoch that ends. *)
Definition total_throughput (k : polyos) (nodes : list (option Z)) : Z :=
  foldr (fun e n => match e with
                    | Some id => from_option t_throughput 0 (task_at k id) + n
                    | None => n
                    end) 0 nodes.

#[global] Arguments total_throughput : simpl never.

Lemma total_throughput_cons k id t nodes :
  task_at k id = Some t ->
  total_throughput k (Some id :: nodes) = t_throughput t + total_throughput k nodes.
Proof. intros H. unfold total_throughput. cbn. by rewrite H. Qed.

Lemma task_at_set_ne k id id' t :
  id' <> id -> task_at (k <| k_tasks := <[id := t]> (k_tasks k) |>) id' = task_at k id'.
Proof. intros H. unfold task_at. cbn. by rewrite lookup_insert_ne. Qed.

Lemma task_at_set_eq k id t :
  id ∈ k_mapped_tasks k ->
  task_at (k <| k_tasks := <[id := t]> (k_tasks k) |>) id = Some t.
Proof. intros H. unfold task_at. cbn. by rewrite decide_True, lookup_insert_eq. Qed.

Lemma total_throughput_set k id t nodes :
  Some id ∉ nodes ->
  total_throughput (k <| k_tasks := <[id := t]> (k_tasks k) |>) nodes =
    total_throughput k nodes.
Proof.
  unfold total_throughput. induction nodes as [|[id'|] nodes IH]; intros Hno; [done| |];
    apply not_elem_of_cons in Hno as [Hne Hno]; cbn [foldr]; rewrite IH by done; [|done].
  by rewrite task_at_set_ne by congruence.
Qed.

Lemma sampled_nil k : sampled [] k k.
Proof. split; try done. intros id t Hin. by apply elem_of_nil in Hin. Qed.

(** One context, then the rest of the list. *)
Lemma sampled_cons k k' id t t' nodes :
  Some id ∉ nodes -> task_at k id = Some t ->
  t_last_throughput t' = t_throughput t -> t_throughput t' = 0 ->
  sampled nodes (k <| k_tasks := <[id := t']> (k_tasks k) |>) k' ->
  sampled (Some id :: nodes) k k' /\ task_at k' id = Some t'.
Proof.
  intros Hno Ht Hl H0 [Hlist Hoth Hmap (Hn & Htt & Hdom)]. cbn in *.
  assert (id ∈ k_mapped_tasks k /\ k_tasks k !! id = Some t) as [Hm Hk]
    by (unfold task_at in Ht; by destruct (decide _)).
  assert (task_at k' id = Some t') as Hid.
  { unfold task_at. rewrite Hmap, decide_True, Hoth, lookup_insert_eq by done. done. }
  split; [|done]. split; [| |done|split_and!; [done|done|]].
  - intros id' u [[= ->]|Hin]%elem_of_cons Hu.
    + rewrite Ht in Hu. injection Hu as <-. eauto.
    + apply Hlist; [done|]. rewrite task_at_set_ne; [done|]. by intros ->.
  - intros id' Hin. apply not_elem_of_cons in Hin as [Hne Hin]. rewrite Hoth by done.
    rewrite lookup_insert_ne; [done|]. congruence.
  - intros id'. rewrite Hdom. destruct (decide (id' = id)) as [->|].
    + rewrite lookup_insert_eq, Hk. split; eauto.
    + by rewrite lookup_insert_ne by done.
Qed.

Lemma u64_add_u64 a b : u64 (a + u64 b) = u64 (a + b).
Proof. unfold u64. by rewrite Zplus_mod_idemp_r. Qed.

Lemma dynamic_step_sampled split t usage t' usage' :
  dynamic_step split t usage = (t', usage') ->
  t_last_throughput t' = t_throughput t /\ t_throughput t' = 0.
Proof.
  unfold dynamic_step. intros E. repeat case_match; by simplify_eq.
Qed.

(** The loop changes contexts of the list only, and keeps count and usage in
    step; [c] counts the nodes already visited. *)
Lemma dynamic_loop_spec split nodes : forall c thr usage k,
  NoDup nodes -> nodes_ok (k_mapped_tasks k) (k_tasks k) nodes -> split < 2 ^ 31 ->
  0 <= c -> usage = c + fast_count (k_tasks k) nodes -> usage <= split ->
  exists thr' usage' k',
    dynamic_loop nodes split thr usage k = Some (thr', usage', k') /\
    u64 thr' = u64 (thr + total_throughput k nodes) /\
    nodes_ok (k_mapped_tasks k') (k_tasks k') nodes /\
    usage' = c + fast_count (k_tasks k') nodes /\
    usage' <= split /\ sampled nodes k k'.
Proof.
  induction nodes as [|e nodes IH]; intros c thr usage k Hnd Hok Hs Hc Hu Hle;
    cbn [dynamic_loop].
  { do 3 eexists. split_and!; [done|by rewrite Z.add_0_r|done..|apply sampled_nil]. }
  apply NoDup_cons in Hnd as [He Hnd]. rewrite fast_count_cons in Hu.
  destruct (Hok e) as (id & t & -> & Hm & Ht & Hp); [left|].
  destruct (nodes_ok_task_at _ _ id Hok) as (t_ & Hat & Ht_ & _); [left|].
  rewrite Ht in Ht_. injection Ht_ as <-.
  rewrite Hat. cbn [mbind option_bind node_fast] in *. rewrite Ht in Hu.
  pose proof (fast_count_range (k_tasks k) nodes).
  destruct (dynamic_step split t usage) as [t1 u1] eqn:E.
  destruct (dynamic_step_spec split t usage t1 u1) as (Hp1 & Hu1 & Hs1);
    [done|lia|done|done|].
  destruct (dynamic_step_sampled _ _ _ _ _ E) as [Hl1 H01].
  pose proof (on_fast_range t1) as Hr1.
  assert (fast_count (<[id:=t1]> (k_tasks k)) nodes = fast_count (k_tasks k) nodes) as Hc1.
  { apply fast_count_ext. intros id' Hid'.
    rewrite lookup_insert_ne; [done|]. by intros ->. }
  destruct (IH (c + on_fast t1) (u64 (thr + t_throughput t)) u1
    (k <| k_tasks := <[id:=t1]> (k_tasks k) |>))
    as (thr' & u' & k' & -> & Hthr & Hok' & Hu' & Hle' & Hsm);
    [done| |done|lia|cbn; lia|done|].
  { intros e' He'. destruct (Hok e') as (id' & t' & -> & Hm' & Ht' & Hp'); [by right|].
    exists id', t'. cbn. rewrite lookup_insert_ne; [done|]. by intros ->. }
  destruct (sampled_cons k k' id t t1 nodes He Hat Hl1 H01 Hsm) as [Hsm' Hid].
  assert (id ∈ k_mapped_tasks k' /\ k_tasks k' !! id = Some t1) as [Hmk Hidk]
    by (unfold task_at in Hid; by destruct (decide _)).
  do 3 eexists. split_and!; [done| | | |done|done].
  - rewrite Hthr, total_throughput_set, (total_throughput_cons k id t) by done.
    rewrite Z.add_comm, u64_add_u64. f_equal. lia.
  - intros e' [->|He']%elem_of_cons; [by exists id, t1|by apply Hok'].
  - rewrite fast_count_cons. cbn. rewrite Hidk. lia.
Qed.

(** A tick of the dynamic policy. *)
Lemma placement_dynamic_inv l k :
  sched_inv l k ->
  exists l' k', polystore_placement_dynamic l k = Some (l', k') /\ sched_inv l' k' /\
    sampled (l_task_list l) k k' /\
    l_aggre_throughput l' =
      u64 (l_aggre_throughput l + total_throughput k (l_task_list l)).
Proof.
  intros []. unfold polystore_placement_dynamic.
  destruct (dynamic_loop_spec (l_split_point l) (l_task_list l) 0 0
    (l_fastdev_usage l) k)
    as (thr & u & k' & -> & Hthr & Hok & Hu & Hle & Hsm); [done|done|lia..|].
  cbn [mbind option_bind]. do 2 eexists. split; [done|]. split_and!; [|done|].
  - destruct (sm_tables _ _ _ Hsm) as (E1 & E2 & Hdom).
    split; cbn; rewrite ?E1, ?E2; try done; try lia. intros id t Ht.
    destruct (proj1 (Hdom id)) as [t' Ht']; [by eexists|]. by eapply si_fresh0.
  - cbn. by rewrite <-u64_add_u64, Hthr, u64_add_u64.
Qed.

(** ** The static policy *)

Lemma static_loop_spec nodes : forall thr last k,
  NoDup nodes -> nodes_ok (k_mapped_tasks k) (k_tasks k) nodes ->
  exists thr' last' k',
    static_loop nodes thr last k = Some (thr', last', k') /\
    u64 thr' = u64 (thr + total_throughput k nodes) /\
    sampled nodes k k' /\
    forall id, t_placement <$> k_tasks k' !! id = t_placement <$> k_tasks k !! id.
Proof.
  induction nodes as [|e nodes IH]; intros thr last k Hnd Hok; cbn [static_loop].
  { do 3 eexists. split_and!; [done|by rewrite Z.add_0_r|apply sampled_nil|done]. }
  apply NoDup_cons in Hnd as [He Hnd].
  destruct (Hok e) as (id & t & -> & Hm & Ht & Hp); [left|].
  destruct (nodes_ok_task_at _ _ id Hok) as (t_ & Hat & Ht_ & _); [left|].
  rewrite Ht in Ht_. injection Ht_ as <-.
  rewrite Hat. cbn [mbind option_bind].
  match goal with |- context [static_loop nodes ?a ?b (k <| k_tasks := <[id := ?t']> _ |>)] =>
    destruct (IH a b (k <| k_tasks := <[id := t']> (k_tasks k) |>))
      as (thr' & last' & k' & -> & Hthr & Hsm & Hpl); [done| |];
    [|destruct (sampled_cons k k' id t t' nodes He Hat eq_refl eq_refl Hsm) as [Hsm' _]]
  end.
  { apply nodes_ok_insert; [intros e' He'; apply Hok; by right|exact Hp]. }
  do 3 eexists. split_and!; [done| |done|].
  - rewrite Hthr, total_throughput_set, (total_throughput_cons k id t) by done.
    rewrite Z.add_comm, u64_add_u64. f_equal. lia.
  - intros id'. rewrite Hpl. cbn. destruct (decide (id' = id)) as [->|].
    + by rewrite lookup_insert_eq, Ht.
    + by rewrite lookup_insert_ne by done.
Qed.

(** The invariant depends on placements only. *)
Lemma sched_inv_placement l k l' k' :
  sched_inv l k ->
  (forall id, t_placement <$> k_tasks k' !! id = t_placement <$> k_tasks k !! id) ->
  l_task_list l' = l_task_list l -> l_fastdev_usage l' = l_fastdev_usage l ->
  l_split_point l' = l_split_point l -> l_active_cnt l' = l_active_cnt l ->
  k_next_task k' = k_next_task k -> k_ttable k' = k_ttable k ->
  k_mapped_tasks k' = k_mapped_tasks k -> sched_inv l' k'.
Proof.
  intros [] Hpl E1 E2 E3 E4 E5 E6 E7.
  assert (forall nodes, fast_count (k_tasks k') nodes = fast_count (k_tasks k) nodes)
    as Hfc.
  { induction nodes as [|e nodes IH]; [done|]. rewrite !fast_count_cons, IH. f_equal.
    destruct e as [id|]; [|done]. cbn. specialize (Hpl id). unfold on_fast.
    destruct (k_tasks k' !! id), (k_tasks k !! id); cbn in Hpl; try done.
    by injection Hpl as ->. }
  split; rewrite ?E1, ?E2, ?E3, ?E4, ?E5, ?E6, ?E7, ?Hfc; try done.
  - intros e He. destruct (si_nodes0 e He) as (id & t & -> & Hm & Ht & Hp).
    specialize (Hpl id). rewrite Ht in Hpl. cbn in Hpl.
    destruct (k_tasks k' !! id) as [t'|] eqn:Et'; [|done]. injection Hpl as Hpl.
    exists id, t'. unfold task_placed. by rewrite Hpl.
  - intros id t Ht. specialize (Hpl id). rewrite Ht in Hpl. cbn in Hpl.
    destruct (k_tasks k !! id) eqn:Ek; [|done]. by eapply si_fresh0.
Qed.

Lemma placement_static_inv l k :
  sched_inv l k ->
  exists l' k', polystore_placement_static_statonly false l k = Some (l', k') /\
    sched_inv l' k' /\ sampled (l_task_list l) k k' /\
    l_aggre_throughput l' =
      u64 (l_aggre_throughput l + total_throughput k (l_task_list l)) /\
    forall id, t_placement <$> k_tasks k' !! id = t_placement <$> k_tasks k !! id.
Proof.
  intros H. unfold polystore_placement_static_statonly.
  destruct (static_loop_spec (l_task_list l) 0 None k (si_nodup _ _ H) (si_nodes _ _ H))
    as (thr & last & k' & -> & Hthr & Hsm & Hpl). cbn [mbind option_bind].
  do 2 eexists. split; [done|]. destruct (sm_tables _ _ _ Hsm) as (E1 & E2 & _).
  split_and!; [|done| |done].
  - eapply sched_inv_placement; [done|done|done..|by rewrite E1|by rewrite E2|].
    apply (sm_mapped _ _ _ Hsm).
  - cbn. by rewrite <-u64_add_u64, Hthr, u64_add_u64.
Qed.

(** ** Registration and deletion *)

(** A context that is not in the list may come and go. *)
Lemma sched_inv_unlisted l k id t :
  sched_inv l k -> id = k_next_task k -> id < 2 ^ 31 - 1 ->
  sched_inv l (k <| k_next_task := id + 1 |>
                 <| k_tasks := <[id := t]> (k_tasks k) |>).
Proof.
  intros [] -> Hlt.
  assert (Some (k_next_task k) ∉ l_task_list l) as Hno.
  { intros Hin. destruct (si_nodes0 _ Hin) as (id & t' & [= E] & _ & Ht & _).
    apply si_fresh0 in Ht. lia. }
  assert (forall id, Some id ∈ l_task_list l ->
    <[k_next_task k := t]> (k_tasks k) !! id = k_tasks k !! id) as Hsame.
  { intros id Hin. rewrite lookup_insert_ne; [done|]. by intros <-. }
  split; cbn; try done; try lia.
  - by eapply nodes_ok_ext.
  - rewrite si_usage0. symmetry. by apply fast_count_ext.
  - intros id t' [[<- _]|[_ Ht]]%lookup_insert_Some; [lia|].
    apply si_fresh0 in Ht. lia.
Qed.

Lemma sched_inv_ext l k k' :
  sched_inv l k -> k_tasks k' = k_tasks k -> k_next_task k' = k_next_task k ->
  k_mapped_tasks k ⊆ k_mapped_tasks k' ->
  (forall a b, (a, b) ∈ k_ttable k' -> a = b) -> sched_inv l k'.
Proof.
  intros [] E1 E2 Hm E3. split; rewrite ?E1, ?E2; try done.
  eapply nodes_ok_ext; [|done..]. set_solver.
Qed.

Lemma task_ctx_alloc_inv env l k r k' :
  sched_inv l k -> k_next_task k < 2 ^ 31 - 1 ->
  task_ctx_alloc env k = (r, k') ->
  sched_inv l k' /\ k_ttable k' = k_ttable k /\
  k_next_task k' = k_next_task k + 1 /\
  (forall id, r = Some id -> id = k_next_task k /\
     exists t, k_tasks k' !! id = Some t).
Proof.
  intros H Hlt. pose proof (si_next _ _ H) as Hn. unfold task_ctx_alloc.
  rewrite s32_id, u32_id by lia.
  assert (sched_inv l (k <| k_next_task := k_next_task k + 1 |>)) as Hskip.
  { destruct H. split; cbn; try done; try lia. intros id t Ht.
    apply si_fresh0 in Ht. lia. }
  destruct (_ <? _); [by intros [= <- <-]|].
  destruct (negb _); [by intros [= <- <-]|].
  assert (sched_inv l (k <| k_next_task := k_next_task k + 1 |>
    <| k_tasks := <[k_next_task k := Task (u32 (k_next_task k)) 0 0 0 0 0 0 0]>
                    (k_tasks k) |>)) as Hnew by (by apply sched_inv_unlisted).
  destruct (task_vma env); [| |destruct (remap_task_ok env)]; intros [= <- <-];
    (split_and!; [eapply sched_inv_ext; [exact Hnew|done|done|cbn; set_solver|apply H]|
                  done|done|]);
    intros id [= <-]; (split; [done|]); eexists; apply lookup_insert_eq.
Qed.

Lemma task_ctx_reg_inv env l k r out k' :
  sched_inv l k -> k_next_task k < 2 ^ 31 - 1 ->
  polyos_task_ctx_reg env k = (r, out, k') ->
  sched_inv l k' /\
  (forall id a, out = Some (id, a) ->
     id = k_next_task k /\ k_next_task k' = k_next_task k + 1 /\
     exists t, k_tasks k' !! id = Some t).
Proof.
  intros H Hlt. pose proof (si_next _ _ H) as Hn. unfold polyos_task_ctx_reg.
  destruct (negb _); [by intros [= <- <- <-]|].
  destruct (task_ctx_alloc env k) as [[id|] k1] eqn:Ea; 
    destruct (task_ctx_alloc_inv _ _ _ _ _ H Hlt Ea) as (H1 & Ht1 & Hn1 & Hid);
    [|by intros [= <- <- <-]].
  destruct (Hid id) as (-> & t & Ht); [done|].
  unfold task_ctx_hashtable_insert.
  assert (sched_inv l (k1 <| k_ttable := (u32 (k_next_task k), k_next_task k) ::
    k_ttable k1 |>)) as H2.
  { eapply sched_inv_ext; [exact H1|done|done|done|]. cbn.
    intros a b [[= -> ->]|Hin]%elem_of_cons; [|by apply (si_table _ _ H1)].
    rewrite u32_id; lia. }
  destruct (kmalloc_ok env); cbn.
  - destruct (copy_to_ok env); intros [= <- <- <-]; (split; [done|]);
      intros ? ? [= <- <-] || done. eauto.
  - by intros [= <- <- <-].
Qed.

Lemma task_ctx_register_inv env l k tls ret tls' l' k' :
  sched_inv l k -> k_next_task k < 2 ^ 31 - 1 ->
  polystore_task_ctx_register env l k tls = Some (ret, tls', l', k') ->
  sched_inv l' k'.
Proof.
  intros H Hlt. unfold polystore_task_ctx_register.
  destruct (polyos_task_ctx_reg env k) as [[r out] k1] eqn:Er.
  destruct (task_ctx_reg_inv _ _ _ _ _ _ H Hlt Er) as [H1 Hout].
  destruct (_ <? _); [by intros [= <- <- <- <-]|].
  destruct out as [[id a]|]; [|by intros [= <- <- <- <-]].
  destruct (a =? 0); [by intros [= <- <- <- <-]|].
  destruct (Hout id a) as (-> & Hn1 & t & Ht); [done|].
  unfold task_at. destruct (decide _) as [Hmapped|]; [|done].
  rewrite Ht. cbn [mbind option_bind].
  assert (Some (k_next_task k) ∉ l_task_list l) as Hno.
  { intros Hin. destruct (si_nodes _ _ H _ Hin) as (id & t' & [= E] & _ & Ht' & _).
    apply (si_fresh _ _ H) in Ht'. lia. }
  pose proof (si_next _ _ H) as Hn. pose proof (si_cnt _ _ H) as Hcnt.
  pose proof (fast_count_range (k_tasks k) (l_task_list l)) as Hfc.
  pose proof (si_usage _ _ H) as Hus.
  rewrite u32_id by lia. cbn [l_split_point update].
  set (t0 := t <| t_throughput := 0 |> <| t_throughput_read := 0 |>
    <| t_throughput_write := 0 |> <| t_last_throughput := 0 |>
    <| t_low_throughput_tic := 0 |>).
  assert (forall pl u, pl = BLK_PLACEMENT_FAST \/ pl = BLK_PLACEMENT_SLOW ->
    u = l_fastdev_usage l + on_fast (t0 <| t_placement := pl |>) ->
    u <= l_split_point l ->
    sched_inv
      (l <| l_active_cnt := s32 (l_active_cnt l + 1) |> <| l_fastdev_usage := u |>
         <| l_task_list := l_task_list l ++ [Some (k_next_task k)] |>)
      (k1 <| k_tasks := <[k_next_task k := t0 <| t_placement := pl |>]>
                          (k_tasks k1) |>)) as Hgo.
  { intros pl u Hpl Hu Hle. destruct H1.
    assert (forall id, Some id ∈ l_task_list l ->
      <[k_next_task k := t0 <| t_placement := pl |>]> (k_tasks k1) !! id =
      k_tasks k1 !! id) as Hsame.
    { intros id Hin. rewrite lookup_insert_ne; [done|]. by intros <-. }
    split; cbn; rewrite ?length_app; cbn; try lia.
    - apply NoDup_app. split_and!; [done| |apply NoDup_singleton]. set_solver.
    - intros e' [He|He]%elem_of_app.
      + by apply (nodes_ok_ext (k_mapped_tasks k1) _ (k_tasks k1)) with (l_task_list l).
      + apply list_elem_of_singleton in He as ->. do 2 eexists.
        split_and!; [done|done|apply lookup_insert_eq|exact Hpl].
    - rewrite fast_count_app, (fast_count_ext (k_tasks k1)) by done.
      rewrite fast_count_singleton. cbn. rewrite lookup_insert_eq. lia.
    - rewrite s32_id by lia. lia.
    - intros id t' [[<- _]|[_ Ht']]%lookup_insert_Some; [lia|].
      by apply si_fresh0 in Ht'.
    - done. }
  destruct (l_active_cnt l <? l_split_point l) eqn:Esp; zbool; intros [= <- <- <- <-].
  - apply (Hgo BLK_PLACEMENT_FAST); [by left| |]; rewrite u32_id by lia; cbn; lia.
  - apply (Hgo BLK_PLACEMENT_SLOW (l_fastdev_usage l)); [by right|cbn; lia|].
    apply (si_split _ _ H).
Qed.

Lemma task_list_del_split id l1 l2 :
  NoDup (l1 ++ Some id :: l2) ->
  task_list_del id (l1 ++ Some id :: l2) = l1 ++ l2.
Proof.
  intros (_ & Hd & [Hn _]%NoDup_cons)%NoDup_app. unfold task_list_del.
  assert (forall l : list (option Z), Some id ∉ l -> filter (fun e => e <> Some id) l = l)
    as Hf.
  { induction l as [|e l IH]; intros Hl; [done|].
    apply not_elem_of_cons in Hl as [He Hl].
    rewrite filter_cons_True, IH by done. done. }
  rewrite filter_app, filter_cons_False by (intros Hx; by apply Hx).
  rewrite (Hf l1), (Hf l2); [done|done|]. intros Hin. apply (Hd _ Hin). left.
Qed.

(** What the module does to the other contexts when one is deleted. *)
Lemma task_delete_effect env id k r k' :
  (forall a b, (a, b) ∈ k_ttable k -> a = b) -> 0 <= id < 2 ^ 31 ->
  polyos_task_ctx_delete env id k = Some (r, k') ->
  (forall id', id' <> id -> k_tasks k' !! id' = k_tasks k !! id' /\
     (id' ∈ k_mapped_tasks k -> id' ∈ k_mapped_tasks k')) /\
  (forall id' t', k_tasks k' !! id' = Some t' -> k_tasks k !! id' = Some t') /\
  k_next_task k' = k_next_task k /\
  (forall a b, (a, b) ∈ k_ttable k' -> (a, b) ∈ k_ttable k).
Proof.
  intros Htab Hid. unfold polyos_task_ctx_delete, task_ctx_hashtable_search.
  destruct (negb _); [by intros [= <- <-]|].
  destruct (hash_search _ _) as [b|] eqn:Es; [|by intros [= <- <-]].
  apply hash_search_Some, Htab in Es. rewrite u32_id in Es by lia. subst b.
  unfold task_ctx_free. destruct (_ !! id); [|done]. cbn [mbind option_bind].
  assert (forall a b, (a, b) ∈ hash_del_first (u32 id) (k_ttable k) -> (a, b) ∈ k_ttable k)
    as Hdel by (intros a b ?; by eapply elem_of_sublist, hash_del_first_sublist).
  destruct (task_vma env); [done|..]; intros [= <- <-]; cbn; (split_and!; [|..|done|done]);
    try (by intros id' t' [? ?]%lookup_delete_Some);
    intros id' Hne; rewrite lookup_delete_ne by done; set_solver.
Qed.

Lemma task_ctx_delete_inv env l k id ret tls' l' k' :
  sched_inv l k -> Some id ∈ l_task_list l ->
  polystore_task_ctx_delete env l k (Some id) = Some (ret, tls', l', k') ->
  sched_inv l' k' /\ tls' = None.
Proof.
  intros H Hin. unfold polystore_task_ctx_delete.
  destruct (nodes_ok_task_at _ _ _ (si_nodes _ _ H) Hin) as (t & Hat & Ht & Hp).
  rewrite Hat. cbn [mbind option_bind].
  destruct (list_elem_of_split _ _ Hin) as (l1 & l2 & El).
  pose proof (si_nodup _ _ H) as Hnd. pose proof (si_usage _ _ H) as Hus.
  pose proof (si_cnt _ _ H) as Hcnt. pose proof (si_next _ _ H) as Hnx.
  pose proof (si_split _ _ H) as Hsp. pose proof (on_fast_range t) as Hft.
  rewrite El in Hnd, Hus, Hcnt, Hnx.
  assert (Some id ∉ l1 ++ l2) as Hno.
  { apply NoDup_app in Hnd as (_ & Hd & [Hn _]%NoDup_cons).
    intros [?|?]%elem_of_app; [by eapply Hd; [|left]|done]. }
  rewrite fast_count_app, fast_count_cons in Hus. cbn [node_fast] in Hus.
  rewrite Ht in Hus. rewrite length_app in Hcnt, Hnx. cbn [length] in Hcnt, Hnx.
  pose proof (fast_count_range (k_tasks k) l1).
  pose proof (fast_count_range (k_tasks k) l2).
  assert (forall (u : Z) k1, u = l_fastdev_usage l - on_fast t ->
    (forall id', Some id' ∈ l1 ++ l2 -> k_tasks k1 !! id' = k_tasks k !! id' /\
       (id' ∈ k_mapped_tasks k -> id' ∈ k_mapped_tasks k1)) ->
    (forall id' t', k_tasks k1 !! id' = Some t' -> k_tasks k !! id' = Some t') ->
    k_next_task k1 = k_next_task k ->
    (forall a b, (a, b) ∈ k_ttable k1 -> (a, b) ∈ k_ttable k) ->
    sched_inv (l <| l_task_list := task_list_del id (l_task_list l) |>
                 <| l_fastdev_usage := u |>
                 <| l_active_cnt := s32 (l_active_cnt l - 1) |>) k1) as Hgo.
  { intros u k1 Hu Hsame Hsub Hn Htt.
    assert (task_list_del id (l_task_list l) = l1 ++ l2) as Hdel
      by (rewrite El; by apply task_list_del_split).
    split; cbn; rewrite ?Hdel, ?Hn, ?length_app; try lia.
    - apply NoDup_app in Hnd as (? & Hd & [_ ?]%NoDup_cons). apply NoDup_app.
      split_and!; [done| |done]. intros x Hx Hx2. eapply Hd; [done|by right].
    - apply (nodes_ok_ext (k_mapped_tasks k) _ (k_tasks k)); [by apply Hsame..|].
      intros e He. apply (si_nodes _ _ H).
      rewrite El. set_solver.
    - rewrite (fast_count_ext (k_tasks k)), fast_count_app by (intros; by apply Hsame).
      lia.
    - rewrite s32_id by lia. lia.
    - intros id' t' Ht'. by eapply (si_fresh _ _ H), Hsub.
    - intros a b Hab. by apply (si_table _ _ H), Htt. }
  set (u := if t_placement t =? BLK_PLACEMENT_FAST
            then u32 (l_fastdev_usage l - 1) else l_fastdev_usage l).
  assert (u = l_fastdev_usage l - on_fast t) as Hu.
  { unfold u. unfold on_fast in *. destruct (_ =? _); [rewrite u32_id|]; lia. }
  destruct (polyos_task_ctx_delete env id k) as [[r k1]|] eqn:Ed; [|done].
  cbn [mbind option_bind]. intros [= <- <- <- <-]. split; [|done].
  replace (if t_placement t =? BLK_PLACEMENT_FAST then _ else _) with
    (l <| l_task_list := task_list_del id (l_task_list l) |> <| l_fastdev_usage := u |>)
    by (unfold u; destruct (_ =? _), l; done).
  assert (0 <= id < 2 ^ 31) as Hid by (pose proof (si_fresh _ _ H _ _ Ht); lia).
  destruct (task_delete_effect _ _ _ _ _ (si_table _ _ H) Hid Ed)
    as (Hsame & Hsub & Hnt & Htt). apply Hgo; [done| |done|done|done].
  intros id' Hid'. apply Hsame. by intros ->.
Qed.

(** ** All events *)

(** What can happen to the scheduler state: a thread registers or leaves, the
    timer fires under one of the two policies, or a task performs I/O. *)
Inductive sched_step : lib * polyos -> lib * polyos -> Prop :=
| step_register env tls ret tls' l k l' k' :
    k_next_task k < 2 ^ 31 - 1 ->
    polystore_task_ctx_register env l k tls = Some (ret, tls', l', k') ->
    sched_step (l, k) (l', k')
| step_delete env id ret tls' l k l' k' :
    Some id ∈ l_task_list l ->
    polystore_task_ctx_delete env l k (Some id) = Some (ret, tls', l', k') ->
    sched_step (l, k) (l', k')
| step_dynamic l k l' k' :
    polystore_placement_dynamic l k = Some (l', k') ->
    sched_step (l, k) (l', k')
| step_static l k l' k' :
    polystore_placement_static_statonly false l k = Some (l', k') ->
    sched_step (l, k) (l', k')
| step_io id t t' l k :
    k_tasks k !! id = Some t -> t_placement t' = t_placement t ->
    sched_step (l, k) (l, k <| k_tasks := <[id := t']> (k_tasks k) |>).

Lemma sched_step_inv s s' :
  sched_step s s' -> sched_inv (fst s) (snd s) -> sched_inv (fst s') (snd s').
Proof.
  intros [] H'; cbn in *.
  - by eapply task_ctx_register_inv.
  - by eapply task_ctx_delete_inv.
  - destruct (placement_dynamic_inv _ _ H') as (? & ? & E & ? & _).
    rewrite E in H. by injection H as <- <-.
  - destruct (placement_static_inv _ _ H') as (? & ? & E & ? & _).
    rewrite E in H. by injection H as <- <-.
  - eapply sched_inv_placement; [done|..]; try done. intros id'. cbn.
    destruct (decide (id' = id)) as [->|].
    + rewrite lookup_insert_eq, H. cbn. by f_equal.
    + by rewrite lookup_insert_ne by done.
Qed.

Lemma sched_inv_init split : 0 <= split < 2 ^ 31 -> sched_inv (init_lib split) init_os.
Proof.
  intros. split; cbn; try done; try lia; try constructor.
  - intros e He. by apply elem_of_nil in He.
  - intros a b Hab. by apply elem_of_nil in Hab.
Qed.

Lemma sched_reachable split s :
  0 <= split < 2 ^ 31 -> rtc sched_step (init_lib split, init_os) s ->
  sched_inv (fst s) (snd s).
Proof.
  intros Hs Hr. assert (sched_inv (fst (init_lib split, init_os)) init_os) as Hi
    by (by apply sched_inv_init).
  change init_os with (snd (init_lib split, init_os)) in Hi at 2.
  induction Hr as [|s1 s2 s3 H12 H23 IH]; [done|]. by apply IH, (sched_step_inv s1).
Qed.

(** The split point is a constant of the process. *)
Lemma split_point_step s s' :
  sched_step s s' -> l_split_point (fst s') = l_split_point (fst s).
Proof.
  intros []; cbn; try done.
  - revert H0. unfold polystore_task_ctx_register.
    repeat case_match; intros; simplify_option_eq; try done;
      repeat case_match; by simplify_eq.
  - revert H0. unfold polystore_task_ctx_delete.
    intros; simplify_option_eq. repeat case_match; by simplify_eq.
  - revert H. unfold polystore_placement_dynamic.
    destruct (dynamic_loop _ _ _ _ _) as [[[] ?]|]; [|done].
    by intros [= <- <-].
  - revert H. unfold polystore_placement_static_statonly.
    destruct (static_loop _ _ _ _) as [[[] ?]|]; [|done].
    by intros [= <- <-].
Qed.

Lemma split_point_rtc s s' :
  rtc sched_step s s' -> l_split_point (fst s') = l_split_point (fst s).
Proof.
  induction 1 as [|s1 s2 s3 H12 H23 IH]; [done|]. rewrite IH.
  by apply split_point_step.
Qed.

(** C33: the fast device is never oversubscribed.  In every state reachable by
    registering and deleting tasks, timer ticks of either policy and I/O (in the build
    without the file copy experiment), each listed task has a context that is mapped
    and placed on the fast or the slow device, the usage counter is
    exactly the number of tasks on the fast device, and that number is at most
    the configured split point. *)
Theorem fast_device_within_split (split : Z) (l : lib) (k : polyos) :
  0 <= split < 2 ^ 31 ->
  rtc sched_step (init_lib split, init_os) (l, k) ->
  nodes_ok (k_mapped_tasks k) (k_tasks k) (l_task_list l) /\
  l_fastdev_usage l = fast_count (k_tasks k) (l_task_list l) /\
  fast_count (k_tasks k) (l_task_list l) <= split.
Proof.
  intros Hs Hr. destruct (sched_reachable split (l, k) Hs Hr). cbn in *.
  assert (l_split_point l = split) as Hsp.
  { apply split_point_rtc in Hr. done. }
  split_and!; [done|done|lia].
Qed.

Lemma fast_device_within_split_witness :
  exists l k, rtc sched_step (init_lib 1, init_os) (l, k) /\
    zlength (l_task_list l) = 2 /\
    fast_count (k_tasks k) (l_task_list l) <= 1.
Proof.
  assert (exists l k, rtc sched_step (init_lib 1, init_os) (l, k) /\
    zlength (l_task_list l) = 2) as (l & k & Hr & Hl).
  { do 2 eexists. split.
    - eapply rtc_l.
      { eapply (step_register all_ok None); [done|vm_compute; reflexivity]. }
      eapply rtc_once.
      eapply (step_register all_ok None); [done|vm_compute; reflexivity].
    - done. }
  exists l, k. split_and!; [done|done|].
  apply (fast_device_within_split 1 l k); [lia|done].
Defined.



End Placement.
