(* ===== verification/OpeData.v ===== *)
(** * Data operations ([polylib/src/opedata.c], without the Poly cache)

    The operations applications call on a descriptor: read, write, pread, pwrite,
    lseek, ftruncate, fallocate, fsync.  [world] collects the file systems, the
    kernel module and its shared memory, the library's tables and the calling
    thread's task context.  [None] is an invalid memory access or exhausted
    fuel. *)

From S2P Require Import Prelude Defs Posix IntervalTree Indexing IoDirect PolyOS.
From S2P Require Import Context.
Import IoDirect PolyOS Context.

#[local] Open Scope Z_scope.

Module OpeData.

Section model.
Context {Fs : Type} `{!PosixFS Fs}.

Record world := World {
  w_fs : Fs;
  w_os : polyos;
  w_lib : lib;
  w_tls : option Z                  (* tls_task_ctx.task_ctx of the caller *)
}.

#[export] Instance world_copy : Copy world := fun w =>
  World (w_fs w) (w_os w) (w_lib w) (w_tls w).

Definition inode_at (w : world) (ino : Z) : option poly_inode :=
  k_inodes (w_os w) !! ino.

Definition set_inode (ino : Z) (inode : poly_inode) (w : world) : world :=
  w <| w_os := w_os w <| k_inodes := <[ino := inode]> (k_inodes (w_os w)) |> |>.

Definition set_file (polyfd : Z) (file : poly_file) (w : world) : world :=
  w <| w_lib := w_lib w <| l_files := file_store polyfd file (l_files (w_lib w)) |> |>.

(** What an I/O iterator sees of the world, and storing back what it changed. *)
Definition io_view (w : world) (file : poly_file) (ino : Z) : option (io_state Fs) :=
  inode ← inode_at w ino;
  id ← w_tls w;
  task ← task_at (w_os w) id;
  Some (IOState (w_fs w) file inode task).

Definition io_store (polyfd ino : Z) (st : io_state Fs) (w : world) : world :=
  let w := set_file polyfd (io_file st) (set_inode ino (io_inode st) w) in
  let w := w <| w_fs := io_fs st |> in
  match w_tls w with
  | Some id => w <| w_os := w_os w <| k_tasks :=
                     <[id := io_task st]> (k_tasks (w_os w)) |> |>
  | None => w
  end.

(** Running an iterator on a file. *)
Definition run_io {A} (w : world) (polyfd ino : Z) (file : poly_file)
    (op : io_state Fs -> option (A * io_state Fs)) : option (A * world) :=
  st ← io_view w file ino;
  '(a, st) ← op st;
  Some (a, io_store polyfd ino st w).

(** [polystore_read_generic]: return value, contents of the buffer afterwards,
    state. *)
Definition polystore_read_generic (env : uenv) (polyfd : Z) (buf : list byte)
    (count offset : Z) (w : world) : option (Z * list byte * world) :=
  let fastfd := POLYSTORE_FAST_FD polyfd in
  let slowfd := POLYSTORE_SLOW_FD polyfd in
  let dev_read fd :=
    if offset =? -1
    then let '(ret, d, fs) := fs_read (w_fs w) fd count in
         Some (ret, overwrite 0 d buf, w <| w_fs := fs |>)
    else let '(ret, d) := fs_pread (w_fs w) fd count offset in
         Some (ret, overwrite 0 d buf, w) in
  match polystore_file_find env polyfd (w_lib w) with
  | None => Some (- ENOENT, buf, w)
  | Some file =>
      match f_inode file with
      | None => Some (- ENOENT, buf, w)
      | Some ino =>
          inode ← inode_at w ino;
          if i_placement inode =? BLK_PLACEMENT_FAST then dev_read fastfd
          else if i_placement inode =? BLK_PLACEMENT_SLOW then dev_read slowfd
          else if i_placement inode =? BLK_PLACEMENT_BOTH then
            '(ret, buf, w) ← run_io w polyfd ino file (fun st =>
               '(ret, buf, st) ← polystore_read_iter st buf count offset;
               Some ((ret, buf), st));
            Some (ret, buf, w)
          else Some (0, buf, w)
      end
  end.

(** [polystore_write_generic]: the first write turns the placement of the inode
    from undecided to both devices. *)
Definition polystore_write_generic (env : uenv) (polyfd : Z) (buf : list byte)
    (count offset : Z) (w : world) : option (Z * world) :=
  let fastfd := POLYSTORE_FAST_FD polyfd in
  let slowfd := POLYSTORE_SLOW_FD polyfd in
  let dev_write fd :=
    let '(ret, fs) := if offset =? -1 then fs_write (w_fs w) fd (ztake count buf)
                      else fs_pwrite (w_fs w) fd (ztake count buf) offset in
    Some (ret, w <| w_fs := fs |>) in
  match polystore_file_find env polyfd (w_lib w) with
  | None => Some (- ENOENT, w)
  | Some file =>
      match f_inode file with
      | None => Some (- ENOENT, w)
      | Some ino =>
          inode ← inode_at w ino;
          let iter w :=
            run_io w polyfd ino file (fun st =>
              if Z.land (f_flags file) O_APPEND =? 0
              then polystore_write_iter st buf count offset
              else polystore_append_iter st buf count offset) in
          if i_placement inode =? BLK_PLACEMENT_TBD then
            iter (set_inode ino (inode <| i_placement := BLK_PLACEMENT_BOTH |>) w)
          else if i_placement inode =? BLK_PLACEMENT_FAST then dev_write fastfd
          else if i_placement inode =? BLK_PLACEMENT_SLOW then dev_write slowfd
          else if i_placement inode =? BLK_PLACEMENT_BOTH then iter w
          else Some (- EINVAL, w)
      end
  end.

Definition polystore_read (env : uenv) (fd : Z) (buf : list byte) (count : Z)
    (w : world) := polystore_read_generic env fd buf count (-1) w.

Definition polystore_pread (env : uenv) (fd : Z) (buf : list byte) (count offset : Z)
    (w : world) := polystore_read_generic env fd buf count offset w.

Definition polystore_write (env : uenv) (fd : Z) (buf : list byte) (count : Z)
    (w : world) := polystore_write_generic env fd buf count (-1) w.

Definition polystore_pwrite (env : uenv) (fd : Z) (buf : list byte) (count offset : Z)
    (w : world) := polystore_write_generic env fd buf count offset w.

Definition polystore_fsync (fd : Z) : Z := 0.
Definition polystore_fdatasync (fd : Z) : Z := 0.

(** *** Truncation *)

(** The buffer of [polystore_ftruncate_iter]: [memset(buf, 4096, '0')] has its
    last two arguments swapped and clears 48 bytes; the rest is what the stack
    held. *)
Definition truncate_buf (stack : list byte) : list byte :=
  replicate 48 x00 ++ drop 48 stack.

(** The loop that enlarges the file by writing the buffer behind its end. *)
Fixpoint enlarge_loop (fuel : nat) (buf : list byte) (remain ret : Z) (st : io_state Fs)
    : option (Z * io_state Fs) :=
  if 0 <? remain then
    match fuel with
    | O => None
    | S fuel =>
        let offset := s64 (i_size (io_inode st)) in
        let count := if 4096 <? remain then 4096 else remain in
        '(wret, st) ← polystore_write_iter st buf count offset;
        let ret := if u64 wret =? count then ret else - EDQUOT in
        enlarge_loop fuel buf (u64 (remain - count)) ret st
    end
  else Some (ret, st).

Definition polystore_ftruncate_iter (stack : list byte) (fd : Z) (length : Z)
    (st : io_state Fs) : option (Z * io_state Fs) :=
  let fastfd := POLYSTORE_FAST_FD fd in
  let slowfd := POLYSTORE_SLOW_FD fd in
  let size := i_size (io_inode st) in
  if size <? u64 length then
    let remain := u64 (length - size) in
    enlarge_loop (Z.to_nat (remain / 4096 + 1)) (truncate_buf stack) remain 0 st
  else if u64 length <? size then
    match polystore_index_lookup (io_inode st) (u64 length) (u64 (size - 1)) with
    | None => Some (0, st)
    | Some entry =>
        let e := entry_at (io_inode st) entry in
        let fd := if e_placement e =? BLK_PLACEMENT_FAST then fastfd else slowfd in
        let '(_, fs) := fs_ftruncate (io_fs st) fd length in
        Some (0, st <| io_fs := fs |>
                    <| io_inode := set_entry (io_inode st) entry
                         (e <| e_size := u64 (e_size e - (size - length)) |>) |>)
    end
  else Some (0, st).

Definition polystore_ftruncate (env : uenv) (stack : list byte) (fd length : Z)
    (w : world) : option (Z * world) :=
  let dev fd' := let '(ret, fs) := fs_ftruncate (w_fs w) fd' length in
                 Some (ret, w <| w_fs := fs |>) in
  match polystore_file_find env fd (w_lib w) with
  | None => Some (- ENOENT, w)
  | Some file =>
      match f_inode file with
      | None => Some (- ENOENT, w)
      | Some ino =>
          inode ← inode_at w ino;
          if i_placement inode =? BLK_PLACEMENT_FAST then dev (POLYSTORE_FAST_FD fd)
          else if i_placement inode =? BLK_PLACEMENT_SLOW then dev (POLYSTORE_SLOW_FD fd)
          else run_io w fd ino file (polystore_ftruncate_iter stack fd length)
      end
  end.

Definition polystore_fallocate (env : uenv) (fd mode offset len : Z) (w : world)
    : option (Z * world) :=
  let dev fd' := let '(ret, fs) := fs_fallocate (w_fs w) fd' mode offset len in
                 Some (ret, w <| w_fs := fs |>) in
  match polystore_file_find env fd (w_lib w) with
  | None => Some (- ENOENT, w)
  | Some file =>
      match f_inode file with
      | None => Some (- ENOENT, w)
      | Some ino =>
          inode ← inode_at w ino;
          if i_placement inode =? BLK_PLACEMENT_FAST then dev (POLYSTORE_FAST_FD fd)
          else if i_placement inode =? BLK_PLACEMENT_SLOW then dev (POLYSTORE_SLOW_FD fd)
          else Some (0, w)
      end
  end.

Definition SEEK_CUR : Z := 1.
Definition SEEK_END : Z := 2.

(** [polystore_lseek]: every other value of [whence] is taken for [SEEK_SET], and
    the new offset is not checked. *)
Definition polystore_lseek (env : uenv) (fd offset whence : Z) (w : world)
    : option (Z * world) :=
  match polystore_file_find env fd (w_lib w) with
  | None => Some (-1, w)
  | Some file =>
      match f_inode file with
      | None => Some (-1, w)
      | Some ino =>
          if whence =? SEEK_CUR then
            let off := f_off file + offset in
            Some (off, set_file fd (file <| f_off := off |>) w)
          else if whence =? SEEK_END then
            inode ← inode_at w ino;
            let off := s64 (i_size inode + offset) in
            Some (off, set_file fd (file <| f_off := off |>) w)
          else Some (offset, set_file fd (file <| f_off := offset |>) w)
      end
  end.

End model.

Arguments world Fs : clear implicits.

(** Shrinking a file with ftruncate reports success and cuts the physical file
    of one piece, but the size of the file stays what it was. *)
Theorem ftruncate_shrink_keeps_size `{!PosixFS Fs} (stack : list byte) (fd len : Z)
    (st : io_state Fs) :
  u64 len < i_size (io_inode st) ->
  exists st', polystore_ftruncate_iter stack fd len st = Some (0, st') /\
    i_size (io_inode st') = i_size (io_inode st) /\
    i_it_tree (io_inode st') = i_it_tree (io_inode st).
Proof.
  intros Hl. unfold polystore_ftruncate_iter.
  rewrite (proj2 (Z.ltb_ge _ _)), (proj2 (Z.ltb_lt _ _)) by lia.
  destruct (polystore_index_lookup _ _ _) as [entry|]; [|eauto].
  destruct (fs_ftruncate _ _ _). by eexists.
Qed.

Lemma ftruncate_shrink_keeps_size_witness :
  exists st st', i_size (io_inode st) = 3 /\
    polystore_ftruncate_iter [] (POLYSTORE_GEN_FD 5 6) 1 st = Some (0, st') /\
    i_size (io_inode st') = 3.
Proof.
  set (st := example_io BLK_PLACEMENT_FAST
    <| io_inode := init_poly_inode 7 0 0 <| i_size := 3 |> |>).
  destruct (ftruncate_shrink_keeps_size [] (POLYSTORE_GEN_FD 5 6) 1 st)
    as (st' & H1 & H2 & _); [by vm_compute|].
  exists st, st'. split_and!; [done|exact H1|exact H2].
Defined.

End OpeData.
