(* ===== verification/OpeDataSpec.v ===== *)
(** * A PolyStore descriptor behaves like a byte array with an offset

    The abstract file [afile] has contents and an offset; [spec_op] says what
    each operation of the library does to it.  [data_ops_refine] shows that any
    sequence of operations within the supported envelope [op_ok] on an open
    PolyStore file returns what the abstract file returns. *)

From S2P Require Import Prelude Defs Posix IntervalTree Indexing IoDirect IoDirectSpec.
From S2P Require Import PolyOS Context OpeData.
Import IoDirect IoDirectSpec PolyOS Context OpeData.

#[local] Open Scope Z_scope.

Module OpeDataSpec.

(** ** The abstract file *)

Record afile := AFile { a_data : list byte; a_off : Z }.

Inductive data_op :=
| ORead (count : Z)
| OPread (count offset : Z)
| OWrite (d : list byte)
| OPwrite (d : list byte) (offset : Z)
| OLseek (offset whence : Z).

Definition seek_target (offset whence : Z) (a : afile) : Z :=
  if whence =? SEEK_CUR then a_off a + offset
  else if whence =? SEEK_END then zlength (a_data a) + offset
  else offset.

(** Return value, bytes delivered, file afterwards. *)
Definition spec_op (op : data_op) (a : afile) : Z * list byte * afile :=
  match op with
  | ORead count =>
      let d := slice (a_off a) count (a_data a) in
      (zlength d, d, AFile (a_data a) (a_off a + zlength d))
  | OPread count offset =>
      let d := slice offset count (a_data a) in (zlength d, d, a)
  | OWrite d =>
      (zlength d, [],
       AFile (overwrite (a_off a) d (a_data a)) (a_off a + zlength d))
  | OPwrite d offset =>
      (zlength d, [], AFile (overwrite offset d (a_data a)) (a_off a))
  | OLseek offset whence =>
      let o := seek_target offset whence a in (o, [], AFile (a_data a) o)
  end.

(** A write of [n] bytes at [pos] that leaves no hole, does not end one byte into
    a fresh piece, and fits the index region. *)
Definition write_ok (large : bool) (n pos : Z) (a : afile) : Prop :=
  0 < n /\ 0 <= pos <= zlength (a_data a) /\
  (pos + n <= pieces_of (zlength (a_data a)) * NODE \/ (pos + n) mod NODE <> 1) /\
  pieces_of (Z.max (zlength (a_data a)) (pos + n)) < index_slots large.

Definition op_ok (large : bool) (op : data_op) (a : afile) : Prop :=
  match op with
  | ORead count => 0 < count < 2 ^ 61
  | OPread count offset => 0 < count < 2 ^ 61 /\ 0 <= offset < 2 ^ 61
  | OWrite d => write_ok large (zlength d) (a_off a) a
  | OPwrite d offset => write_ok large (zlength d) offset a
  | OLseek offset whence => 0 <= seek_target offset whence a < 2 ^ 61
  end.

(** ** Running the library *)

Section refinement.
Context {Fs : Type} `{!PosixFS Fs, !PosixFSLaws Fs, !ReliableFS Fs}.
Implicit Types w : world Fs.

(** Reads go to a zeroed buffer of the requested size; the bytes delivered are
    the first ones of it. *)
Definition run_op (fd : Z) (op : data_op) w : option (Z * list byte * world Fs) :=
  match op with
  | ORead count =>
      '(ret, buf, w) ← polystore_read user_ok fd (replicate (Z.to_nat count) x00)
                         count w;
      Some (ret, ztake ret buf, w)
  | OPread count offset =>
      '(ret, buf, w) ← polystore_pread user_ok fd (replicate (Z.to_nat count) x00)
                         count offset w;
      Some (ret, ztake ret buf, w)
  | OWrite d =>
      '(ret, w) ← polystore_write user_ok fd d (zlength d) w; Some (ret, [], w)
  | OPwrite d offset =>
      '(ret, w) ← polystore_pwrite user_ok fd d (zlength d) offset w;
      Some (ret, [], w)
  | OLseek offset whence =>
      '(ret, w) ← polystore_lseek user_ok fd offset whence w; Some (ret, [], w)
  end.

Fixpoint run_ops (fd : Z) (ops : list data_op) w
    : option (list (Z * list byte) * world Fs) :=
  match ops with
  | [] => Some ([], w)
  | op :: ops =>
      '(ret, d, w) ← run_op fd op w;
      '(outs, w) ← run_ops fd ops w;
      Some ((ret, d) :: outs, w)
  end.

Fixpoint spec_ops (ops : list data_op) (a : afile) : list (Z * list byte) * afile :=
  match ops with
  | [] => ([], a)
  | op :: ops =>
      let '(ret, d, a) := spec_op op a in
      let '(outs, a) := spec_ops ops a in
      ((ret, d) :: outs, a)
  end.

Fixpoint ops_ok (large : bool) (ops : list data_op) (a : afile) : Prop :=
  match ops with
  | [] => True
  | op :: ops => op_ok large op a /\ ops_ok large ops (snd (spec_op op a))
  end.

(** The inode of an open file: undecided while empty, otherwise on both
    devices. *)
Definition inode_placed (inode : poly_inode) (data : list byte) : Prop :=
  i_placement inode = BLK_PLACEMENT_BOTH \/
  (i_placement inode = BLK_PLACEMENT_TBD /\ data = []).

(** Descriptor [fd] of [w] is open for the file [a], without [O_APPEND], in the
    build for which [large] says how big the index regions are. *)
Definition holds (large : bool) w (fd : Z) (a : afile) : Prop :=
  exists file ino st,
    file_lookup fd (l_files (w_lib w)) = Some file /\
    f_polyfd file = fd /\ f_inode file = Some ino /\
    Z.land (f_flags file) O_APPEND = 0 /\
    f_off file = a_off a /\ 0 <= a_off a < 2 ^ 61 /\
    io_view w file ino = Some st /\ represents st (a_data a) /\
    placed (io_task st) /\ inode_placed (io_inode st) (a_data a) /\
    i_next_avail_it_node_no (io_inode st) = 1 + pieces_of (zlength (a_data a)) /\
    i_index_slots (io_inode st) = index_slots large.

Lemma file_lookup_store fd f f' l :
  file_lookup fd l = Some f -> file_lookup fd (file_store fd f' l) = Some f'.
Proof.
  induction l as [|[k g] l IH]; cbn; [done|].
  destruct (k =? fd) eqn:E; cbn; rewrite E; [done|auto].
Qed.

Lemma io_view_fields w file ino st :
  io_view w file ino = Some st ->
  inode_at w ino = Some (io_inode st) /\ io_file st = file /\ io_fs st = w_fs w /\
  exists id, w_tls w = Some id /\ task_at (w_os w) id = Some (io_task st).
Proof.
  unfold io_view. intros H. simplify_option_eq. eauto 10.
Qed.

(** Storing the result of an iterator and looking at it again. *)
Lemma io_view_store w fd file ino st st' :
  io_view w file ino = Some st ->
  io_view (io_store fd ino st' w) (io_file st') ino = Some st'.
Proof.
  intros H. destruct (io_view_fields _ _ _ _ H) as (Hi & _ & _ & id & Hid & Ht).
  unfold io_view, io_store, inode_at, set_file, set_inode. cbn. rewrite Hid. cbn.
  rewrite Hid, lookup_insert_eq. cbn.
  rewrite (task_at_stored (w_os w) _ id (io_task st) (io_task st')); [|done|done|];
    [by destruct st'|apply lookup_insert_eq].
Qed.

Lemma io_view_set_inode w file ino st inode :
  io_view w file ino = Some st ->
  io_view (set_inode ino inode w) file ino = Some (st <| io_inode := inode |>).
Proof.
  intros H. destruct (io_view_fields _ _ _ _ H) as (_ & Hf & Hfs & id & Hid & Ht).
  unfold io_view, inode_at, set_inode. cbn. rewrite lookup_insert_eq, Hid. cbn.
  change (task_at _ id) with (task_at (w_os w) id). rewrite Ht. cbn.
  rewrite <-Hf, <-Hfs. by destruct st.
Qed.

Lemma io_store_files w fd ino st :
  l_files (w_lib (io_store fd ino st w)) =
    file_store fd (io_file st) (l_files (w_lib w)).
Proof. unfold io_store. cbn. by destruct (w_tls w). Qed.

(** What an iterator has to establish for the descriptor to hold a new file. *)
Lemma holds_store large w fd file ino st st' a' :
  file_lookup fd (l_files (w_lib w)) = Some file ->
  io_view w file ino = Some st ->
  f_polyfd (io_file st') = fd ->
  f_inode (io_file st') = Some ino -> Z.land (f_flags (io_file st')) O_APPEND = 0 ->
  f_off (io_file st') = a_off a' -> 0 <= a_off a' < 2 ^ 61 ->
  represents st' (a_data a') -> placed (io_task st') ->
  inode_placed (io_inode st') (a_data a') ->
  i_next_avail_it_node_no (io_inode st') = 1 + pieces_of (zlength (a_data a')) ->
  i_index_slots (io_inode st') = index_slots large ->
  holds large (io_store fd ino st' w) fd a'.
Proof.
  intros Hf Hv H0 H1 H2 H3 H4 H5 H6 H7 H8 H9. exists (io_file st'), ino, st'.
  split_and!; try done; try lia.
  - rewrite io_store_files. by eapply file_lookup_store.
  - by eapply io_view_store.
Qed.

Lemma advance_file offset n (st : io_state Fs) :
  io_file (advance_off offset n st) =
    io_file st <| f_off := f_off (io_file st) + (if offset <? 0 then n else 0) |>.
Proof.
  unfold advance_off. destruct (offset <? 0); [done|]. cbn.
  rewrite Z.add_0_r. by destruct (io_file st).
Qed.

Lemma pieces_of_nonneg n : 0 <= n -> 0 <= pieces_of n.
Proof. intros. pose proof node_pos. apply Z.div_pos; lia. Qed.

(** ** Reads *)

Lemma read_generic_holds large w fd a buf count offset :
  holds large w fd a -> -1 <= offset < 2 ^ 61 -> 0 < count < 2 ^ 61 ->
  let start := if offset <? 0 then a_off a else offset in
  let d := slice start count (a_data a) in
  exists w',
    polystore_read_generic user_ok fd buf count offset w =
      Some (zlength d, overwrite 0 d buf, w') /\
    holds large w' fd (AFile (a_data a)
                   (a_off a + if offset <? 0 then zlength d else 0)).
Proof.
  intros (file & ino & st & Hf & Hpfd & Hino & Hap & Hoff & Hor & Hv & Hr & Hp & Hpl & Hn & Hsl)
    Ho Hc start d.
  destruct (io_view_fields _ _ _ _ Hv) as (Hi & Hfile & Hfs & id & Hid & Ht).
  unfold polystore_read_generic, polystore_file_find. cbn [rdlock_ok user_ok].
  rewrite Hf, Hino, Hi. cbn [mbind option_bind].
  assert (io_start st offset = start) as Hst.
  { unfold io_start, start. rewrite Hfile, Hoff. done. }
  assert (0 <= start < 2 ^ 61) as Hstart by (unfold start; zif; lia).
  destruct (represents_small _ _ Hr) as [Hsm _].
  assert (start + zlength d <= Z.max start (zlength (a_data a))) as Hdl
    by (unfold d; rewrite zlength_slice by lia; lia).
  destruct Hpl as [Hpl|[Hpl Hnil]]; rewrite Hpl; cbn [Z.eqb].
  - unfold run_io. rewrite Hv. cbn [mbind option_bind].
    rewrite (read_iter_refines _ (a_data a)) by (done || rewrite ?Hst; lia).
    rewrite Hst. fold d. cbn [mbind option_bind]. eexists. split; [done|].
    destruct (advance_off_fields offset (zlength d) st) as (A1 & A2 & A3).
    eapply holds_store; [done|done|..]; cbn [io_file io_task io_inode update a_off a_data];
      rewrite ?advance_file, ?A2, ?Hfile; cbn; try done.
    + by rewrite Hoff.
    + unfold start in Hdl; destruct (offset <? 0); lia.
    + destruct Hr as (fo & so & es & Hd & Hok & Hr). exists fo, so, es.
      unfold fastfd_of, slowfd_of in *. cbn. rewrite advance_file, A2. cbn.
      split_and!; [done| |apply Hr..]. destruct Hok. split; cbn; by rewrite ?A1, ?A2.
    + by left.
  - assert (d = []) as Hdn by (unfold d; rewrite Hnil; apply slice_nil_r; cbn; lia).
    rewrite Hdn, overwrite_nil by lia. exists w. split; [done|].
    replace (a_off a + (if offset <? 0 then zlength [] else 0)) with (a_off a)
      by (destruct (offset <? 0); cbn; lia).
    exists file, ino, st. split_and!; try done; cbn [a_off a_data]; try lia. by right.
Qed.

(** ** Writes *)

(** A decided inode, seen through [io_view]. *)
Lemma write_iter_holds large w fd a file ino st buf offset :
  file_lookup fd (l_files (w_lib w)) = Some file ->
  f_polyfd file = fd -> f_inode file = Some ino -> Z.land (f_flags file) O_APPEND = 0 ->
  f_off file = a_off a -> 0 <= a_off a < 2 ^ 61 ->
  io_view w file ino = Some st -> represents st (a_data a) ->
  placed (io_task st) -> i_placement (io_inode st) = BLK_PLACEMENT_BOTH ->
  i_next_avail_it_node_no (io_inode st) = 1 + pieces_of (zlength (a_data a)) ->
  i_index_slots (io_inode st) = index_slots large ->
  let start := if offset <? 0 then a_off a else offset in
  write_ok large (zlength buf) start a ->
  exists w',
    run_io w fd ino file (fun st => polystore_write_iter st buf (zlength buf) offset) =
      Some (zlength buf, w') /\
    holds large w' fd (AFile (overwrite start buf (a_data a))
                   (a_off a + if offset <? 0 then zlength buf else 0)).
Proof.
  intros Hf Hpfd Hino Hap Hoff Hor Hv Hr Hp Hpl Hn Hsl start (Hn0 & Hs & Htail & Hroom).
  destruct (io_view_fields _ _ _ _ Hv) as (Hi & Hfile & Hfs & id & Hid & Ht).
  destruct (represents_small _ _ Hr) as [Hsm _].
  assert (io_start st offset = start) as Hst.
  { unfold io_start, start. rewrite Hfile, Hoff. done. }
  rewrite pieces_of_max in Hroom.
  destruct (write_iter_refines st (a_data a) buf offset)
    as (st' & E & Hr' & (A1 & A2 & A3 & _) & Hn');
    [done|done|by intros ->|rewrite Hst; done..|rewrite Hst; lia|].
  rewrite Hst in Hr', Hn'. unfold run_io. rewrite Hv. cbn [mbind option_bind].
  rewrite E. cbn [mbind option_bind]. eexists. split; [done|].
  destruct (represents_small _ _ Hr') as [Hsm' _].
  rewrite zlength_overwrite in Hsm' by lia.
  rewrite advance_file, Hfile in A1.
  eapply holds_store; [done|done|..]; cbn [a_off a_data]; rewrite ?A1; cbn; try done.
  - by rewrite Hoff.
  - unfold start in *. destruct (offset <? 0); lia.
  - unfold placed in *. by rewrite A2.
  - left. unfold inode_meta in A3. cbn in A3. congruence.
  - rewrite zlength_overwrite, pieces_of_max by lia. lia.
  - unfold inode_meta in A3. cbn in A3. congruence.
Qed.

Lemma write_generic_holds large w fd a buf offset :
  holds large w fd a -> 
  let start := if offset <? 0 then a_off a else offset in
  write_ok large (zlength buf) start a ->
  exists w',
    polystore_write_generic user_ok fd buf (zlength buf) offset w =
      Some (zlength buf, w') /\
    holds large w' fd (AFile (overwrite start buf (a_data a))
                   (a_off a + if offset <? 0 then zlength buf else 0)).
Proof.
  intros (file & ino & st & Hf & Hpfd & Hino & Hap & Hoff & Hor & Hv & Hr & Hp & Hpl & Hn & Hsl)
    start Hok.
  destruct (io_view_fields _ _ _ _ Hv) as (Hi & Hfile & Hfs & id & Hid & Ht).
  unfold polystore_write_generic, polystore_file_find. cbn [rdlock_ok user_ok].
  rewrite Hf, Hino, Hi, Hap. cbn [mbind option_bind Z.eqb].
  destruct Hpl as [Hpl|[Hpl Hnil]]; rewrite Hpl; cbn [Z.eqb].
  - eapply write_iter_holds; done || lia.
  - eapply (write_iter_holds large _ fd a file ino
      (st <| io_inode := io_inode st <| i_placement := BLK_PLACEMENT_BOTH |> |>));
      try done; try lia.
    + by apply io_view_set_inode.
    + destruct Hr as (fo & so & es & Hd & [Hix Hl ? ?] & Hr). exists fo, so, es.
      split_and!; [done| |apply Hr..]. split; try done. by eapply index_ok_ext.
Qed.

(** ** The refinement *)

Lemma ztake_overwrite (d buf : list byte) : ztake (zlength d) (overwrite 0 d buf) = d.
Proof.
  unfold overwrite, ztake. change (take (Z.to_nat 0) buf) with (@nil byte).
  rewrite Nat2Z.id. cbn [app]. apply take_app_length.
Qed.

Lemma run_op_refines large w fd a op :
  holds large w fd a -> op_ok large op a ->
  let '(ret, d, a') := spec_op op a in
  exists w', run_op fd op w = Some (ret, d, w') /\ holds large w' fd a'.
Proof.
  intros Hh Hok. destruct op as [count|count offset|d|d offset|offset whence];
    cbn [spec_op op_ok run_op] in *.
  - destruct (read_generic_holds large w fd a (replicate (Z.to_nat count) x00) count (-1))
      as (w' & E & Hh'); [done|lia|lia|]. cbn in E, Hh'.
    unfold polystore_read. rewrite E. cbn [mbind option_bind].
    rewrite ztake_overwrite. eauto.
  - destruct (read_generic_holds large w fd a (replicate (Z.to_nat count) x00) count offset)
      as (w' & E & Hh'); [done|lia|lia|].
    rewrite (proj2 (Z.ltb_ge offset 0)) in E, Hh' by lia.
    unfold polystore_pread. rewrite E. cbn [mbind option_bind].
    rewrite ztake_overwrite. rewrite Z.add_0_r in Hh'. destruct a. eauto.
  - destruct (write_generic_holds large w fd a d (-1)) as (w' & E & Hh'); [done..|].
    cbn in E, Hh'. unfold polystore_write. rewrite E. cbn [mbind option_bind]. eauto.
  - assert (0 <= offset) as Ho by (destruct Hok as (? & ? & ?); lia).
    destruct (write_generic_holds large w fd a d offset) as (w' & E & Hh');
      [done|by rewrite (proj2 (Z.ltb_ge offset 0)) by lia|].
    rewrite (proj2 (Z.ltb_ge offset 0)), Z.add_0_r in Hh' by lia.
    unfold polystore_pwrite. rewrite E. cbn [mbind option_bind]. eauto.
  - destruct Hh as (file & ino & st & Hf & Hpfd & Hino & Hap & Hoff & Hor & Hv & Hr & Hp &
      Hpl & Hn & Hsl).
    destruct (io_view_fields _ _ _ _ Hv) as (Hi & Hfile & Hfs & id & Hid & Ht).
    destruct (represents_small _ _ Hr) as [Hs1 Hs2].
    set (o := seek_target offset whence a) in *.
    assert (polystore_lseek user_ok fd offset whence w =
      Some (o, set_file fd (file <| f_off := o |>) w)) as ->.
    { unfold polystore_lseek, polystore_file_find. cbn [rdlock_ok user_ok].
      rewrite Hf, Hino, Hi. unfold o, seek_target in *. cbn [mbind option_bind].
      rewrite Hoff, Hs2. destruct (whence =? SEEK_CUR), (whence =? SEEK_END); try done.
      by rewrite s64_id by lia. }
    cbn [mbind option_bind]. eexists. split; [done|].
    exists (file <| f_off := o |>), ino, (st <| io_file := file <| f_off := o |> |>).
    split_and!; try done; cbn [a_off a_data]; try lia.
    + cbn. by eapply file_lookup_store.
    + unfold io_view, set_file, inode_at in *. cbn in *.
      rewrite Hi. cbn. rewrite Hid. cbn. rewrite Ht. cbn. rewrite <-Hfs. by destruct st.
    + destruct Hr as (fo & so & es & Hd & Hok' & Hr). exists fo, so, es.
      unfold fastfd_of, slowfd_of in *. cbn. rewrite <-Hfile. cbn.
      split_and!; [done| |apply Hr..]. by destruct Hok'.
Qed.

Lemma run_ops_refines large fd ops : forall w a,
  holds large w fd a -> ops_ok large ops a ->
  exists w', run_ops fd ops w = Some (fst (spec_ops ops a), w') /\
    holds large w' fd (snd (spec_ops ops a)).
Proof.
  induction ops as [|op ops IH]; intros w a Hh Hok; cbn [run_ops spec_ops ops_ok] in *;
    [eauto|]. destruct Hok as [Hop Hops].
  pose proof (run_op_refines large w fd a op Hh Hop) as H1.
  destruct (spec_op op a) as [[ret d] a']. destruct H1 as (w1 & -> & Hh1).
  destruct (IH w1 a' Hh1 Hops) as (w' & E & Hh').
  cbn [mbind option_bind]. rewrite E. cbn [mbind option_bind].
  destruct (spec_ops ops a'). eauto.
Qed.

(** ** Enlarging a file *)

Lemma write_accounted_at offset n st st' : 
  0 <= offset -> write_accounted offset n st st' ->
  io_file st' = io_file st /\ t_placement (io_task st') = t_placement (io_task st) /\
  i_index_slots (io_inode st') = i_index_slots (io_inode st).
Proof.
  intros Ho (-> & -> & Hm & _). unfold advance_off.
  rewrite (proj2 (Z.ltb_ge offset 0)) by lia. split_and!; [done..|].
  unfold inode_meta in Hm. cbn in Hm. congruence.
Qed.

(** A chunk of at most 4096 bytes never ends one byte into a piece, unless the
    file ends one byte into a page or the target does. *)
Lemma chunk_tail len count target :
  0 <= len -> len mod 4096 <> 1 -> target mod NODE <> 1 ->
  count = 4096 \/ len + count = target -> (len + count) mod NODE <> 1.
Proof.
  intros Hlen H1 H2 [->|Hc]; [|by rewrite Hc]. intros E. apply H1.
  rewrite node_size_val in E. change (2 ^ 21) with 2097152 in E.
  pose proof (Z.div_mod (len + 4096) 2097152 ltac:(lia)) as Hd.
  symmetry. apply (Z.mod_unique _ _ (512 * ((len + 4096) / 2097152) - 1)); lia.
Qed.

Lemma tail_step (buf tail : list byte) remain :
  zlength buf = 4096 -> 4096 < remain ->
  zlength tail = remain - 4096 ->
  (forall i : nat, Z.of_nat i < remain - 4096 -> tail !! i = buf !! Z.to_nat (i mod 4096)) ->
  forall i : nat, Z.of_nat i < remain -> (buf ++ tail) !! i = buf !! Z.to_nat (i mod 4096).
Proof.
  intros Hb Hr Hl Ht i Hi. destruct (decide (Z.of_nat i < 4096)).
  - rewrite lookup_app_l, Z.mod_small, Nat2Z.id by lia. done.
  - rewrite lookup_app_r, Ht by lia. do 2 f_equal.
    replace (Z.of_nat i) with ((i - length buf)%nat + 1 * 4096) by lia.
    by rewrite Z.mod_add by lia.
Qed.

Lemma enlarge_loop_refines buf (fuel : nat) : forall st data remain ret,
  represents st data -> placed (io_task st) -> zlength buf = 4096 ->
  0 <= remain <= fuel * 4096 ->
  let target := zlength data + remain in
  zlength data mod 4096 <> 1 -> target mod NODE <> 1 ->
  i_next_avail_it_node_no (io_inode st) + new_pieces (zlength data) target <=
    i_index_slots (io_inode st) ->
  exists st' tail,
    enlarge_loop fuel buf remain ret st = Some (ret, st') /\
    represents st' (data ++ tail) /\ io_file st' = io_file st /\
    zlength tail = remain /\
    forall i : nat, Z.of_nat i < remain -> tail !! i = buf !! Z.to_nat (i mod 4096).
Proof.
  induction fuel as [|fuel IH]; intros st data remain ret Hr Hp Hb Hrem target Hm1 Hm2
    Hroom; cbn [enlarge_loop].
  { assert (remain = 0) as -> by lia. exists st, []. rewrite app_nil_r.
    split_and!; try done; intros; lia. }
  destruct (0 <? remain) eqn:E0; zbool; cycle 1.
  { assert (remain = 0) as -> by lia. exists st, []. rewrite app_nil_r. split_and!; try done; intros; lia. }
  destruct (represents_small _ _ Hr) as [Hsm Hsz]. rewrite Hsz, s64_id by lia.
  pose proof (stop_small st data target Hr Hroom) as Hts.
  set (count := if 4096 <? remain then 4096 else remain).
  assert (0 < count <= 4096 /\ (count = 4096 \/ count = remain) /\ count <= remain /\
    (count < remain -> count = 4096)) as (Hc1 & Hc2 & Hc3 & Hc4)
    by (unfold count; zif; lia).
  assert (io_start st (zlength data) = zlength data) as Hst
    by (unfold io_start; zif; lia).
  pose proof (pieces_of_mono (zlength data + count) target) as Hmono.
  pose proof (pieces_of_mono (zlength data) (zlength data + count)) as Hmono'.
  destruct (write_iter_prefix st data buf count (zlength data))
    as (st1 & E1 & Hr1 & Hacc & Hn1); rewrite ?Hst in *; try done; try lia.
  { right. eapply (chunk_tail _ _ target); try done; lia. }
  { unfold new_pieces in *. lia. }
  rewrite overwrite_end in Hr1.
  rewrite E1. cbn [mbind option_bind]. rewrite !u64_id, Z.eqb_refl by lia.
  destruct (write_accounted_at (zlength data) count st st1) as (Hf1 & Hp1 & Hsl1);
    [lia|done|].
  destruct (decide (remain <= 4096)) as [Hlast|Hmore].
  - assert (count = remain) as Hcr by lia. rewrite Hcr, Z.sub_diag.
    exists st1, (ztake remain buf).
    split_and!; [by destruct fuel|by rewrite <-Hcr|done|by rewrite zlength_ztake by lia|].
    intros i Hi. unfold ztake. by rewrite lookup_take, decide_True, Z.mod_small, Nat2Z.id by lia.
  - assert (count = 4096) as Hc by lia. rewrite Hc in *.
    rewrite (ztake_all 4096) in Hr1 by lia.
    destruct (IH st1 (data ++ buf) (remain - 4096) ret)
      as (st' & tail & E & Hr' & Hf' & Hl & Ht); try done;
      rewrite ?length_app, ?Nat2Z.inj_add, ?Hb; try lia.
    + unfold placed in *. by rewrite Hp1.
    + change 4096 with (1 * 4096) at 1. by rewrite Z.mod_add by lia.
    + by replace (zlength data + 4096 + (remain - 4096)) with target by lia.
    + unfold new_pieces in *.
      replace (zlength data + 4096 + (remain - 4096)) with target by lia. lia.
    + exists st', (buf ++ tail). rewrite app_assoc, length_app.
      split_and!; try done; [by rewrite Hf'|lia|]. apply tail_step; done || lia.
Qed.

End refinement.

(** ** Properties *)

(** C2: any sequence of reads, writes and seeks within the envelope [ops_ok] on an
    open PolyStore descriptor returns, call by call, what a plain byte array with
    an offset returns, and leaves the descriptor holding the resulting file:
    splitting files over two devices cannot be observed. *)
Theorem data_ops_refine `{!PosixFS Fs, !PosixFSLaws Fs, !ReliableFS Fs}
    (large : bool) (fd : Z) (ops : list data_op) (w : world Fs) (a : afile) :
  holds large w fd a -> ops_ok large ops a ->
  exists w', run_ops fd ops w = Some (fst (spec_ops ops a), w') /\
    holds large w' fd (snd (spec_ops ops a)).
Proof. apply run_ops_refines. Qed.

(** What a file is extended with, repeatedly: 48 zero bytes and the rest of an
    uninitialised page. *)
Definition padding (stack : list byte) : list byte :=
  replicate 48 x00 ++ drop 48 stack.


(** Write a buffer at a position, then read as many bytes from there: bytes
    written, size of the file, bytes read, buffer. *)
Definition write_then_read `{!PosixFS Fs} (d : list byte) (pos : Z) (st : io_state Fs)
    : option (Z * Z * Z * list byte) :=
  '(written, st) ← polystore_write_iter st d (zlength d) pos;
  '(copied, buf, _) ← polystore_read_iter st (replicate (length d) x00) (zlength d) pos;
  Some (written, i_size (io_inode st), copied, buf).

(** A positional write behind the end of an empty file (a hole) reports
    success and extends the size, but its bytes cannot be read back from where
    they were written. *)
Theorem hole_write_misplaced :
  write_then_read [x41; x42] 100 (example_io BLK_PLACEMENT_FAST) =
    Some (2, 102, 0, [x00; x00]).
Proof. vm_compute. reflexivity. Qed.

(** ** Witnesses *)

(** A file just created by a task whose data goes to the fast device. *)
Definition example_world : world MemFS.memfs :=
  let st := example_io BLK_PLACEMENT_FAST in
  World (io_fs st)
    (init_os <| k_inodes := {[ 0 := io_inode st <| i_placement := BLK_PLACEMENT_TBD |> ]} |>
             <| k_tasks := {[ 1 := io_task st ]} |> <| k_mapped_tasks := {[1]} |>)
    (init_lib 1 <| l_files := [(POLYSTORE_GEN_FD 5 6, io_file st)] |>) (Some 1).

Lemma holds_example : holds false example_world (POLYSTORE_GEN_FD 5 6) (AFile [] 0).
Proof.
  exists (io_file (example_io BLK_PLACEMENT_FAST)), 0,
    (example_io BLK_PLACEMENT_FAST
       <| io_inode := io_inode (example_io BLK_PLACEMENT_FAST)
            <| i_placement := BLK_PLACEMENT_TBD |> |>).
  split_and!; try done.
  - by apply represents_fresh with 0 1.
  - by left.
  - by right.
Qed.

Definition example_ops : list data_op :=
  [OWrite [x41; x42; x43; x44]; OLseek 1 0; ORead 2; OPwrite [x45; x46] 3;
   OPread 9 2; OLseek (-1) SEEK_END; ORead 5].

Lemma data_ops_refine_witness :
  exists w', run_ops (POLYSTORE_GEN_FD 5 6) example_ops example_world =
    Some ([(4, []); (1, []); (2, [x42; x43]); (2, []); (3, [x43; x45; x46]);
           (4, []); (1, [x46])], w').
Proof.
  destruct (data_ops_refine false (POLYSTORE_GEN_FD 5 6) example_ops example_world
    (AFile [] 0)) as (w' & E & _).
  - apply holds_example.
  - cbn [ops_ok example_ops]. split_and!; try done; try (left; done);
      vm_compute; intuition discriminate.
  - exists w'. exact E.
Defined.


End OpeDataSpec.
