(* ===== verification/OpeMeta.v ===== *)
(** * Metadata operations ([polylib/src/opemetadata.c], without the Poly cache)

    Opening, closing, renaming, unlinking and inspecting files.  A path of the
    PolyStore mount point has one physical file on each device; the inode and its
    index come from the kernel module.  [None] is an invalid memory access. *)

From S2P Require Import Prelude Defs Util Posix IntervalTree Indexing IoDirect PolyOS.
From S2P Require Import Context OpeData.
Import IoDirect PolyOS Context OpeData.

#[local] Open Scope Z_scope.

Module OpeMeta.

(** The mount points of the devices, and the build flag for large indexes. *)
Record config := Config {
  FAST_DIR : string;
  SLOW_DIR : string;
  LARGE_INDEX : bool
}.

(** What the outside decides during one call: the kernel's and the process's
    services, the stack of the kernel handler, the uninitialised descriptor field
    of the client's command and the flags [malloc] leaves in a new Poly-file.  The
    last three are the services of the calls [polystore_truncate] makes after its
    open. *)
Record callenv := CallEnv {
  c_kenv : kenv;
  c_uenv : uenv;
  c_stack : polyos_open_cmd;
  c_fd : Z;
  c_flags : Z;
  c_trunc_uenv : uenv;
  c_close_kenv : kenv;
  c_close_uenv : uenv
}.

#[export] Instance callenv_copy : Copy callenv := fun e =>
  CallEnv (c_kenv e) (c_uenv e) (c_stack e) (c_fd e) (c_flags e) (c_trunc_uenv e)
    (c_close_kenv e) (c_close_uenv e).

Definition call_ok : callenv :=
  CallEnv all_ok user_ok (OpenCmd "" "" 0 0 0 0 0 0) 0 0 user_ok all_ok user_ok.

(** The inode a pointer into the inode region refers to. *)
Definition inode_of_addr (addr : Z) : Z :=
  Z.shiftr (addr - POLY_INODE_VADDR_BASE) PAGE_SHIFT.

(** [strcpy] to a path of a command structure. *)
Definition PATH_LEN_MAX : Z := 256.

Definition cmd_path (path : string) : option string :=
  if Z.of_nat (String.length path) <? PATH_LEN_MAX then Some path else None.

Section model.
Context {Fs : Type} `{!PosixFS Fs, !PosixNS Fs}.
Variable cfg : config.

Definition physpaths (pathname : string) : option (string * string) :=
  Util.util_get_physpaths (FAST_DIR cfg) (SLOW_DIR cfg) pathname.

Definition path_hash (pathname : string) : Z :=
  s32 (Util.util_get_path_hash pathname).

(** The part of [polystore_open] after the kernel returned the inode and its
    index, a region of [POLY_INDEX_MAX_MEM_SIZE] bytes. *)
Definition open_file (env : callenv) (fd flags ino index : Z) (w : world Fs)
    : option (world Fs) :=
  inode ← inode_at w ino;
  let w := set_inode ino (inode <| i_index := index |>
                                <| i_index_slots := index_slots (LARGE_INDEX cfg) |>) w in
  match polystore_file_create (c_uenv env) (c_flags env) fd (Some ino) (w_lib w) with
  | (None, _) => None
  | (Some file, l) =>
      let w := set_file fd (file <| f_flags := flags |>) (w <| w_lib := l |>) in
      inode ← inode_at w ino;
      Some (set_inode ino (inode <| i_refcount := s32 (i_refcount inode + 1) |>) w)
  end.

(** [polystore_open]: the descriptor field of the command is returned, also when
    the kernel reported an error. *)
Definition polystore_open (env : callenv) (pathname : string) (flags mode : Z)
    (w : world Fs) : option (Z * world Fs) :=
  '(fastpath, slowpath) ← physpaths pathname;
  fastpath ← cmd_path fastpath;
  slowpath ← cmd_path slowpath;
  let cmd := OpenCmd fastpath slowpath (path_hash pathname) mode flags (c_fd env) 0 0 in
  '(ret, cmd, fs, k) ← polyos_open (c_kenv env) (LARGE_INDEX cfg) (c_stack env) cmd
                         (w_fs w) (w_os w);
  let w := w <| w_fs := fs |> <| w_os := k |> in
  let fd := oc_fd cmd in
  if ioctl_ret ret <? 0 then Some (fd, w)
  else if oc_inode_addr cmd =? 0 then Some (fd, w)
  else if oc_index_addr cmd =? 0 then Some (fd, w)
  else
    w ← open_file env fd flags (inode_of_addr (oc_inode_addr cmd)) (oc_index_addr cmd) w;
    Some (fd, w).

Definition polystore_creat (env : callenv) (pathname : string) (mode : Z)
    (w : world Fs) : option (Z * world Fs) :=
  polystore_open env pathname (Z.lor (Z.lor O_WRONLY O_CREAT) O_TRUNC) mode w.

Definition polystore_close (env : callenv) (fd : Z) (w : world Fs)
    : option (Z * world Fs) :=
  match polystore_file_find (c_uenv env) fd (w_lib w) with
  | None => Some (- ENOENT, w)
  | Some file =>
      match f_inode file with
      | None => Some (- ENOENT, w)
      | Some ino =>
          let '(_, l) := polystore_file_delete (c_uenv env) fd (w_lib w) in
          inode ← inode_at w ino;
          '(ret, fs, k) ← polyos_close (c_kenv env) fd (i_path_hash inode)
                            (w_fs w) (w_os w);
          Some (ioctl_ret ret,
                w <| w_lib := l |> <| w_fs := fs |> <| w_os := k |>)
      end
  end.

(** ** Directories *)

Definition polystore_mkdir (pathname : string) (mode : Z) (w : world Fs)
    : option (Z * world Fs) :=
  '(fastpath, slowpath) ← physpaths pathname;
  let '(ret, fs) := ns_mkdir (w_fs w) fastpath mode in
  if ret <? 0 then Some (ret, w <| w_fs := fs |>)
  else
    let '(ret, fs) := ns_mkdir fs slowpath mode in
    Some (ret, w <| w_fs := fs |>).

Definition polystore_rmdir (pathname : string) (w : world Fs)
    : option (Z * world Fs) :=
  '(fastpath, slowpath) ← physpaths pathname;
  let '(ret, fs) := ns_rmdir (w_fs w) fastpath in
  if ret <? 0 then Some (ret, w <| w_fs := fs |>)
  else
    let '(ret, fs) := ns_rmdir fs slowpath in
    Some (ret, w <| w_fs := fs |>).

(** ** Names *)

Definition polystore_rename (env : callenv) (oldname newname : string) (w : world Fs)
    : option (Z * world Fs) :=
  '(fastoldpath, slowoldpath) ← physpaths oldname;
  '(fastnewpath, slownewpath) ← physpaths newname;
  let '(ret, fs) := ns_rename (w_fs w) fastoldpath fastnewpath in
  if ret <? 0 then Some (ret, w <| w_fs := fs |>)
  else
    let '(_, fs) := ns_rename fs slowoldpath slownewpath in
    '(ret, k) ← polyos_rename (c_kenv env) (path_hash oldname) (path_hash newname)
                  (w_os w);
    Some (ioctl_ret ret, w <| w_fs := fs |> <| w_os := k |>).

(** The value returned is the kernel's, whatever the two [unlink] calls did. *)
Definition polystore_unlink (env : callenv) (pathname : string) (w : world Fs)
    : option (Z * world Fs) :=
  '(fastpath, slowpath) ← physpaths pathname;
  let '(_, fs) := ns_unlink (w_fs w) fastpath in
  let '(_, fs) := ns_unlink fs slowpath in
  '(ret, k) ← polyos_unlink (c_kenv env) (path_hash pathname) (w_os w);
  Some (ioctl_ret ret, w <| w_fs := fs |> <| w_os := k |>).

Definition polystore_symlink : Z := 0.

Definition polystore_access (pathname : string) (mode : Z) (w : world Fs)
    : option Z :=
  '(fastpath, _) ← physpaths pathname;
  Some (ns_access (w_fs w) fastpath mode).

(** ** Attributes *)

(** [polystore_stat]: return value and, on success, the [stat] structure. *)
Definition polystore_stat (pathname : string) (w : world Fs)
    : option (Z * option stat) :=
  '(fastpath, slowpath) ← physpaths pathname;
  let '(ret, fast) := ns_stat (w_fs w) fastpath in
  if ret <? 0 then Some (ret, None)
  else
    let '(ret, slow) := ns_stat (w_fs w) slowpath in
    if ret <? 0 then Some (ret, None)
    else if negb (st_size fast =? 0) && (st_size slow =? 0) then Some (ret, Some fast)
    else if (st_size fast =? 0) && negb (st_size slow =? 0) then Some (ret, Some slow)
    else Some (ret, Some (Stat (st_size fast + st_size slow) (st_rest fast))).

Definition polystore_lstat : Z := 0.

Definition polystore_fstat (env : callenv) (fd : Z) (w : world Fs)
    : option (Z * option stat) :=
  match polystore_file_find (c_uenv env) fd (w_lib w) with
  | None => Some (- ENOENT, None)
  | Some file =>
      match f_inode file with
      | None => Some (- ENOENT, None)
      | Some ino =>
          inode ← inode_at w ino;
          let dev fd' := let '(ret, st) := fs_fstat (w_fs w) fd' in
                         Some (ret, if ret <? 0 then None else Some st) in
          if i_placement inode =? BLK_PLACEMENT_FAST then dev (POLYSTORE_FAST_FD fd)
          else if i_placement inode =? BLK_PLACEMENT_SLOW then dev (POLYSTORE_SLOW_FD fd)
          else
            let '(ret, fast) := fs_fstat (w_fs w) (POLYSTORE_FAST_FD fd) in
            if ret <? 0 then Some (ret, None)
            else
              let '(ret, slow) := fs_fstat (w_fs w) (POLYSTORE_SLOW_FD fd) in
              if ret <? 0 then Some (ret, None)
              else Some (ret, Some (Stat (st_size fast + st_size slow) (st_rest fast)))
      end
  end.

Definition polystore_fcntl (env : callenv) (fd cmd arg : Z) (w : world Fs)
    : option (Z * world Fs) :=
  match polystore_file_find (c_uenv env) fd (w_lib w) with
  | None => Some (- ENOENT, w)
  | Some file =>
      match f_inode file with
      | None => Some (- ENOENT, w)
      | Some ino =>
          inode ← inode_at w ino;
          let dev fd' := let '(ret, fs) := fs_fcntl (w_fs w) fd' cmd arg in
                         Some (ret, w <| w_fs := fs |>) in
          if i_placement inode =? BLK_PLACEMENT_FAST then dev (POLYSTORE_FAST_FD fd)
          else if i_placement inode =? BLK_PLACEMENT_SLOW then dev (POLYSTORE_SLOW_FD fd)
          else Some (0, w)
      end
  end.

(** [close] of the C library, which the system call shim routes. *)
Definition libc_close (env : callenv) (fd : Z) (w : world Fs)
    : option (Z * world Fs) :=
  if POLYSTORE_FD_CHECK fd =? 0
  then let '(ret, fs) := ns_close (w_fs w) fd in Some (ret, w <| w_fs := fs |>)
  else polystore_close env fd w.

(** [polystore_truncate]: every error on the way is ignored. *)
Definition polystore_truncate (env : callenv) (buf : list byte) (pathname : string)
    (length : Z) (w : world Fs) : option (Z * world Fs) :=
  '(fd, w) ← polystore_open env pathname (Z.lor O_WRONLY O_TRUNC) 438 w;
  '(_, w) ← polystore_ftruncate (c_trunc_uenv env) buf fd length w;
  '(_, w) ← libc_close (env <| c_kenv := c_close_kenv env |>
                            <| c_uenv := c_close_uenv env |>) fd w;
  Some (0, w).

End model.

End OpeMeta.
