(* ===== verification/OpeCache.v ===== *)
(** * The operations of the builds with the Poly cache

    [polylib/src/opedata.c] and [polylib/src/opemetadata.c] compiled with
    [POLYSTORE_POLYCACHE]: reads and writes go through the buffered iterators,
    opening, closing, renaming and unlinking maintain the inode map of the cache
    and drop the buffers of dead files.  The functions keep their names; the
    operations without a cache part are those of [OpeData] and [OpeMeta].  [None]
    is an invalid memory access, the exit of the process or exhausted fuel. *)

From S2P Require Import Prelude Defs Util Posix IntervalTree Indexing IoDirect PolyOS.
From S2P Require Import CacheMm Cache IoBuffered Context OpeData OpeMeta.
Import IoDirect PolyOS Cache IoBuffered Context OpeData OpeMeta.

#[local] Open Scope Z_scope.

Module OpeCache.

Section model.
Context {Fs : Type} `{!PosixFS Fs, !PosixNS Fs}.
Context {A : Type} `{!CacheAlloc A, !CacheMmap Fs A}.
Variable cfg : config.
(** [poly_cache_policy] *)
Variable policy : Z.

Implicit Types (w : world Fs) (ch : poly_cache A).

(** ** Data *)

(** Running a buffered iterator on a file. *)
Definition run_cached {R} w ch (polyfd ino : Z) (file : poly_file)
    (op : cstate Fs A -> option (R * cstate Fs A)) : option (R * world Fs * poly_cache A) :=
  st ← io_view w file ino;
  '(r, st) ← op (CState st ch);
  Some (r, io_store polyfd ino (cs_io st) w, cs_cache st).

Definition polystore_read_generic (env : uenv) (polyfd : Z) (buf : list byte)
    (count offset : Z) w ch : option (Z * list byte * world Fs * poly_cache A) :=
  let fastfd := POLYSTORE_FAST_FD polyfd in
  let slowfd := POLYSTORE_SLOW_FD polyfd in
  let dev_read fd :=
    if offset =? -1
    then let '(ret, d, fs) := fs_read (w_fs w) fd count in
         Some (ret, overwrite 0 d buf, w <| w_fs := fs |>, ch)
    else let '(ret, d) := fs_pread (w_fs w) fd count offset in
         Some (ret, overwrite 0 d buf, w, ch) in
  match polystore_file_find env polyfd (w_lib w) with
  | None => Some (- ENOENT, buf, w, ch)
  | Some file =>
      match f_inode file with
      | None => Some (- ENOENT, buf, w, ch)
      | Some ino =>
          inode ← inode_at w ino;
          if i_placement inode =? BLK_PLACEMENT_FAST then dev_read fastfd
          else if i_placement inode =? BLK_PLACEMENT_SLOW then dev_read slowfd
          else if i_placement inode =? BLK_PLACEMENT_BOTH then
            '(ret, buf, w, ch) ← run_cached w ch polyfd ino file (fun st =>
               '(ret, buf, st) ← polystore_read_iter_polycache (FAST_DIR cfg) st buf
                                   count offset;
               Some ((ret, buf), st));
            Some (ret, buf, w, ch)
          else Some (0, buf, w, ch)
      end
  end.

Definition polystore_write_generic (env : uenv) (polyfd : Z) (buf : list byte)
    (count offset : Z) w ch : option (Z * world Fs * poly_cache A) :=
  let fastfd := POLYSTORE_FAST_FD polyfd in
  let slowfd := POLYSTORE_SLOW_FD polyfd in
  let dev_write fd :=
    let '(ret, fs) := if offset =? -1 then fs_write (w_fs w) fd (ztake count buf)
                      else fs_pwrite (w_fs w) fd (ztake count buf) offset in
    Some (ret, w <| w_fs := fs |>, ch) in
  match polystore_file_find env polyfd (w_lib w) with
  | None => Some (- ENOENT, w, ch)
  | Some file =>
      match f_inode file with
      | None => Some (- ENOENT, w, ch)
      | Some ino =>
          inode ← inode_at w ino;
          let iter w :=
            run_cached w ch polyfd ino file (fun st =>
              if Z.land (f_flags file) O_APPEND =? 0
              then polystore_write_iter_polycache (FAST_DIR cfg) st buf count offset
              else polystore_append_iter_polycache (FAST_DIR cfg) st buf count offset) in
          if i_placement inode =? BLK_PLACEMENT_TBD then
            iter (set_inode ino (inode <| i_placement := BLK_PLACEMENT_BOTH |>) w)
          else if i_placement inode =? BLK_PLACEMENT_FAST then dev_write fastfd
          else if i_placement inode =? BLK_PLACEMENT_SLOW then dev_write slowfd
          else if i_placement inode =? BLK_PLACEMENT_BOTH then iter w
          else Some (- EINVAL, w, ch)
      end
  end.

Definition polystore_read (env : uenv) (fd : Z) (buf : list byte) (count : Z) w ch :=
  polystore_read_generic env fd buf count (-1) w ch.

Definition polystore_pread (env : uenv) (fd : Z) (buf : list byte) (count offset : Z)
    w ch := polystore_read_generic env fd buf count offset w ch.

Definition polystore_write (env : uenv) (fd : Z) (buf : list byte) (count : Z) w ch :=
  polystore_write_generic env fd buf count (-1) w ch.

Definition polystore_pwrite (env : uenv) (fd : Z) (buf : list byte) (count offset : Z)
    w ch := polystore_write_generic env fd buf count offset w ch.

(** ** Metadata *)

(** [strcpy(inode->pathname, pathname)] into 256 bytes. *)
Definition cache_setup (env : uenv) (pathname : string) (inode : poly_inode) (l : lib)
    : option (poly_inode * lib) :=
  let '(_, l) := polystore_inode_hashmap_add env inode l in
  pathname ← cmd_path pathname;
  Some (inode <| i_cache_policy := policy |> <| i_pathname := pathname |>
              <| i_cache_rwfd_fast := -1 |> <| i_cache_rwfd_slow := -1 |>
              <| i_cache_mmapfd := -1 |>, l).

(** The part of [polystore_open] after the kernel returned the inode and its
    index: the first reference sets the inode up for the cache. *)
Definition open_file (env : callenv) (pathname : string) (fd flags ino index : Z) w
    : option (world Fs) :=
  inode ← inode_at w ino;
  let w := set_inode ino (inode <| i_index := index |>
                                <| i_index_slots := index_slots (LARGE_INDEX cfg) |>) w in
  match polystore_file_create (c_uenv env) (c_flags env) fd (Some ino) (w_lib w) with
  | (None, _) => None
  | (Some file, l) =>
      let w := set_file fd (file <| f_flags := flags |>) (w <| w_lib := l |>) in
      inode ← inode_at w ino;
      let first := i_refcount inode =? 0 in
      let inode := inode <| i_refcount := s32 (i_refcount inode + 1) |> in
      '(inode, l) ← (if first then cache_setup (c_uenv env) pathname inode (w_lib w)
                     else Some (inode, w_lib w));
      Some (set_inode ino inode (w <| w_lib := l |>))
  end.

Definition polystore_open (env : callenv) (pathname : string) (flags mode : Z) w
    : option (Z * world Fs) :=
  '(fastpath, slowpath) ← physpaths cfg pathname;
  fastpath ← cmd_path fastpath;
  slowpath ← cmd_path slowpath;
  let cmd := OpenCmd fastpath slowpath (path_hash pathname) mode flags (c_fd env) 0 0 in
  '(ret, cmd, fs, k) ← polyos_open (c_kenv env) (LARGE_INDEX cfg) (c_stack env) cmd
                         (w_fs w) (w_os w);
  let w := w <| w_fs := fs |> <| w_os := k |> in
  let fd := oc_fd cmd in
  if ioctl_ret ret <? 0 then Some (fd, w)
  else if oc_inode_addr cmd =? 0 then Some (fd, w)
  else if oc_index_addr cmd =? 0 then Some (fd, w)
  else
    w ← open_file env pathname fd flags (inode_of_addr (oc_inode_addr cmd))
          (oc_index_addr cmd) w;
    Some (fd, w).

(** [poly_cache_drop] on an inode, which then leaves the inode map. *)
Definition drop_inode (env : uenv) (ino : Z) w ch : option (world Fs * poly_cache A) :=
  inode ← inode_at w ino;
  '(fs, inode, ch) ← poly_cache_drop (w_fs w, inode, ch);
  let '(_, l) := polystore_inode_hashmap_delete env inode (w_lib w) in
  Some (set_inode ino inode (w <| w_fs := fs |> <| w_lib := l |>), ch).

Definition polystore_close (env : callenv) (fd : Z) w ch
    : option (Z * world Fs * poly_cache A) :=
  match polystore_file_find (c_uenv env) fd (w_lib w) with
  | None => Some (- ENOENT, w, ch)
  | Some file =>
      match f_inode file with
      | None => Some (- ENOENT, w, ch)
      | Some ino =>
          inode ← inode_at w ino;
          '(w, ch) ← (if (i_refcount inode =? 1) && (i_reclaim inode =? 1)
                      then drop_inode (c_uenv env) ino w ch else Some (w, ch));
          '(ret, w) ← OpeMeta.polystore_close env fd w;
          Some (ret, w, ch)
      end
  end.

Definition polystore_rename (env : callenv) (oldname newname : string) w
    : option (Z * world Fs) :=
  '(fastoldpath, slowoldpath) ← physpaths cfg oldname;
  '(fastnewpath, slownewpath) ← physpaths cfg newname;
  let '(ret, fs) := ns_rename (w_fs w) fastoldpath fastnewpath in
  if ret <? 0 then Some (ret, w <| w_fs := fs |>)
  else
    let '(_, fs) := ns_rename fs slowoldpath slownewpath in
    '(ret, k) ← polyos_rename (c_kenv env) (path_hash oldname) (path_hash newname)
                  (w_os w);
    '(_, l, k) ← polystore_inode_hashmap_rename (c_uenv env) oldname newname (w_lib w) k;
    Some (ioctl_ret ret, w <| w_fs := fs |> <| w_os := k |> <| w_lib := l |>).

Definition polystore_unlink (env : callenv) (pathname : string) w ch
    : option (Z * world Fs * poly_cache A) :=
  '(fastpath, slowpath) ← physpaths cfg pathname;
  '(w, ch) ← match polystore_inode_hashmap_find (c_uenv env) (path_hash pathname)
                     (w_lib w) with
             | None => Some (w, ch)
             | Some ino =>
                 inode ← inode_at w ino;
                 if i_refcount inode =? 0 then drop_inode (c_uenv env) ino w ch
                 else Some (w, ch)
             end;
  let '(_, fs) := ns_unlink (w_fs w) fastpath in
  let '(_, fs) := ns_unlink fs slowpath in
  '(ret, k) ← polyos_unlink (c_kenv env) (path_hash pathname) (w_os w);
  Some (ioctl_ret ret, w <| w_fs := fs |> <| w_os := k |>, ch).

(** ** Background activity *)

(** One round of flushing on the files of the process. *)
Definition background_flush (thread_nr : Z) w ch : option (world Fs * poly_cache A) :=
  s ← poly_cache_flushing_dispatch thread_nr
        (FlushState (w_fs w) (k_inodes (w_os w)) ch);
  s ← launch_workers (FAST_DIR cfg) (SLOW_DIR cfg) (Z.to_nat thread_nr) 0 s;
  Some (w <| w_fs := fl_fs s |> <| w_os := w_os w <| k_inodes := fl_inodes s |> |>,
        fl_cache s).

End model.

End OpeCache.
