(* ===== verification/CacheSystem.v ===== *)
(** * The cache build as a system

    Several descriptors on several files, data operations through the Poly cache
    and rounds of background flushing in any order.  The abstract system [asys] is
    a map of byte arrays and a map of offsets; [sys_ok] relates it to the state of
    the library, the inodes, the physical files and the cache, and every step
    preserves it with the results of the abstract system. *)

From S2P Require Import Prelude Defs Util Posix IntervalTree Indexing IoDirect.
From S2P Require Import IoDirectSpec CacheMm Cache CacheSpec IoBuffered IoBufferedSpec.
From S2P Require Import IoBufferedRefine CacheFlush PolyOS Context CacheExit OpeData.
From S2P Require Import OpeDataSpec OpeMeta OpeCache.
Import IoDirect IoDirectSpec Cache CacheSpec IoBuffered IoBufferedSpec IoBufferedRefine.
Import CacheFlush PolyOS Context CacheExit OpeData OpeDataSpec OpeMeta OpeCache.

#[local] Open Scope Z_scope.

Module CacheSystem.

(** ** The abstract system *)

(** The bytes of the files by inode number; for each descriptor the inode number
    and the offset. *)
Record asys := ASys { as_files : gmap Z (list byte); as_fds : gmap Z (Z * Z) }.

Inductive sys_step :=
| SOp (fd : Z) (op : data_op)
| SFlush.

(** The file a descriptor stands for. *)
Definition as_file (fd : Z) (a : asys) : option (Z * afile) :=
  '(ino, off) ← as_fds a !! fd;
  data ← as_files a !! ino;
  Some (ino, AFile data off).

Definition as_store (fd ino : Z) (f : afile) (a : asys) : asys :=
  ASys (<[ino := a_data f]> (as_files a)) (<[fd := (ino, a_off f)]> (as_fds a)).

Definition spec_step (s : sys_step) (a : asys) : option (Z * list byte * asys) :=
  match s with
  | SOp fd op =>
      '(ino, f) ← as_file fd a;
      let '(ret, d, f) := spec_op op f in
      Some (ret, d, as_store fd ino f a)
  | SFlush => Some (0, [], a)
  end.

Fixpoint spec_steps (ss : list sys_step) (a : asys)
    : option (list (Z * list byte) * asys) :=
  match ss with
  | [] => Some ([], a)
  | s :: ss =>
      '(ret, d, a) ← spec_step s a;
      '(outs, a) ← spec_steps ss a;
      Some ((ret, d) :: outs, a)
  end.

(** The range of the file an operation transfers. *)
Definition op_range (op : data_op) (f : afile) : Z * Z :=
  match op with
  | ORead count => (a_off f, count)
  | OPread count offset => (offset, count)
  | OWrite d => (a_off f, zlength d)
  | OPwrite d offset => (offset, zlength d)
  | OLseek _ _ => (0, 0)
  end.

(** A read stays inside its first piece, or that piece is full, or the read is
    longer than the piece. *)
Definition read_cut_ok (op : data_op) (f : afile) : Prop :=
  let '(start, n) := op_range op f in
  match op with
  | ORead _ | OPread _ _ =>
      cut_ok (piece_len (a_data f) (Z.to_nat (start / NODE))) (start mod NODE) n
  | _ => True
  end.

Section model.
Context {Fs : Type} `{!PosixFS Fs, !PosixNS Fs}.
Context {A : Type} `{!CacheAlloc A, !CacheMmap Fs A}.
Variable cfg : config.
(** Number of flushing threads. *)
Variable nr : Z.
Implicit Types (w : world Fs) (ch : poly_cache A).

Definition cache_op (fd : Z) (op : data_op) w ch
    : option (Z * list byte * world Fs * poly_cache A) :=
  match op with
  | ORead count =>
      '(ret, buf, w, ch) ← polystore_read cfg user_ok fd
                             (replicate (Z.to_nat count) x00) count w ch;
      Some (ret, ztake ret buf, w, ch)
  | OPread count offset =>
      '(ret, buf, w, ch) ← polystore_pread cfg user_ok fd
                             (replicate (Z.to_nat count) x00) count offset w ch;
      Some (ret, ztake ret buf, w, ch)
  | OWrite d =>
      '(ret, w, ch) ← polystore_write cfg user_ok fd d (zlength d) w ch;
      Some (ret, [], w, ch)
  | OPwrite d offset =>
      '(ret, w, ch) ← polystore_pwrite cfg user_ok fd d (zlength d) offset w ch;
      Some (ret, [], w, ch)
  | OLseek offset whence =>
      '(ret, w) ← polystore_lseek user_ok fd offset whence w; Some (ret, [], w, ch)
  end.

Definition run_step (s : sys_step) w ch
    : option (Z * list byte * world Fs * poly_cache A) :=
  match s with
  | SOp fd op => cache_op fd op w ch
  | SFlush => '(w, ch) ← background_flush cfg nr w ch; Some (0, [], w, ch)
  end.

Fixpoint run_steps (ss : list sys_step) w ch
    : option (list (Z * list byte) * world Fs * poly_cache A) :=
  match ss with
  | [] => Some ([], w, ch)
  | s :: ss =>
      '(ret, d, w, ch) ← run_step s w ch;
      '(outs, w, ch) ← run_steps ss w ch;
      Some ((ret, d) :: outs, w, ch)
  end.

(** The envelope of a step: the operation is supported and the allocator has a
    buffer for every piece it meets. *)
Definition step_ok (s : sys_step) ch (a : asys) : Prop :=
  match s with
  | SOp fd op =>
      exists ino f, as_file fd a = Some (ino, f) /\ op_ok (LARGE_INDEX cfg) op f /\
        read_cut_ok op f /\
        mm_room (ch_alloc ch) (range_nodes (fst (op_range op f)) (snd (op_range op f)))
  | SFlush => True
  end.

Fixpoint steps_ok (ss : list sys_step) w ch (a : asys) : Prop :=
  match ss with
  | [] => True
  | s :: ss =>
      step_ok s ch a /\
      forall ret d w' ch' a', run_step s w ch = Some (ret, d, w', ch') ->
        spec_step s a = Some (ret, d, a') -> steps_ok ss w' ch' a'
  end.

(** The state as the flushing threads see it. *)
Definition flush_view w ch : flush_state Fs A :=
  FlushState (w_fs w) (k_inodes (w_os w)) ch.

End model.

(** ** The invariant *)

Section invariant.
Context {Fs : Type} `{!PosixFS Fs, !PosixFSLaws Fs, !ReliableFS Fs}.
Context `{!PosixNS Fs, !ReliableNS Fs}.
Context {A : Type} `{!CacheAlloc A, !CacheAllocLaws A, !CacheMmap Fs A}.
Variable cfg : config.
Variable nr : Z.
(** The two physical files of an inode. *)
Variable phys : Z -> Z * Z.
Implicit Types (w : world Fs) (ch : poly_cache A) (a : asys).

Record inode_ready (ino : Z) (inode : poly_inode) (f : finfo) : Prop := {
  ir_ino : i_ino inode = ino;
  ir_nonneg : 0 <= ino;
  ir_placed : inode_placed inode (fi_data f);
  ir_next : i_next_avail_it_node_no inode = 1 + length (fi_es f);
  ir_max : length (fi_es f) <= MAX_POLY_INDEX_NODE_NR + 1;
  ir_slots : i_index_slots inode = index_slots (LARGE_INDEX cfg);
  ir_phys : (fi_fast f, fi_slow f) = phys ino
}.

Record fd_ready (fd ino off : Z) w (file : poly_file) : Prop := {
  fr_lookup : file_lookup fd (l_files (w_lib w)) = Some file;
  fr_polyfd : f_polyfd file = fd;
  fr_inode : f_inode file = Some ino;
  fr_append : Z.land (f_flags file) O_APPEND = 0;
  fr_off : f_off file = off;
  fr_range : 0 <= off < 2 ^ 61;
  fr_opened : opened (fst (phys ino)) (snd (phys ino)) (w_fs w)
    (POLYSTORE_FAST_FD fd) (POLYSTORE_SLOW_FD fd)
}.

Definition task_ready w : Prop :=
  exists id task, w_tls w = Some id /\ task_at (w_os w) id = Some task /\ placed task.

Record sys_inv (files : gmap Z finfo) w ch a : Prop := {
  si_files : files_ok (FAST_DIR cfg) (SLOW_DIR cfg) files (flush_view w ch);
  si_data : as_files a = fi_data <$> files;
  si_ready : forall ino f inode, files !! ino = Some f -> inode_at w ino = Some inode ->
    inode_ready ino inode f;
  si_fds : forall fd ino off, as_fds a !! fd = Some (ino, off) ->
    exists file, fd_ready fd ino off w file;
  si_task : task_ready w;
  si_refs : forall r, r ∈ refs (flush_view w ch) -> victim_of files r;
  si_queues : zlength (ch_queues ch) = nr /\ 0 < nr < 2 ^ 31;
  si_map : NoDup (snd <$> l_hashmap (w_lib w)) /\
    forall ino, ino ∈ snd <$> l_hashmap (w_lib w) <-> is_Some (files !! ino)
}.

Definition sys_ok w ch a : Prop := exists files, sys_inv files w ch a.

(** ** One file changes *)

Lemma file_lookup_store_ne fd fd' f l :
  fd' <> fd -> file_lookup fd' (file_store fd f l) = file_lookup fd' l.
Proof.
  intros Hne. induction l as [|[k g] l IH]; cbn; [done|].
  destruct (k =? fd) eqn:E; cbn; destruct (k =? fd') eqn:E'; zbool; try done; lia.
Qed.

(** Descriptors when the offset of one of them changes. *)
Lemma fds_ready_store a w w' fd ino off file off' data :
  (forall fd ino off, as_fds a !! fd = Some (ino, off) ->
     exists file, fd_ready fd ino off w file) ->
  fd_ready fd ino off w file -> 0 <= off' < 2 ^ 61 -> w_fs w' = w_fs w ->
  l_files (w_lib w') =
    file_store fd (file <| f_off := off' |>) (l_files (w_lib w)) ->
  forall fd2 ino2 off2,
    as_fds (as_store fd ino (AFile data off') a) !! fd2 = Some (ino2, off2) ->
    exists file2, fd_ready fd2 ino2 off2 w' file2.
Proof.
  intros Hall [F1 F2 F3 F4 F5 F6 F7] Ho Hfs Hl fd2 ino2 off2. cbn. rewrite lookup_insert.
  case_decide as Hd.
  - subst fd2. intros [= <- <-]. exists (file <| f_off := off' |>).
    split; try done; [|by rewrite Hfs]. rewrite Hl. by eapply file_lookup_store.
  - intros H. destruct (Hall _ _ _ H) as (file2 & [G1 G2 G3 G4 G5 G6 G7]). exists file2.
    split; try done; [|by rewrite Hfs]. rewrite Hl. by rewrite file_lookup_store_ne.
Qed.

(** What an operation on the file [f] of [inode] has to establish. *)
Record file_step (fs : Fs) (inode : poly_inode) ch (ino : Z) (f : finfo)
    (file : poly_file) (off' : Z) (st' : cstate Fs A) (f' : finfo) : Prop := {
  ft_fs : io_fs (cs_io st') = fs;
  ft_file : io_file (cs_io st') = file <| f_off := off' |>;
  ft_ok : file_ok (FAST_DIR cfg) (SLOW_DIR cfg) fs (cs_inode st')
    (ch_mem (cs_cache st')) (ch_alloc (cs_cache st')) ino f';
  ft_foreign : keeps_foreign inode (ch_mem ch) (ch_alloc ch) (fi_es f) (cs_inode st')
    (ch_mem (cs_cache st')) (ch_alloc (cs_cache st')) (fi_es f');
  ft_rwfds : forall pl, cache_rwfd (cs_inode st') pl = cache_rwfd inode pl;
  ft_ready : inode_ready ino (cs_inode st') f';
  ft_lru : lru_grows ino (fi_es f') ch (cs_cache st');
  ft_pieces : fi_es f `prefix_of` fi_es f';
  ft_task : placed (io_task (cs_io st'))
}.

Lemma victim_grows files ino f f' r :
  files !! ino = Some f -> fi_es f `prefix_of` fi_es f' ->
  victim_of files r -> victim_of (<[ino := f']> files) r.
Proof.
  intros Hf [k Hk] (f2 & p & Hf2 & Hp & E). destruct (decide (fst r = ino)) as [Hr|Hr].
  - exists f', p. rewrite Hr in *. rewrite lookup_insert_eq. split_and!; try done.
    assert (f2 = f) as -> by congruence. rewrite Hk. apply elem_of_app. by left.
  - exists f2, p. by rewrite lookup_insert_ne by congruence.
Qed.

Lemma io_store_view fd ino st w :
  is_Some (w_tls w) ->
  w_fs (io_store fd ino st w) = io_fs st /\
  k_inodes (w_os (io_store fd ino st w)) = <[ino := io_inode st]> (k_inodes (w_os w)) /\
  w_tls (io_store fd ino st w) = w_tls w /\
  l_hashmap (w_lib (io_store fd ino st w)) = l_hashmap (w_lib w) /\
  forall id, w_tls w = Some id ->
    is_Some (task_at (w_os w) id) ->
    task_at (w_os (io_store fd ino st w)) id = Some (io_task st).
Proof.
  intros [id Hid]. unfold io_store. cbn. rewrite Hid. cbn. split_and!; try done.
  intros id' [= <-] [t Ht]. eapply task_at_stored; [exact Ht|done|].
  apply lookup_insert_eq.
Qed.

Lemma sys_inv_step files w ch a fd ino off file f inode off' st' f' :
  sys_inv files w ch a -> fd_ready fd ino off w file -> files !! ino = Some f ->
  inode_at w ino = Some inode -> 0 <= off' < 2 ^ 61 ->
  file_step (w_fs w) inode ch ino f file off' st' f' ->
  sys_inv (<[ino := f']> files) (io_store fd ino (cs_io st') w) (cs_cache st')
    (as_store fd ino (AFile (fi_data f') off') a).
Proof.
  intros [Hok Hdata Hready Hfds Htask Hrefs Hqs [Hnd Hmap]] Hfd Hf Hi Hoff
    [T1 T2 T3 T4 T5 T6 T7 T8 T9].
  destruct Htask as (id & task & Hid & Ht & Hp).
  destruct (io_store_view fd ino (cs_io st') w) as (V1 & V2 & V3 & V4 & V5);
    [by rewrite Hid|].
  pose proof (ir_phys _ _ _ (Hready _ _ _ Hf Hi)) as P1.
  pose proof (ir_phys _ _ _ T6) as P2.
  assert (fi_fast f' = fi_fast f /\ fi_slow f' = fi_slow f) as [Ef Es]
    by (split; congruence).
  split.
  - unfold flush_view. rewrite V1, V2, T1.
    apply (files_ok_step (FAST_DIR cfg) (SLOW_DIR cfg) files (flush_view w ch) ino f f'
      inode); try done.
    + apply env_framed; [by split|by intros o|apply T3|exact T4].
    + intros pl _. left. apply T5.
  - cbn. by rewrite Hdata, fmap_insert.
  - intros ino2 f2 inode2. unfold inode_at. rewrite V2, !lookup_insert.
    case_decide; [|by apply Hready]. intros [= <-] [= <-]. by subst ino2.
  - eapply fds_ready_store; [exact Hfds|done|done|by rewrite V1|].
    by rewrite io_store_files, T2.
  - exists id, (io_task (cs_io st')). rewrite V3. split_and!; eauto.
  - destruct T7 as [Q L]. intros r. unfold refs. cbn. rewrite Q, elem_of_app.
    intros [[Hr|(p & Hp' & ->)]%L|Hr].
    + eapply victim_grows; [done..|]. apply Hrefs, elem_of_app. by left.
    + exists f', p. cbn. by rewrite lookup_insert_eq.
    + eapply victim_grows; [done..|]. apply Hrefs, elem_of_app. by right.
  - by rewrite (proj1 T7).
  - rewrite V4. split; [done|]. intros ino2. rewrite Hmap, lookup_insert.
    case_decide; [|done]. subst. rewrite Hf. split; eauto.
Qed.

(** Only the offset of a descriptor changes. *)
Lemma sys_inv_seek files w ch a fd ino off file f off' :
  sys_inv files w ch a -> fd_ready fd ino off w file -> files !! ino = Some f ->
  0 <= off' < 2 ^ 61 ->
  sys_inv files (set_file fd (file <| f_off := off' |>) w) ch
    (as_store fd ino (AFile (fi_data f) off') a).
Proof.
  intros [Hok Hdata Hready Hfds Htask Hrefs Hqs Hmap] Hfd Hf Hoff. split; try done.
  - cbn. rewrite Hdata, insert_id; [done|]. by rewrite lookup_fmap, Hf.
  - by eapply fds_ready_store.
Qed.

(** The placement of an inode becomes [BLK_PLACEMENT_BOTH]. *)
Lemma sys_inv_decide files w ch a ino f inode :
  sys_inv files w ch a -> files !! ino = Some f -> inode_at w ino = Some inode ->
  sys_inv files (set_inode ino (inode <| i_placement := BLK_PLACEMENT_BOTH |>) w) ch a.
Proof.
  intros [Hok Hdata Hready Hfds Htask Hrefs Hqs Hmap] Hf Hi.
  set (inode' := inode <| i_placement := BLK_PLACEMENT_BOTH |>). split; try done.
  - rewrite <-(insert_id files ino f) by done.
    apply (files_ok_step _ _ files (flush_view w ch) ino f f inode); try done.
    + destruct (fs_each _ _ _ _ Hok ino f Hf) as (inode0 & Hi0 & [D C W B S L M]).
      change (inode_at w ino = Some inode0) in Hi0. rewrite Hi in Hi0.
      injection Hi0 as <-. split; try done. by apply (cached_same_inode _ _ _ inode).
    + destruct (fs_each _ _ _ _ Hok ino f Hf) as (inode0 & Hi0 & Hfile).
      apply env_framed; [by split|by intros o|apply Hfile|by intros q].
    + intros pl _. by left.
  - intros ino2 f2 inode2. unfold inode_at. cbn. rewrite lookup_insert.
    case_decide; [|by apply Hready]. subst ino2. intros Hf2 [= <-].
    destruct (Hready _ _ _ Hf2 Hi). split; try done. by left.
  - intros fd ino2 off H. destruct (Hfds _ _ _ H) as (file & []). exists file. by split.
Qed.

(** ** The data path on one file *)

(** The loops of an iterator, then the new size and the statistics. *)
Lemma progress_file_step fs inode task ch ino f file off st2 st' data' offset n :
  let st := CState (IOState fs file inode task) ch in
  let f' := fun es' => FInfo (fi_fast f) (fi_slow f) es' data' in
  file_ok (FAST_DIR cfg) (SLOW_DIR cfg) fs inode (ch_mem ch) (ch_alloc ch) ino f ->
  inode_ready ino inode f -> i_placement inode = BLK_PLACEMENT_BOTH -> placed task ->
  f_off file = off ->
  forall es', cprogress offset n st (fi_es f) st2 es' ->
  fcached fs (cs_inode st2) (ch_mem (cs_cache st2)) (ch_alloc (cs_cache st2)) (f' es') ->
  length es' <= MAX_POLY_INDEX_NODE_NR + 1 -> zlength data' < 2 ^ 62 ->
  io_fs (cs_io st') = io_fs (cs_io st2) -> io_file (cs_io st') = io_file (cs_io st2) ->
  cs_inode st' = cs_inode st2 <| i_size := zlength data' |> ->
  ch_mem (cs_cache st') = ch_mem (cs_cache st2) ->
  ch_alloc (cs_cache st') = ch_alloc (cs_cache st2) ->
  lru_grows ino es' (cs_cache st2) (cs_cache st') ->
  t_placement (io_task (cs_io st')) = t_placement (io_task (cs_io st2)) ->
  file_step fs inode ch ino f file (off + if offset <? 0 then n else 0) st' (f' es').
Proof.
  intros st f' [D C W B S L M] [I1 I2 I3 I4 I5 I7 I6] Hpl Hp Hoff es' [P1 P2 P3 P4 P5 P6 P7 P8 P9]
    C2 Hmax Hlen E1 E2 E3 E4 E5 Hlru E6.
  unfold inode_fixed, inode_meta in P2. cbn in P2. injection P2 as Q1 Q2 Q3 Q4 Q5 Q6 Q7 Q8
    Q8' Q9 Q10 Q11 Q12 Q13.
  assert (forall pl, cache_rwfd (cs_inode st') pl = cache_rwfd inode pl) as Hrw
    by (intros pl; unfold cache_rwfd; rewrite E3; cbn; by rewrite Q11, Q12).
  split; try done.
  - by rewrite E1, P1.
  - rewrite E2, P4, advance_file. cbn. by rewrite Hoff.
  - rewrite E3, E4, E5. split; try done.
    + by apply (cached_same_inode _ _ _ (cs_inode st2)).
    + intros pl Hpl'. specialize (W pl Hpl'). rewrite <-E3. unfold writable in *.
      rewrite Hrw. unfold cache_path in *. rewrite E3. cbn. by rewrite Q9.
    + intros p Hin. change (e_inode (entry_at (cs_inode st2) (pc_slot p)) = ino).
      rewrite <-I1, <-Q2. apply P7; [|done]. intros q Hq. cbn. rewrite I1. by apply B.
    + cbn. by rewrite Q13.
  - intros q Hq. rewrite E3, E4, E5. by apply P5.
  - rewrite E3. split; try done; [cbn; congruence|by left; cbn; rewrite Q4| |].
    + cbn in *. lia.
    + cbn. congruence.
  - eapply lru_grows_trans; [reflexivity| |done]. cbn in P9. by rewrite I1 in P9.
  - unfold placed. by rewrite E6, P3.
Qed.

(** A descriptor of the abstract system in the state of the library. *)
Lemma as_file_ready files w ch a fd ino af :
  sys_inv files w ch a -> as_file fd a = Some (ino, af) ->
  exists file f inode id task,
    fd_ready fd ino (a_off af) w file /\ files !! ino = Some f /\
    fi_data f = a_data af /\ inode_at w ino = Some inode /\
    file_ok (FAST_DIR cfg) (SLOW_DIR cfg) (w_fs w) inode (ch_mem ch) (ch_alloc ch) ino f /\
    inode_ready ino inode f /\
    w_tls w = Some id /\ task_at (w_os w) id = Some task /\ placed task.
Proof.
  intros [Hok Hdata Hready Hfds (id & task & Hid & Ht & Hp) Hrefs Hqs Hmap] H.
  unfold as_file in H. destruct (as_fds a !! fd) as [[ino' off]|] eqn:Efd; [|done].
  cbn in H. destruct (as_files a !! ino') as [data|] eqn:Ed; [|done]. cbn in H.
  injection H as <- <-. destruct (Hfds _ _ _ Efd) as (file & Hfd).
  rewrite Hdata, lookup_fmap in Ed. destruct (files !! ino') as [f|] eqn:Ef; [|done].
  injection Ed as Ed. destruct (fs_each _ _ _ _ Hok _ _ Ef) as (inode & Hi & Hfile).
  exists file, f, inode, id, task. split_and!; try done. by apply Hready.
Qed.

Lemma cs_ok_ready w ch fd ino off file f inode task :
  fd_ready fd ino off w file ->
  file_ok (FAST_DIR cfg) (SLOW_DIR cfg) (w_fs w) inode (ch_mem ch) (ch_alloc ch) ino f ->
  inode_ready ino inode f ->
  let st := CState (IOState (w_fs w) file inode task) ch in
  cs_ok (fi_fast f) (fi_slow f) (fastfd_of (cs_io st)) (slowfd_of (cs_io st)) st
    (fi_es f) (fi_data f).
Proof.
  intros [F1 F2 F3 F4 F5 F6 F7] Hok R st. pose proof (ir_phys _ _ _ R) as P.
  unfold fastfd_of, slowfd_of. cbn. rewrite F2. split; [apply Hok|].
  rewrite <-P in F7. cbn. rewrite F2. split; [exact F7|done].
Qed.

Lemma read_iter_sys files w ch a fd ino af file f inode id task buf n offset :
  sys_inv files w ch a -> fd_ready fd ino (a_off af) w file -> files !! ino = Some f ->
  fi_data f = a_data af -> inode_at w ino = Some inode ->
  w_tls w = Some id -> task_at (w_os w) id = Some task -> placed task ->
  i_placement inode = BLK_PLACEMENT_BOTH -> -1 <= offset < 2 ^ 61 -> 0 < n < 2 ^ 61 ->
  let start := if offset <? 0 then a_off af else offset in
  let d := slice start n (a_data af) in
  cut_ok (piece_len (a_data af) (Z.to_nat (start / NODE))) (start mod NODE) n ->
  mm_room (ch_alloc ch) (range_nodes start n) ->
  exists w' ch' files',
    run_cached w ch fd ino file (fun st =>
      '(ret, buf, st) ← polystore_read_iter_polycache (FAST_DIR cfg) st buf n offset;
      Some ((ret, buf), st)) = Some (zlength d, overwrite 0 d buf, w', ch') /\
    sys_inv files' w' ch'
      (as_store fd ino (AFile (a_data af) (a_off af + if offset <? 0 then zlength d else 0)) a).
Proof.
  intros Hinv Hfd Hf Hdata Hi Hid Ht Hp Hpl Ho Hn start d Hcut Hmm.
  destruct (fs_each _ _ _ _ (si_files _ _ _ _ Hinv) _ _ Hf) as (inode0 & Hi0 & Hfile).
  change (inode_at w ino = Some inode0) in Hi0. rewrite Hi in Hi0. injection Hi0 as <-.
  pose proof (si_ready _ _ _ _ Hinv _ _ _ Hf Hi) as Hr. pose proof Hfd as [F1 F2 F3 F4 F5 F6 F7].
  set (st := CState (IOState (w_fs w) file inode task) ch).
  pose proof (cs_ok_ready w ch fd ino _ file f inode task Hfd Hfile Hr) as Hcs.
  assert (io_start (cs_io st) offset = start) as Hst by (unfold io_start; cbn; by rewrite F5).
  assert (0 <= start < 2 ^ 61) as Hs by (unfold start; zif; lia).
  rewrite Hdata in Hcs.
  destruct (read_iter_pieces (FAST_DIR cfg) _ _ st _ _ buf n offset Hcs)
    as (st1 & E & (C1 & _) & Hpr); rewrite ?Hst in *; [apply Hr|lia..|done|done|].
  fold d in E, Hpr. unfold run_cached, io_view. rewrite Hi, Hid. cbn [mbind option_bind].
  rewrite Ht. cbn [mbind option_bind]. fold st. rewrite E. cbn [mbind option_bind].
  pose proof (cp_fs _ _ _ _ _ _ Hpr) as Efs. change (io_fs (cs_io st1) = w_fs w) in Efs.
  destruct (fixed_fields _ _ (cp_fixed _ _ _ _ _ _ Hpr)) as (Hmeta & _).
  assert (i_size (cs_inode st1) = zlength (a_data af)) as Hsz.
  { unfold inode_meta in Hmeta. injection Hmeta. intros. rewrite <-Hdata.
    rewrite <-(fo_size _ _ _ _ _ _ _ _ Hfile). cbn in *. congruence. }
  eexists _, _, _. split; [reflexivity|].
  set (f' := FInfo (fi_fast f) (fi_slow f) (fi_es f) (a_data af)).
  apply (sys_inv_step files w ch a fd ino (a_off af) file f inode _
    (read_done (zlength d) st1) f'); try done.
  - assert (zlength (a_data af) <= 2 ^ 40) as Hlen.
    { destruct (ca_len C1). pose proof (ir_max _ _ _ Hr).
      rewrite node_size_val in *. unfold MAX_POLY_INDEX_NODE_NR in *. lia. }
    assert (zlength d <= Z.max 0 (zlength (a_data af) - start))
      by (unfold d; rewrite zlength_slice by lia; lia).
    unfold start in *. destruct (offset <? 0); lia.
  - rewrite Efs in C1.
    apply (progress_file_step (w_fs w) inode task ch ino f file (a_off af) st1); try done.
    + apply Hr.
    + rewrite <-Hdata. apply Hfile.
    + change (cs_inode (read_done (zlength d) st1)) with (cs_inode st1). rewrite <-Hsz.
      by destruct (cs_inode st1).
    + split; [done|]. by left.
Qed.

Lemma write_iter_sys files w ch a fd ino af file f inode id task buf offset :
  let n := zlength buf in
  sys_inv files w ch a -> fd_ready fd ino (a_off af) w file -> files !! ino = Some f ->
  fi_data f = a_data af -> inode_at w ino = Some inode ->
  w_tls w = Some id -> task_at (w_os w) id = Some task -> placed task ->
  i_placement inode = BLK_PLACEMENT_BOTH ->
  let start := if offset <? 0 then a_off af else offset in
  write_ok (LARGE_INDEX cfg) n start af ->
  mm_room (ch_alloc ch) (range_nodes start n) ->
  exists w' ch' files',
    run_cached w ch fd ino file (fun st =>
      polystore_write_iter_polycache (FAST_DIR cfg) st buf n offset) =
      Some (n, w', ch') /\
    sys_inv files' w' ch'
      (as_store fd ino (AFile (overwrite start buf (a_data af))
                          (a_off af + if offset <? 0 then n else 0)) a).
Proof.
  intros n Hinv Hfd Hf Hdata Hi Hid Ht Hp Hpl start (Hn & Hs & Htail & Hslots) Hmm.
  assert (n = zlength buf) as Hnl by done.
  destruct (fs_each _ _ _ _ (si_files _ _ _ _ Hinv) _ _ Hf) as (inode0 & Hi0 & Hfile).
  change (inode_at w ino = Some inode0) in Hi0. rewrite Hi in Hi0. injection Hi0 as <-.
  pose proof (si_ready _ _ _ _ Hinv _ _ _ Hf Hi) as Hr. pose proof Hfd as [F1 F2 F3 F4 F5 F6 F7].
  set (st := CState (IOState (w_fs w) file inode task) ch).
  pose proof (cs_ok_ready w ch fd ino _ file f inode task Hfd Hfile Hr) as Hcs.
  assert (io_start (cs_io st) offset = start) as Hst by (unfold io_start; cbn; by rewrite F5).
  rewrite Hdata in Hcs. pose proof (cs_pieces _ _ _ _ _ _ _ Hcs) as HK.
  pose proof (ir_next _ _ _ Hr) as Hnext. rewrite HK in Hnext.
  rewrite pieces_of_max in Hslots. unfold new_pieces in Hslots.
  pose proof (index_slots_bound (LARGE_INDEX cfg)) as Hib.
  pose proof (proj2 (pieces_of_bound (start + n))) as Hpb.
  assert (start + n <= 2 ^ 40) as Hsmall.
  { rewrite node_size_val in Hpb. unfold MAX_POLY_INDEX_NODE_NR in Hib. lia. }
  destruct (write_iter_pieces (FAST_DIR cfg) _ _ st _ _ buf n offset Hcs)
    as (st2 & es2 & E & (C2 & _) & Hpr & _ & _ & Hm2); rewrite ?Hst in *;
    [cbn; pose proof (ir_next _ _ _ Hr); lia|done|lia|lia|done|done| |done|].
  { cbn. rewrite (ir_slots _ _ _ Hr). unfold new_pieces. lia. }
  rewrite ztake_all in C2 by lia. unfold run_cached, io_view. rewrite Hi, Hid.
  cbn [mbind option_bind]. rewrite Ht. cbn [mbind option_bind]. fold st. rewrite E.
  cbn [mbind option_bind].
  pose proof (cp_fs _ _ _ _ _ _ Hpr) as Efs. change (io_fs (cs_io st2) = w_fs w) in Efs.
  destruct (fixed_fields _ _ (cp_fixed _ _ _ _ _ _ Hpr)) as (Hmeta & _).
  assert (i_size (cs_inode st2) = zlength (a_data af)) as Hsz.
  { unfold inode_meta in Hmeta. injection Hmeta. intros. rewrite <-Hdata.
    rewrite <-(fo_size _ _ _ _ _ _ _ _ Hfile). cbn in *. congruence. }
  assert (zlength (overwrite start buf (a_data af)) =
    Z.max (zlength (a_data af)) (start + n)) as Hlen by (by rewrite zlength_overwrite by lia).
  assert (zlength (a_data af) < 2 ^ 62) as Hold
    by (rewrite <-Hdata; apply Hfile).
  eexists _, _, _. split; [reflexivity|].
  set (f' := FInfo (fi_fast f) (fi_slow f) es2 (overwrite start buf (a_data af))).
  apply (sys_inv_step files w ch a fd ino (a_off af) file f inode _
    (write_done n (start + n) st2) f'); try done.
  - unfold start in *. destruct (offset <? 0); lia.
  - rewrite Efs in C2.
    apply (progress_file_step (w_fs w) inode task ch ino f file (a_off af) st2); try done.
    + lia.
    + change (cs_inode (write_done n (start + n) st2))
        with (grow_size (start + n - 1) (cs_inode st2)).
      unfold grow_size. rewrite Hsz, Hlen, Z.sub_add, u64_id by lia.
      assert ((if zlength (a_data af) <? start + n then start + n else zlength (a_data af)) =
        Z.max (zlength (a_data af)) (start + n)) as -> by (zif; lia).
      done.
    + apply lru_grows_refl.
Qed.

(** ** The operations of the library *)

Lemma read_generic_sys files w ch a fd ino af buf n offset :
  sys_inv files w ch a -> as_file fd a = Some (ino, af) ->
  -1 <= offset < 2 ^ 61 -> 0 < n < 2 ^ 61 ->
  let start := if offset <? 0 then a_off af else offset in
  let d := slice start n (a_data af) in
  cut_ok (piece_len (a_data af) (Z.to_nat (start / NODE))) (start mod NODE) n ->
  mm_room (ch_alloc ch) (range_nodes start n) ->
  exists w' ch' files',
    polystore_read_generic cfg user_ok fd buf n offset w ch =
      Some (zlength d, overwrite 0 d buf, w', ch') /\
    sys_inv files' w' ch'
      (as_store fd ino (AFile (a_data af) (a_off af + if offset <? 0 then zlength d else 0)) a).
Proof.
  intros Hinv Haf Ho Hn start d Hcut Hmm.
  destruct (as_file_ready _ _ _ _ _ _ _ Hinv Haf)
    as (file & f & inode & id & task & Hfd & Hf & Hd & Hi & Hfile & Hr & Hid & Ht & Hp).
  pose proof Hfd as [F1 F2 F3 F4 F5 F6 F7].
  unfold polystore_read_generic, polystore_file_find. cbn [rdlock_ok user_ok].
  rewrite F1, F3, Hi. cbn [mbind option_bind].
  destruct (ir_placed _ _ _ Hr) as [Hpl|[Hpl Hnil]]; rewrite Hpl; cbn [Z.eqb].
  - destruct (read_iter_sys files w ch a fd ino af file f inode id task buf n offset)
      as (w' & ch' & files' & E & H); [done..|]. fold start d in E, H. cbn.
    rewrite E. cbn [mbind option_bind]. eauto 10.
  - assert (d = []) as Hdn.
    { unfold d. rewrite <-Hd, Hnil. apply slice_nil_r. cbn. unfold start. zif; lia. }
    cbn. rewrite Hdn, overwrite_nil by lia. exists w, ch, files. split; [done|].
    replace (a_off af + (if offset <? 0 then zlength [] else 0)) with (a_off af)
      by (destruct (offset <? 0); cbn; lia).
    destruct (si_data _ _ _ _ Hinv). unfold as_store. cbn.
    unfold as_file in Haf. destruct (as_fds a !! fd) as [[ino' off]|] eqn:E1; [|done].
    cbn in Haf. destruct (as_files a !! ino') as [data|] eqn:E2; [|done]. cbn in Haf.
    injection Haf as <- <-. cbn. rewrite !insert_id by done. by destruct a.
Qed.

Lemma write_generic_sys files w ch a fd ino af buf offset :
  let n := zlength buf in
  sys_inv files w ch a -> as_file fd a = Some (ino, af) ->
  let start := if offset <? 0 then a_off af else offset in
  write_ok (LARGE_INDEX cfg) n start af ->
  mm_room (ch_alloc ch) (range_nodes start n) ->
  exists w' ch' files',
    polystore_write_generic cfg user_ok fd buf n offset w ch = Some (n, w', ch') /\
    sys_inv files' w' ch'
      (as_store fd ino (AFile (overwrite start buf (a_data af))
                          (a_off af + if offset <? 0 then n else 0)) a).
Proof.
  intros n Hinv Haf start Hw Hmm.
  destruct (as_file_ready _ _ _ _ _ _ _ Hinv Haf)
    as (file & f & inode & id & task & Hfd & Hf & Hd & Hi & Hfile & Hr & Hid & Ht & Hp).
  pose proof Hfd as [F1 F2 F3 F4 F5 F6 F7].
  unfold polystore_write_generic, polystore_file_find. cbn [rdlock_ok user_ok].
  rewrite F1, F3, Hi, F4. cbn [mbind option_bind Z.eqb].
  destruct (ir_placed _ _ _ Hr) as [Hpl|[Hpl Hnil]]; rewrite Hpl; cbn [Z.eqb].
  - by eapply write_iter_sys.
  - set (inode' := inode <| i_placement := BLK_PLACEMENT_BOTH |>).
    apply (write_iter_sys files (set_inode ino inode' w) ch a fd ino af file f inode' id
      task buf offset); try done.
    + by eapply sys_inv_decide.
    + unfold inode_at. cbn. by rewrite lookup_insert_eq.
Qed.

Lemma lseek_sys files w ch a fd ino af offset whence :
  sys_inv files w ch a -> as_file fd a = Some (ino, af) ->
  let o := seek_target offset whence af in 0 <= o < 2 ^ 61 ->
  exists w', polystore_lseek user_ok fd offset whence w = Some (o, w') /\
    sys_inv files w' ch (as_store fd ino (AFile (a_data af) o) a).
Proof.
  intros Hinv Haf o Ho.
  destruct (as_file_ready _ _ _ _ _ _ _ Hinv Haf)
    as (file & f & inode & id & task & Hfd & Hf & Hd & Hi & Hfile & Hr & Hid & Ht & Hp).
  exists (set_file fd (file <| f_off := o |>) w). split.
  - unfold polystore_lseek, polystore_file_find. cbn [rdlock_ok user_ok].
    rewrite (fr_lookup _ _ _ _ _ Hfd), (fr_inode _ _ _ _ _ Hfd), Hi.
    cbn [mbind option_bind]. rewrite (fr_off _ _ _ _ _ Hfd),
      (fo_size _ _ _ _ _ _ _ _ Hfile), Hd. unfold o, seek_target in *.
    destruct (whence =? SEEK_CUR), (whence =? SEEK_END); try done.
    by rewrite s64_id by lia.
  - rewrite <-Hd. by eapply sys_inv_seek.
Qed.

Lemma cache_op_sys files w ch a fd op :
  sys_inv files w ch a -> step_ok cfg (SOp fd op) ch a ->
  exists ret d a' w' ch' files',
    spec_step (SOp fd op) a = Some (ret, d, a') /\
    cache_op cfg fd op w ch = Some (ret, d, w', ch') /\ sys_inv files' w' ch' a'.
Proof.
  intros Hinv (ino & af & Haf & Hok & Hcut & Hmm). unfold spec_step. rewrite Haf.
  cbn [mbind option_bind].
  destruct op as [count|count offset|d|d offset|offset whence]; cbn in Hok, Hcut, Hmm;
    cbn [spec_op cache_op].
  - destruct (read_generic_sys files w ch a fd ino af (replicate (Z.to_nat count) x00) count
      (-1)) as (w' & ch' & files' & E & H); [done|done|lia|lia|done..|]. cbn in E, H.
    unfold polystore_read. rewrite E. cbn [mbind option_bind]. rewrite ztake_overwrite.
    eauto 10.
  - destruct Hok as [Hc Ho].
    destruct (read_generic_sys files w ch a fd ino af (replicate (Z.to_nat count) x00) count
      offset) as (w' & ch' & files' & E & H);
      rewrite ?(proj2 (Z.ltb_ge offset 0)) in * by lia; [done|done|lia|lia|done..|].
    unfold polystore_pread. rewrite E. cbn [mbind option_bind].
    rewrite ztake_overwrite. rewrite Z.add_0_r in H. destruct af. eauto 10.
  - destruct (write_generic_sys files w ch a fd ino af d (-1))
      as (w' & ch' & files' & E & H); [done..|]. cbn in E, H.
    unfold polystore_write. rewrite E. cbn [mbind option_bind]. eauto 10.
  - assert (0 <= offset) as Ho by (destruct Hok as (? & ? & ?); lia).
    destruct (write_generic_sys files w ch a fd ino af d offset)
      as (w' & ch' & files' & E & H);
      rewrite ?(proj2 (Z.ltb_ge offset 0)) in * by lia; [done..|].
    unfold polystore_pwrite. rewrite E. cbn [mbind option_bind]. rewrite Z.add_0_r in H.
    eauto 10.
  - destruct (lseek_sys files w ch a fd ino af offset whence) as (w' & E & H); [done..|].
    rewrite E. cbn [mbind option_bind]. eauto 10.
Qed.

Lemma flush_sys files w ch a :
  sys_inv files w ch a ->
  exists w' ch', background_flush cfg nr w ch = Some (w', ch') /\ sys_inv files w' ch' a.
Proof.
  intros [Hok Hdata Hready Hfds Htask Hrefs [Hqs Hnr] Hmap].
  destruct (flush_round_ok (FAST_DIR cfg) (SLOW_DIR cfg) files (flush_view w ch) nr)
    as (_ & _ & s' & E & Hok' & _ & _ & _ & [[Q1 _] Q2 Q3 Q4]); [done..|by auto|].
  unfold background_flush. unfold flush_round in E. fold (flush_view w ch).
  destruct (poly_cache_flushing_dispatch nr (flush_view w ch)) as [s1|]; [|done].
  cbn [mbind option_bind] in *. rewrite E. cbn [mbind option_bind].
  eexists _, _. split; [reflexivity|]. split; try done.
  - by destruct s'.
  - intros ino f inode' Hf Hi'. destruct (Q2 ino inode' Hi') as (inode & Hi & [M N]).
    destruct (Hready ino f inode Hf Hi) as [R1 R2 R3 R4 R5 R6].
    unfold inode_meta in M. injection M as M1 M2 M3 M4 M5 M6 M7 M8 M9.
    split; try congruence. unfold inode_placed in *. by rewrite M4.
  - intros fd ino off H. destruct (Hfds _ _ _ H) as (file & [F1 F2 F3 F4 F5 F6 [F7 F8]]).
    exists file. split; try done. split; by apply Q1.
  - intros r Hr. apply Hrefs, Q3. by destruct s'.
  - split; [|done]. rewrite <-Hqs. cbn in Q4. congruence.
Qed.

Lemma run_steps_sys ss : forall files w ch a,
  sys_inv files w ch a -> steps_ok cfg nr ss w ch a ->
  exists outs a' w' ch', spec_steps ss a = Some (outs, a') /\
    run_steps cfg nr ss w ch = Some (outs, w', ch') /\ sys_ok w' ch' a'.
Proof.
  induction ss as [|s ss IH]; intros files w ch a Hinv Hok; cbn [spec_steps run_steps].
  { exists [], a, w, ch. split_and!; [done..|by exists files]. }
  destruct Hok as [Hs Hrest].
  assert (exists ret d a1 w1 ch1 files1, spec_step s a = Some (ret, d, a1) /\
    run_step cfg nr s w ch = Some (ret, d, w1, ch1) /\ sys_inv files1 w1 ch1 a1)
    as (ret & d & a1 & w1 & ch1 & files1 & E1 & E2 & H1).
  { destruct s as [fd op|]; [by eapply cache_op_sys|]. cbn [spec_step run_step].
    destruct (flush_sys files w ch a Hinv) as (w1 & ch1 & E & H). rewrite E. eauto 10. }
  destruct (IH files1 w1 ch1 a1 H1) as (outs & a' & w' & ch' & E3 & E4 & H);
    [by eapply Hrest|].
  rewrite E1, E2. cbn [mbind option_bind]. rewrite E3, E4. cbn [mbind option_bind].
  by exists ((ret, d) :: outs), a', w', ch'.
Qed.

(** The bytes of a file are in its two physical files. *)
Definition durable (ino : Z) (data : list byte) (s : flush_state Fs A) : Prop :=
  exists inode, fl_inodes s !! ino = Some inode /\
    on_disk (fst (phys ino)) (snd (phys ino)) (fl_fs s) inode data.

Lemma exit_sys w ch a :
  sys_ok w ch a ->
  exists s', poly_cache_exit (FAST_DIR cfg) (SLOW_DIR cfg) (w_lib w) (flush_view w ch) =
      Some s' /\
    forall ino data, as_files a !! ino = Some data -> durable ino data s'.
Proof.
  intros (files & [Hok Hdata Hready Hfds Htask Hrefs Hqs [Hnd Hmap]]).
  destruct (exit_ok (FAST_DIR cfg) (SLOW_DIR cfg) files (w_lib w) (flush_view w ch) Hok Hnd)
    as (s' & E & H).
  { intros e He. destruct (proj1 (Hmap (snd e))) as [f Hf]; [by apply list_elem_of_fmap_2|].
    destruct (fs_each _ _ _ _ Hok _ _ Hf) as (inode & Hi & _).
    destruct (Hready _ _ _ Hf Hi) as [R1 R2 _ _ _ _]. exists f, inode. by rewrite R1. }
  exists s'. split; [done|]. intros ino data Ha. rewrite Hdata, lookup_fmap in Ha.
  destruct (files !! ino) as [f|] eqn:Hf; [|done]. injection Ha as <-.
  destruct (H ino f Hf) as (inode & Hi & Hd & _); [by apply Hmap; rewrite Hf|].
  destruct (fs_each _ _ _ _ Hok _ _ Hf) as (inode0 & Hi0 & _).
  pose proof (ir_phys _ _ _ (Hready _ _ _ Hf Hi0)) as P.
  exists inode. split; [done|]. by rewrite <-P.
Qed.

End invariant.

(** ** Properties *)

(** C3: the build with the Poly cache as a whole: several descriptors on several
    files, reads, writes and seeks on any of them in any order and rounds of
    background flushing in between return, call by call, what byte arrays with
    offsets return; descriptors on one file see each other's writes, files do not
    interfere, and when the cache is left at the end every byte of every file is in
    the physical files of its inode.  The steps are within the envelope [steps_ok]:
    a write leaves no hole, does not end one byte into a piece it creates and finds
    room in the index; a read does not run over the end of a partly filled piece it
    asks less than the length of; and the cache memory has a buffer for every piece an
    operation meets.  The physical file systems serve their requests, and the inodes
    have a cache policy that admits fast pieces. *)
Theorem cache_system_refines `{!PosixFS Fs, !PosixFSLaws Fs, !ReliableFS Fs,
    !PosixNS Fs, !ReliableNS Fs, !CacheAlloc A, !CacheAllocLaws A, !CacheMmap Fs A}
    (cfg : config) (nr : Z) (phys : Z -> Z * Z) (ss : list sys_step)
    (w : world Fs) (ch : poly_cache A) (a : asys) :
  sys_ok cfg nr phys w ch a -> steps_ok cfg nr ss w ch a ->
  exists outs a' w' ch' s',
    spec_steps ss a = Some (outs, a') /\
    run_steps cfg nr ss w ch = Some (outs, w', ch') /\ sys_ok cfg nr phys w' ch' a' /\
    poly_cache_exit (FAST_DIR cfg) (SLOW_DIR cfg) (w_lib w') (flush_view w' ch') =
      Some s' /\
    forall ino data, as_files a' !! ino = Some data -> durable phys ino data s'.
Proof.
  intros (files & Hinv) Hok.
  destruct (run_steps_sys cfg nr phys ss files w ch a Hinv Hok)
    as (outs & a' & w' & ch' & E1 & E2 & H).
  destruct (exit_sys cfg nr phys w' ch' a' H) as (s' & E3 & H3).
  by exists outs, a', w', ch', s'.
Qed.

(** ** Witnesses *)

(** A file just created, before its first write. *)
Lemma fresh_file_ok `{!PosixFS Fs, !PosixFSLaws Fs, !PosixNS Fs, !ReliableNS Fs,
    !CacheAlloc A}
    (FAST_DIR SLOW_DIR : string) (fs : Fs) (inode : poly_inode) (m : mem) (al : A)
    (ino fo so : Z) :
  fo <> so -> mm_wf al ->
  (i_it_tree inode, i_size inode, i_next_avail_it_node_no inode, i_cache_mmapfd inode,
   i_cache_fast_offset inode, i_cache_slow_offset inode) = (Leaf, 0, 1, -1, 0, 0) ->
  i_index inode <> 0 -> i_index_slots inode <= MAX_POLY_INDEX_NODE_NR ->
  i_cache_policy inode <> CACHE_POLICY_FAST_READ_NOT_ADMIT ->
  (forall pl, placed_at pl -> writable fo so FAST_DIR SLOW_DIR fs inode pl) ->
  file_ok FAST_DIR SLOW_DIR fs inode m al ino (FInfo fo so [] []).
Proof.
  intros Hd Hwf [= H1 H2 H3 H4 H5 H6] Hix Hreg Hpol Hw. pose proof node_pos.
  assert (forall p : piece, p ∈ [] -> False) as Hnil
    by (intros p Hin; by apply elem_of_nil in Hin).
  split; try done; [|intros p []%Hnil]. split; try done; cbn; [|intros p []%Hnil|].
  - split; rewrite ?H1, ?H3; try done;
      [apply wf_tree_empty|constructor|intros p []%Hnil..].
  - intros pl. unfold next_off. rewrite H5, H6. by destruct (pl =? _).
Qed.

(** Two files, the first one open twice. *)
Definition example_cfg : config := Config "/fast" "/slow" false.

Definition fdA : Z := POLYSTORE_GEN_FD 5 6.
Definition fdB : Z := POLYSTORE_GEN_FD 7 8.
Definition fdA2 : Z := POLYSTORE_GEN_FD 9 10.

Definition example_inode (ino : Z) (path : string) : poly_inode :=
  init_poly_inode (7 + ino) ino 0 <| i_index := GET_POLY_INDEX_VADDR false ino |>
    <| i_index_slots := index_slots false |>
    <| i_cache_rwfd_fast := -1 |> <| i_cache_rwfd_slow := -1 |>
    <| i_cache_mmapfd := -1 |> <| i_pathname := path |>.

Definition example_sys_world : world MemFS.memfs :=
  World
    (MemFS.Mem (list_to_map [(5, 0); (6, 1); (7, 2); (8, 3); (9, 0); (10, 1)]) ∅ ∅
       (list_to_map [("/fast/a", 0); ("/slow/a", 1); ("/fast/b", 2); ("/slow/b", 3)]) ∅)
    (init_os <| k_inodes := <[0 := example_inode 0 "/mnt/polystore/a"]>
                              {[1 := example_inode 1 "/mnt/polystore/b"]} |>
             <| k_tasks := {[1 := Task 1 0 0 0 0 0 0 BLK_PLACEMENT_SLOW]} |>
             <| k_mapped_tasks := {[1]} |>)
    (init_lib 1 <| l_files := [(fdA, File fdA 0 0 (Some 0)); (fdB, File fdB 0 0 (Some 1));
                               (fdA2, File fdA2 0 0 (Some 0))] |>
       <| l_hashmap := [(7, 0); (8, 1)] |>) (Some 1).

Definition example_sys_cache : poly_cache Shm.shm :=
  PolyCache (fun _ => x00) (Shm.poly_cache_mm_init 3) [] [[]; []] 0 0 0.

Definition example_phys (ino : Z) : Z * Z := (2 * ino, 2 * ino + 1).

Definition example_asys : asys :=
  ASys (<[0 := []]> {[1 := []]}) (list_to_map [(fdA, (0, 0)); (fdB, (1, 0)); (fdA2, (0, 0))]).

Lemma example_writable fo so ino path pathf paths :
  cache_path "/fast" "/slow" (example_inode ino path) BLK_PLACEMENT_FAST = Some pathf ->
  cache_path "/fast" "/slow" (example_inode ino path) BLK_PLACEMENT_SLOW = Some paths ->
  ns_resolve (w_fs example_sys_world) pathf = Some fo ->
  ns_resolve (w_fs example_sys_world) paths = Some so ->
  forall pl, placed_at pl -> writable fo so "/fast" "/slow" (w_fs example_sys_world)
    (example_inode ino path) pl.
Proof.
  intros E1 E2 R1 R2 pl Hpl. unfold writable.
  assert (cache_rwfd (example_inode ino path) pl = -1) as -> by (by destruct Hpl as [->| ->]).
  rewrite Z.eqb_refl. destruct Hpl as [->| ->]; [exists pathf|exists paths]; by split.
Qed.

Lemma example_sys_ok :
  sys_ok example_cfg 2 example_phys example_sys_world example_sys_cache example_asys.
Proof.
  set (files := <[0 := FInfo 0 1 [] []]> {[1 := FInfo 2 3 [] []]} : gmap Z finfo).
  assert (forall ino f, files !! ino = Some f ->
    ino = 0 /\ f = FInfo 0 1 [] [] \/ ino = 1 /\ f = FInfo 2 3 [] []) as Hfiles.
  { unfold files. intros ino f. rewrite lookup_insert. case_decide; [intros [= <-]; auto|].
    intros [<- <-]%lookup_singleton_Some. auto. }
  assert (mm_wf (ch_alloc example_sys_cache)) as Hwf
    by (apply Shm.init_wf; unfold Shm.CPU_MAX; lia).
  exists files. split.
  - split; cbn [fl_fs fl_inodes fl_cache flush_view].
    + intros ino f [[-> ->]|[-> ->]]%Hfiles; eexists; (split; [reflexivity|]);
        apply fresh_file_ok; try done; eapply example_writable; by vm_compute.
    + intros ino1 ino2 f1 f2 o [[-> ->]|[-> ->]]%Hfiles [[-> ->]|[-> ->]]%Hfiles Hne;
        cbn; lia.
    + intros ino1 ino2 f1 f2 i1 i2 p q [[-> ->]|[-> ->]]%Hfiles _ _ _ _
        []%elem_of_nil.
    + intros ino1 ino2 f1 f2 i1 i2 pl1 pl2 [[-> ->]|[-> ->]]%Hfiles _ _ [= <-] _ [->| ->] _;
        by left.
  - by vm_compute.
  - intros ino f inode [[-> ->]|[-> ->]]%Hfiles [= <-]; split; try done; by right.
  - intros fd ino off H. apply elem_of_list_to_map_2 in H.
    repeat (apply elem_of_cons in H as [H|H]; [injection H as -> -> ->; eexists; by split|]).
    by apply elem_of_nil in H.
  - eexists _, _. split_and!; [done|by vm_compute|by right].
  - intros r []%elem_of_nil.
  - done.
  - split; [by apply (bool_decide_unpack _)|]. intros ino. split.
    + intros [->|[->|[]%elem_of_nil]%elem_of_cons]%elem_of_cons; eexists; reflexivity.
    + intros [f [[-> _]|[-> _]]%Hfiles]; [by left|by right; left].
Qed.

#[global] Instance op_ok_dec large op af : Decision (op_ok large op af).
Proof. destruct op; apply _. Defined.

#[global] Instance read_cut_ok_dec op af : Decision (read_cut_ok op af).
Proof. destruct op; apply _. Defined.

#[global] Instance shm_room_dec s n : Decision (Shm.shm_room s n).
Proof. unfold Shm.shm_room. apply _. Defined.

(** The envelope, decided along the run. *)
Definition step_okb (s : sys_step) (ch : poly_cache Shm.shm) (a : asys) : bool :=
  match s with
  | SOp fd op =>
      match as_file fd a with
      | Some (_, f) =>
          bool_decide (op_ok false op f) && bool_decide (read_cut_ok op f) &&
          bool_decide (Shm.shm_room (ch_alloc ch)
            (range_nodes (fst (op_range op f)) (snd (op_range op f))))
      | None => false
      end
  | SFlush => true
  end.

Fixpoint steps_okb (ss : list sys_step) (w : world MemFS.memfs) (ch : poly_cache Shm.shm)
    (a : asys) : bool :=
  match ss with
  | [] => true
  | s :: ss =>
      step_okb s ch a &&
      match run_step example_cfg 2 s w ch, spec_step s a with
      | Some (_, _, w, ch), Some (_, _, a) => steps_okb ss w ch a
      | _, _ => false
      end
  end.

Lemma steps_okb_ok ss : forall w ch a,
  steps_okb ss w ch a = true -> steps_ok example_cfg 2 ss w ch a.
Proof.
  induction ss as [|s ss IH]; intros w ch a H; [done|]. cbn in H |- *.
  apply andb_true_iff in H as [Hs Hss]. split.
  - destruct s as [fd op|]; [|done]. cbn in *. destruct (as_file fd a) as [[ino f]|]; [|done].
    rewrite !andb_true_iff, !bool_decide_eq_true in Hs. exists ino, f. naive_solver.
  - intros ret d w' ch' a' E1 E2. rewrite E1, E2 in Hss. by apply IH.
Qed.

Definition example_steps : list sys_step :=
  [SOp fdA (OWrite [x41; x42; x43]); SOp fdB (OWrite [x58; x59]); SFlush;
   SOp fdA2 (OPwrite [x44; x45; x46] 1); SOp fdA (OPread 4 0); SFlush;
   SOp fdA2 (ORead 9); SOp fdB (OLseek 1 0); SOp fdB (ORead 5)].

Lemma cache_system_refines_witness :
  exists w' ch' s',
    run_steps example_cfg 2 example_steps example_sys_world example_sys_cache =
      Some ([(3, []); (2, []); (0, []); (3, []); (4, [x41; x44; x45; x46]); (0, []);
             (4, [x41; x44; x45; x46]); (1, []); (1, [x59])], w', ch') /\
    poly_cache_exit "/fast" "/slow" (w_lib w') (flush_view w' ch') = Some s' /\
    durable example_phys 0 [x41; x44; x45; x46] s' /\ durable example_phys 1 [x58; x59] s'.
Proof.
  destruct (cache_system_refines example_cfg 2 example_phys example_steps example_sys_world
    example_sys_cache example_asys) as (outs & a' & w' & ch' & s' & E1 & E2 & _ & E3 & H).
  - apply example_sys_ok.
  - apply steps_okb_ok. vm_compute. reflexivity.
  - vm_compute in E1. injection E1 as <- <-. exists w', ch', s'.
    split_and!; [exact E2|exact E3|apply H; reflexivity..].
Defined.

End CacheSystem.
