(* ===== verification/Start.v ===== *)
(** * Start-up and exit
      ([polylib/src/polystore.c], [polylib/src/cache.c], [polylib/src/polyos/polyos.c])

    Loading and unloading of the kernel module, and the constructor and destructor
    of the library: memory regions, the connection to the module, the task context
    of the main thread and the Poly cache.  The outcomes of the services they call
    are the fields of [modenv], [ienv] and [xenv]. *)

From Stdlib Require Import Ascii.
From S2P Require Import Prelude Defs Util Posix IntervalTree Indexing PolyOS Context.
From S2P Require Import CacheMm Cache IoBufferedRefine CacheExit OpeData ThPool.
Import PolyOS Context Cache IoBufferedRefine CacheExit OpeData ThPool.

#[local] Open Scope Z_scope.

Module Start.

(** ** The kernel module *)

Definition MAX_MOUNT_POINT_LEN : nat := 64.

(** [struct g_config_var]: the mount points as stored in their 64 bytes; the other
    fields stay zero and are not read. *)
Record g_config_var := GConfigVar {
  c_max_inode_nr : Z;
  c_max_it_node_nr : Z;
  c_fast_dir : string;
  c_slow_dir : string
}.

(** The string found at [fast_dir]: without a terminating zero it runs on into
    [slow_dir], which the zeroed rest of the page terminates. *)
Definition config_fast_dir (c : g_config_var) : string :=
  if (String.length (c_fast_dir c) <? MAX_MOUNT_POINT_LEN)%nat then c_fast_dir c
  else String.append (c_fast_dir c) (c_slow_dir c).

Record kmod := KMod {
  m_chrdev : bool;                    (* major number allocated *)
  m_class : bool;                     (* sysfs class *)
  m_cdev : bool;                      (* character device added *)
  m_device : bool;                    (* device node *)
  m_config : option g_config_var;     (* vmalloc'ed *)
  m_control : bool
}.

#[export] Instance kmod_copy : Copy kmod := fun m =>
  KMod (m_chrdev m) (m_class m) (m_cdev m) (m_device m) (m_config m) (m_control m).

Definition unloaded : kmod := KMod false false false false None false.

(** Module parameters and the outcome of kernel services. *)
Record modenv := ModEnv {
  param_fast_dir : option string;
  param_slow_dir : option string;
  param_max_inode_nr : Z;
  param_max_it_node_nr : Z;
  alloc_chrdev_ok : bool;
  class_create_ok : bool;
  cdev_add_ok : bool;
  device_create_ok : bool;
  vmalloc_config_ok : bool;
  vmalloc_control_ok : bool
}.

Definition err1 (m : kmod) : kmod := m <| m_chrdev := false |>.
Definition err2 (m : kmod) : kmod := err1 (m <| m_class := false |>).
Definition err3 (m : kmod) : kmod := err2 (m <| m_device := false |>).

(** [my_init]: every path returns 0. *)
Definition my_init (env : modenv) (m : kmod) : Z * kmod :=
  match param_fast_dir env, param_slow_dir env with
  | Some fast, Some slow =>
      if negb (alloc_chrdev_ok env) then (0, m)
      else
        let m := m <| m_chrdev := true |> in
        if negb (class_create_ok env) then (0, err1 m)
        else
          let m := m <| m_class := true |> in
          if negb (cdev_add_ok env) then (0, err2 m)
          else
            let m := m <| m_cdev := true |> in
            if negb (device_create_ok env) then (0, err2 m)
            else
              let m := m <| m_device := true |> in
              if negb (vmalloc_config_ok env) then (0, err3 m)
              else
                let m := m <| m_config := Some (GConfigVar
                       (u32 (param_max_inode_nr env)) (u32 (param_max_it_node_nr env))
                       (String.substring 0 MAX_MOUNT_POINT_LEN fast)
                       (String.substring 0 MAX_MOUNT_POINT_LEN slow)) |> in
                if negb (vmalloc_control_ok env) then (0, err3 m)
                else (0, m <| m_control := true |>)
  | _, _ => (0, m)
  end.

Definition my_exit (m : kmod) (k : polyos) : kmod * polyos :=
  let m := m <| m_device := false |> <| m_class := false |> <| m_chrdev := false |> in
  (m <| m_config := None |> <| m_control := false |>, clean_up_poly_inode_index k).

(** ** The library *)

Inductive handler := StaticStatonly | Dynamic.

(** Globals and resources of the process. *)
Record proc := Proc {
  pr_regions : gset (Z * Z);           (* regions mapped by the library: base, size *)
  pr_ptes : ptes;                      (* shared pages in the client *)
  pr_devs : gset Z;                    (* open descriptors of /dev/polyos *)
  pr_dev : Z;                          (* int polyos_dev *)
  pr_config : Z;                       (* g_config_var *)
  pr_control : Z;                      (* g_control_var *)
  pr_dirs : option (string * string);  (* FAST_DIR, SLOW_DIR *)
  pr_policy : Z;                       (* poly_cache_policy *)
  pr_begin : Z;                        (* unsigned long poly_cache_flushing_begin *)
  pr_pool : option (pool Z);           (* poly_cache_thpool *)
  pr_handler : option handler;         (* action for SIGPROF *)
  pr_timer : option Z                  (* period of the timer in microseconds *)
}.

#[export] Instance proc_copy : Copy proc := fun p =>
  Proc (pr_regions p) (pr_ptes p) (pr_devs p) (pr_dev p) (pr_config p) (pr_control p)
    (pr_dirs p) (pr_policy p) (pr_begin p) (pr_pool p) (pr_handler p) (pr_timer p).

(** Outcome of the services called by the constructor; [None] for [MAP_FAILED]. *)
Record ienv := IEnv {
  getenv : string -> option string;
  mmap_config : option Z;
  mmap_control : option Z;
  mmap_taskctx : option Z;
  mmap_inode : option Z;
  mmap_index : option Z;
  open_dev : Z;
  i_vma : vma_lookup;                  (* [find_vma] where the region is not mapped *)
  i_remap : Z -> bool;
  i_client : kenv;
  i_reg : kenv;
  i_del : kenv;
  malloc_queue_ok : bool;
  sigaction_ok : bool;
  setitimer_ok : bool
}.

Definition map_region (base size : Z) (p : proc) : proc :=
  p <| pr_regions := {[(base, size)]} ∪ pr_regions p |>.

(** [munmap]: the regions in the range and the pages in it are gone. *)
Definition munmap (base size : Z) (p : proc) : proc :=
  p <| pr_regions := filter (fun r => ~ (base <= fst r /\ fst r + snd r <= base + size))
                       (pr_regions p) |>
    <| pr_ptes := filter (fun e => ~ (base <= fst e < base + size)) (pr_ptes p) |>.

(** The strings [FAST_DIR] and [SLOW_DIR] point to: anonymous memory is zero. *)
Definition mount_points (cfg : g_config_var) (p : proc) : string * string :=
  if pr_config p =? POLYSTORE_CONFIG_VAR_VADDR
  then (config_fast_dir cfg, c_slow_dir cfg) else (EmptyString, EmptyString).

(** What [find_vma] and the test of its bounds say about a region. *)
Definition vma_at (base size : Z) (other : vma_lookup) (p : proc) : vma_lookup :=
  if decide ((base, size) ∈ pr_regions p) then VmaExact else other.

Definition close_dev (p : proc) : proc :=
  p <| pr_devs := pr_devs p ∖ {[pr_dev p]} |>.

Section model.
Context {Fs : Type} `{!PosixFS Fs, !PosixNS Fs}.
Context {A : Type} `{!CacheAlloc A, !CacheMmap Fs A}.
(** [POLYSTORE_POLYCACHE] (without [POLYSTORE_POLYCACHE_SHM]) and
    [POLYSTORE_DYNAMIC_PLACEMENT]. *)
Variables polycache dynamic : bool.
Implicit Types (p : proc) (w : world Fs) (ch : poly_cache A).

Definition env_or {T} (env : ienv) (name : string) (conv : string -> T) (old : T) : T :=
  match getenv env name with Some s => conv s | None => old end.

(** [poly_cache_initialize]; an empty threshold makes [capacity_stoul] read before
    its string.  [poly_cache_mm_init] is empty without [POLYSTORE_POLYCACHE_SHM]. *)
Definition poly_cache_initialize (env : ienv) p ch : option (proc * poly_cache A) :=
  begin ← env_or env "POLYCACHE_FLUSHING_BEGIN" Util.capacity_stoul (Some (pr_begin p));
  end_ ← env_or env "POLYCACHE_FLUSHING_END" Util.capacity_stoul (Some (ch_flushing_end ch));
  let p := p <| pr_begin := begin |>
             <| pr_policy := env_or env "POLYCACHE_POLICY" (fun s => u32 (Util.atoi s))
                               (pr_policy p) |>
             <| pr_pool := Some (thpool_init default_flushing_thread_nr) |> in
  if negb (malloc_queue_ok env) then None
  else
    Some (p, ch <| ch_flushing_end := end_ |>
                <| ch_queues := replicate (Z.to_nat default_flushing_thread_nr) [] |>).

(** Parameters from the environment. *)
Definition init_params (env : ienv) p w ch : proc * world Fs * poly_cache A :=
  let w := w <| w_lib := w_lib w <| l_split_point :=
             env_or env "POLYSTORE_SCHED_SPLIT_POINT" (fun s => u32 (Util.atoi s)) 1 |> |> in
  if polycache then
    (p <| pr_policy := env_or env "POLYSTORE_POLYCACHE_POLICY" (fun s => u32 (Util.atoi s))
                         (pr_policy p) |>
       <| pr_begin := env_or env "POLYSTORE_POLYCACHE_FLUSH_BEGIN" (fun s => u64 (Util.atol s))
                        (pr_begin p) |>, w,
     ch <| ch_flushing_end := env_or env "POLYSTORE_POLYCACHE_FLUSH_END"
                                (fun s => u64 (Util.atol s)) (ch_flushing_end ch) |>)
  else (p, w, ch).

(** The regions for inodes and indexes, the cache, handler and timer; the label
    [err1] on failure. *)
Definition init_regions (env : ienv) p w ch
    : option (bool * proc * world Fs * poly_cache A) :=
  let err1 p :=
    '(_, tls, l, k) ← polystore_task_ctx_delete (i_del env) (w_lib w) (w_os w) (w_tls w);
    Some (false, close_dev p,
          w <| w_lib := l |> <| w_os := k |> <| w_tls := tls |>, ch) in
  match mmap_inode env with
  | None => err1 p
  | Some a =>
      let p := map_region a POLY_INODE_VADDR_RANGE p in
      match mmap_index env with
      | None => err1 p
      | Some a =>
          let p := map_region a POLY_INDEX_VADDR_RANGE p in
          '(p, ch) ← (if polycache then poly_cache_initialize env p ch else Some (p, ch));
          let p := if sigaction_ok env
                   then p <| pr_handler := Some (if dynamic then Dynamic else StaticStatonly) |>
                   else p in
          let p := if setitimer_ok env then p <| pr_timer := Some 200000 |> else p in
          Some (false, p, w, ch)
      end
  end.

(** The connection to the module and the task context of the main thread. *)
Definition init_connect (cfg : g_config_var) (env : ienv) p w ch
    : option (bool * proc * world Fs * poly_cache A) :=
  let p := p <| pr_dev := open_dev env |> in
  if open_dev env =? -1 then Some (false, p, w, ch)
  else
    let p := p <| pr_devs := {[open_dev env]} ∪ pr_devs p |> in
    '(ret, pt) ← polyos_client_init (i_client env)
                   (vma_at POLYSTORE_CONFIG_VAR_VADDR POLYSTORE_CONFIG_VAR_SIZE
                      (i_vma env) p)
                   (vma_at POLYSTORE_CONTROL_VAR_VADDR POLYSTORE_CONTROL_VAR_SIZE
                      (i_vma env) p)
                   (i_remap env) POLYSTORE_CONFIG_VAR_VADDR POLYSTORE_CONTROL_VAR_VADDR
                   (pr_ptes p);
    let p := p <| pr_ptes := pt |> in
    if ioctl_ret ret <? 0 then Some (false, close_dev p, w, ch)
    else
      let p := p <| pr_dirs := Some (mount_points cfg p) |> in
      '(ret, tls, l, k) ← polystore_task_ctx_register (i_reg env) (w_lib w) (w_os w)
                            (w_tls w);
      let w := w <| w_lib := l |> <| w_os := k |> <| w_tls := tls |> in
      if ret <? 0 then Some (false, close_dev p, w, ch)
      else init_regions env p w ch.

(** [polystore_init]; the flag says that the process calls [exit(-1)]. *)
Definition polystore_init (cfg : g_config_var) (env : ienv) p w ch
    : option (bool * proc * world Fs * poly_cache A) :=
  let '(p, w, ch) := init_params env p w ch in
  match mmap_config env with
  | None => Some (true, p, w, ch)
  | Some a =>
      let p := map_region a POLYSTORE_CONFIG_VAR_SIZE p <| pr_config := a |> in
      match mmap_control env with
      | None => Some (true, p, w, ch)
      | Some a =>
          let p := map_region a POLYSTORE_CONTROL_VAR_SIZE p <| pr_control := a |> in
          match mmap_taskctx env with
          | None => Some (true, p, w, ch)
          | Some a =>
              init_connect cfg env (map_region a POLYSTORE_TASK_CTX_VADDR_RANGE p) w ch
          end
      end
  end.

(** Outcome of the services called by the destructor. *)
Record xenv := XEnv { x_vma : vma_lookup; x_client : kenv; x_del : kenv }.

(** [poly_cache_exit] once the flushing threads are idle; without a thread pool
    [thpool_wait] dereferences a null pointer. *)
Definition cache_exit p w ch : option (world Fs * poly_cache A) :=
  _ ← pr_pool p;
  '(fast, slow) ← pr_dirs p;
  s ← poly_cache_exit fast slow (w_lib w) (FlushState (w_fs w) (k_inodes (w_os w)) ch);
  Some (w <| w_fs := fl_fs s |> <| w_os := w_os w <| k_inodes := fl_inodes s |> |>,
        fl_cache s).

(** Disconnecting; [ioctl] fails on a closed descriptor. *)
Definition client_exit (env : xenv) p : option proc :=
  if decide (pr_dev p ∈ pr_devs p) then
    '(_, pt) ← polyos_client_exit (x_client env)
                 (vma_at POLYSTORE_CONFIG_VAR_VADDR POLYSTORE_CONFIG_VAR_SIZE (x_vma env) p)
                 (vma_at POLYSTORE_CONTROL_VAR_VADDR POLYSTORE_CONTROL_VAR_SIZE
                    (x_vma env) p)
                 POLYSTORE_CONFIG_VAR_VADDR POLYSTORE_CONTROL_VAR_VADDR (pr_ptes p);
    Some (p <| pr_ptes := pt |>)
  else Some p.

Definition polystore_exit (env : xenv) p w ch
    : option (bool * proc * world Fs * poly_cache A) :=
  '(w, ch) ← (if polycache then cache_exit p w ch else Some (w, ch));
  '(ret, tls, l, k) ← polystore_task_ctx_delete (x_del env) (w_lib w) (w_os w) (w_tls w);
  let w := w <| w_lib := l |> <| w_os := k |> <| w_tls := tls |> in
  if ret <? 0 then Some (true, p, w, ch)
  else
    p ← client_exit env p;
    let p := close_dev p in
    let p := munmap POLY_INODE_VADDR_BASE POLY_INODE_VADDR_RANGE p in
    let p := munmap POLY_INDEX_VADDR_BASE POLY_INDEX_VADDR_RANGE p in
    let p := munmap POLYSTORE_TASK_CTX_VADDR_BASE POLYSTORE_TASK_CTX_VADDR_RANGE p in
    let p := munmap (pr_config p) POLYSTORE_CONFIG_VAR_SIZE p in
    Some (false, munmap (pr_control p) POLYSTORE_CONTROL_VAR_SIZE p, w, ch).

End model.
Arguments init_connect {Fs A}.
Arguments polystore_init {Fs A}.

(** ** Module load and unload *)

(** Every resource of the module, apart from the character device. *)
Definition kmod_registered (m : kmod) : bool :=
  m_chrdev m || m_class m || m_device m || m_control m.

(** [my_init] on the module before loading: the state is either complete, or
    nothing but the character device and the configuration can be left over. *)
Lemma my_init_cases env :
  exists m, my_init env unloaded = (0, m) /\
    ((m_chrdev m && m_class m && m_cdev m && m_device m && m_control m = true /\
      is_Some (m_config m)) \/ kmod_registered m = false).
Proof.
  unfold my_init, unloaded, kmod_registered.
  destruct (param_fast_dir env), (param_slow_dir env); try (eexists; split; [done|]; by right).
  repeat match goal with |- context [negb (?f env)] =>
    destruct (f env); cbn [negb]; [|eexists; split; [done|]; by right] end.
  eexists. split; [done|]. left. split; [done|]. by eexists.
Qed.

(** Loading reports success even when the device was not registered. *)
Lemma my_init_hides_failure env :
  alloc_chrdev_ok env = false -> my_init env unloaded = (0, unloaded).
Proof.
  intros E. unfold my_init. rewrite E.
  by destruct (param_fast_dir env), (param_slow_dir env).
Qed.

(** Unloading gives everything back but the character device. *)
Lemma my_exit_leaves_cdev m k :
  my_exit m k = (unloaded <| m_cdev := m_cdev m |>, clean_up_poly_inode_index k).
Proof. by destruct m. Qed.

(** A mount point of 64 characters and more is read together with the other. *)
Lemma long_mount_point_merges c :
  (MAX_MOUNT_POINT_LEN <= String.length (c_fast_dir c))%nat ->
  config_fast_dir c = String.append (c_fast_dir c) (c_slow_dir c).
Proof. intros H. unfold config_fast_dir. by rewrite (proj2 (Nat.ltb_ge _ _) H). Qed.

(** ** Initialisation and exit of the library *)

Definition lib_regions : list (Z * Z) :=
  [(POLYSTORE_CONFIG_VAR_VADDR, POLYSTORE_CONFIG_VAR_SIZE);
   (POLYSTORE_CONTROL_VAR_VADDR, POLYSTORE_CONTROL_VAR_SIZE);
   (POLYSTORE_TASK_CTX_VADDR_BASE, POLYSTORE_TASK_CTX_VADDR_RANGE);
   (POLY_INODE_VADDR_BASE, POLY_INODE_VADDR_RANGE);
   (POLY_INDEX_VADDR_BASE, POLY_INDEX_VADDR_RANGE)].

(** No region or page of the process lies in a range of the library. *)
Definition ranges_free (p : proc) : Prop :=
  forall b n, (b, n) ∈ lib_regions ->
    (forall r, r ∈ pr_regions p -> ~ (b <= fst r /\ fst r + snd r <= b + n)) /\
    (forall a, b <= a < b + n -> pr_ptes p !! a = None).

(** The services succeed and [mmap] honours its hints. *)
Record services_ok (env : ienv) (p : proc) : Prop := {
  so_config : mmap_config env = Some POLYSTORE_CONFIG_VAR_VADDR;
  so_control : mmap_control env = Some POLYSTORE_CONTROL_VAR_VADDR;
  so_taskctx : mmap_taskctx env = Some POLYSTORE_TASK_CTX_VADDR_BASE;
  so_inode : mmap_inode env = Some POLY_INODE_VADDR_BASE;
  so_index : mmap_index env = Some POLY_INDEX_VADDR_BASE;
  so_dev : 0 <= open_dev env;
  so_fresh : open_dev env ∉ pr_devs p;
  so_remap : forall a, i_remap env a = true;
  so_client : copy_from_ok (i_client env) = true;
  so_reg : i_reg env = all_ok;
  so_queue : malloc_queue_ok env = true;
  so_sigaction : sigaction_ok env = true;
  so_setitimer : setitimer_ok env = true;
  so_begin : getenv env "POLYCACHE_FLUSHING_BEGIN" <> Some EmptyString;
  so_end : getenv env "POLYCACHE_FLUSHING_END" <> Some EmptyString
}.

(** The next task id is free and the counters do not wrap. *)
Record task_free (l : lib) (k : polyos) : Prop := {
  tf_id : 0 <= k_next_task k <= POLYSTORE_MAX_TASK_NR;
  tf_tasks : k_tasks k !! k_next_task k = None;
  tf_mapped : k_next_task k ∉ k_mapped_tasks k;
  tf_list : Some (k_next_task k) ∉ l_task_list l;
  tf_cnt : 0 <= l_active_cnt l < 2 ^ 31 - 1;
  tf_usage : 0 <= l_fastdev_usage l < 2 ^ 32 - 1
}.

Lemma task_list_del_fresh id l :
  Some id ∉ l -> task_list_del id (l ++ [Some id]) = l.
Proof.
  induction l as [|e l IH]; intros H; unfold task_list_del in *; cbn [app].
  - by rewrite filter_cons_False by naive_solver.
  - apply not_elem_of_cons in H as [He Hl]. by rewrite filter_cons_True, IH by done.
Qed.

Definition new_task (id placement : Z) : g_task_ctx :=
  Task (u32 id) 0 0 0 0 0 0 0 <| t_placement := placement |>.

(** The module's state with task [id] registered. *)
Definition with_task (id : Z) (t : g_task_ctx) (k : polyos) : polyos :=
  k <| k_next_task := id + 1 |> <| k_tasks := <[id := t]> (k_tasks k) |>
    <| k_mapped_tasks := {[id]} ∪ k_mapped_tasks k |>
    <| k_ttable := (id, id) :: k_ttable k |>.

Lemma task_reg_ok k :
  0 <= k_next_task k <= POLYSTORE_MAX_TASK_NR ->
  let id := k_next_task k in
  exists addr, addr <> 0 /\ polyos_task_ctx_reg all_ok k =
    (0, Some (id, addr), with_task id (new_task id 0) k).
Proof.
  intros Hid id. subst id. set (id := k_next_task k) in *.
  unfold POLYSTORE_MAX_TASK_NR in Hid.
  assert (0x3000000000 <= GET_TASK_CONTEXT_VADDR id < 0x3000000000 + 0x1000000) as Ha.
  { unfold GET_TASK_CONTEXT_VADDR, POLYSTORE_TASK_CTX_VADDR_BASE, PAGE_SHIFT.
    rewrite (u64_id id), Z.shiftl_mul_pow2, u64_id by lia. lia. }
  exists (GET_TASK_CONTEXT_VADDR id). split; [lia|].
  unfold polyos_task_ctx_reg, task_ctx_alloc, POLYSTORE_MAX_TASK_NR.
  fold id. rewrite (s32_id id), (u32_id (id + 1)) by lia.
  rewrite (proj2 (Z.ltb_ge 1024 id)) by lia.
  unfold task_ctx_hashtable_insert. cbn. unfold with_task, new_task. cbn.
  by rewrite (u32_id id) by lia.
Qed.

Lemma task_delete_ok id t k :
  0 <= id < 2 ^ 32 -> k_tasks k !! id = None -> id ∉ k_mapped_tasks k ->
  polyos_task_ctx_delete all_ok id (with_task id t k) =
    Some (0, k <| k_next_task := id + 1 |>).
Proof.
  intros Hid Ht Hm. unfold polyos_task_ctx_delete, task_ctx_hashtable_search, with_task.
  cbn. rewrite (u32_id id), Z.eqb_refl by lia. unfold task_ctx_free,
    task_ctx_hashtable_delete. cbn.
  rewrite lookup_insert_eq. cbn. rewrite (u32_id id), Z.eqb_refl by lia.
  rewrite delete_insert_id by done.
  replace (({[id]} ∪ k_mapped_tasks k) ∖ {[id]}) with (k_mapped_tasks k) by set_solver.
  by destruct k.
Qed.

Lemma with_task_update id t t' k :
  with_task id t k <| k_tasks := <[id := t']> (k_tasks (with_task id t k)) |> =
    with_task id t' k.
Proof. unfold with_task. cbn. by rewrite insert_insert_eq. Qed.

Lemma with_task_lookup id t k : task_at (with_task id t k) id = Some t.
Proof. apply task_at_Some. split; [cbn; set_solver|apply lookup_insert_eq]. Qed.

(** Registering a task and deleting it again only uses up its id. *)
Lemma register_delete l k tls :
  task_free l k ->
  let id := k_next_task k in
  let placement := if l_active_cnt l <? l_split_point l
                   then BLK_PLACEMENT_FAST else BLK_PLACEMENT_SLOW in
  exists l1,
    polystore_task_ctx_register all_ok l k tls =
      Some (0, Some id, l1, with_task id (new_task id placement) k) /\
    l_hashmap l1 = l_hashmap l /\
    polystore_task_ctx_delete all_ok l1 (with_task id (new_task id placement) k)
      (Some id) = Some (0, None, l, k <| k_next_task := id + 1 |>).
Proof.
  intros [Hid Ht Hm Hl Hc Hu] id placement. subst id.
  destruct (task_reg_ok k Hid) as (addr & Ha & E).
  set (id := k_next_task k) in *. unfold POLYSTORE_MAX_TASK_NR in Hid.
  unfold polystore_task_ctx_register. rewrite E. cbn [ioctl_ret Z.ltb Z.compare].
  rewrite (proj2 (Z.eqb_neq addr 0)) by done.
  rewrite with_task_lookup. cbn [mbind option_bind].
  rewrite (u32_id (l_active_cnt l)) by lia.
  cbn [l_split_point update]. unfold polystore_task_ctx_delete, placement.
  destruct (l_active_cnt l <? l_split_point l); eexists;
    rewrite with_task_update, with_task_lookup, task_delete_ok by (done || lia);
    (split; [done|]); (split; [done|]); cbn -[task_list_del];
    rewrite task_list_del_fresh, (s32_id (l_active_cnt l + 1)) by (done || lia);
    rewrite ?(u32_id (l_fastdev_usage l + 1)), !Z.add_simpl_r by lia;
    rewrite ?(u32_id (l_fastdev_usage l)), s32_id by lia; by destruct l.
Qed.

(** ** The process between initialisation and exit *)

Section connect.
Context {Fs : Type} `{!PosixFS Fs, !PosixNS Fs}.
Context {A : Type} `{!CacheAlloc A, !CacheMmap Fs A}.
Variables polycache dynamic : bool.
Implicit Types (p : proc) (w : world Fs) (ch : poly_cache A).

Definition split_point (env : ienv) : Z :=
  env_or env "POLYSTORE_SCHED_SPLIT_POINT" (fun s => u32 (Util.atoi s)) 1.

Definition main_placement (env : ienv) w : Z :=
  if l_active_cnt (w_lib w) <? split_point env
  then BLK_PLACEMENT_FAST else BLK_PLACEMENT_SLOW.

(** What [polystore_init] sets up, relative to the state it starts in. *)
Record connected (cfg : g_config_var) (env : ienv) p w p1 (w1 : world Fs) : Prop := {
  cn_regions : pr_regions p1 = list_to_set lib_regions ∪ pr_regions p;
  cn_devs : pr_devs p1 = {[pr_dev p1]} ∪ pr_devs p;
  cn_fresh : pr_dev p1 ∉ pr_devs p;
  cn_config_ptr : pr_config p1 = POLYSTORE_CONFIG_VAR_VADDR;
  cn_control_ptr : pr_control p1 = POLYSTORE_CONTROL_VAR_VADDR;
  cn_config : forall a, region_page POLYSTORE_CONFIG_VAR_VADDR POLYSTORE_CONFIG_VAR_SIZE 0 a ->
    pr_ptes p1 !! a = Some (ConfigPage (a - POLYSTORE_CONFIG_VAR_VADDR));
  cn_control : forall a,
    region_page POLYSTORE_CONTROL_VAR_VADDR POLYSTORE_CONTROL_VAR_SIZE 0 a ->
    pr_ptes p1 !! a = Some (ControlPage (a - POLYSTORE_CONTROL_VAR_VADDR));
  cn_unmap : forall kenv, copy_from_ok kenv = true ->
    polyos_client_exit kenv VmaExact VmaExact POLYSTORE_CONFIG_VAR_VADDR
      POLYSTORE_CONTROL_VAR_VADDR (pr_ptes p1) = Some (0, pr_ptes p);
  cn_dirs : pr_dirs p1 = Some (config_fast_dir cfg, c_slow_dir cfg);
  cn_handler : pr_handler p1 = Some (if dynamic then Dynamic else StaticStatonly);
  cn_timer : pr_timer p1 = Some 200000;
  cn_pool : polycache = true -> pr_pool p1 = Some (thpool_init default_flushing_thread_nr);
  cn_fs : w_fs w1 = w_fs w;
  cn_tls : w_tls w1 = Some (k_next_task (w_os w));
  cn_os : w_os w1 = with_task (k_next_task (w_os w))
    (new_task (k_next_task (w_os w)) (main_placement env w)) (w_os w);
  cn_hashmap : l_hashmap (w_lib w1) = l_hashmap (w_lib w);
  cn_delete : polystore_task_ctx_delete all_ok (w_lib w1) (w_os w1) (w_tls w1) =
    Some (0, None, w_lib w <| l_split_point := split_point env |>,
          w_os w <| k_next_task := k_next_task (w_os w) + 1 |>)
}.

Lemma capacity_stoul_total s : s <> EmptyString -> is_Some (Util.capacity_stoul s).
Proof.
  intros Hs. unfold Util.capacity_stoul.
  assert (is_Some (Util.split_last s)) as [[r c] ->]; [|by eexists].
  destruct s as [|c s]; [done|]. clear Hs. revert c.
  induction s as [|d s IH]; intros c; [by eexists|].
  destruct (IH d) as [[r e] E]. cbn [Util.split_last] in *. rewrite E. by eexists.
Qed.

(** The cache leaves the fields of the connection alone. *)
Lemma cache_initialize_ok env p0 p ch :
  services_ok env p0 ->
  exists begin policy ch', poly_cache_initialize env p ch =
    Some (p <| pr_begin := begin |> <| pr_policy := policy |>
            <| pr_pool := Some (thpool_init default_flushing_thread_nr) |>, ch').
Proof.
  intros H. unfold poly_cache_initialize.
  assert (forall name old, getenv env name <> Some EmptyString ->
    is_Some (env_or env name Util.capacity_stoul (Some old))) as Hn.
  { intros name old Hne. unfold env_or. destruct (getenv env name) as [s|]; [|by eexists].
    apply capacity_stoul_total. by intros ->. }
  destruct (Hn _ (pr_begin p) (so_begin _ _ H)) as [b ->].
  destruct (Hn _ (ch_flushing_end ch) (so_end _ _ H)) as [e ->].
  cbn [mbind option_bind]. rewrite (so_queue _ _ H). do 3 eexists. reflexivity.
Qed.

Lemma init_params_eq env p w ch :
  exists begin policy ch', init_params polycache env p w ch =
    (p <| pr_policy := policy |> <| pr_begin := begin |>,
     w <| w_lib := w_lib w <| l_split_point := split_point env |> |>, ch').
Proof.
  unfold init_params. destruct polycache; [do 3 eexists; reflexivity|].
  exists (pr_begin p), (pr_policy p), ch. by destruct p.
Qed.

Lemma vma_at_exact b n other p : (b, n) ∈ pr_regions p -> vma_at b n other p = VmaExact.
Proof. intros H. unfold vma_at. by rewrite decide_True. Qed.

(** The last part of the initialisation. *)
Lemma init_regions_ok env p0 p w ch :
  services_ok env p0 ->
  exists p1 ch1, init_regions polycache dynamic env p w ch = Some (false, p1, w, ch1) /\
    pr_regions p1 = {[(POLY_INDEX_VADDR_BASE, POLY_INDEX_VADDR_RANGE)]} ∪
      ({[(POLY_INODE_VADDR_BASE, POLY_INODE_VADDR_RANGE)]} ∪ pr_regions p) /\
    pr_ptes p1 = pr_ptes p /\ pr_devs p1 = pr_devs p /\ pr_dev p1 = pr_dev p /\
    pr_config p1 = pr_config p /\ pr_control p1 = pr_control p /\ pr_dirs p1 = pr_dirs p /\
    pr_handler p1 = Some (if dynamic then Dynamic else StaticStatonly) /\
    pr_timer p1 = Some 200000 /\
    (polycache = true -> pr_pool p1 = Some (thpool_init default_flushing_thread_nr)).
Proof.
  intros H. unfold init_regions. rewrite (so_inode _ _ H), (so_index _ _ H).
  rewrite (so_sigaction _ _ H), (so_setitimer _ _ H). destruct polycache.
  - destruct (cache_initialize_ok env p0 (map_region POLY_INDEX_VADDR_BASE
      POLY_INDEX_VADDR_RANGE (map_region POLY_INODE_VADDR_BASE POLY_INODE_VADDR_RANGE p))
      ch H) as (b & pol & ch' & ->). cbn [mbind option_bind].
    do 2 eexists. split; [reflexivity|]. by split_and!.
  - cbn [mbind option_bind]. do 2 eexists. split; [reflexivity|]. by split_and!.
Qed.

(** The pages of the two variables do not overlap. *)
Lemma shared_pages_disjoint a :
  ~ (region_page POLYSTORE_CONFIG_VAR_VADDR POLYSTORE_CONFIG_VAR_SIZE 0 a /\
     region_page POLYSTORE_CONTROL_VAR_VADDR POLYSTORE_CONTROL_VAR_SIZE 0 a).
Proof.
  intros [[H1 _] [H2 _]]. unfold POLYSTORE_CONFIG_VAR_VADDR, POLYSTORE_CONTROL_VAR_VADDR,
    POLYSTORE_CONFIG_VAR_SIZE, POLYSTORE_CONTROL_VAR_SIZE in *. lia.
Qed.

Lemma ranges_free_page p b n a :
  ranges_free p -> (b, n) ∈ lib_regions -> region_page b n 0 a -> pr_ptes p !! a = None.
Proof. intros Hf Hin [Ha _]. apply (Hf b n Hin). lia. Qed.

Lemma init_connected cfg env p w ch :
  services_ok env p -> ranges_free p -> task_free (w_lib w) (w_os w) ->
  exists p1 w1 ch1, polystore_init polycache dynamic cfg env p w ch =
    Some (false, p1, w1, ch1) /\ connected cfg env p w p1 w1.
Proof.
  intros H Hfree Ht. unfold polystore_init.
  destruct (init_params_eq env p w ch) as (begin & policy & ch' & ->).
  rewrite (so_config _ _ H), (so_control _ _ H), (so_taskctx _ _ H).
  unfold init_connect. rewrite (proj2 (Z.eqb_neq (open_dev env) (-1)))
    by (pose proof (so_dev _ _ H); lia).
  rewrite !vma_at_exact by set_solver.
  destruct (client_exit_undoes_init (i_client env) (i_remap env)
    POLYSTORE_CONFIG_VAR_VADDR POLYSTORE_CONTROL_VAR_VADDR (pr_ptes p))
    as (pt & Ept & Hc & Hd & Hx); [apply H|apply H|..|apply shared_pages_disjoint|].
  1,2: intros a; apply (ranges_free_page p); [done|set_solver].
  cbn [pr_ptes update map_region]. rewrite Ept. cbn [mbind option_bind].
  cbn [ioctl_ret Z.ltb Z.compare]. rewrite (so_reg _ _ H).
  destruct (register_delete (w_lib w <| l_split_point := split_point env |>) (w_os w)
    (w_tls w)) as (l1 & Er & Hm & Hdel); [by destruct Ht; split|].
  cbn [w_lib w_os w_tls update]. rewrite Er. cbn [mbind option_bind Z.ltb Z.compare].
  edestruct init_regions_ok as (p1 & ch1 & -> & Hr & Hp & Hds & Hdv & Hcp & Hct & Hdr &
    Hh & Htm & Hpl); [exact H|].
  cbn in Hr, Hp, Hds, Hdv, Hcp, Hct, Hdr.
  do 3 eexists. split; [reflexivity|]. split; rewrite ?Hdv, ?Hp; try done.
  - rewrite Hr. unfold lib_regions. clear. set_solver.
  - apply (so_fresh _ _ H).
Qed.

Lemma munmap_ptes b n (pt : ptes) :
  (forall a, b <= a < b + n -> pt !! a = None) ->
  filter (fun e => ~ (b <= fst e < b + n)) pt = pt.
Proof.
  intros H. apply map_filter_id. intros a x Ha Hin. cbn in Hin. by rewrite H in Ha.
Qed.

(** Unmapping ranges of the library one by one. *)
Lemma munmap_all p (rs : list (Z * Z)) : forall p1,
  ranges_free p -> (forall r, r ∈ rs -> r ∈ lib_regions) -> pr_ptes p1 = pr_ptes p ->
  let p2 := foldl (fun p r => munmap (fst r) (snd r) p) p1 rs in
  pr_ptes p2 = pr_ptes p /\ pr_devs p2 = pr_devs p1 /\
  forall r, r ∈ pr_regions p2 <-> r ∈ pr_regions p1 /\
    forall b n, (b, n) ∈ rs -> ~ (b <= fst r /\ fst r + snd r <= b + n).
Proof.
  induction rs as [|[b n] rs IH]; intros p1 Hf Hin Hp.
  - split_and!; [done..|]. intros r. split; [|tauto]. intros Hr. split; [done|].
    intros b n []%not_elem_of_nil.
  - destruct (IH (munmap b n p1) Hf) as (Hpt & Hd & Hr); [set_solver| |].
    { cbn. rewrite Hp. apply munmap_ptes. apply (Hf b n). apply Hin. left. }
    cbn zeta. cbn [foldl fst snd]. split_and!; [done..|]. intros r. rewrite Hr.
    cbn. rewrite elem_of_filter. setoid_rewrite elem_of_cons. naive_solver.
Qed.

(** The order in which [polystore_exit] unmaps. *)
Lemma munmap_lib_regions p p1 :
  ranges_free p -> pr_ptes p1 = pr_ptes p ->
  pr_regions p1 = list_to_set lib_regions ∪ pr_regions p ->
  let p2 := foldl (fun p r => munmap (fst r) (snd r) p) p1
    [(POLY_INODE_VADDR_BASE, POLY_INODE_VADDR_RANGE);
     (POLY_INDEX_VADDR_BASE, POLY_INDEX_VADDR_RANGE);
     (POLYSTORE_TASK_CTX_VADDR_BASE, POLYSTORE_TASK_CTX_VADDR_RANGE);
     (POLYSTORE_CONFIG_VAR_VADDR, POLYSTORE_CONFIG_VAR_SIZE);
     (POLYSTORE_CONTROL_VAR_VADDR, POLYSTORE_CONTROL_VAR_SIZE)] in
  pr_ptes p2 = pr_ptes p /\ pr_devs p2 = pr_devs p1 /\ pr_regions p2 = pr_regions p.
Proof.
  intros Hf Hp Hr. set (rs := [_; _; _; _; _]).
  assert (forall r, r ∈ rs <-> r ∈ lib_regions) as Hrs
    by (intros r; unfold rs, lib_regions; set_solver).
  destruct (munmap_all p rs p1 Hf) as (H1 & H2 & H3); [by intros r ?%Hrs|done|].
  cbn zeta in *. split_and!; [done..|]. apply set_eq. intros r.
  rewrite H3, Hr, elem_of_union, elem_of_list_to_set. split.
  - intros [[Hin|?] Hno]; [|done]. destruct r as [b n].
    destruct (Hno b n); [by apply Hrs|cbn; lia].
  - intros Hin. split; [by right|]. intros b n Hbn%Hrs. by apply (Hf b n).
Qed.

Lemma cache_exit_empty p w ch pl dirs :
  pr_pool p = Some pl -> pr_dirs p = Some dirs -> l_hashmap (w_lib w) = [] ->
  cache_exit p w ch = Some (w, ch).
Proof.
  intros E1 E2 E3. unfold cache_exit. rewrite E1, E2. destruct dirs as [fast slow].
  cbn [mbind option_bind]. unfold poly_cache_exit, polystore_inode_hashmap_iterate.
  rewrite E3. cbn. by destruct w as [fs [] l tls].
Qed.

(** [polystore_exit] on a connected process without files in the cache. *)
Lemma exit_connected cfg env xe p w ch p1 w1 :
  connected cfg env p w p1 w1 -> ranges_free p -> l_hashmap (w_lib w) = [] ->
  copy_from_ok (x_client xe) = true -> x_del xe = all_ok ->
  exists p2, polystore_exit polycache xe p1 w1 ch =
    Some (false, p2,
          World (w_fs w) (w_os w <| k_next_task := k_next_task (w_os w) + 1 |>)
            (w_lib w <| l_split_point := split_point env |>) None, ch) /\
    pr_regions p2 = pr_regions p /\ pr_ptes p2 = pr_ptes p /\ pr_devs p2 = pr_devs p.
Proof.
  intros C Hf Hh Hx Hd. unfold polystore_exit.
  assert ((if polycache then cache_exit p1 w1 ch else Some (w1, ch)) = Some (w1, ch)) as ->.
  { destruct polycache eqn:E; [|done]. eapply cache_exit_empty;
      [by apply (cn_pool _ _ _ _ _ _ C)|apply (cn_dirs _ _ _ _ _ _ C)|].
    by rewrite (cn_hashmap _ _ _ _ _ _ C). }
  cbn [mbind option_bind]. rewrite Hd, (cn_delete _ _ _ _ _ _ C).
  cbn [mbind option_bind Z.ltb Z.compare]. unfold client_exit.
  rewrite decide_True by (rewrite (cn_devs _ _ _ _ _ _ C); set_solver).
  rewrite !vma_at_exact by (rewrite (cn_regions _ _ _ _ _ _ C); unfold lib_regions; set_solver).
  rewrite (cn_unmap _ _ _ _ _ _ C) by done. cbn [mbind option_bind].
  set (p2 := close_dev (p1 <| pr_ptes := pr_ptes p |>)).
  destruct (munmap_lib_regions p p2 Hf) as (H1 & H2 & H3);
    [done|apply (cn_regions _ _ _ _ _ _ C)|].
  rewrite <- (cn_fs _ _ _ _ _ _ C). eexists. split; [|split_and!; [exact H3|exact H1|]].
  - cbn [foldl fst snd].
    rewrite <- (cn_config_ptr _ _ _ _ _ _ C), <- (cn_control_ptr _ _ _ _ _ _ C).
    reflexivity.
  - rewrite H2. unfold p2. cbn.
    rewrite (cn_devs _ _ _ _ _ _ C). pose proof (cn_fresh _ _ _ _ _ _ C). set_solver.
Qed.

(** ** Failures *)

Lemma register_tls env l k tls ret tls' l' k' :
  polystore_task_ctx_register env l k tls = Some (ret, tls', l', k') ->
  if ret <? 0 then tls' = tls else is_Some tls'.
Proof.
  unfold polystore_task_ctx_register.
  destruct (polyos_task_ctx_reg env k) as [[r out] k1].
  destruct (ioctl_ret r <? 0) eqn:E; [by intros [= <- <- <- <-]|].
  destruct out as [[id a]|]; [|by intros [= <- <- <- <-]].
  destruct (a =? 0); [by intros [= <- <- <- <-]|].
  destruct (task_at k1 id); [|done]. cbn.
  destruct (_ <? l_split_point l); intros [= <- <- <- <-]; rewrite E; by eexists.
Qed.

Lemma delete_tls env l k tls ret tls' l' k' :
  polystore_task_ctx_delete env l k tls = Some (ret, tls', l', k') -> tls' = None.
Proof.
  unfold polystore_task_ctx_delete. destruct tls as [id|]; [|by intros [= _ <- _ _]].
  destruct (task_at k id); [|done]. cbn.
  destruct (polyos_task_ctx_delete env id k) as [[]|]; [|done]. by intros [= _ <- _ _].
Qed.

(** Either the process is connected, or its device is closed and it has no task. *)
Definition all_or_nothing p p1 (w1 : world Fs) : Prop :=
  (w_tls w1 = None /\ pr_devs p1 = pr_devs p) \/
  (is_Some (w_tls w1) /\ pr_dev p1 ∈ pr_devs p1 /\ is_Some (pr_dirs p1)).

Lemma init_regions_all_or_nothing env p p0 w ch stop p1 w1 ch1 :
  pr_devs p = {[pr_dev p]} ∪ pr_devs p0 -> pr_dev p ∉ pr_devs p0 ->
  is_Some (pr_dirs p) -> is_Some (w_tls w) ->
  init_regions polycache dynamic env p w ch = Some (stop, p1, w1, ch1) ->
  all_or_nothing p0 p1 w1.
Proof.
  intros Hd Hf Hs Ht. unfold init_regions.
  assert (forall p', pr_devs p' = pr_devs p -> pr_dev p' = pr_dev p ->
    ('(_, tls, l, k) ← polystore_task_ctx_delete (i_del env) (w_lib w) (w_os w) (w_tls w);
     Some (false, close_dev p', w <| w_lib := l |> <| w_os := k |> <| w_tls := tls |>, ch)) =
    Some (stop, p1, w1, ch1) -> all_or_nothing p0 p1 w1) as Herr.
  { intros p' E1 E2. destruct (polystore_task_ctx_delete _ _ _ _)
      as [[[[ret tls] l] k]|] eqn:E; [|done]. intros [= <- <- <- <-]. left.
    split; [by eapply delete_tls|]. cbn. rewrite E1, E2, Hd. clear -Hf. set_solver. }
  destruct (mmap_inode env); [|by apply Herr].
  destruct (mmap_index env); [|by apply Herr].
  intros H. right.
  destruct polycache; [unfold poly_cache_initialize in H|]; simplify_option_eq;
    repeat case_match; simplify_option_eq; (split; [done|]); (split; [|done]);
    cbn; rewrite Hd; clear; set_solver.
Qed.

Lemma init_all_or_nothing cfg env p w ch p1 w1 ch1 :
  w_tls w = None -> open_dev env ∉ pr_devs p ->
  polystore_init polycache dynamic cfg env p w ch = Some (false, p1, w1, ch1) ->
  all_or_nothing p p1 w1.
Proof.
  intros Ht Hf. unfold polystore_init.
  destruct (init_params_eq env p w ch) as (begin & policy & ch' & ->).
  destruct (mmap_config env), (mmap_control env), (mmap_taskctx env); try done.
  unfold init_connect.
  destruct (open_dev env =? -1); [intros [= <- <- <-]; by left|].
  destruct (polyos_client_init _ _ _ _ _ _ _) as [[ret pt]|]; [|done].
  cbn [mbind option_bind].
  destruct (ioctl_ret ret <? 0).
  { intros [= <- <- <-]. left. split; [done|]. cbn. clear -Hf. set_solver. }
  destruct (polystore_task_ctx_register _ _ _ _) as [[[[ret' tls] l] k]|] eqn:Er; [|done].
  apply register_tls in Er. cbn [mbind option_bind].
  destruct (ret' <? 0).
  { intros [= <- <- <-]. left. cbn in *. split; [congruence|]. clear -Hf. set_solver. }
  apply init_regions_all_or_nothing; [done|done|by eexists|done].
Qed.

(** After a failed initialisation the destructor of a build without the cache ends
    the process with [exit(-1)]. *)
Lemma exit_after_failed_init xe p w ch :
  w_tls w = None -> polystore_exit false xe p w ch = Some (true, p, w, ch).
Proof.
  intros Ht. unfold polystore_exit. cbn [mbind option_bind].
  unfold polystore_task_ctx_delete. rewrite Ht. cbn. destruct w; cbn in *. by subst.
Qed.

End connect.

(** ** Properties *)

(** C38: initialising the library on an unused process maps its five regions,
    connects it to the module so that all pages of the two shared variables are
    visible, finds the mount points, registers the main thread on the device the
    split point gives, and starts cache, handler and timer; the destructor then
    takes all of this back: regions, shared pages, device descriptor, the tables of
    the library and of the module are as before, apart from the task id used up. *)
Theorem polystore_exit_undoes_init `{!PosixFS Fs, !PosixNS Fs, !CacheAlloc A,
    !CacheMmap Fs A} (polycache dynamic : bool) (cfg : g_config_var) (env : ienv)
    (xe : xenv) (p : proc) (w : world Fs) (ch : poly_cache A) :
  services_ok env p -> copy_from_ok (x_client xe) = true -> x_del xe = all_ok ->
  ranges_free p -> task_free (w_lib w) (w_os w) -> l_hashmap (w_lib w) = [] ->
  exists p1 w1 ch1,
    polystore_init polycache dynamic cfg env p w ch = Some (false, p1, w1, ch1) /\
    connected polycache dynamic cfg env p w p1 w1 /\
    exists p2, polystore_exit polycache xe p1 w1 ch1 =
      Some (false, p2,
            World (w_fs w) (w_os w <| k_next_task := k_next_task (w_os w) + 1 |>)
              (w_lib w <| l_split_point := split_point env |>) None, ch1) /\
      pr_regions p2 = pr_regions p /\ pr_ptes p2 = pr_ptes p /\ pr_devs p2 = pr_devs p.
Proof.
  intros H Hx Hd Hf Ht Hh.
  destruct (init_connected polycache dynamic cfg env p w ch H Hf Ht) as (p1 & w1 & ch1 & E & C).
  exists p1, w1, ch1. split; [done|]. split; [done|]. by eapply exit_connected.
Qed.

(** ** Witnesses *)

Definition example_config : g_config_var := GConfigVar 32768 65536 "/mnt/fast" "/mnt/slow".

Definition example_ienv : ienv :=
  IEnv (fun s => if decide (s = "POLYCACHE_FLUSHING_END") then Some "2G" else None)
    (Some POLYSTORE_CONFIG_VAR_VADDR) (Some POLYSTORE_CONTROL_VAR_VADDR)
    (Some POLYSTORE_TASK_CTX_VADDR_BASE) (Some POLY_INODE_VADDR_BASE)
    (Some POLY_INDEX_VADDR_BASE) 3 VmaNone (fun _ => true) all_ok all_ok all_ok
    true true true.

Definition example_proc : proc := Proc ∅ ∅ ∅ 0 0 0 None 1 0 None None None.

Lemma example_services_ok : services_ok example_ienv example_proc.
Proof. by split. Qed.

Lemma polystore_exit_undoes_init_witness :
  exists p1 w1 (ch1 : poly_cache Shm.shm) p2 w2,
    polystore_init true false example_config example_ienv example_proc
      (World MemFS.m_empty init_os (init_lib 0) None)
      (PolyCache (fun _ => x00) (Shm.poly_cache_mm_init 3) [] [] 0 0 0) =
      Some (false, p1, w1, ch1) /\
    pr_dirs p1 = Some ("/mnt/fast", "/mnt/slow") /\ w_tls w1 = Some 0 /\
    polystore_exit true (XEnv VmaNone all_ok all_ok) p1 w1 ch1 =
      Some (false, p2, w2, ch1) /\ pr_regions p2 = ∅.
Proof.
  destruct (polystore_exit_undoes_init true false example_config example_ienv
    (XEnv VmaNone all_ok all_ok) example_proc
    (World MemFS.m_empty init_os (init_lib 0) None)
    (PolyCache (fun _ => x00) (Shm.poly_cache_mm_init 3) [] [] 0 0 0))
    as (p1 & w1 & ch1 & E & C & p2 & E2 & R & _).
  - apply example_services_ok.
  - done.
  - done.
  - intros b n _. split; [|done]. intros r []%not_elem_of_empty.
  - split; cbn; unfold POLYSTORE_MAX_TASK_NR; try done; try lia; set_solver.
  - done.
  - do 5 eexists. split; [exact E|]. split; [apply (cn_dirs _ _ _ _ _ _ _ _ C)|].
    split; [apply (cn_tls _ _ _ _ _ _ _ _ C)|]. split; [exact E2|exact R].
Defined.

End Start.
