(* ===== verification/LifeCycle.v ===== *)
(** * The life of an inode

    An inode is created by the first open of a path, counted by the descriptors
    that are open for it, and freed by the last close after an unlink, or by an
    unlink that finds it unused.  The theorems show that no open descriptor ever
    refers to a freed inode, and that without failures the count is exact.  Two
    things are excluded from the histories, because they break this: a rename onto
    a name that is still registered ([rename_free]; see the theorem on renames in
    [PolyOS]), and a close that finds the descriptor but fails to take the write
    lock to remove it ([close_locks]), after which the descriptor stays although
    its reference is gone.  A failed allocation of a hash node is a NULL
    dereference in the kernel, which ends the history. *)

From S2P Require Import Prelude Defs Util Posix IntervalTree Indexing IoDirect PolyOS.
From S2P Require Import Context OpeData OpeMeta.
Import IoDirect PolyOS Context OpeData OpeMeta.

#[local] Open Scope Z_scope.

Module LifeCycle.

(** ** The invariant *)

(** The inodes the open descriptors refer to, one entry per descriptor. *)
Definition open_inodes (fl : list (Z * poly_file)) : list (option Z) :=
  (fun e => f_inode (snd e)) <$> fl.

Definition refs (ino : Z) (os : list (option Z)) : Z :=
  zlength (filter (fun o => o = Some ino) os).

(** After [n] calls; [exact] if no service failed. *)
Record life (exact : bool) (n : Z) (k : polyos) (os : list (option Z)) : Prop := {
  lf_kinv : kinv k;
  lf_open : forall o, o ∈ os -> exists ino i, o = Some ino /\
    k_inodes k !! ino = Some i /\ (u32 (i_path_hash i), ino) ∈ k_itable k;
  lf_refs : forall ino i, k_inodes k !! ino = Some i ->
    refs ino os <= i_refcount i <= n /\
    (exact = true -> i_refcount i = refs ino os)
}.

Lemma refs_cons ino o os :
  refs ino (o :: os) = (if decide (o = Some ino) then 1 else 0) + refs ino os.
Proof.
  unfold refs. rewrite filter_cons. case_decide; cbn [length]; lia.
Qed.

Lemma refs_nonneg ino os : 0 <= refs ino os.
Proof. unfold refs. lia. Qed.

Lemma refs_elem ino os : Some ino ∈ os -> 1 <= refs ino os.
Proof.
  intros Hin. unfold refs.
  assert (Some ino ∈ filter (fun o => o = Some ino) os) as Hf
    by (by apply list_elem_of_filter).
  destruct (filter _ os); [by apply elem_of_nil in Hf|cbn; lia].
Qed.

Lemma refs_absent ino os : Some ino ∉ os -> refs ino os = 0.
Proof.
  intros Hno. unfold refs. destruct (filter _ os) as [|o l] eqn:E; [done|].
  assert (o ∈ filter (fun o => o = Some ino) os) as Ho by (rewrite E; left).
  apply list_elem_of_filter in Ho as [-> ?]. done.
Qed.

Lemma refs_dead exact n k os ino :
  life exact n k os -> k_inodes k !! ino = None -> refs ino os = 0.
Proof.
  intros H Hn. apply refs_absent. intros Ho.
  destruct (lf_open _ _ _ _ H _ Ho) as (? & i & [= <-] & Hi & _). congruence.
Qed.

#[export] Instance refs_proper ino : Proper ((≡ₚ) ==> eq) (refs ino).
Proof. intros os os' E. unfold refs. by rewrite E. Qed.

Lemma life_perm exact n k os os' : os ≡ₚ os' -> life exact n k os -> life exact n k os'.
Proof.
  intros E [H1 H3 H4]. split; [done| |].
  - intros o. rewrite <-E. apply H3.
  - intros ino i. rewrite <-E. apply H4.
Qed.

Lemma life_mono exact n n' k os : n <= n' -> life exact n k os -> life exact n' k os.
Proof.
  intros Hn [H1 H3 H4]. split; [done|done|].
  intros ino i Hi. destruct (H4 _ _ Hi). split; [lia|done].
Qed.

(** A descriptor is forgotten although its reference stays. *)
Lemma life_forget n k o os : life false n k (o :: os) -> life false n k os.
Proof.
  intros [H1 H3 H4]. split; [done| |].
  - intros o' Ho. apply H3. by right.
  - intros ino i Hi. specialize (H4 _ _ Hi). rewrite refs_cons in H4.
    case_decide; split; done || lia.
Qed.

Lemma registered exact n k os i ino :
  life exact n k os -> (u32 (i_path_hash i), ino) ∈ k_itable k ->
  i_hashtable_search (i_path_hash i) k = Some ino.
Proof. intros H Hin. apply hash_search_elem; [apply H|done]. Qed.

(** ** Changes of one inode *)

Lemma life_set exact n k os os' ino i i' :
  life exact n k os -> k_inodes k !! ino = Some i ->
  i_path_hash i' = i_path_hash i -> i_ino i' = i_ino i ->
  (forall ino', ino' <> ino -> refs ino' os' = refs ino' os) ->
  refs ino os' <= i_refcount i' <= n ->
  (exact = true -> i_refcount i' = refs ino os') ->
  (forall o, o ∈ os' -> o ∈ os \/ o = Some ino /\ exists h, (h, ino) ∈ k_itable k) ->
  life exact n (k <| k_inodes := <[ino := i']> (k_inodes k) |>) os'.
Proof.
  intros H Hi Hh Hn Hoth Hr Hx Hos. destruct H as [H1 H3 H4].
  split; [by eapply kinv_alter| |].
  - assert (forall ino' j h, k_inodes k !! ino' = Some j -> (h, ino') ∈ k_itable k ->
      u32 (i_path_hash j) = h) as Hkey.
    { intros ino' j h Hj Hin. destruct (ki_alive _ H1 _ _ Hin) as (j' & Hj' & <-).
      congruence. }
    intros o Ho. assert (exists ino' j, o = Some ino' /\ k_inodes k !! ino' = Some j /\
      (u32 (i_path_hash j), ino') ∈ k_itable k) as (ino' & j & -> & Hj & Hin).
    { destruct (Hos o Ho) as [Hin|(-> & h & Hin)]; [by apply H3|].
      exists ino, i. by rewrite (Hkey ino i h). }
    destruct (decide (ino' = ino)) as [->|].
    + exists ino, i'. cbn. rewrite lookup_insert_eq, Hh.
      rewrite Hi in Hj. by injection Hj as ->.
    + exists ino', j. cbn. by rewrite lookup_insert_ne by done.
  - cbn. intros ino' j [[<- <-]|[Hne Hj]]%lookup_insert_Some; [done|].
    rewrite Hoth by done. by apply H4.
Qed.

(** A further descriptor. *)
Lemma life_inc exact n k os ino i :
  life exact n k os -> n < 2 ^ 31 - 1 -> k_inodes k !! ino = Some i ->
  (exists h, (h, ino) ∈ k_itable k) ->
  life exact (n + 1)
    (k <| k_inodes := <[ino := i <| i_refcount := s32 (i_refcount i + 1) |>]>
                        (k_inodes k) |>) (Some ino :: os).
Proof.
  intros H Hn Hi Hin. pose proof (refs_nonneg ino os).
  destruct (lf_refs _ _ _ _ H _ _ Hi) as [Hr Hx].
  apply (life_mono _ _ (n + 1)) in H; [|lia].
  eapply life_set; try done; cbn; rewrite ?s32_id by lia.
  - intros ino' Hne. rewrite refs_cons, decide_False by congruence. done.
  - rewrite refs_cons, decide_True by done. lia.
  - intros ->. rewrite refs_cons, decide_True, Hx by done. lia.
  - intros o [->|Ho]%elem_of_cons; auto.
Qed.

(** A closed descriptor. *)
Lemma life_dec exact n k os ino i :
  life exact n k (Some ino :: os) -> n < 2 ^ 31 -> k_inodes k !! ino = Some i ->
  life exact n
    (k <| k_inodes := <[ino := i <| i_refcount := s32 (i_refcount i - 1) |>]>
                        (k_inodes k) |>) os.
Proof.
  intros H Hn Hi. pose proof (refs_nonneg ino os).
  destruct (lf_refs _ _ _ _ H _ _ Hi) as [Hr Hx].
  rewrite refs_cons, decide_True in Hr, Hx by done.
  eapply life_set; try done; cbn; rewrite ?s32_id by lia.
  - intros ino' Hne. rewrite refs_cons, decide_False by congruence. done.
  - lia.
  - intros ->. rewrite Hx by done. lia.
  - intros o Ho. left. by right.
Qed.

(** An inode nobody refers to is taken out of the table and freed. *)
Lemma life_free exact n env k os ino h :
  life exact n k os -> hash_search (u32 h) (k_itable k) = Some ino ->
  refs ino os = 0 ->
  life exact n (free_poly_inode env ino (i_hashtable_delete h k)) os.
Proof.
  intros H Hs Hr. pose proof (lf_kinv _ _ _ _ H) as Hk.
  set (k' := free_poly_inode env ino (i_hashtable_delete h k)).
  assert (k_itable k' = hash_del_first (u32 h) (k_itable k)) as Et
    by (unfold k', free_poly_inode; by destruct (vma_covers _ _ _ _)).
  assert (forall ino', ino' <> ino -> k_inodes k' !! ino' = k_inodes k !! ino') as Ei.
  { intros ino' Hne. unfold k', free_poly_inode. destruct (vma_covers _ _ _ _); [|done].
    cbn. by rewrite lookup_delete_ne by done. }
  assert (forall ino' i, k_inodes k' !! ino' = Some i -> k_inodes k !! ino' = Some i) as Es.
  { intros ino' i. unfold k', free_poly_inode. destruct (vma_covers _ _ _ _); [|done].
    cbn. by intros [_ ?]%lookup_delete_Some. }
  split.
  - apply kinv_free; [by apply kinv_delete|]. intros h'. by apply not_in_deleted.
  - intros o Ho. destruct (lf_open _ _ _ _ H o Ho) as (ino' & i & -> & Hi & Hin).
    assert (ino' <> ino) as Hne.
    { intros ->. pose proof (refs_elem _ _ Ho). lia. }
    exists ino', i. rewrite Ei, Et by done. split_and!; [done|done|].
    apply elem_of_hash_del_first; [apply Hk|]. split; [done|]. intros Eh.
    rewrite Eh in Hin. apply hash_search_elem in Hin; [congruence|apply Hk].
  - intros ino' i Hi. by apply (lf_refs _ _ _ _ H), Es.
Qed.

(** ** The calls *)

Lemma life_grow exact n k k' os :
  life exact n k os -> 0 <= n -> kinv k' -> os_grows k k' -> life exact n k' os.
Proof.
  intros H Hn Hk (Hold & Hnew & Htab). split; [done| |].
  - intros o Ho. destruct (lf_open _ _ _ _ H o Ho) as (ino & i & -> & Hi & Hin).
    exists ino, i. eauto.
  - intros ino i Hi. destruct (Hnew _ _ Hi) as [Hi'|[Hno Hz]];
      [by apply (lf_refs _ _ _ _ H)|].
    rewrite (refs_dead _ _ _ _ _ H Hno), Hz. split; [lia|done].
Qed.

Lemma inode_of_vaddr ino :
  0 <= ino < 2 ^ 31 -> inode_of_addr (GET_POLY_INODE_VADDR ino) = ino.
Proof.
  intros Hi. unfold inode_of_addr, GET_POLY_INODE_VADDR, PAGE_SHIFT,
    POLY_INODE_VADDR_BASE.
  rewrite Z.shiftl_mul_pow2, Z.shiftr_div_pow2, !u64_id by (rewrite ?u64_id; lia).
  replace (0x1000000000 + ino * 2 ^ 12 - 0x1000000000) with (ino * 2 ^ 12) by lia.
  by rewrite Z.div_mul by lia.
Qed.

Lemma file_remove_perm fd f fl :
  file_lookup fd fl = Some f ->
  open_inodes fl ≡ₚ f_inode f :: open_inodes (file_remove fd fl).
Proof.
  induction fl as [|[k g] fl IH]; cbn; [done|].
  destruct (k =? fd); [by intros [= ->]|]. intros Hl. cbn. rewrite IH by done.
  apply Permutation_swap.
Qed.

Lemma open_inodes_store fd f f' fl :
  file_lookup fd fl = Some f -> f_inode f' = f_inode f ->
  open_inodes (file_store fd f' fl) = open_inodes fl.
Proof.
  intros Hl Hf. induction fl as [|[k g] fl IH]; cbn in *; [done|].
  destruct (k =? fd); cbn; [congruence|]. unfold open_inodes in IH. by rewrite IH.
Qed.

Section calls.
Context {Fs : Type} `{!PosixFS Fs, !PosixNS Fs}.
Variable cfg : config.
Implicit Types w : world Fs.

Definition wlife (exact : bool) (n : Z) w : Prop :=
  life exact n (w_os w) (open_inodes (l_files (w_lib w))) /\
  0 <= n /\ k_next_ino (w_os w) <= n.

Lemma open_file_life exact n env fd flags ino index w w' :
  life exact n (w_os w) (open_inodes (l_files (w_lib w))) -> n < 2 ^ 31 - 1 ->
  (exists h, (h, ino) ∈ k_itable (w_os w)) ->
  open_file cfg env fd flags ino index w = Some w' ->
  life exact (n + 1) (w_os w') (open_inodes (l_files (w_lib w'))) /\
  k_next_ino (w_os w') = k_next_ino (w_os w).
Proof.
  intros H Hn Hin. unfold open_file, polystore_file_create, inode_at.
  destruct (k_inodes (w_os w) !! ino) as [i|] eqn:Hi; [|done]. cbn [mbind option_bind].
  destruct (malloc_file_ok (c_uenv env)), (malloc_node_ok (c_uenv env)); try done.
  cbn. rewrite lookup_insert_eq. cbn.
  intros [= <-]. cbn. rewrite Z.eqb_refl. split; [|done].
  destruct (lf_refs _ _ _ _ H _ _ Hi).
  set (i1 := i <| i_index := index |> <| i_index_slots := _ |>).
  assert (life exact n (w_os w <| k_inodes := <[ino := i1]> (k_inodes (w_os w)) |>)
    (open_inodes (l_files (w_lib w)))) as Hi1 by (eapply life_set; [exact H|exact Hi|done|done|done|done|done|by auto]).
  apply (life_inc exact n _ _ ino i1 Hi1 Hn); [cbn; by rewrite lookup_insert_eq|done].
Qed.

(** The handlers that need a hash node: when they return, they got it or did not
    need it. *)
Definition with_kmalloc (env : kenv) : kenv :=
  KEnv (copy_from_ok env) (copy_to_ok env) (inode_vma_ok env) (index_vma_ok env)
    (task_vma env) (remap_inode_ok env) (remap_index_ok env) (remap_task_ok env)
    (vmalloc_index_ok env) (vmalloc_inode_ok env) (vmalloc_task_ok env) true.

Lemma open_inode_with_kmalloc env large cmd k r :
  polyos_open_inode env large cmd k = Some r ->
  polyos_open_inode (with_kmalloc env) large cmd k = Some r.
Proof.
  unfold polyos_open_inode. destruct (i_hashtable_search _ k); [done|].
  unfold i_hashtable_search_and_insert. cbn [vmalloc_index_ok with_kmalloc].
  destruct (negb (vmalloc_index_ok env)); [done|].
  change (alloc_poly_inode (with_kmalloc env)) with (alloc_poly_inode env).
  destruct (alloc_poly_inode env _ _ k) as [[ino|] k1]; [|done].
  destruct (i_hashtable_search _ k1); [done|]. cbn [kmalloc_ok with_kmalloc].
  by destruct (kmalloc_ok env).
Qed.

Lemma open_returned env large stack cmd (fs : Fs) k ret cmd' fs' k' :
  kinv k -> k_next_ino k < 2 ^ 31 - 1 ->
  polyos_open env large stack cmd fs k = Some (ret, cmd', fs', k') ->
  kinv k' /\ k_next_ino k' <= k_next_ino k + 1 /\ os_grows k k' /\
  (ret = 0 \/ ret < 0) /\
  (ret = 0 -> exists ino, i_hashtable_search (oc_path_hash cmd) k' = Some ino /\
     oc_inode_addr cmd' = GET_POLY_INODE_VADDR ino /\
     oc_index_addr cmd' = GET_POLY_INDEX_VADDR large ino).
Proof.
  intros Hk Hn E.
  assert (polyos_open (with_kmalloc env) large stack cmd fs k =
    Some (ret, cmd', fs', k')) as E'.
  { revert E. unfold polyos_open. cbn [copy_from_ok copy_to_ok with_kmalloc].
    destruct (negb _); [done|].
    destruct (polyos_sys_open fs _ _ _) as [[[] fastfd] fs1]; [done|].
    destruct (polyos_sys_open fs1 _ _ _) as [[[] slowfd] fs2]; [done|].
    destruct (polyos_open_inode env _ _ _) as [r|] eqn:Ei; [|done].
    by rewrite (open_inode_with_kmalloc _ _ _ _ _ Ei). }
  destruct (open_kinv (with_kmalloc env) large stack cmd fs k)
    as (? & ? & ? & ? & E1 & ?); [done..|]. rewrite E' in E1. by simplify_eq.
Qed.

Lemma rename_returned env old new k ret k' :
  kinv k -> (forall ino, (u32 new, ino) ∉ k_itable (i_hashtable_delete old k)) ->
  polyos_rename env old new k = Some (ret, k') ->
  kinv k' /\ k_next_ino k' = k_next_ino k.
Proof.
  intros Hk Hnew E.
  assert (polyos_rename (with_kmalloc env) old new k = Some (ret, k')) as E'.
  { revert E. unfold polyos_rename, i_hashtable_search_and_rename.
    cbn [copy_from_ok kmalloc_ok with_kmalloc]. destruct (negb _); [done|].
    destruct (i_hashtable_search _ k); [|done]. by destruct (kmalloc_ok env). }
  destruct (rename_kinv (with_kmalloc env) old new k) as (? & ? & E1 & ?); [done..|].
  rewrite E' in E1. by simplify_eq.
Qed.

Lemma open_life exact n env pathname flags mode w fd w' :
  wlife exact n w -> n < 2 ^ 31 - 1 ->
  polystore_open cfg env pathname flags mode w = Some (fd, w') ->
  wlife exact (n + 1) w'.
Proof.
  intros Hw Hn. unfold polystore_open.
  destruct (physpaths cfg pathname) as [[fp sp]|]; [|done]. cbn [mbind option_bind].
  destruct (cmd_path fp) as [fp'|]; [|done]. cbn [mbind option_bind].
  destruct (cmd_path sp) as [sp'|]; [|done]. cbn [mbind option_bind].
  set (cmd := OpenCmd _ _ _ _ _ _ _ _).
  pose proof Hw as (H & Hn0 & Hnext).
  destruct (polyos_open _ _ _ _ _ _) as [[[[ret cmd'] fs'] k']|] eqn:Eo; [|done].
  cbn [mbind option_bind].
  apply open_returned in Eo as (Hk' & Hnx & Hg & Hret & Hino); [|apply H|lia].
  pose proof (life_grow _ _ _ _ _ H Hn0 Hk' Hg) as H'.
  set (w1 := w <| w_fs := fs' |> <| w_os := k' |>).
  assert (wlife exact (n + 1) w1) as Hw1.
  { split_and!; [by eapply life_mono; [|exact H']; lia|lia|cbn; lia]. }
  destruct Hret as [->|Hneg]; cycle 1.
  { unfold ioctl_ret. rewrite (proj2 (Z.ltb_lt ret 0)) by done. cbn.
    by intros [= <- <-]. }
  destruct (Hino eq_refl) as (ino & Hs & Ha & Hx). rewrite Ha.
  cbn [ioctl_ret Z.ltb Z.compare].
  destruct (_ =? 0); [by intros [= <- <-]|].
  destruct (_ =? 0); [by intros [= <- <-]|].
  pose proof (hash_search_Some _ _ _ Hs) as Hin.
  destruct (ki_alive _ Hk' _ _ Hin) as (i & Hi & _).
  pose proof (ki_fresh _ Hk' _ _ Hi). rewrite inode_of_vaddr by lia.
  destruct (open_file _ _ _ _ _ _ w1) as [w2|] eqn:E; [|done].
  intros [= <- <-].
  apply (open_file_life exact n) in E as [Hl En]; [|done|lia|by eauto].
  split_and!; [done|lia|]. rewrite En. cbn. lia.
Qed.

(** No service fails during an exact history. *)
Definition env_exact (exact : bool) (env : callenv) : Prop :=
  exact = true -> c_kenv env = all_ok /\ c_uenv env = user_ok.

Lemma free_next env ino h k :
  k_next_ino (free_poly_inode env ino (i_hashtable_delete h k)) = k_next_ino k.
Proof. unfold free_poly_inode. by destruct (vma_covers _ _ _ _). Qed.

Lemma kernel_close_life exact n env fd ino i fs k os :
  life exact n k (Some ino :: os) -> n < 2 ^ 31 ->
  (exact = true -> copy_from_ok env = true) -> k_inodes k !! ino = Some i ->
  exists ret (fs' : Fs) k', polyos_close env fd (i_path_hash i) fs k = Some (ret, fs', k') /\
    life exact n k' os /\ k_next_ino k' = k_next_ino k.
Proof.
  intros H Hn Hx Hi. unfold polyos_close.
  destruct (copy_from_ok env); cbn [negb]; cycle 1.
  { destruct exact; [by specialize (Hx eq_refl)|].
    do 3 eexists. split_and!; [done|by eapply life_forget|done]. }
  destruct (lf_open _ _ _ _ H (Some ino)) as (? & i' & [= <-] & Hi' & Hin); [left|].
  rewrite Hi in Hi'. injection Hi' as <-.
  pose proof (registered _ _ _ _ _ _ H Hin) as Hs. rewrite Hs.
  destruct (ns_close fs _) as [? fs1], (ns_close fs1 _) as [ret fs2].
  rewrite Hi. cbn [mbind option_bind].
  pose proof (life_dec _ _ _ _ _ _ H Hn Hi) as Hd.
  destruct (_ && _) eqn:E; do 3 eexists; (split_and!; [done| |]); try done;
    [|by rewrite free_next].
  apply andb_true_iff in E as [E _]. apply Z.eqb_eq in E.
  apply life_free; [done|done|].
  destruct (lf_refs _ _ _ _ Hd ino _ (lookup_insert_eq _ _ _)) as [Hr _].
  cbn in Hr. rewrite E in Hr. pose proof (refs_nonneg ino os). lia.
Qed.

(** [polystore_close] goes on when the descriptor cannot be removed, and releases
    the reference of a descriptor that stays. *)
Definition close_locks (env : callenv) : Prop :=
  rdlock_ok (c_uenv env) = true -> wrlock_ok (c_uenv env) = true.

Lemma close_life exact n env fd w :
  wlife exact n w -> n < 2 ^ 31 -> env_exact exact env ->
  exists ret w', polystore_close env fd w = Some (ret, w') /\
    (close_locks env -> wlife exact n w').
Proof.
  intros (H & Hn0 & Hnx) Hn Henv. unfold polystore_close, polystore_file_find, close_locks.
  destruct (rdlock_ok (c_uenv env)); [|by do 2 eexists].
  destruct (file_lookup fd (l_files (w_lib w))) as [f|] eqn:Hf; [|by do 2 eexists].
  pose proof (file_remove_perm _ _ _ Hf) as Hp.
  apply (life_perm _ _ _ _ _ Hp) in H.
  destruct (lf_open _ _ _ _ H (f_inode f)) as (ino & i & Ef & Hi & _); [left|].
  rewrite Ef in *.
  destruct (kernel_close_life exact n (c_kenv env) fd ino i (w_fs w) (w_os w)
    (open_inodes (file_remove fd (l_files (w_lib w)))) H Hn) as (ret & fs' & k' & Ec & H' & En);
    [intros Hx; by destruct (Henv Hx) as [-> _]|done|].
  unfold polystore_file_delete, inode_at.
  destruct (wrlock_ok (c_uenv env)); rewrite Hi; cbn [mbind option_bind]; rewrite Ec;
    do 2 eexists; (split; [done|]); intros Hl; [|by specialize (Hl eq_refl)].
  split_and!; [done|done|cbn; lia].
Qed.

Lemma unlink_life exact n env pathname w ret w' :
  wlife exact n w -> 
  polystore_unlink cfg env pathname w = Some (ret, w') -> wlife exact n w'.
Proof.
  intros (H & Hn0 & Hnx). unfold polystore_unlink.
  destruct (physpaths cfg pathname) as [[fp sp]|]; [|done]. cbn [mbind option_bind].
  destruct (ns_unlink (w_fs w) fp) as [? fs1], (ns_unlink fs1 sp) as [? fs2].
  unfold polyos_unlink. destruct (negb _); [by intros [= <- <-]|].
  destruct (i_hashtable_search _ _) as [ino|] eqn:Hs; [|by intros [= <- <-]].
  destruct (k_inodes (w_os w) !! ino) as [i|] eqn:Hi; [|done]. cbn [mbind option_bind].
  destruct (lf_refs _ _ _ _ H _ _ Hi) as [Hr Hx]. pose proof (refs_nonneg ino
    (open_inodes (l_files (w_lib w)))) as Hpos.
  destruct (i_refcount i =? 0) eqn:E; cbn [mbind option_bind]; intros [= <- <-];
    (split_and!; [|done|]); cbn [w_os w_lib update]; rewrite ?free_next; try done.
  - apply Z.eqb_eq in E. apply life_free; [done|done|lia].
  - eapply life_set; [exact H|exact Hi|done|done|done|done|done|by auto].
Qed.

(** The new name of a rename is not in the kernel's table, or is the old one. *)
Definition rename_free (oldname newname : string) w : Prop :=
  forall ino, (u32 (path_hash newname), ino) ∉
    k_itable (i_hashtable_delete (path_hash oldname) (w_os w)).

Lemma rename_life exact n env oldname newname w ret w' :
  wlife exact n w -> rename_free oldname newname w ->
  polystore_rename cfg env oldname newname w = Some (ret, w') -> wlife exact n w'.
Proof.
  intros (H & Hn0 & Hnx) Hfree. unfold polystore_rename.
  destruct (physpaths cfg oldname) as [[fo so]|]; [|done]. cbn [mbind option_bind].
  destruct (physpaths cfg newname) as [[fn sn]|]; [|done]. cbn [mbind option_bind].
  destruct (ns_rename (w_fs w) fo fn) as [r fs1].
  destruct (r <? 0); [by intros [= <- <-]|].
  destruct (ns_rename fs1 so sn) as [r' fs2].
  destruct (polyos_rename _ _ _ _) as [[ret' k']|] eqn:E; [|done].
  destruct (rename_returned _ _ _ _ _ _ (lf_kinv _ _ _ _ H) Hfree E) as [Hk' Hn'].
  cbn [mbind option_bind]. intros [= <- <-]. split_and!; [|done|cbn; lia].
  cbn [w_os w_lib update].
  unfold polyos_rename, i_hashtable_search_and_rename in E.
  destruct (negb _); [by injection E as <- <-|].
  destruct (i_hashtable_search _ _) as [ino|] eqn:Hs; [|by injection E as <- <-].
  destruct (kmalloc_ok _); [|done]. injection E as <- <-.
  pose proof (hash_search_Some _ _ _ Hs) as Hin.
  destruct (ki_alive _ (lf_kinv _ _ _ _ H) _ _ Hin) as (i & Hi & Hh).
  split; [done| |]; cbn.
  - intros o Ho. destruct (lf_open _ _ _ _ H o Ho) as (ino' & j & -> & Hj & Hin').
    destruct (decide (ino' = ino)) as [->|Hne].
    + exists ino. rewrite lookup_alter_eq, Hj. cbn. eexists.
      split_and!; [done|done|]. cbn. rewrite u32_s32. left.
    + exists ino', j. rewrite lookup_alter_ne by done. split_and!; [done|done|].
      right. apply elem_of_hash_del_first; [apply H|]. split; [done|]. intros Eh.
      rewrite Eh in Hin'. apply hash_search_elem in Hin'; [|apply H].
      unfold i_hashtable_search in Hs. congruence.
  - intros ino' j Hj. destruct (decide (ino' = ino)) as [->|Hne].
    + rewrite lookup_alter_eq, Hi in Hj. injection Hj as <-.
      exact (lf_refs _ _ _ _ H _ _ Hi).
    + rewrite lookup_alter_ne in Hj by done. by apply (lf_refs _ _ _ _ H).
Qed.

(** *** Data operations do not take part *)

Definition io_keeps (st st' : io_state Fs) : Prop :=
  f_inode (io_file st') = f_inode (io_file st) /\
  i_path_hash (io_inode st') = i_path_hash (io_inode st) /\
  i_ino (io_inode st') = i_ino (io_inode st) /\
  i_refcount (io_inode st') = i_refcount (io_inode st).

Lemma io_keeps_trans st1 st2 st3 : io_keeps st1 st2 -> io_keeps st2 st3 -> io_keeps st1 st3.
Proof. unfold io_keeps. intuition congruence. Qed.

Lemma io_keeps_advance offset n st : io_keeps st (advance_off offset n st).
Proof. unfold advance_off. by destruct (offset <? 0). Qed.

Lemma read_nodes_keeps fuel : forall ff sf st buf it start end_ copied offset r st',
  read_nodes fuel ff sf st buf it start end_ copied offset = Some (r, st') ->
  io_keeps st st'.
Proof.
  induction fuel as [|fuel IH]; intros ff sf st buf [entry|] start end_ copied offset r st';
    cbn [read_nodes]; try done; try (by intros [= <- <-]).
  destruct (entry_fd _ _ _); [|by intros [= <- <-]].
  destruct (fs_pread _ _ _ _) as [ret d]. destruct (ret <? 0); [by intros [= <- <-]|].
  intros E%IH. eapply io_keeps_trans; [apply io_keeps_advance|exact E].
Qed.

Lemma write_nodes_keeps fuel : forall ff sf st buf it start end_ copied offset r st',
  write_nodes fuel ff sf st buf it start end_ copied offset = Some (r, st') ->
  io_keeps st st'.
Proof.
  induction fuel as [|fuel IH]; intros ff sf st buf [entry|] start end_ copied offset r st';
    cbn [write_nodes]; try done; try (by intros [= <- <-]).
  destruct (entry_fd _ _ _); [|by intros [= <- <-]].
  destruct (fs_pwrite _ _ _ _) as [ret fs]. destruct (negb _); [by intros [= <- <-]|].
  intros E%IH. eapply io_keeps_trans; [|exact E].
  eapply io_keeps_trans; [|apply io_keeps_advance]. done.
Qed.

Lemma write_new_nodes_keeps fuel : forall ff sf st buf start end_ copied offset r st',
  write_new_nodes fuel ff sf st buf start end_ copied offset = Some (r, st') ->
  io_keeps st st'.
Proof.
  induction fuel as [|fuel IH]; intros ff sf st buf start end_ copied offset r st';
    cbn [write_new_nodes]; destruct (start <? end_); try done;
    try (by intros [= <- <-]).
  unfold polystore_index_entry_allocate.
  destruct (_ =? 0); [by intros [= <- <-]|].
  destruct (MAX_POLY_INDEX_NODE_NR <? _); [by intros [= <- <-]|].
  destruct (_ && _); [|done]. cbn [mbind option_bind].
  destruct (fs_lseek_end _ _) as [pos fs1], (fs_pwrite _ _ _ _) as [ret fs2].
  unfold polystore_index_insert.
  destruct (interval_tree_insert _ _) as [t|]; [|done]. cbn [mbind option_bind].
  intros E%IH. eapply io_keeps_trans; [|exact E].
  eapply io_keeps_trans; [|apply io_keeps_advance]. done.
Qed.

Lemma write_range_keeps st buf start end_ offset r st' :
  write_range st buf start end_ offset = Some (r, st') -> io_keeps st st'.
Proof.
  unfold write_range.
  destruct (write_nodes _ _ _ _ _ _ _ _ _ _) as [[[s c] st1]|] eqn:E1; [|done].
  cbn [mbind option_bind].
  destruct (write_new_nodes _ _ _ _ _ _ _ _ _) as [[c' st2]|] eqn:E2; [|done].
  intros [= <- <-]. eapply io_keeps_trans; [by eapply write_nodes_keeps|].
  eapply io_keeps_trans; [by eapply write_new_nodes_keeps|done].
Qed.

Lemma read_iter_keeps st buf count offset r st' :
  polystore_read_iter st buf count offset = Some (r, st') -> io_keeps st st'.
Proof.
  unfold polystore_read_iter.
  destruct (polystore_io_set_range _ _ _).
  destruct (read_nodes _ _ _ _ _ _ _ _ _ _) as [[[c b] st1]|] eqn:E1; [|done].
  intros [= <- <-]. by apply read_nodes_keeps in E1.
Qed.

Lemma write_iter_keeps st buf count offset r st' :
  polystore_write_iter st buf count offset = Some (r, st') -> io_keeps st st'.
Proof. apply write_range_keeps. Qed.

Lemma append_iter_keeps st buf count offset r st' :
  polystore_append_iter st buf count offset = Some (r, st') -> io_keeps st st'.
Proof. apply write_range_keeps. Qed.

Lemma enlarge_keeps fuel buf : forall remain ret st r st',
  enlarge_loop fuel buf remain ret st = Some (r, st') -> io_keeps st st'.
Proof.
  induction fuel as [|fuel IH]; intros remain ret st r st'; cbn [enlarge_loop];
    destruct (0 <? remain); try done; try (by intros [= <- <-]).
  destruct (polystore_write_iter _ _ _ _) as [[wret st1]|] eqn:E; [|done].
  intros E1%IH. eapply io_keeps_trans; [by eapply write_iter_keeps|exact E1].
Qed.

Lemma ftruncate_iter_keeps stack fd len st r st' :
  polystore_ftruncate_iter stack fd len st = Some (r, st') -> io_keeps st st'.
Proof.
  unfold polystore_ftruncate_iter.
  destruct (_ <? u64 len); [apply enlarge_keeps|].
  destruct (u64 len <? _); [|by intros [= <- <-]].
  destruct (polystore_index_lookup _ _ _); [|by intros [= <- <-]].
  destruct (fs_ftruncate _ _ _). by intros [= <- <-].
Qed.

(** The descriptor, inode and task an operation works on are put back. *)
Lemma run_io_life exact n {A} fd ino file w (op : io_state Fs -> option (A * io_state Fs)) r w' :
  wlife exact n w -> file_lookup fd (l_files (w_lib w)) = Some file ->
  (forall st a st', op st = Some (a, st') -> io_keeps st st') ->
  run_io w fd ino file op = Some (r, w') -> wlife exact n w'.
Proof.
  intros (H & Hn0 & Hnx) Hf Hop. unfold run_io, io_view, inode_at.
  destruct (k_inodes (w_os w) !! ino) as [i|] eqn:Hi; [|done].
  cbn [mbind option_bind]. destruct (w_tls w) as [id|] eqn:Htls; [|done].
  cbn [mbind option_bind].
  destruct (task_at (w_os w) id) as [t|] eqn:Ht; [|done].
  cbn [mbind option_bind]. destruct (op _) as [[a st']|] eqn:E; [|done].
  intros [= <- <-]. apply Hop in E as (K1 & K2 & K3 & K4). cbn in *.
  unfold io_store, set_file, set_inode. cbn. rewrite Htls.
  split_and!; cbn; [|done|done].
  rewrite (open_inodes_store _ file) by done.
  destruct (lf_refs _ _ _ _ H _ _ Hi) as [Hr Hx].
  assert (life exact n (w_os w <| k_inodes := <[ino := io_inode st']> (k_inodes (w_os w)) |>)
    (open_inodes (l_files (w_lib w)))) as Hl.
  { eapply life_set; [exact H|exact Hi|done|done|done|by rewrite K4|by rewrite K4|by auto]. }
  destruct Hl as [L1 L3 L4]. split; [by eapply kinv_ext|done|done].
Qed.

(** Nothing the invariant looks at has changed. *)
Lemma life_ext exact n w w' :
  wlife exact n w ->
  k_itable (w_os w') = k_itable (w_os w) -> k_inodes (w_os w') = k_inodes (w_os w) ->
  k_next_ino (w_os w') = k_next_ino (w_os w) ->
  l_files (w_lib w') = l_files (w_lib w) -> wlife exact n w'.
Proof.
  intros (H & Hn0 & Hnx) E1 E2 E3 E4. split_and!; [|done|by rewrite E3].
  rewrite E4. destruct H as [H1 H3 H4].
  split; [by eapply kinv_ext|rewrite E1, E2; done|rewrite E2; done].
Qed.

Lemma read_life exact n env fd buf count offset w r w' :
  wlife exact n w -> polystore_read_generic env fd buf count offset w = Some (r, w') ->
  wlife exact n w'.
Proof.
  intros H. unfold polystore_read_generic, polystore_file_find.
  destruct (rdlock_ok env); [|by intros [= <- <-]].
  destruct (file_lookup _ _) as [file|] eqn:Hf; [|by intros [= <- <-]].
  destruct (f_inode file) as [ino|]; [|by intros [= <- <-]].
  destruct (inode_at w ino) as [i|]; [|done]. cbn [mbind option_bind].
  assert (forall fd' : Z, (if offset =? -1
    then let '(ret, d, fs) := fs_read (w_fs w) fd' count in
         Some (ret, overwrite 0 d buf, w <| w_fs := fs |>)
    else let '(ret, d) := fs_pread (w_fs w) fd' count offset in
         Some (ret, overwrite 0 d buf, w)) = Some (r, w') -> wlife exact n w') as Hdev.
  { intros fd'. destruct (offset =? -1).
    - destruct (fs_read _ _ _) as [[ret d] fs]. intros [= <- <-]. by eapply life_ext.
    - destruct (fs_pread _ _ _ _) as [ret d]. by intros [= <- <-]. }
  destruct (i_placement i =? BLK_PLACEMENT_FAST); [apply Hdev|].
  destruct (i_placement i =? BLK_PLACEMENT_SLOW); [apply Hdev|].
  destruct (i_placement i =? BLK_PLACEMENT_BOTH); [|by intros [= <- <-]].
  destruct (run_io _ _ _ _ _) as [[[ret b] w1]|] eqn:E; [|done].
  intros [= <- <-]. eapply run_io_life; [done|done| |exact E].
  intros st [a b'] st'. cbn beta.
  destruct (polystore_read_iter st buf count offset) as [[[ra rb] st1]|] eqn:Er; [|done].
  intros [= <- <- <-]. by eapply read_iter_keeps.
Qed.

Lemma write_iters_keep file buf count offset st (r : Z) st' :
  (if Z.land (f_flags file) O_APPEND =? 0
   then polystore_write_iter st buf count offset
   else polystore_append_iter st buf count offset) = Some (r, st') -> io_keeps st st'.
Proof. destruct (_ =? 0); [apply write_iter_keeps|apply append_iter_keeps]. Qed.

Lemma write_life exact n env fd buf count offset w r w' :
  wlife exact n w -> polystore_write_generic env fd buf count offset w = Some (r, w') ->
  wlife exact n w'.
Proof.
  intros H. unfold polystore_write_generic, polystore_file_find.
  destruct (rdlock_ok env); [|by intros [= <- <-]].
  destruct (file_lookup _ _) as [file|] eqn:Hf; [|by intros [= <- <-]].
  destruct (f_inode file) as [ino|]; [|by intros [= <- <-]].
  destruct (inode_at w ino) as [i|] eqn:Hi; [|done]. cbn [mbind option_bind].
  destruct (i_placement i =? BLK_PLACEMENT_TBD).
  { eapply run_io_life; [|exact Hf|apply write_iters_keep].
    pose proof H as (H0 & Hn0 & Hnx). split_and!; [|done|done]. cbn.
    destruct (lf_refs _ _ _ _ H0 _ _ Hi).
    eapply life_set; [exact H0|exact Hi|done|done|done|done|done|by auto]. }
  assert (forall fd' : Z, (let '(ret, fs) :=
      if offset =? -1 then fs_write (w_fs w) fd' (ztake count buf)
      else fs_pwrite (w_fs w) fd' (ztake count buf) offset in
    Some (ret, w <| w_fs := fs |>)) = Some (r, w') -> wlife exact n w') as Hdev.
  { intros fd'. destruct (offset =? -1); [destruct (fs_write _ _ _)|
      destruct (fs_pwrite _ _ _ _)]; intros [= <- <-]; by eapply life_ext. }
  destruct (i_placement i =? BLK_PLACEMENT_FAST); [apply Hdev|].
  destruct (i_placement i =? BLK_PLACEMENT_SLOW); [apply Hdev|].
  destruct (i_placement i =? BLK_PLACEMENT_BOTH); [|by intros [= <- <-]].
  eapply run_io_life; [exact H|exact Hf|apply write_iters_keep].
Qed.

Lemma ftruncate_life exact n env stack fd len w r w' :
  wlife exact n w -> polystore_ftruncate env stack fd len w = Some (r, w') ->
  wlife exact n w'.
Proof.
  intros H. unfold polystore_ftruncate, polystore_file_find.
  destruct (rdlock_ok env); [|by intros [= <- <-]].
  destruct (file_lookup _ _) as [file|] eqn:Hf; [|by intros [= <- <-]].
  destruct (f_inode file) as [ino|]; [|by intros [= <- <-]].
  destruct (inode_at w ino) as [i|]; [|done]. cbn [mbind option_bind].
  destruct (_ =? _); [destruct (fs_ftruncate _ _ _); intros [= <- <-]; by eapply life_ext|].
  destruct (_ =? _); [destruct (fs_ftruncate _ _ _); intros [= <- <-]; by eapply life_ext|].
  eapply run_io_life; [exact H|exact Hf|]. intros *. apply ftruncate_iter_keeps.
Qed.

Lemma set_file_life exact n fd file file' w :
  wlife exact n w -> file_lookup fd (l_files (w_lib w)) = Some file ->
  f_inode file' = f_inode file -> wlife exact n (set_file fd file' w).
Proof.
  intros (H & Hn0 & Hnx) Hf Hi. split_and!; [|done|done]. cbn.
  by rewrite (open_inodes_store _ file).
Qed.

Lemma lseek_life exact n env fd offset whence w r w' :
  wlife exact n w -> polystore_lseek env fd offset whence w = Some (r, w') ->
  wlife exact n w'.
Proof.
  intros H. unfold polystore_lseek, polystore_file_find.
  destruct (rdlock_ok env); [|by intros [= <- <-]].
  destruct (file_lookup _ _) as [file|] eqn:Hf; [|by intros [= <- <-]].
  destruct (f_inode file) as [ino|]; [|by intros [= <- <-]].
  destruct (whence =? SEEK_CUR); [|destruct (whence =? SEEK_END)].
  2: destruct (inode_at w ino); [|done].
  all: intros [= <- <-]; by eapply set_file_life.
Qed.

(** ** The system as a transition relation *)

(** One call of the library by any thread, or something else that happens. *)
Inductive step (exact : bool) : world Fs -> world Fs -> Prop :=
| step_open env pathname flags mode w fd w' :
    env_exact exact env ->
    polystore_open cfg env pathname flags mode w = Some (fd, w') -> step exact w w'
| step_close env fd w ret w' :
    env_exact exact env -> close_locks env ->
    polystore_close env fd w = Some (ret, w') -> step exact w w'
| step_unlink env pathname w ret w' :
    env_exact exact env ->
    polystore_unlink cfg env pathname w = Some (ret, w') -> step exact w w'
| step_rename env oldname newname w ret w' :
    env_exact exact env -> rename_free oldname newname w ->
    polystore_rename cfg env oldname newname w = Some (ret, w') -> step exact w w'
| step_read env fd buf count offset w r w' :
    polystore_read_generic env fd buf count offset w = Some (r, w') -> step exact w w'
| step_write env fd buf count offset w ret w' :
    polystore_write_generic env fd buf count offset w = Some (ret, w') ->
    step exact w w'
| step_ftruncate env stack fd len w ret w' :
    polystore_ftruncate env stack fd len w = Some (ret, w') -> step exact w w'
| step_lseek env fd offset whence w ret w' :
    polystore_lseek env fd offset whence w = Some (ret, w') -> step exact w w'
| step_files fs w :
    (* the file systems change: directories, attributes, other processes *)
    step exact w (w <| w_fs := fs |>)
| step_task tls l k w :
    (* task contexts are registered, deleted or moved, another thread runs *)
    k_itable k = k_itable (w_os w) -> k_inodes k = k_inodes (w_os w) ->
    k_next_ino k = k_next_ino (w_os w) -> l_files l = l_files (w_lib w) ->
    step exact w (w <| w_tls := tls |> <| w_lib := l |> <| w_os := k |>).

Definition start_world (fs : Fs) (split_point : Z) : world Fs :=
  World fs init_os (init_lib split_point) None.

Lemma start_life exact fs split_point : wlife exact 0 (start_world fs split_point).
Proof.
  split_and!; [|done|done]. split; cbn; [apply kinv_init| |].
  - intros o Ho. by apply elem_of_nil in Ho.
  - intros ino i Hi. done.
Qed.

Lemma step_life exact n w w' :
  wlife exact n w -> n < 2 ^ 31 - 1 -> step exact w w' -> wlife exact (n + 1) w'.
Proof.
  intros H Hn Hs. assert (wlife exact n w' \/ wlife exact (n + 1) w') as [Hw|Hw];
    [|destruct Hw as (H1 & H2 & H3); split_and!; [|lia..];
      by apply (life_mono _ n); [lia|]|done].
  destruct Hs.
  - right. by eapply open_life.
  - left. edestruct close_life as (r & w1 & E & Hl); [exact H|lia|done|].
    rewrite E in H2. injection H2 as <- <-. by apply Hl.
  - left. by eapply unlink_life.
  - left. by eapply rename_life.
  - left. by eapply read_life.
  - left. by eapply write_life.
  - left. by eapply ftruncate_life.
  - left. by eapply lseek_life.
  - left. by eapply life_ext.
  - left. by eapply life_ext.
Qed.

Lemma nsteps_life exact n fs split_point w :
  nsteps (step exact) n (start_world fs split_point) w -> Z.of_nat n < 2 ^ 31 ->
  wlife exact n w.
Proof.
  intros Hs. remember (start_world fs split_point) as w0 eqn:E0.
  assert (wlife exact 0 w0) as H0 by (subst; apply start_life).
  assert (forall m, wlife exact (Z.of_nat m) w0 -> Z.of_nat m + n < 2 ^ 31 ->
    wlife exact (Z.of_nat m + n) w) as Hgen.
  { clear E0 H0. induction Hs as [w|n w0 w1 w2 Hs1 Hs IH]; intros m Hm Hlt.
    - by rewrite Z.add_0_r.
    - apply (step_life _ _ _ w1) in Hm; [|lia|done].
      replace (Z.of_nat m + S n) with (Z.of_nat (S m) + n) by lia.
      apply IH; [by replace (Z.of_nat (S m)) with (Z.of_nat m + 1) by lia|lia]. }
  intros Hlt. apply (Hgen 0%nat); [done|lia].
Qed.

End calls.

(** ** Properties *)

(** C27: take any history of fewer than 2^31 calls on any number of threads, with
    any failures of the kernel's and the process's services, in which no rename
    targets a name that is still registered ([rename_free]) and no close fails to
    take the write lock after it found the descriptor ([close_locks]).  Then the
    inode of every open descriptor is allocated, registered under its path hash and
    counted at least once per descriptor, and closing any descriptor, with any
    failures, finds all the memory it needs: there is no use after free. *)
Theorem open_files_alive `{!PosixFS Fs, !PosixNS Fs} (cfg : config) (fs : Fs)
    (split_point : Z) (n : nat) (w : world Fs) :
  nsteps (step cfg false) n (start_world fs split_point) w -> Z.of_nat n < 2 ^ 31 ->
  (forall fd f, (fd, f) ∈ l_files (w_lib w) ->
     exists ino i, f_inode f = Some ino /\ inode_at w ino = Some i /\
       i_hashtable_search (i_path_hash i) (w_os w) = Some ino /\
       refs ino (open_inodes (l_files (w_lib w))) <= i_refcount i) /\
  (forall env fd, is_Some (polystore_close env fd w)).
Proof.
  intros Hs Hn. pose proof (nsteps_life _ _ _ _ _ _ Hs Hn) as Hw.
  pose proof Hw as (H & _). split.
  - intros fd f Hin. destruct (lf_open _ _ _ _ H (f_inode f)) as (ino & i & Ef & Hi & Ht).
    { apply list_elem_of_fmap. by exists (fd, f). }
    exists ino, i. split_and!; [done|done|by eapply registered|].
    by apply (lf_refs _ _ _ _ H).
  - intros env fd. destruct (close_life false n env fd w) as (r & w' & -> & _);
      [done|done|done|eauto].
Qed.

(** C28: in a history of fewer than 2^31 calls in which no service fails and no
    rename targets a name that is still registered, the reference count of every
    inode is the number of descriptors open for it. *)
Theorem refcount_exact `{!PosixFS Fs, !PosixNS Fs} (cfg : config) (fs : Fs)
    (split_point : Z) (n : nat) (w : world Fs) (ino : Z) (i : poly_inode) :
  nsteps (step cfg true) n (start_world fs split_point) w -> Z.of_nat n < 2 ^ 31 ->
  inode_at w ino = Some i ->
  i_refcount i = refs ino (open_inodes (l_files (w_lib w))).
Proof.
  intros Hs Hn Hi. destruct (nsteps_life _ _ _ _ _ _ Hs Hn) as (H & _).
  by apply (lf_refs _ _ _ _ H ino i Hi).
Qed.

(** C29: after such a history, closing the only descriptor of an unlinked file,
    without a failure, frees its inode and removes it from the kernel's table; the
    inode number has to lie in the region the clients map. *)
Theorem last_close_frees `{!PosixFS Fs, !PosixNS Fs} (cfg : config) (fs : Fs)
    (split_point : Z) (n : nat) (w : world Fs) (fd : Z) (f : poly_file) (ino : Z)
    (i : poly_inode) :
  nsteps (step cfg true) n (start_world fs split_point) w -> Z.of_nat n < 2 ^ 31 ->
  file_lookup fd (l_files (w_lib w)) = Some f -> f_inode f = Some ino ->
  inode_at w ino = Some i -> i_reclaim i = 1 -> ino <= MAX_POLY_INODE_NR ->
  refs ino (open_inodes (l_files (w_lib w))) = 1 ->
  exists ret w', polystore_close call_ok fd w = Some (ret, w') /\
    inode_at w' ino = None /\ i_hashtable_search (i_path_hash i) (w_os w') = None.
Proof.
  intros Hs Hn Hf Ef Hi Hrec Hmax Hrefs.
  destruct (nsteps_life _ _ _ _ _ _ Hs Hn) as (H & _).
  destruct (lf_refs _ _ _ _ H _ _ Hi) as [_ Hx]. rewrite Hrefs in Hx.
  destruct (lf_open _ _ _ _ H (Some ino)) as (? & j & [= <-] & Hj & Hin).
  { rewrite (file_remove_perm _ _ _ Hf), Ef. left. }
  unfold inode_at in Hi. rewrite Hi in Hj. injection Hj as <-.
  pose proof (registered _ _ _ _ _ _ H Hin) as Hreg.
  pose proof (ki_fresh _ (lf_kinv _ _ _ _ H) _ _ Hi) as [Hpos _].
  unfold polystore_close, polystore_file_find, polystore_file_delete, inode_at.
  cbn [rdlock_ok wrlock_ok c_uenv call_ok user_ok]. rewrite Hf, Ef, Hi. cbn [mbind option_bind].
  unfold polyos_close. cbn [negb copy_from_ok c_kenv call_ok all_ok]. rewrite Hreg.
  destruct (ns_close (w_fs w) _) as [? fs1], (ns_close fs1 _) as [ret fs2].
  rewrite Hi. cbn [mbind option_bind]. rewrite Hx, Hrec by done. cbn [Z.sub Z.eqb andb].
  do 2 eexists. split; [done|]. unfold free_poly_inode.
  assert (vma_covers true POLY_INODE_VADDR_BASE POLY_INODE_VADDR_RANGE
    (GET_POLY_INODE_VADDR ino) = true) as Hv.
  { unfold vma_covers, GET_POLY_INODE_VADDR, PAGE_SHIFT, MAX_POLY_INODE_NR,
      POLY_INODE_VADDR_BASE, POLY_INODE_VADDR_RANGE in *. cbn [andb].
    rewrite Z.shiftl_mul_pow2, (u64_id ino), u64_id by lia.
    apply andb_true_iff. split; [apply Z.leb_le|apply Z.ltb_lt]; lia. }
  cbn [c_kenv call_ok inode_vma_ok all_ok]. rewrite Hv. cbn. split.
  - apply lookup_delete_eq.
  - unfold i_hashtable_search. cbn.
    destruct (hash_search _ (hash_del_first _ _)) as [v|] eqn:E; [|done].
    apply hash_search_Some, elem_of_hash_del_first in E as [_ E]; [done|apply H].
Qed.

(** ** Witnesses *)

Definition example_cfg : config := Config "/mnt/fast" "/mnt/slow" false.

Definition example_path : string := "/mnt/polystore/a".

(** Open a new file from the initial state. *)
Definition example_open : option (Z * world MemFS.memfs) :=
  polystore_open example_cfg call_ok example_path (Z.lor O_RDWR O_CREAT) 438
    (start_world MemFS.m_empty 1).

Definition example_opened : world MemFS.memfs :=
  default (start_world MemFS.m_empty 1) (snd <$> example_open).

Lemma example_open_eq : example_open = Some (POLYSTORE_GEN_FD 3 4, example_opened).
Proof.
  assert (fst <$> example_open = Some (POLYSTORE_GEN_FD 3 4)) as H by by vm_compute.
  unfold example_opened. destruct example_open as [[fd w]|]; [|done].
  by injection H as ->.
Qed.

Lemma example_steps exact :
  nsteps (step example_cfg exact) 1 (start_world MemFS.m_empty 1) example_opened.
Proof.
  apply nsteps_once. by apply (step_open _ _ call_ok example_path
    (Z.lor O_RDWR O_CREAT) 438 _ (POLYSTORE_GEN_FD 3 4)); [|apply example_open_eq].
Qed.

Lemma open_files_alive_witness :
  exists i, inode_at example_opened 0 = Some i /\ 1 <= i_refcount i.
Proof.
  destruct (open_files_alive example_cfg MemFS.m_empty 1 1 example_opened
    (example_steps false) ltac:(lia)) as [H _].
  destruct (H (POLYSTORE_GEN_FD 3 4)
    (File (POLYSTORE_GEN_FD 3 4) (Z.lor O_RDWR O_CREAT) 0 (Some 0)))
    as (ino & i & Ho & Hi & _ & Hr); [vm_compute; left|].
  injection Ho as <-. exists i. split; [exact Hi|].
  etransitivity; [|exact Hr]. by vm_compute.
Defined.

Lemma refcount_exact_witness :
  exists i, inode_at example_opened 0 = Some i /\ i_refcount i = 1.
Proof.
  destruct (inode_at example_opened 0) as [i|] eqn:E; [|exfalso; by vm_compute in E].
  exists i. split; [done|].
  rewrite (refcount_exact example_cfg MemFS.m_empty 1 1 example_opened 0 i
    (example_steps true) ltac:(lia) E). by vm_compute.
Defined.

(** Unlink the file while it is open. *)
Definition example_unlinked : world MemFS.memfs :=
  default example_opened
    (snd <$> polystore_unlink example_cfg call_ok example_path example_opened).

Lemma example_unlink_steps :
  nsteps (step example_cfg true) 2 (start_world MemFS.m_empty 1) example_unlinked.
Proof.
  apply (nsteps_trans 1 1 _ example_opened); [apply example_steps|].
  eapply nsteps_once, (step_unlink _ _ call_ok example_path _ 0); [by intros _|].
  assert (fst <$> polystore_unlink example_cfg call_ok example_path example_opened = Some 0)
    as H by by vm_compute.
  unfold example_unlinked.
  destruct (polystore_unlink _ _ _ _) as [[ret w]|]; [|done]. by injection H as ->.
Qed.

Lemma last_close_frees_witness :
  exists ret w', polystore_close call_ok (POLYSTORE_GEN_FD 3 4) example_unlinked =
    Some (ret, w') /\ inode_at w' 0 = None.
Proof.
  destruct (inode_at example_unlinked 0) as [i|] eqn:E; [|exfalso; by vm_compute in E].
  assert (i_reclaim <$> inode_at example_unlinked 0 = Some 1) as Hr by by vm_compute.
  rewrite E in Hr. injection Hr as Hr.
  destruct (last_close_frees example_cfg MemFS.m_empty 1 2 example_unlinked
    (POLYSTORE_GEN_FD 3 4)
    (File (POLYSTORE_GEN_FD 3 4) (Z.lor O_RDWR O_CREAT) 0 (Some 0)) 0 i
    example_unlink_steps ltac:(lia)) as (ret & w' & H1 & H2 & _);
    [by vm_compute|done|exact E|exact Hr|by vm_compute|by vm_compute|].
  exists ret, w'. split; [exact H1|exact H2].
Defined.

End LifeCycle.
