(* ===== verification/OpeMetaSpec.v ===== *)
(** * Opening files

    [open_new_file] connects the metadata operations with the data path: the
    first open of a path gives a descriptor that holds the empty file, to which
    the refinement theorem of the data operations applies; [fstat_reports_size]
    follows it with data operations and [fstat].  The other theorems
    are about opens that do not give the file they should. *)

From S2P Require Import Prelude Defs Util Posix IntervalTree Indexing IoDirect.
From S2P Require Import IoDirectSpec PolyOS Context OpeData OpeDataSpec OpeMeta.
From S2P Require Import LifeCycle.
Import IoDirect IoDirectSpec PolyOS Context OpeData OpeDataSpec OpeMeta LifeCycle.

#[local] Open Scope Z_scope.

Module OpeMetaSpec.

Section opening.
Context {Fs : Type} `{!PosixFS Fs, !PosixNS Fs}.
Variable cfg : config.
Implicit Types w : world Fs.

(** Opening a physical file gives the descriptor [fd], within the 12 bits a
    PolyStore descriptor has for it. *)
Definition opens (fs : Fs) (path : string) (flags mode fd : Z) (fs' : Fs) : Prop :=
  ns_get_unused_fd fs flags = fd /\ 0 <= fd < 4096 /\
  ns_filp_open fs path flags mode fd = (0, fs').

(** Both physical files of [pathname] can be opened. *)
Definition opens_pair w (pathname : string) (flags mode ffd sfd : Z) (fs2 : Fs) : Prop :=
  exists fastpath slowpath fs1,
    physpaths cfg pathname = Some (fastpath, slowpath) /\
    Z.of_nat (String.length fastpath) < PATH_LEN_MAX /\
    Z.of_nat (String.length slowpath) < PATH_LEN_MAX /\
    opens (w_fs w) fastpath (Z.lor flags O_LARGEFILE) mode ffd fs1 /\
    opens fs1 slowpath (Z.lor flags O_LARGEFILE) mode sfd fs2.

Lemma sys_open_opens fs path flags mode fd fs' :
  opens fs path flags mode fd fs' -> polyos_sys_open fs path flags mode = (false, fd, fs').
Proof.
  intros (Hfd & Hb & Ho). unfold polyos_sys_open. rewrite Hfd, Ho.
  by rewrite (proj2 (Z.leb_le 0 fd)) by lia.
Qed.

(** The call up to the kernel's answer about the inode. *)
Lemma open_kernel w pathname flags mode ffd sfd fs2 :
  opens_pair w pathname flags mode ffd sfd fs2 ->
  exists fp sp,
    polystore_open cfg call_ok pathname flags mode w =
    ('(ret, cmd, k) ← polyos_open_inode all_ok (LARGE_INDEX cfg)
        (OpenCmd fp sp (path_hash pathname) mode flags (POLYSTORE_GEN_FD ffd sfd) 0 0)
        (w_os w);
     let w := w <| w_fs := fs2 |> <| w_os := k |> in
     let fd := oc_fd cmd in
     if ioctl_ret ret <? 0 then Some (fd, w)
     else if oc_inode_addr cmd =? 0 then Some (fd, w)
     else if oc_index_addr cmd =? 0 then Some (fd, w)
     else
       w ← open_file cfg call_ok fd flags (inode_of_addr (oc_inode_addr cmd))
             (oc_index_addr cmd) w;
       Some (fd, w)).
Proof.
  intros (fp & sp & fs1 & Hp & Hf & Hs & Ho1 & Ho2). exists fp, sp. unfold polystore_open, cmd_path.
  rewrite Hp. cbn [mbind option_bind]. rewrite (proj2 (Z.ltb_lt _ _) Hf).
  cbn [mbind option_bind]. rewrite (proj2 (Z.ltb_lt _ _) Hs). cbn [mbind option_bind].
  unfold polyos_open.
  cbn [copy_from_ok copy_to_ok c_kenv call_ok all_ok negb oc_flags oc_fastpath oc_slowpath
    oc_mode].
  rewrite (sys_open_opens _ _ _ _ _ _ Ho1), (sys_open_opens _ _ _ _ _ _ Ho2).
  cbn [update open_cmd_copy copy]. 
  destruct (polyos_open_inode _ _ _ _) as [[[ret c] k]|]; done.
Qed.

Lemma opens_pair_bounds w pathname flags mode ffd sfd fs2 :
  opens_pair w pathname flags mode ffd sfd fs2 -> 0 <= ffd < 4096 /\ 0 <= sfd < 4096.
Proof. intros (? & ? & ? & _ & _ & _ & (_ & ? & _) & (_ & ? & _)). done. Qed.

(** The inodes whose index region lies in the range the client maps. *)
Definition inode_limit (large : bool) : Z := if large then 4096 else MAX_POLY_INODE_NR + 1.

Lemma vaddrs_covered large ino :
  0 <= ino < inode_limit large ->
  vma_covers true POLY_INODE_VADDR_BASE POLY_INODE_VADDR_RANGE
    (GET_POLY_INODE_VADDR ino) = true /\
  vma_covers true POLY_INDEX_VADDR_BASE POLY_INDEX_VADDR_RANGE
    (GET_POLY_INDEX_VADDR large ino) = true.
Proof.
  intros Hi. unfold inode_limit, MAX_POLY_INODE_NR in Hi.
  unfold vma_covers, GET_POLY_INODE_VADDR, GET_POLY_INDEX_VADDR, PAGE_SHIFT,
    POLY_INDEX_MAX_MEM_SIZE_SHIFT, POLY_INODE_VADDR_BASE, POLY_INODE_VADDR_RANGE,
    POLY_INDEX_VADDR_BASE, POLY_INDEX_VADDR_RANGE. cbn [andb].
  rewrite (u64_id ino) by (destruct large; lia).
  destruct large; rewrite !Z.shiftl_mul_pow2, !u64_id by lia;
    split; apply andb_true_iff; split; (apply Z.leb_le || apply Z.ltb_lt); lia.
Qed.

(** A fresh inode is allocated, registered and mapped. *)
Lemma open_inode_fresh large cmd k :
  i_hashtable_search (oc_path_hash cmd) k = None ->
  0 <= k_next_ino k < inode_limit large ->
  let ino := k_next_ino k in
  polyos_open_inode all_ok large cmd k =
    Some (0, cmd <| oc_inode_addr := GET_POLY_INODE_VADDR ino |>
                 <| oc_index_addr := GET_POLY_INDEX_VADDR large ino |>,
          k <| k_next_ino := ino + 1 |>
            <| k_inodes := <[ino := init_poly_inode (s32 (oc_path_hash cmd)) ino
                                      (oc_mode cmd)]> (k_inodes k) |>
            <| k_itable := (u32 (oc_path_hash cmd), ino) :: k_itable k |>).
Proof.
  intros Hs Hi ino. destruct (vaddrs_covered large ino Hi) as [Hv1 Hv2].
  assert (0 <= ino <= MAX_POLY_INODE_NR) as Hb
    by (unfold ino, inode_limit, MAX_POLY_INODE_NR in *; destruct large; lia).
  assert (MAX_POLY_INODE_NR = 32768) as Hmax by done.
  unfold polyos_open_inode. rewrite Hs.
  unfold i_hashtable_search_and_insert, alloc_poly_inode.
  cbn [vmalloc_index_ok vmalloc_inode_ok all_ok negb].
  fold ino. rewrite s32_id, u32_id, (proj2 (Z.ltb_ge _ _)) by lia.
  unfold i_hashtable_search in *. cbn [k_itable update]. rewrite Hs.
  cbn [kmalloc_ok inode_vma_ok index_vma_ok all_ok mbind option_bind]. rewrite Hv1.
  cbn [negb remap_inode_ok remap_index_ok all_ok]. by rewrite Hv2.
Qed.

Lemma index_vaddr_pos large ino :
  0 <= ino < inode_limit large -> GET_POLY_INDEX_VADDR large ino <> 0.
Proof.
  intros Hi. destruct (vaddrs_covered large ino Hi) as [_ Hv].
  unfold vma_covers, POLY_INDEX_VADDR_BASE in Hv. zbool. lia.
Qed.

Lemma inode_vaddr_pos large ino :
  0 <= ino < inode_limit large -> GET_POLY_INODE_VADDR ino <> 0.
Proof.
  intros Hi. destruct (vaddrs_covered large ino Hi) as [Hv _].
  unfold vma_covers, POLY_INODE_VADDR_BASE in Hv. zbool. lia.
Qed.

Lemma open_fresh w pathname flags mode ffd sfd fs2 fo so id t :
  opens_pair w pathname flags mode ffd sfd fs2 ->
  fs_object fs2 ffd = Some fo -> fs_object fs2 sfd = Some so -> fo <> so ->
  fs_size fs2 fo = 0 -> fs_size fs2 so = 0 ->
  i_hashtable_search (path_hash pathname) (w_os w) = None ->
  0 <= k_next_ino (w_os w) < inode_limit (LARGE_INDEX cfg) ->
  w_tls w = Some id -> task_at (w_os w) id = Some t -> placed t ->
  Z.land flags O_APPEND = 0 ->
  exists w', polystore_open cfg call_ok pathname flags mode w =
      Some (POLYSTORE_GEN_FD ffd sfd, w') /\
    holds (LARGE_INDEX cfg) w' (POLYSTORE_GEN_FD ffd sfd) (AFile [] 0).
Proof.
  intros Hp Hfo Hso Hne Hfz Hsz Hs Hi Htls Ht Hpl Hap.
  destruct (opens_pair_bounds _ _ _ _ _ _ _ Hp) as [Hf1 Hs1].
  destruct (gen_fd_parts ffd sfd Hf1 Hs1) as (Hg1 & Hg2 & _).
  destruct (open_kernel w pathname flags mode ffd sfd fs2 Hp) as (fp & sp & ->).
  rewrite open_inode_fresh by done. set (ino := k_next_ino (w_os w)) in *.
  pose proof (index_vaddr_pos _ _ Hi) as Hx. pose proof (inode_vaddr_pos _ _ Hi) as Hy.
  assert (0 <= ino < 2 ^ 31) as Hino.
  { unfold inode_limit, MAX_POLY_INODE_NR in Hi. destruct (LARGE_INDEX cfg); lia. }
  cbn [mbind option_bind oc_fd oc_inode_addr oc_index_addr update ioctl_ret Z.ltb Z.compare].
  cbn [copy open_cmd_copy oc_fd oc_inode_addr oc_index_addr].
  rewrite (proj2 (Z.eqb_neq _ _) Hy), (proj2 (Z.eqb_neq _ _) Hx), inode_of_vaddr by done.
  unfold open_file, inode_at. cbn. rewrite lookup_insert_eq. cbn.
  rewrite lookup_insert_eq. eexists. split; [done|].
  set (f := File (POLYSTORE_GEN_FD ffd sfd) flags 0 (Some ino)).
  set (i := init_poly_inode (s32 (path_hash pathname)) ino mode
    <| i_index := GET_POLY_INDEX_VADDR (LARGE_INDEX cfg) ino |>
    <| i_index_slots := index_slots (LARGE_INDEX cfg) |> <| i_refcount := 1 |>).
  exists f, ino, (IOState fs2 f i t). split_and!; try done.
  - cbn. rewrite Z.eqb_refl. cbn. by rewrite Z.eqb_refl.
  - unfold io_view, inode_at. cbn. rewrite lookup_insert_eq. cbn. rewrite Htls. cbn.
    change (task_at _ id) with (task_at (w_os w) id). by rewrite Ht.
  - apply (represents_fresh _ fo so); unfold fastfd_of, slowfd_of; cbn;
      rewrite ?Hg1, ?Hg2; done || apply index_slots_bound.
  - by right.
Qed.

End opening.

(** [fstat] succeeds and reports the size [n]. *)
Definition fstat_reports `{!PosixFS Fs} (w : world Fs) (fd n : Z) : Prop :=
  exists st, polystore_fstat call_ok fd w = Some (0, Some st) /\ st_size st = n.

(** The size [fstat] computes from the two physical files. *)
Lemma fstat_size `{!PosixFS Fs, !PosixFSLaws Fs, !ReliableFS Fs} large (w : world Fs) fd a :
  holds large w fd a -> fstat_reports w fd (zlength (a_data a)).
Proof.
  intros (file & ino & st & Hf & Hpfd & Hino & _ & _ & _ & Hv & Hr & _ & Hpl & _).
  destruct (io_view_fields _ _ _ _ Hv) as (Hi & Hfile & Hfs & _).
  destruct Hr as (fo & so & es & _ & [_ L Ho1 Ho2] & _).
  unfold fastfd_of, slowfd_of in Ho1, Ho2. rewrite Hfile, Hfs, Hpfd in Ho1, Ho2.
  destruct (fstat_reliable _ _ _ Ho1) as [r1 E1], (fstat_reliable _ _ _ Ho2) as [r2 E2].
  unfold fstat_reports, polystore_fstat, polystore_file_find. cbn [rdlock_ok wrlock_ok c_uenv call_ok user_ok].
  rewrite Hf, Hino, Hi. cbn [mbind option_bind].
  pose proof (lay_sum _ _ _ _ _ L) as Hsum. rewrite Hfs in Hsum.
  destruct Hpl as [->|[-> _]]; cbn [Z.eqb]; rewrite E1, E2; cbn; (eexists; split; [done|]);
    exact Hsum.
Qed.

(** ** Properties *)

(** C30: the first open of a path, when both physical files can be opened and are
    empty, gives a descriptor made of the two physical ones that holds the empty
    file at offset 0: the data operations on it refine a byte array from there on. *)
Theorem open_new_file `{!PosixFS Fs, !PosixNS Fs} (cfg : config) (w : world Fs)
    (pathname : string) (flags mode ffd sfd : Z) (fs2 : Fs) (fo so id : Z)
    (t : g_task_ctx) :
  opens_pair cfg w pathname flags mode ffd sfd fs2 ->
  fs_object fs2 ffd = Some fo -> fs_object fs2 sfd = Some so -> fo <> so ->
  fs_size fs2 fo = 0 -> fs_size fs2 so = 0 ->
  i_hashtable_search (path_hash pathname) (w_os w) = None ->
  0 <= k_next_ino (w_os w) < inode_limit (LARGE_INDEX cfg) ->
  w_tls w = Some id -> task_at (w_os w) id = Some t -> placed t ->
  Z.land flags O_APPEND = 0 ->
  exists w', polystore_open cfg call_ok pathname flags mode w =
      Some (POLYSTORE_GEN_FD ffd sfd, w') /\
    holds (LARGE_INDEX cfg) w' (POLYSTORE_GEN_FD ffd sfd) (AFile [] 0).
Proof. apply open_fresh. Qed.

(** C31: after the first open of a path as above and any sequence of reads, writes
    and seeks within the envelope [ops_ok], each of which returns what the byte
    array returns, [fstat] on the descriptor reports the size of the byte array,
    although it adds up the sizes of two physical files that each hold some of the
    pieces of the file: the pieces are packed without gaps. *)
Theorem fstat_reports_size `{!PosixFS Fs, !PosixNS Fs, !PosixFSLaws Fs, !ReliableFS Fs}
    (cfg : config) (w : world Fs) (pathname : string) (flags mode ffd sfd : Z) (fs2 : Fs)
    (fo so id : Z) (t : g_task_ctx) (ops : list data_op) :
  opens_pair cfg w pathname flags mode ffd sfd fs2 ->
  fs_object fs2 ffd = Some fo -> fs_object fs2 sfd = Some so -> fo <> so ->
  fs_size fs2 fo = 0 -> fs_size fs2 so = 0 ->
  i_hashtable_search (path_hash pathname) (w_os w) = None ->
  0 <= k_next_ino (w_os w) < inode_limit (LARGE_INDEX cfg) ->
  w_tls w = Some id -> task_at (w_os w) id = Some t -> placed t ->
  Z.land flags O_APPEND = 0 ->
  ops_ok (LARGE_INDEX cfg) ops (AFile [] 0) ->
  let fd := POLYSTORE_GEN_FD ffd sfd in
  let '(outs, a) := spec_ops ops (AFile [] 0) in
  exists w1 w2, polystore_open cfg call_ok pathname flags mode w = Some (fd, w1) /\
    run_ops fd ops w1 = Some (outs, w2) /\
    fstat_reports w2 fd (zlength (a_data a)).
Proof.
  intros Hp Hfo Hso Hne Hfz Hsz Hs Hi Htls Ht Hpl Hap Hops fd.
  destruct (open_fresh cfg w pathname flags mode ffd sfd fs2 fo so id t)
    as (w1 & E1 & H1); [done..|].
  destruct (run_ops_refines _ _ _ _ _ H1 Hops) as (w2 & E2 & H2).
  apply fstat_size in H2.
  destruct (spec_ops ops (AFile [] 0)) as [outs a]. by exists w1, w2.
Qed.

(** With large indexes, the index region of inode 4096 and up lies outside the
    range the client maps.  Opening a new file then fails in the kernel, but the
    call returns a descriptor that looks valid, for which there is no open file,
    and both physical files stay open. *)
Theorem large_index_open_fails `{!PosixFS Fs, !PosixNS Fs} (cfg : config)
    (w : world Fs) (pathname : string) (flags mode ffd sfd : Z) (fs2 : Fs) :
  LARGE_INDEX cfg = true -> opens_pair cfg w pathname flags mode ffd sfd fs2 ->
  i_hashtable_search (path_hash pathname) (w_os w) = None ->
  4096 <= k_next_ino (w_os w) <= MAX_POLY_INODE_NR ->
  exists w', polystore_open cfg call_ok pathname flags mode w =
      Some (POLYSTORE_GEN_FD ffd sfd, w') /\
    w_lib w' = w_lib w /\ w_fs w' = fs2.
Proof.
  intros Hl Hp Hs Hi. unfold MAX_POLY_INODE_NR in Hi.
  destruct (open_kernel cfg w pathname flags mode ffd sfd fs2 Hp) as (fp & sp & ->).
  rewrite Hl. unfold polyos_open_inode. cbn [oc_path_hash oc_mode]. rewrite Hs.
  unfold i_hashtable_search_and_insert, alloc_poly_inode, MAX_POLY_INODE_NR.
  cbn [vmalloc_index_ok vmalloc_inode_ok all_ok negb].
  rewrite s32_id, u32_id, (proj2 (Z.ltb_ge _ _)) by lia.
  unfold i_hashtable_search in *. cbn [k_itable update]. rewrite Hs.
  cbn [kmalloc_ok inode_vma_ok index_vma_ok all_ok mbind option_bind remap_inode_ok].
  assert (vma_covers true POLY_INDEX_VADDR_BASE POLY_INDEX_VADDR_RANGE
    (GET_POLY_INDEX_VADDR true (k_next_ino (w_os w))) = false) as ->.
  { unfold vma_covers, GET_POLY_INDEX_VADDR, POLY_INDEX_MAX_MEM_SIZE_SHIFT,
      POLY_INDEX_VADDR_BASE, POLY_INDEX_VADDR_RANGE.
    rewrite Z.shiftl_mul_pow2, (u64_id (k_next_ino _)), u64_id by lia.
    apply andb_false_iff. right. apply Z.ltb_ge. lia. }
  destruct (vma_covers _ _ _ _); cbn [negb mbind option_bind ioctl_ret Z.ltb Z.compare];
    (eexists; split_and!; [done|done|done]).
Qed.

(** The library after its main thread registered with the kernel module. *)
Definition booted : world MemFS.memfs :=
  match polystore_task_ctx_register all_ok (init_lib 1) init_os None with
  | Some (_, tls, l, k) => World MemFS.m_empty k l tls
  | None => start_world MemFS.m_empty 1
  end.

Definition rw_creat : Z := Z.lor O_RDWR O_CREAT.

(** A path unlinked while open and created again gets the old inode: the new,
    empty file is reported to have the two bytes of the old one, and once both
    descriptors are closed the inode is dropped although the file still exists. *)
Theorem recreate_while_open :
  ('(fd1, w) ← polystore_open example_cfg call_ok example_path rw_creat 438 booted;
   '(written, w) ← polystore_write user_ok fd1 [x41; x42] 2 w;
   '(unlinked, w) ← polystore_unlink example_cfg call_ok example_path w;
   '(fd2, w) ← polystore_open example_cfg call_ok example_path rw_creat 438 w;
   '(new_size, w) ← polystore_lseek user_ok fd2 0 SEEK_END w;
   '(_, w) ← polystore_close call_ok fd1 w;
   '(_, w) ← polystore_close call_ok fd2 w;
   Some (written, unlinked, new_size,
         i_hashtable_search (path_hash example_path) (w_os w),
         ns_access (w_fs w) "/mnt/fast/a" 0)) =
  Some (2, 0, 2, None, 0).
Proof. vm_compute. reflexivity. Qed.

(** Opening a file with [O_TRUNC] empties the physical files but leaves the
    size and the index of the inode as they were. *)
Theorem trunc_keeps_size :
  ('(fd, w) ← polystore_open example_cfg call_ok example_path rw_creat 438 booted;
   '(_, w) ← polystore_write user_ok fd [x41; x42] 2 w;
   '(_, w) ← polystore_close call_ok fd w;
   '(fd, w) ← polystore_open example_cfg call_ok example_path (Z.lor O_RDWR O_TRUNC) 438 w;
   '(_, st) ← polystore_stat example_cfg example_path w;
   '(size, w) ← polystore_lseek user_ok fd 0 SEEK_END w;
   Some (option_map st_size st, size)) =
  Some (Some 0, 2).
Proof. vm_compute. reflexivity. Qed.

(** Inodes are found by a 32-bit hash of the path that is not compared with the
    path: two different files whose paths collide share one inode, and the empty
    second file is reported to have the size of the first. *)
Theorem hash_collision_shares_inode :
  let path1 := "/mnt/polystore/f13459"%string in
  let path2 := "/mnt/polystore/f261636"%string in
  path1 <> path2 /\
  ('(fd1, w) ← polystore_open example_cfg call_ok path1 rw_creat 438 booted;
   '(_, w) ← polystore_write user_ok fd1 [x41; x42] 2 w;
   '(fd2, w) ← polystore_open example_cfg call_ok path2 rw_creat 438 w;
   '(size, w) ← polystore_lseek user_ok fd2 0 SEEK_END w;
   '(_, st) ← polystore_stat example_cfg path2 w;
   Some (size, option_map st_size st)) =
  Some (2, Some 0).
Proof. split; [done|]. vm_compute. reflexivity. Qed.

(** ** Witnesses *)

Lemma booted_opens :
  opens_pair example_cfg booted example_path rw_creat 438 3 4
    (w_fs (default booted (snd <$>
      polystore_open example_cfg call_ok example_path rw_creat 438 booted))).
Proof.
  exists "/mnt/fast/a"%string, "/mnt/slow/a"%string. eexists.
  split_and!; [done|done|done|split_and!; [done|lia|lia|reflexivity]|
    split_and!; [done|lia|lia|reflexivity]].
Qed.

Lemma open_new_file_witness :
  exists w', polystore_open example_cfg call_ok example_path rw_creat 438 booted =
      Some (POLYSTORE_GEN_FD 3 4, w') /\
    holds false w' (POLYSTORE_GEN_FD 3 4) (AFile [] 0).
Proof.
  refine (open_new_file example_cfg booted example_path rw_creat 438 3 4 _ 0 1 0 _
    booted_opens _ _ _ _ _ _ _ _ _ _ _); try done; by left.
Defined.

(** The sizes of the two files after writing three bytes to a new one. *)
Lemma fstat_reports_size_witness :
  exists w1 w2 st,
    polystore_open example_cfg call_ok example_path rw_creat 438 booted =
      Some (POLYSTORE_GEN_FD 3 4, w1) /\
    run_ops (POLYSTORE_GEN_FD 3 4) [OWrite [x41; x42; x43]] w1 = Some ([(3, [])], w2) /\
    polystore_fstat call_ok (POLYSTORE_GEN_FD 3 4) w2 = Some (0, Some st) /\
    st_size st = 3.
Proof.
  assert (exists t, task_at (w_os booted) 0 = Some t /\ placed t) as (t & Ht & Hp)
    by (eexists; split; [reflexivity|by left]).
  destruct (fstat_reports_size example_cfg booted example_path rw_creat 438 3 4 _ 0 1 0 t
    [OWrite [x41; x42; x43]] booted_opens) as (w1 & w2 & E1 & E2 & st & H1 & H2);
    [done..| |by exists w1, w2, st].
  cbn [ops_ok]. split_and!; try done; vm_compute; intuition discriminate.
Defined.

Lemma large_index_open_fails_witness :
  exists w', polystore_open (Config "/mnt/fast" "/mnt/slow" true) call_ok example_path
      rw_creat 438 (booted <| w_os := w_os booted <| k_next_ino := 4096 |> |>) =
      Some (POLYSTORE_GEN_FD 3 4, w') /\ l_files (w_lib w') = [].
Proof.
  destruct (large_index_open_fails (Config "/mnt/fast" "/mnt/slow" true)
    (booted <| w_os := w_os booted <| k_next_ino := 4096 |> |>) example_path
    rw_creat 438 3 4 (w_fs (default booted (snd <$>
      polystore_open example_cfg call_ok example_path rw_creat 438 booted))))
    as (w' & H1 & H2 & _).
  - done.
  - exists "/mnt/fast/a"%string, "/mnt/slow/a"%string. eexists.
    split_and!; [done|done|done|split_and!; [done|lia|lia|reflexivity]|
      split_and!; [done|lia|lia|reflexivity]].
  - done.
  - vm_compute. split; discriminate.
  - exists w'. split; [exact H1|]. by rewrite H2.
Defined.

End OpeMetaSpec.
