(* ===== verification/Shim.v ===== *)
(** * The system call shim ([polylib/src/shim.c])

    The hook the library installs in libsyscall_intercept: it decides for each
    system call of the process whether PolyStore handles it (return value 0, with
    the result of the call in [*result]) or the kernel does (return value 1).
    [cwd] is the result of [getcwd], [page] the stack page the truncation routine
    uses uninitialised.  [None] is an invalid memory access. *)

From S2P Require Import Prelude Defs Util Posix IntervalTree Indexing IoDirect.
From S2P Require Import IoDirectSpec PolyOS Context OpeData OpeDataSpec OpeMeta.
From S2P Require Import LifeCycle.
Import IoDirect IoDirectSpec PolyOS Context OpeData OpeDataSpec OpeMeta LifeCycle.

#[local] Open Scope Z_scope.

Module Shim.

(** System calls with their arguments; buffers are passed with their contents. *)
Inductive syscall :=
| SYS_open (pathname : string) (flags mode : Z)
| SYS_openat (dfd : Z) (pathname : string) (flags mode : Z)
| SYS_creat (pathname : string) (mode : Z)
| SYS_read (fd : Z) (buf : list byte) (count : Z)
| SYS_pread64 (fd : Z) (buf : list byte) (count off : Z)
| SYS_write (fd : Z) (buf : list byte) (count : Z)
| SYS_pwrite64 (fd : Z) (buf : list byte) (count off : Z)
| SYS_close (fd : Z)
| SYS_lseek (fd offset origin : Z)
| SYS_mkdir (pathname : string) (mode : Z)
| SYS_rmdir (pathname : string)
| SYS_rename (oldname newname : string)
| SYS_fallocate (fd mode offset len : Z)
| SYS_stat (pathname : string)
| SYS_newfstatat (dirfd : Z) (pathname : string) (flags : Z)
| SYS_lstat (pathname : string)
| SYS_fstat (fd : Z)
| SYS_truncate (pathname : string) (length : Z)
| SYS_ftruncate (fd length : Z)
| SYS_unlink (pathname : string)
| SYS_symlink (target linkpath : string)
| SYS_access (pathname : string) (mode : Z)
| SYS_fsync (fd : Z)
| SYS_fdatasync (fd : Z)
| SYS_sync
| SYS_fcntl (fd cmd arg : Z)
| SYS_mmap (fd : Z)
| SYS_munmap
| SYS_other (number : Z).

(** What a call stores in the caller's memory. *)
Inductive output :=
| NoOutput
| Bytes (buf : list byte)
| StatBuf (st : option stat).

(** [*(int * )result = ret]: only the low half of the [long] is written. *)
Definition store_int (result ret : Z) : Z :=
  s64 (Z.shiftl (Z.shiftr result 32) 32 + u32 ret).

Section model.
Context {Fs : Type} `{!PosixFS Fs, !PosixNS Fs}.
Variable cfg : config.
Variable cwd : string.
Variable page : list byte.

(** Return value of the shim, the [result] slot, the caller's memory, state. *)
Abbreviation outcome := (option (Z * Z * output * world Fs)).

Definition forward (result : Z) (w : world Fs) : outcome :=
  Some (1, result, NoOutput, w).

Definition handled_int (result : Z) (r : option (Z * world Fs)) : outcome :=
  '(ret, w) ← r; Some (0, store_int result ret, NoOutput, w).

Definition handled_long (r : option (Z * world Fs)) : outcome :=
  '(ret, w) ← r; Some (0, ret, NoOutput, w).

Definition handled_bytes (r : option (Z * list byte * world Fs)) : outcome :=
  '(ret, buf, w) ← r; Some (0, ret, Bytes buf, w).

Definition handled_stat (result : Z) (r : option (Z * option stat)) (w : world Fs)
    : outcome :=
  '(ret, st) ← r; Some (0, store_int result ret, StatBuf st, w).

(** The path the prefix check looks at. *)
Definition fullpath (pathname : string) : string :=
  if ABSOLUTE_PATH_CHECK pathname then pathname
  else Util.util_get_fullpath cwd pathname.

Definition polystore_path (pathname : string) : bool :=
  POLYSTORE_PATH_CHECK (fullpath pathname).

Definition regular_fd (fd : Z) : bool := POLYSTORE_FD_CHECK fd =? 0.

(** *** Calls on paths; the path itself, not its full form, is passed on. *)

Definition shim_do_open (env : callenv) (pathname : string) (flags mode : Z)
    (result : Z) (w : world Fs) : outcome :=
  if negb (polystore_path pathname) then forward result w
  else handled_int result (polystore_open cfg env pathname flags mode w).

Definition shim_do_openat (env : callenv) (dfd : Z) (pathname : string) (flags mode : Z)
    (result : Z) (w : world Fs) : outcome :=
  if negb (polystore_path pathname) then forward result w
  else handled_int result (polystore_open cfg env pathname flags mode w).

Definition shim_do_creat (env : callenv) (pathname : string) (mode : Z)
    (result : Z) (w : world Fs) : outcome :=
  if negb (polystore_path pathname) then forward result w
  else handled_int result (polystore_creat cfg env pathname mode w).

(** *** Calls on descriptors *)

Definition shim_do_read (env : callenv) (fd : Z) (buf : list byte) (count : Z)
    (result : Z) (w : world Fs) : outcome :=
  if regular_fd fd then forward result w
  else handled_bytes (polystore_read (c_uenv env) fd buf count w).

Definition shim_do_pread64 (env : callenv) (fd : Z) (buf : list byte) (count off : Z)
    (result : Z) (w : world Fs) : outcome :=
  if regular_fd fd then forward result w
  else handled_bytes (polystore_pread (c_uenv env) fd buf count off w).

Definition shim_do_write (env : callenv) (fd : Z) (buf : list byte) (count : Z)
    (result : Z) (w : world Fs) : outcome :=
  if regular_fd fd then forward result w
  else handled_long (polystore_write (c_uenv env) fd buf count w).

Definition shim_do_pwrite64 (env : callenv) (fd : Z) (buf : list byte) (count off : Z)
    (result : Z) (w : world Fs) : outcome :=
  if regular_fd fd then forward result w
  else handled_long (polystore_pwrite (c_uenv env) fd buf count off w).

Definition shim_do_close (env : callenv) (fd : Z)
    (result : Z) (w : world Fs) : outcome :=
  if regular_fd fd then forward result w
  else handled_int result (polystore_close env fd w).

Definition shim_do_lseek (env : callenv) (fd offset origin : Z)
    (result : Z) (w : world Fs) : outcome :=
  if regular_fd fd then forward result w
  else handled_long (polystore_lseek (c_uenv env) fd offset origin w).

Definition shim_do_mkdir (env : callenv) (pathname : string) (mode : Z)
    (result : Z) (w : world Fs) : outcome :=
  if negb (polystore_path pathname) then forward result w
  else handled_int result (polystore_mkdir cfg pathname mode w).

Definition shim_do_rmdir (env : callenv) (pathname : string)
    (result : Z) (w : world Fs) : outcome :=
  if negb (polystore_path pathname) then forward result w
  else handled_int result (polystore_rmdir cfg pathname w).

Definition shim_do_rename (env : callenv) (oldname newname : string)
    (result : Z) (w : world Fs) : outcome :=
  if negb (polystore_path oldname) && negb (polystore_path newname) then forward result w
  else handled_int result (polystore_rename cfg env oldname newname w).

Definition shim_do_fallocate (env : callenv) (fd mode offset len : Z)
    (result : Z) (w : world Fs) : outcome :=
  if regular_fd fd then forward result w
  else handled_int result (polystore_fallocate (c_uenv env) fd mode offset len w).

Definition shim_do_stat (env : callenv) (pathname : string)
    (result : Z) (w : world Fs) : outcome :=
  if negb (polystore_path pathname) then forward result w
  else handled_stat result (polystore_stat cfg pathname w) w.

Definition shim_do_lstat (env : callenv) (pathname : string)
    (result : Z) (w : world Fs) : outcome :=
  if negb (polystore_path pathname) then forward result w
  else Some (0, store_int result polystore_lstat, NoOutput, w).

Definition shim_do_fstat (env : callenv) (fd : Z)
    (result : Z) (w : world Fs) : outcome :=
  if regular_fd fd then forward result w
  else handled_stat result (polystore_fstat env fd w) w.

(** An empty path stands for the descriptor. *)
Definition shim_do_fstatat (env : callenv) (dirfd : Z) (pathname : string) (flags : Z)
    (result : Z) (w : world Fs) : outcome :=
  if (String.length pathname =? 0)%nat then shim_do_fstat env dirfd result w
  else if negb (polystore_path pathname) then forward result w
  else handled_stat result (polystore_stat cfg pathname w) w.

Definition shim_do_truncate (env : callenv) (pathname : string) (length : Z)
    (result : Z) (w : world Fs) : outcome :=
  if negb (polystore_path pathname) then forward result w
  else handled_int result (polystore_truncate cfg env page pathname length w).

Definition shim_do_ftruncate (env : callenv) (fd length : Z)
    (result : Z) (w : world Fs) : outcome :=
  if regular_fd fd then forward result w
  else handled_int result (polystore_ftruncate (c_uenv env) page fd length w).

Definition shim_do_unlink (env : callenv) (pathname : string)
    (result : Z) (w : world Fs) : outcome :=
  if negb (polystore_path pathname) then forward result w
  else handled_int result (polystore_unlink cfg env pathname w).

Definition shim_do_symlink (env : callenv) (target linkpath : string)
    (result : Z) (w : world Fs) : outcome :=
  if negb (polystore_path target) && negb (polystore_path linkpath) then forward result w
  else Some (0, store_int result polystore_symlink, NoOutput, w).

Definition shim_do_access (env : callenv) (pathname : string) (mode : Z)
    (result : Z) (w : world Fs) : outcome :=
  if negb (polystore_path pathname) then forward result w
  else
    ret ← polystore_access cfg pathname mode w;
    Some (0, store_int result ret, NoOutput, w).

Definition shim_do_fsync (env : callenv) (fd : Z)
    (result : Z) (w : world Fs) : outcome :=
  if regular_fd fd then forward result w
  else Some (0, store_int result (polystore_fsync fd), NoOutput, w).

Definition shim_do_fdatasync (env : callenv) (fd : Z)
    (result : Z) (w : world Fs) : outcome :=
  if regular_fd fd then forward result w
  else Some (0, store_int result (polystore_fdatasync fd), NoOutput, w).

Definition shim_do_sync (result : Z) (w : world Fs) : outcome := forward result w.

Definition shim_do_fcntl (env : callenv) (fd cmd arg : Z)
    (result : Z) (w : world Fs) : outcome :=
  if regular_fd fd then forward result w
  else handled_int result (polystore_fcntl env fd cmd arg w).

Definition shim_do_mmap (result : Z) (w : world Fs) : outcome := forward result w.
Definition shim_do_munmap (result : Z) (w : world Fs) : outcome := forward result w.

(** ** The hook *)

Definition hook (env : callenv) (sc : syscall) (result : Z) (w : world Fs) : outcome :=
  match sc with
  | SYS_open p flags mode => shim_do_open env p (s32 flags) (u32 mode) result w
  | SYS_openat dfd p flags mode =>
      shim_do_openat env (s32 dfd) p (s32 flags) (u32 mode) result w
  | SYS_creat p mode => shim_do_creat env p (u32 mode) result w
  | SYS_read fd buf count => shim_do_read env (s32 fd) buf (u64 count) result w
  | SYS_pread64 fd buf count off =>
      shim_do_pread64 env (s32 fd) buf (u64 count) off result w
  | SYS_write fd buf count => shim_do_write env (s32 fd) buf (u64 count) result w
  | SYS_pwrite64 fd buf count off =>
      shim_do_pwrite64 env (s32 fd) buf (u64 count) off result w
  | SYS_close fd => shim_do_close env (s32 fd) result w
  | SYS_lseek fd offset origin => shim_do_lseek env (s32 fd) offset (s32 origin) result w
  | SYS_mkdir p mode => shim_do_mkdir env p (u32 mode) result w
  | SYS_rmdir p => shim_do_rmdir env p result w
  | SYS_rename old new => shim_do_rename env old new result w
  | SYS_fallocate fd mode offset len =>
      shim_do_fallocate env (s32 fd) (s32 mode) offset len result w
  | SYS_stat p => shim_do_stat env p result w
  | SYS_newfstatat dirfd p flags => shim_do_fstatat env (s32 dirfd) p (s32 flags) result w
  | SYS_lstat p => shim_do_lstat env p result w
  | SYS_fstat fd => shim_do_fstat env (s32 fd) result w
  | SYS_truncate p length => shim_do_truncate env p length result w
  | SYS_ftruncate fd length => shim_do_ftruncate env (s32 fd) length result w
  | SYS_unlink p => shim_do_unlink env p result w
  | SYS_symlink target linkpath => shim_do_symlink env target linkpath result w
  | SYS_access p mode => shim_do_access env p (s32 mode) result w
  | SYS_fsync fd => shim_do_fsync env (s32 fd) result w
  | SYS_fdatasync fd => shim_do_fdatasync env (s32 fd) result w
  | SYS_sync => shim_do_sync result w
  | SYS_fcntl fd cmd arg => shim_do_fcntl env (s32 fd) (s32 cmd) arg result w
  | SYS_mmap _ => shim_do_mmap result w
  | SYS_munmap => shim_do_munmap result w
  | SYS_other _ => Some (1, result, NoOutput, w)
  end.

End model.

(** ** Which calls PolyStore handles *)

(** The full path starts with the mount point. *)
Definition in_mount (cwd pathname : string) : bool :=
  String.prefix POLYSTORE_PATH_PREFIX
    (if String.prefix "/" pathname then pathname
     else (cwd +:+ "/" +:+ pathname)%string).

Definition routed (cwd : string) (sc : syscall) : bool :=
  match sc with
  | SYS_open p _ _ | SYS_openat _ p _ _ | SYS_creat p _ | SYS_mkdir p _ | SYS_rmdir p
  | SYS_stat p | SYS_lstat p | SYS_truncate p _ | SYS_unlink p | SYS_access p _ =>
      in_mount cwd p
  | SYS_rename p q | SYS_symlink p q => in_mount cwd p || in_mount cwd q
  | SYS_read fd _ _ | SYS_pread64 fd _ _ _ | SYS_write fd _ _ | SYS_pwrite64 fd _ _ _
  | SYS_close fd | SYS_lseek fd _ _ | SYS_fallocate fd _ _ _ | SYS_fstat fd
  | SYS_ftruncate fd _ | SYS_fsync fd | SYS_fdatasync fd | SYS_fcntl fd _ _ =>
      Z.testbit fd 24
  | SYS_newfstatat fd p _ =>
      if String.eqb p "" then Z.testbit fd 24 else in_mount cwd p
  | SYS_sync | SYS_mmap _ | SYS_munmap | SYS_other _ => false
  end.

Lemma strncmp_prefix p : forall s,
  strncmp_eq (String.length p) s p = String.prefix p s.
Proof.
  induction p as [|c p IH]; intros [|d s]; cbn; try done. rewrite IH.
  destruct (Ascii.ascii_dec c d) as [->|Hne]; [by rewrite Ascii.eqb_refl|].
  by rewrite (proj2 (Ascii.eqb_neq d c)) by congruence.
Qed.

Lemma absolute_prefix pathname : ABSOLUTE_PATH_CHECK pathname = String.prefix "/" pathname.
Proof.
  rewrite <-strncmp_prefix. destruct pathname as [|c s]; [done|].
  cbn. by rewrite andb_true_r.
Qed.

Lemma polystore_path_in_mount cwd pathname :
  polystore_path cwd pathname = in_mount cwd pathname.
Proof.
  unfold polystore_path, in_mount, fullpath, Util.util_get_fullpath, POLYSTORE_PATH_CHECK.
  rewrite absolute_prefix.
  change POLYSTORE_PATH_PREFIX_LEN with (String.length POLYSTORE_PATH_PREFIX).
  rewrite strncmp_prefix. by destruct (String.prefix "/" pathname).
Qed.

Lemma regular_fd_bit fd : regular_fd (s32 fd) = negb (Z.testbit fd 24).
Proof.
  unfold regular_fd. rewrite fd_check_bit. f_equal.
  rewrite <-(Z.mod_pow2_bits_low (s32 fd) 32 24), <-(Z.mod_pow2_bits_low fd 32 24) by lia.
  fold (u32 (s32 fd)) (u32 fd). by rewrite u32_s32.
Qed.

Lemma empty_length s : (String.length s =? 0)%nat = String.eqb s "".
Proof. by destruct s. Qed.

Section handled.
Context {Fs : Type} (result ret result' : Z) (out : output) (w' : world Fs).

Lemma handled_int_ret r : handled_int result r = Some (ret, result', out, w') -> ret = 0.
Proof. unfold handled_int. destruct r as [[]|]; cbn; congruence. Qed.

Lemma handled_long_ret r : handled_long r = Some (ret, result', out, w') -> ret = 0.
Proof. unfold handled_long. destruct r as [[]|]; cbn; congruence. Qed.

Lemma handled_bytes_ret r : handled_bytes r = Some (ret, result', out, w') -> ret = 0.
Proof. unfold handled_bytes. destruct r as [[[]]|]; cbn; congruence. Qed.

Lemma handled_stat_ret r w :
  handled_stat result r w = Some (ret, result', out, w') -> ret = 0.
Proof. unfold handled_stat. destruct r as [[]|]; cbn; congruence. Qed.
End handled.

(** ** Data operations through the shim *)

Definition op_syscall (fd : Z) (op : data_op) : syscall :=
  match op with
  | ORead count => SYS_read fd (replicate (Z.to_nat count) x00) count
  | OPread count offset => SYS_pread64 fd (replicate (Z.to_nat count) x00) count offset
  | OWrite d => SYS_write fd d (zlength d)
  | OPwrite d offset => SYS_pwrite64 fd d (zlength d) offset
  | OLseek offset whence => SYS_lseek fd offset whence
  end.

Section data.
Context {Fs : Type} `{!PosixFS Fs, !PosixNS Fs, !PosixFSLaws Fs, !ReliableFS Fs}.
Variables (cfg : config) (cwd : string) (page : list byte).

(** The value the application sees and the bytes it finds in its buffer. *)
Definition run_syscall (fd : Z) (op : data_op) (w : world Fs)
    : option (Z * list byte * world Fs) :=
  '(forwarded, ret, out, w) ← hook cfg cwd page call_ok (op_syscall fd op) 0 w;
  if forwarded =? 0
  then Some (ret, match out with Bytes buf => ztake ret buf | _ => [] end, w)
  else None.

Fixpoint run_syscalls (fd : Z) (ops : list data_op) (w : world Fs)
    : option (list (Z * list byte) * world Fs) :=
  match ops with
  | [] => Some ([], w)
  | op :: ops =>
      '(ret, d, w) ← run_syscall fd op w;
      '(outs, w) ← run_syscalls fd ops w;
      Some ((ret, d) :: outs, w)
  end.

(** Arguments that fit the registers of a system call. *)
Definition op_fits (op : data_op) : Prop :=
  match op with
  | ORead count | OPread count _ => 0 <= count < 2 ^ 64
  | OWrite d | OPwrite d _ => zlength d < 2 ^ 64
  | OLseek _ whence => - 2 ^ 31 <= whence < 2 ^ 31
  end.

Lemma run_syscall_op fd op w :
  - 2 ^ 31 <= fd < 2 ^ 31 -> POLYSTORE_FD_CHECK fd <> 0 -> op_fits op ->
  run_syscall fd op w = run_op fd op w.
Proof.
  intros Hfd Hck Hfit. unfold run_syscall.
  assert (regular_fd fd = false) as Hreg by (by apply Z.eqb_neq).
  destruct op; cbn [op_syscall hook run_op op_fits] in *;
    unfold shim_do_read, shim_do_pread64, shim_do_write, shim_do_pwrite64,
      shim_do_lseek, handled_bytes, handled_long;
    rewrite ?(s32_id fd), Hreg, ?u64_id, ?s32_id by lia; cbn [c_uenv call_ok].
  - by destruct (polystore_read _ _ _ _ _) as [[[]]|].
  - by destruct (polystore_pread _ _ _ _ _ _) as [[[]]|].
  - by destruct (polystore_write _ _ _ _ _) as [[]|].
  - by destruct (polystore_pwrite _ _ _ _ _ _) as [[]|].
  - by destruct (polystore_lseek _ _ _ _ _) as [[]|].
Qed.

Lemma run_syscalls_ops fd ops : forall w,
  - 2 ^ 31 <= fd < 2 ^ 31 -> POLYSTORE_FD_CHECK fd <> 0 -> Forall op_fits ops ->
  run_syscalls fd ops w = run_ops fd ops w.
Proof.
  induction ops as [|op ops IH]; intros w Hfd Hck Hfit; [done|].
  apply Forall_cons in Hfit as [Hop Hops]. cbn [run_syscalls run_ops].
  rewrite run_syscall_op by done. destruct (run_op fd op w) as [[[ret d] w1]|]; [|done].
  cbn [mbind option_bind]. by rewrite IH.
Qed.
End data.

Lemma str_offset_short n : forall s,
  (String.length s < n)%nat -> Util.str_offset n s = None.
Proof.
  induction n as [|n IH]; intros [|c s] H; cbn in *; [lia|lia|done|]. apply IH. lia.
Qed.

(** The cases of the hook: each call, routed or not. *)
Ltac hook_cases sc cwd :=
  destruct sc; cbn [hook routed]; unfold shim_do_fstatat;
    unfold shim_do_open, shim_do_openat, shim_do_creat, shim_do_read, shim_do_pread64,
      shim_do_write, shim_do_pwrite64, shim_do_close, shim_do_lseek, shim_do_mkdir,
      shim_do_rmdir, shim_do_rename, shim_do_fallocate, shim_do_stat, shim_do_lstat,
      shim_do_fstat, shim_do_truncate, shim_do_ftruncate, shim_do_unlink,
      shim_do_symlink, shim_do_access, shim_do_fsync, shim_do_fdatasync, shim_do_sync,
      shim_do_fcntl, shim_do_mmap, shim_do_munmap;
    rewrite ?regular_fd_bit, ?polystore_path_in_mount, ?empty_length;
    repeat match goal with
    | |- context [in_mount cwd ?p] => destruct (in_mount cwd p)
    | |- context [Z.testbit ?fd 24] => destruct (Z.testbit fd 24)
    | |- context [String.eqb ?p ?q] => destruct (String.eqb p q)
    end; cbn [negb andb orb].

(** ** Properties *)

(** The shim is transparent: it handles exactly the system calls on paths below
    the mount point and on descriptors with the PolyStore bit, and leaves every
    other call to the kernel without touching result, memory or state. *)
Theorem hook_transparent `{!PosixFS Fs, !PosixNS Fs} (cfg : config) (cwd : string)
    (page : list byte) (env : callenv) (sc : syscall) (result : Z) (w : world Fs)
    (ret result' : Z) (out : output) (w' : world Fs) :
  hook cfg cwd page env sc result w = Some (ret, result', out, w') ->
  if routed cwd sc then ret = 0
  else ret = 1 /\ result' = result /\ out = NoOutput /\ w' = w.
Proof.
  hook_cases sc cwd;
    try (by intros [= <- <- <- <-]); try apply handled_int_ret; try apply handled_long_ret;
    try apply handled_bytes_ret; try apply handled_stat_ret.
  destruct (polystore_access cfg pathname (s32 mode) w); [|done]. by intros [= <- _ _ _].
Qed.

(** An application that issues read, write and seek system calls on a PolyStore
    descriptor sees, call by call, a plain byte array with an offset. *)
Theorem syscalls_refine `{!PosixFS Fs, !PosixNS Fs, !PosixFSLaws Fs, !ReliableFS Fs}
    (cfg : config) (cwd : string) (page : list byte) (large : bool) (fd : Z)
    (ops : list data_op) (w : world Fs) (a : afile) :
  holds large w fd a -> ops_ok large ops a -> Forall op_fits ops ->
  - 2 ^ 31 <= fd < 2 ^ 31 -> POLYSTORE_FD_CHECK fd <> 0 ->
  exists w', run_syscalls cfg cwd page fd ops w = Some (fst (spec_ops ops a), w') /\
    holds large w' fd (snd (spec_ops ops a)).
Proof.
  intros Hh Hok Hfit Hfd Hck. rewrite run_syscalls_ops by done.
  by apply (run_ops_refines large).
Qed.

(** A process whose working directory is the mount point and that opens a file
    by a relative name shorter than the mount point's makes the library read past
    the end of the name: the unqualified name is passed on and its first 15
    characters are skipped. *)
Theorem relative_open_overreads `{!PosixFS Fs, !PosixNS Fs} (cfg : config)
    (page : list byte) (env : callenv) (dfd flags mode result : Z) (pathname : string)
    (w : world Fs) :
  String.prefix "/" pathname = false ->
  (String.length pathname <= POLYSTORE_PATH_PREFIX_LEN)%nat ->
  hook cfg POLYSTORE_PATH_PREFIX page env (SYS_openat dfd pathname flags mode) result w =
    None.
Proof.
  intros Hrel Hlen. cbn [hook]. unfold shim_do_openat.
  rewrite polystore_path_in_mount. unfold in_mount. rewrite Hrel.
  cbn [String.prefix POLYSTORE_PATH_PREFIX String.app].
  unfold polystore_open, physpaths, Util.util_get_physpaths, Util.util_get_fastpath.
  by rewrite str_offset_short by lia.
Qed.

(** The prefix test has no separator: a path that continues the mount point's
    name with any character is handled like the file of that rest inside the
    mount point, so "/mnt/polystore2/x" and "/mnt/polystore//x" are one file. *)
Theorem prefix_test_aliases (cfg : config) (cwd : string) (c : Ascii.ascii)
    (rest : string) :
  let path := (POLYSTORE_PATH_PREFIX +:+ String c rest)%string in
  polystore_path cwd path = true /\
  physpaths cfg path =
    physpaths cfg (POLYSTORE_PATH_PREFIX +:+ "/" +:+ rest)%string.
Proof. split; [|done]. by rewrite polystore_path_in_mount. Qed.

(** ** Witnesses *)

Lemma hook_transparent_witness :
  hook example_cfg "/home" [] call_ok (SYS_close 7) 5 example_world =
    Some (1, 5, NoOutput, example_world) /\ 1 = 1 /\ 5 = 5.
Proof.
  assert (hook example_cfg "/home" [] call_ok (SYS_close 7) 5 example_world =
    Some (1, 5, NoOutput, example_world)) as H by reflexivity.
  destruct (hook_transparent example_cfg "/home" [] call_ok (SYS_close 7) 5 example_world
    1 5 NoOutput example_world H) as (H1 & H2 & _).
  split_and!; [exact H|exact H1|exact H2].
Defined.

Lemma syscalls_refine_witness :
  exists w', run_syscalls example_cfg "/home" [] (POLYSTORE_GEN_FD 5 6)
      [OWrite [x41; x42; x43]; OPread 2 1] example_world =
    Some ([(3, []); (2, [x42; x43])], w').
Proof.
  destruct (syscalls_refine example_cfg "/home" [] false (POLYSTORE_GEN_FD 5 6)
    [OWrite [x41; x42; x43]; OPread 2 1] example_world (AFile [] 0)) as (w' & E & _).
  - apply holds_example.
  - cbn [ops_ok]. split_and!; try done; vm_compute; intuition discriminate.
  - repeat constructor; cbn; lia.
  - vm_compute. split; congruence.
  - done.
  - exists w'. exact E.
Defined.

Lemma relative_open_overreads_witness :
  hook example_cfg POLYSTORE_PATH_PREFIX [] call_ok (SYS_openat (-100) "data" 66 438) 0
    example_world = None.
Proof.
  apply (relative_open_overreads example_cfg [] call_ok (-100) 66 438 0 "data"
    example_world); [reflexivity|]. apply Nat.leb_le. reflexivity.
Defined.

End Shim.
