(* ===== verification/Hooked.v ===== *)
(** * The hook behind the interception ([polylib/src/shim.c])

    [hook] as [intercept_routine] calls it: with the number of a system call, its six
    arguments as the registers hold them, and the memory of the process, where it
    finds path names and buffers and stores what it reads.  The theorems compose the
    interception library with the library: system calls on PolyStore descriptors
    behave as on byte arrays, all others are left to the kernel. *)

From S2P Require Import Prelude Defs Util Posix SyscallFormats InterceptLog Intercept.
From S2P Require Import IntervalTree Indexing IoDirect IoDirectSpec PolyOS Context OpeData.
From S2P Require Import OpeDataSpec OpeMeta LifeCycle PatchedText Shim.
Import SyscallFormats InterceptLog Intercept.
Import IoDirect IoDirectSpec PolyOS Context OpeData OpeDataSpec OpeMeta LifeCycle Shim.

#[local] Open Scope Z_scope.

Module Hooked.

(** The process: its memory, the state of the library and of the module, and the rest
    of the kernel. *)
Record sys (Fs K : Type) := Sys { y_mem : mem; y_poly : world Fs; y_kernel : K }.
Arguments Sys {Fs K}.
Arguments y_mem {Fs K}.
Arguments y_poly {Fs K}.
Arguments y_kernel {Fs K}.

(** The cases of the [switch]: which registers hold what.  Paths are shorter than
    [PATH_MAX], the size of the buffers they are copied to. *)
Definition decode (desc : syscall_desc) (m : mem) : syscall :=
  let a := sd_args desc in
  let arg0 := a0 a in let arg1 := a1 a in let arg2 := a2 a in let arg3 := a3 a in
  let str p := cstr_upto PATH_MAX m (u64 p) in
  let bytes p n := mem_read m (u64 p) (u64 n) in
  match sd_nr desc with
  | 2 => SYS_open (str arg0) arg1 arg2
  | 257 => SYS_openat arg0 (str arg1) arg2 arg3
  | 85 => SYS_creat (str arg0) arg1
  | 0 => SYS_read arg0 (bytes arg1 arg2) arg2
  | 17 => SYS_pread64 arg0 (bytes arg1 arg2) arg2 arg3
  | 1 => SYS_write arg0 (bytes arg1 arg2) arg2
  | 18 => SYS_pwrite64 arg0 (bytes arg1 arg2) arg2 arg3
  | 3 => SYS_close arg0
  | 8 => SYS_lseek arg0 arg1 arg2
  | 83 => SYS_mkdir (str arg0) arg1
  | 84 => SYS_rmdir (str arg0)
  | 82 => SYS_rename (str arg0) (str arg1)
  | 285 => SYS_fallocate arg0 arg1 arg2 arg3
  | 4 => SYS_stat (str arg0)
  | 262 => SYS_newfstatat arg0 (str arg1) arg3
  | 6 => SYS_lstat (str arg0)
  | 5 => SYS_fstat arg0
  | 76 => SYS_truncate (str arg0) arg1
  | 77 => SYS_ftruncate arg0 arg1
  | 87 => SYS_unlink (str arg0)
  | 88 => SYS_symlink (str arg0) (str arg1)
  | 21 => SYS_access (str arg0) arg1
  | 74 => SYS_fsync arg0
  | 75 => SYS_fdatasync arg0
  | 162 => SYS_sync
  | 72 => SYS_fcntl arg0 arg1 arg2
  | 9 => SYS_mmap (a4 a)
  | 11 => SYS_munmap
  | nr => SYS_other nr
  end.

Section hooked.
Context {Fs K : Type} `{!PosixFS Fs, !PosixNS Fs}.
Variable cfg : config.
Variable cwd : string.
Variable page : list byte.
(** [struct stat] as bytes. *)
Variable stat_bytes : stat -> list byte.

(** What the handlers store through the pointers they are given. *)
Definition store_output (desc : syscall_desc) (out : output) (m : mem) : mem :=
  let a := sd_args desc in
  match out with
  | NoOutput | StatBuf None => m
  | Bytes buf => mem_write m (u64 (a1 a)) buf
  | StatBuf (Some st) =>
      mem_write m (u64 (if sd_nr desc =? 262 then a2 a else a1 a)) (stat_bytes st)
  end.

Definition hook_point (env : callenv) (desc : syscall_desc) (result : Z) (y : sys Fs K)
    : option (Z * Z * sys Fs K) :=
  '(ret, result, out, w) ← hook cfg cwd page env (decode desc (y_mem y)) result (y_poly y);
  Some (ret, result, Sys (store_output desc out (y_mem y)) w (y_kernel y)).

(** The constructor [init]: only [intercept_hook_point] is set. *)
Definition shim_hooks (env : callenv) : @hooks (sys Fs K) :=
  Hooks (Some (hook_point env)) None None.

(** ** Calls the library does not handle *)

Lemma hook_not_routed env sc result w :
  routed cwd sc = false -> hook cfg cwd page env sc result w = Some (1, result, NoOutput, w).
Proof.
  hook_cases sc cwd; done.
Qed.

Context `{!Kernel (sys Fs K)}.

(** A call that is not a message to the interception library. *)
Definition not_magic (desc : syscall_desc) : Prop :=
  sd_nr desc <> Intercept.SYS_write \/ a0 (sd_args desc) <> SYSCALL_INT_MAGIC_WRITE_FD.

Lemma handle_not_magic old desc (s : @state (sys Fs K)) :
  not_magic desc -> handle_magic_syscalls old desc s = Some (None, s).
Proof.
  unfold handle_magic_syscalls. intros [E|E].
  - by rewrite (proj2 (Z.eqb_neq _ _) E).
  - destruct (negb _); [done|]. by rewrite (proj2 (Z.eqb_neq _ _) E).
Qed.

Lemma log_closed patch desc r v (s : @state (sys Fs K)) :
  s_log_fd s < 0 -> intercept_log_syscall patch desc r v s = Some s.
Proof. intros H. unfold intercept_log_syscall. by rewrite (proj2 (Z.ltb_lt _ _) H). Qed.

(** What [intercept_routine] returns when the hook handled the call, and when it did
    not. *)
Lemma routine_handled env old garbage c (s : @state (sys Fs K)) r y :
  let desc := get_syscall_in_context c in
  not_magic desc -> s_log_fd s < 0 -> sd_nr desc <> SYS_vfork -> sd_nr desc <> SYS_rt_sigreturn ->
  hook_point env desc garbage (s_world s) = Some (0, r, y) ->
  intercept_routine (shim_hooks env) old garbage c s =
    Some (WrapperRet r 1, State (s_log_fd s) y).
Proof.
  intros desc Hm Hl Hv Hr E. unfold intercept_routine. fold desc.
  rewrite handle_not_magic by done. cbn [mbind option_bind].
  rewrite log_closed by done. cbn [mbind option_bind shim_hooks intercept_hook_point].
  rewrite E. cbn [mbind option_bind].
  rewrite (proj2 (Z.eqb_neq _ _) Hv), (proj2 (Z.eqb_neq _ _) Hr).
  change (s32 0 =? 0) with true. cbn [orb andb negb]. by rewrite log_closed by done.
Qed.

Lemma routine_forwarded env old garbage c (s : @state (sys Fs K)) :
  let desc := get_syscall_in_context c in
  not_magic desc -> s_log_fd s < 0 ->
  hook_point env desc garbage (s_world s) = Some (1, garbage, s_world s) ->
  intercept_routine (shim_hooks env) old garbage c s =
    if (sd_nr desc =? SYS_vfork) || (sd_nr desc =? SYS_rt_sigreturn)
    then Some (WrapperRet (x_rax c) 0, s)
    else if clones_stack desc (s_world s) then Some (WrapperRet (x_rax c) 2, s)
    else let '(r, w) := k_syscall (sd_nr desc) (sd_args desc) (s_world s) in
         Some (WrapperRet r 1, State (s_log_fd s) w).
Proof.
  intros desc Hm Hl E. unfold intercept_routine. fold desc.
  rewrite handle_not_magic by done. cbn [mbind option_bind].
  rewrite log_closed by done. cbn [mbind option_bind shim_hooks intercept_hook_point].
  rewrite E. cbn [mbind option_bind]. destruct s as [fd y]. cbn [s_world s_log_fd] in *.
  destruct (_ || _); [done|]. change (s32 1 =? 0) with false. cbn [orb andb negb].
  destruct (clones_stack desc y); [done|].
  destruct (k_syscall _ _ y) as [r w]. by rewrite log_closed by done.
Qed.

(** ** Data operations *)

(** The call for an operation on [fd] with a buffer at [addr]; the registers that are
    not used are those of [rest]. *)
Definition op_desc (fd addr : Z) (op : data_op) (rest : args) : syscall_desc :=
  match op with
  | ORead count => SyscallDesc 0 (Args fd addr count (a3 rest) (a4 rest) (a5 rest))
  | OPread count offset => SyscallDesc 17 (Args fd addr count offset (a4 rest) (a5 rest))
  | OWrite d => SyscallDesc 1 (Args fd addr (zlength d) (a3 rest) (a4 rest) (a5 rest))
  | OPwrite d offset => SyscallDesc 18 (Args fd addr (zlength d) offset (a4 rest) (a5 rest))
  | OLseek offset whence => SyscallDesc 8 (Args fd offset whence (a3 rest) (a4 rest) (a5 rest))
  end.

(** The application puts what it writes into its buffer. *)
Definition fill (addr : Z) (op : data_op) (m : mem) : mem :=
  match op with
  | OWrite d | OPwrite d _ => mem_write m addr d
  | _ => m
  end.

(** One call: an operation, its buffer, the registers, and what the stack of
    [intercept_routine] holds. *)
Record call := Call {
  cl_op : data_op; cl_addr : Z; cl_context : context; cl_rest : args;
  cl_old : string; cl_garbage : Z
}.

(** The value in [rax], and the bytes in the buffer after a read. *)
Definition run_call (c : call) (s : @state (sys Fs K))
    : option (Z * list byte * @state (sys Fs K)) :=
  let y := s_world s in
  let s := State (s_log_fd s)
             (Sys (fill (cl_addr c) (cl_op c) (y_mem y)) (y_poly y) (y_kernel y)) in
  '(ret, s) ← intercept_routine (shim_hooks OpeMeta.call_ok) (cl_old c) (cl_garbage c)
                (cl_context c) s;
  let d := match cl_op c with
           | ORead _ | OPread _ _ => mem_read (y_mem (s_world s)) (cl_addr c) (w_rax ret)
           | _ => []
           end in
  Some (w_rax ret, d, s).

Fixpoint run_calls (cs : list call) (s : @state (sys Fs K))
    : option (list (Z * list byte) * @state (sys Fs K)) :=
  match cs with
  | [] => Some ([], s)
  | c :: cs =>
      '(ret, d, s) ← run_call c s;
      '(outs, s) ← run_calls cs s;
      Some ((ret, d) :: outs, s)
  end.

(** The registers hold the arguments, which fit; the buffer is in the address space. *)
Record call_fits (fd : Z) (c : call) : Prop := {
  cf_desc : get_syscall_in_context (cl_context c) = op_desc fd (cl_addr c) (cl_op c) (cl_rest c);
  cf_op : op_fits (cl_op c);
  cf_addr : 0 <= cl_addr c < 2 ^ 64
}.

End hooked.

(** ** What the application sees *)

Section data.
Context {Fs K : Type} `{!PosixFS Fs, !PosixNS Fs, !PosixFSLaws Fs, !ReliableFS Fs}.
Context `{!Kernel (sys Fs K)}.
Variables (cfg : config) (cwd : string) (page : list byte) (stat_bytes : stat -> list byte).

(** What a handler of a data operation stores. *)
Definition op_output (op : data_op) (d buf : list byte) : output :=
  match op with
  | ORead _ | OPread _ _ => Bytes (overwrite 0 d buf)
  | _ => NoOutput
  end.

Lemma hook_data_op large (w : world Fs) fd addr a op rest m garbage :
  holds large w fd a -> op_ok large op a -> op_fits op ->
  - 2 ^ 31 <= fd < 2 ^ 31 -> POLYSTORE_FD_CHECK fd <> 0 -> 0 <= addr < 2 ^ 64 ->
  let '(ret, d, a') := spec_op op a in
  exists buf w', hook cfg cwd page OpeMeta.call_ok
      (decode (op_desc fd addr op rest) (fill addr op m)) garbage w =
      Some (0, ret, op_output op d buf, w') /\ holds large w' fd a' /\
    match op with ORead count | OPread count _ => zlength buf = count | _ => True end.
Proof.
  intros Hh Hok Hfit Hfd Hck Ha.
  assert (regular_fd (s32 fd) = false) as Hreg by (rewrite s32_id by lia; by apply Z.eqb_neq).
  destruct (spec_op op a) as [[ret d] a'] eqn:Es.
  pose proof (run_op_refines large w fd a op Hh Hok) as HR. rewrite Es in HR.
  destruct HR as (w' & HR & Hh').
  destruct op as [count|count offset|b|b offset|offset whence];
    cbn [decode op_desc fill sd_nr sd_args a0 a1 a2 a3 hook op_fits op_ok spec_op run_op op_output]
      in *;
    unfold shim_do_read, shim_do_pread64, shim_do_write, shim_do_pwrite64, shim_do_lseek;
    rewrite Hreg, ?(s32_id fd) by lia;
    change (c_uenv OpeMeta.call_ok) with user_ok; unfold handled_bytes, handled_long.
  - injection Es as <- <- <-. rewrite (u64_id count), (u64_id addr) by lia.
    destruct (read_generic_holds large w fd a (mem_read m addr count) count (-1))
      as (w2 & E & Hh2); [done|lia|lia|]. cbn in E, Hh2.
    unfold polystore_read. rewrite E. cbn [mbind option_bind].
    eexists _, w2. split; [done|]. split; [done|]. apply zlength_tabulate. lia.
  - injection Es as <- <- <-. rewrite (u64_id count), (u64_id addr) by lia.
    destruct (read_generic_holds large w fd a (mem_read m addr count) count offset)
      as (w2 & E & Hh2); [done|lia|lia|].
    rewrite (proj2 (Z.ltb_ge offset 0)) in E, Hh2 by lia. rewrite Z.add_0_r in Hh2.
    unfold polystore_pread. rewrite E. cbn [mbind option_bind].
    eexists _, w2. split; [done|]. split; [by destruct a|]. apply zlength_tabulate. lia.
  - rewrite (u64_id (zlength b)), (u64_id addr), PatchedText.mem_read_write by lia.
    destruct (polystore_write user_ok fd b (zlength b) w) as [[r w2]|]; [|done].
    injection HR as -> _ ->. by exists [], w'.
  - rewrite (u64_id (zlength b)), (u64_id addr), PatchedText.mem_read_write by lia.
    destruct (polystore_pwrite user_ok fd b (zlength b) offset w) as [[r w2]|]; [|done].
    injection HR as -> _ ->. by exists [], w'.
  - rewrite (s32_id whence) by lia.
    destruct (polystore_lseek user_ok fd offset whence w) as [[r w2]|]; [|done].
    injection HR as -> _ ->. by exists [], w'.
Qed.

(** A PolyStore descriptor is not the one for messages. *)
Lemma fd_not_magic fd addr op rest desc :
  desc = op_desc fd addr op rest -> POLYSTORE_FD_CHECK fd <> 0 -> not_magic desc.
Proof.
  intros -> Hck. right. intros E. apply Hck. by destruct op; cbn in E; rewrite E.
Qed.

(** What is in the buffer after a read. *)
Lemma read_output (m : mem) addr d buf :
  zlength d <= zlength buf -> mem_read (mem_write m addr (overwrite 0 d buf)) addr (zlength d) = d.
Proof.
  intros Hl. apply list_eq. intros i. unfold mem_read. rewrite lookup_tabulate. case_decide.
  - destruct (lookup_lt_is_Some_2 d i ltac:(lia)) as [b Hb]. rewrite Hb. f_equal.
    apply mem_write_inside; [lia|]. rewrite Z.add_simpl_l, Nat2Z.id.
    rewrite lookup_overwrite by lia. rewrite decide_True by lia.
    by rewrite Z.sub_0_r, Nat2Z.id.
  - symmetry. apply lookup_ge_None. lia.
Qed.

Lemma run_call_refines large fd c (s : @state (sys Fs K)) a :
  holds large (y_poly (s_world s)) fd a -> s_log_fd s < 0 -> op_ok large (cl_op c) a -> call_fits fd c ->
  - 2 ^ 31 <= fd < 2 ^ 31 -> POLYSTORE_FD_CHECK fd <> 0 ->
  let '(ret, d, a') := spec_op (cl_op c) a in
  exists s', run_call cfg cwd page stat_bytes c s = Some (ret, d, s') /\
    holds large (y_poly (s_world s')) fd a' /\ s_log_fd s' = s_log_fd s /\
    y_kernel (s_world s') = y_kernel (s_world s).
Proof.
  intros Hh Hlog Hok [Hd Hfit Ha] Hfd Hck.
  destruct (spec_op (cl_op c) a) as [[ret d] a'] eqn:Es.
  pose proof (hook_data_op large (y_poly (s_world s)) fd (cl_addr c) a (cl_op c) (cl_rest c)
    (y_mem (s_world s)) (cl_garbage c) Hh Hok Hfit Hfd Hck Ha) as HK.
  rewrite Es in HK. destruct HK as (buf & w' & E & Hh' & Hbuf).
  unfold run_call. set (s1 := State (s_log_fd s) _).
  assert (hook_point cfg cwd page stat_bytes OpeMeta.call_ok
    (get_syscall_in_context (cl_context c)) (cl_garbage c) (s_world s1) =
    Some (0, ret, Sys (store_output stat_bytes (op_desc fd (cl_addr c) (cl_op c) (cl_rest c))
      (op_output (cl_op c) d buf) (y_mem (s_world s1))) w' (y_kernel (s_world s)))) as EH.
  { unfold hook_point. rewrite Hd. cbn [s_world s1 y_mem y_poly]. by rewrite E. }
  pose proof (fd_not_magic fd (cl_addr c) (cl_op c) (cl_rest c) _ Hd Hck) as Hm.
  apply (routine_handled _ _ _ _ _ (cl_old c)) in EH;
    [|exact Hm|exact Hlog|rewrite Hd; by destruct (cl_op c)..].
  rewrite EH.
  cbn [mbind option_bind w_rax s_world y_mem].
  eexists (State (s_log_fd s) (Sys _ w' (y_kernel (s_world s)))).
  split; [|split; [exact Hh'|done]]. do 3 f_equal. clear EH E. subst s1. destruct (cl_op c) as [count|count offset|b|b offset|offset whence];
    cbn [spec_op op_ok op_output store_output op_desc sd_args a1] in *;
    injection Es as <- <- _; try done; rewrite (u64_id (cl_addr c)) by lia;
    apply read_output; rewrite Hbuf; unfold slice, ztake; rewrite length_take; lia.
Qed.

Lemma run_calls_refine large fd cs : forall (s : @state (sys Fs K)) a,
  holds large (y_poly (s_world s)) fd a -> s_log_fd s < 0 -> ops_ok large (cl_op <$> cs) a ->
  Forall (call_fits fd) cs -> - 2 ^ 31 <= fd < 2 ^ 31 -> POLYSTORE_FD_CHECK fd <> 0 ->
  exists s', run_calls cfg cwd page stat_bytes cs s = Some (fst (spec_ops (cl_op <$> cs) a), s') /\
    holds large (y_poly (s_world s')) fd (snd (spec_ops (cl_op <$> cs) a)) /\
    y_kernel (s_world s') = y_kernel (s_world s).
Proof.
  induction cs as [|c cs IH]; intros s a Hh Hl Hok HF Hfd Hck; [by exists s|].
  apply Forall_cons in HF as [Hc HF]. cbn [fmap list_fmap ops_ok spec_ops run_calls] in *.
  destruct Hok as [Hok1 Hok2].
  pose proof (run_call_refines large fd c s a Hh Hl Hok1 Hc Hfd Hck) as HR.
  destruct (spec_op (cl_op c) a) as [[ret d] a']. destruct HR as (s1 & E & Hh1 & El & Ek).
  rewrite E. cbn [mbind option_bind].
  destruct (IH s1 a' Hh1 ltac:(lia) Hok2 HF Hfd Hck) as (s' & E' & Hh' & Ek').
  destruct (spec_ops (cl_op <$> cs) a') as [outs a''] eqn:Es. cbn [fst snd] in *.
  rewrite E'. exists s'. split; [done|]. split; [done|congruence].
Qed.

End data.

(** C1: the library behind the interception.  An application that issues read, write
    and seek system calls on a PolyStore descriptor, with its arguments in the
    registers and its buffers in memory, finds call by call in [rax] and in its buffer
    what a plain byte array with an offset delivers, whatever the other registers, the
    stack of the interception routine and the unused memory hold; the kernel sees none
    of these calls.  This holds for a descriptor opened without [O_APPEND], while the
    physical file systems serve their requests and the log of the interception library
    is closed, and for calls within the envelope [ops_ok]: a write leaves no hole behind
    the end of the file, does not end one byte into a piece it creates, and finds room
    in the index region; counts are positive, counts and offsets below 2^61. *)
Theorem intercepted_calls_refine {Fs K : Type}
    `{!PosixFS Fs, !PosixNS Fs, !PosixFSLaws Fs, !ReliableFS Fs, !Kernel (sys Fs K)}
    (cfg : config) (cwd : string) (page : list byte) (stat_bytes : stat -> list byte)
    (large : bool) (fd : Z) (cs : list call) (s : @state (sys Fs K)) (a : afile) :
  holds large (y_poly (s_world s)) fd a -> s_log_fd s < 0 -> ops_ok large (cl_op <$> cs) a ->
  Forall (call_fits fd) cs -> - 2 ^ 31 <= fd < 2 ^ 31 -> POLYSTORE_FD_CHECK fd <> 0 ->
  exists s', run_calls cfg cwd page stat_bytes cs s = Some (fst (spec_ops (cl_op <$> cs) a), s') /\
    holds large (y_poly (s_world s')) fd (snd (spec_ops (cl_op <$> cs) a)) /\
    y_kernel (s_world s') = y_kernel (s_world s).
Proof. apply run_calls_refine. Qed.

(** C14: the interception is transparent for every call the library does not handle,
    that is one on a path outside of the mount point, on a descriptor without the
    PolyStore bit, or of another kind.  While the log of the interception library is
    closed, such a call is made in the kernel exactly once, with the arguments of the
    application, in an unchanged process, and its result returned; [vfork],
    [rt_sigreturn] and the creation of threads are left to the patched code.  The
    exception is [not_magic]: a write to descriptor 123 may be a message to the
    interception library, which it then answers itself. *)
Theorem other_calls_forwarded {Fs K : Type} `{!PosixFS Fs, !PosixNS Fs, !Kernel (sys Fs K)}
    (cfg : config) (cwd : string) (page : list byte) (stat_bytes : stat -> list byte)
    (env : callenv) (old : string) (garbage : Z) (c : context) (s : @state (sys Fs K)) :
  let desc := get_syscall_in_context c in
  routed cwd (decode desc (y_mem (s_world s))) = false -> not_magic desc -> s_log_fd s < 0 ->
  intercept_routine (shim_hooks cfg cwd page stat_bytes env) old garbage c s =
    if (sd_nr desc =? SYS_vfork) || (sd_nr desc =? SYS_rt_sigreturn)
    then Some (WrapperRet (x_rax c) 0, s)
    else if clones_stack desc (s_world s) then Some (WrapperRet (x_rax c) 2, s)
    else let '(r, w) := k_syscall (sd_nr desc) (sd_args desc) (s_world s) in
         Some (WrapperRet r 1, State (s_log_fd s) w).
Proof.
  intros desc Hr Hm Hl. apply routine_forwarded; [done|done|].
  unfold hook_point. fold desc. rewrite hook_not_routed by done. cbn [mbind option_bind store_output].
  by destruct (s_world s).
Qed.

(** ** Witnesses *)

(** A kernel that counts the calls it is asked for. *)
#[export] Instance count_kernel {Fs} : Kernel (sys Fs Z) := {
  k_syscall nr a y := (nr, Sys (y_mem y) (y_poly y) (y_kernel y + 1));
  k_getpid y := (1, y);
  k_open _ _ _ y := (3, y);
  k_write _ _ y := y;
  k_close _ y := y;
  k_mem := y_mem
}.

(** A process that has an empty file open, and the log closed. *)
Definition small_sys : @state (sys MemFS.memfs Z) :=
  State (- 1) (Sys (fun _ => x00) example_world 0).

Definition small_fd : Z := POLYSTORE_GEN_FD 5 6.

(** The registers for a call; [r12], [rbx] and the others are not looked at. *)
Definition small_context (desc : syscall_desc) : context :=
  let a := sd_args desc in
  Context_ 0x9000 0x8000 15 14 13 12 (a3 a) (a5 a) (a4 a) 0x7000 11 (a0 a) (a1 a) 10 (a2 a)
    (sd_nr desc).

Definition small_args : args := Args 1 2 3 4 5 6.

Definition small_call (op : data_op) (addr : Z) : call :=
  Call op addr (small_context (op_desc small_fd addr op small_args)) small_args EmptyString 99.

Lemma intercepted_calls_refine_witness :
  exists s', run_calls example_cfg "/home" [] (fun _ => [])
      [small_call (OWrite [x41; x42; x43]) 0x1000; small_call (OPread 2 1) 0x2000] small_sys =
    Some ([(3, []); (2, [x42; x43])], s') /\ y_kernel (s_world s') = 0.
Proof.
  destruct (intercepted_calls_refine example_cfg "/home" [] (fun _ => []) false small_fd
    [small_call (OWrite [x41; x42; x43]) 0x1000; small_call (OPread 2 1) 0x2000] small_sys
    (AFile [] 0)) as (s' & E & _ & Ek).
  - apply holds_example.
  - cbn. lia.
  - cbn [fmap list_fmap small_call cl_op ops_ok].
    split_and!; try done; vm_compute; intuition discriminate.
  - repeat constructor; cbn; try lia; vm_compute; reflexivity.
  - vm_compute. split; congruence.
  - done.
  - exists s'. split; [exact E|exact Ek].
Defined.

(** [close] of an ordinary descriptor. *)
Lemma other_calls_forwarded_witness :
  intercept_routine (shim_hooks example_cfg "/home" [] (fun _ => []) OpeMeta.call_ok)
      EmptyString 99 (small_context (SyscallDesc 3 (Args 7 0 0 0 0 0))) small_sys =
    Some (WrapperRet 3 1, State (- 1) (Sys (fun _ => x00) example_world 1)).
Proof.
  rewrite (other_calls_forwarded example_cfg "/home" [] (fun _ => []) OpeMeta.call_ok
    EmptyString 99 (small_context (SyscallDesc 3 (Args 7 0 0 0 0 0))) small_sys);
    [reflexivity|reflexivity|left; discriminate|cbn; lia].
Defined.

End Hooked.
